(** * Chess-Plus: position codec, move generation, legality filter and search

    A shallow embedding of the rules core of the repository
    (Piece.py, Board.py, NegaMax.py) together with the properties of its
    specification.  Python integers are [Z] ([//] is [Z.div] and [%] is
    [Z.modulo]: both round towards minus infinity for a positive divisor, as
    Python does), Python lists are lists, [None] squares are [option], and
    a Python exception is the [None] of the result type. *)

From Stdlib Require Import ZArith QArith Lia List Bool Permutation Sorted.
From stdpp Require Import base option list sorting gmap strings pretty.

Open Scope Z_scope.

(** ** Python list indexing *)

Module Py.

(** [l[i]]: a negative index counts from the end, anything outside
    [-len, len) raises IndexError. *)
Definition index {A} (l : list A) (i : Z) : option A :=
  let n := Z.of_nat (length l) in
  if (0 <=? i) && (i <? n) then l !! Z.to_nat i
  else if (- n <=? i) && (i <? 0) then l !! Z.to_nat (n + i)
  else None.

(** [l[i] = x] with the same index rules. *)
Definition setitem {A} (l : list A) (i : Z) (x : A) : option (list A) :=
  let n := Z.of_nat (length l) in
  if (0 <=? i) && (i <? n) then Some (<[Z.to_nat i := x]> l)
  else if (- n <=? i) && (i <? 0) then Some (<[Z.to_nat (n + i) := x]> l)
  else None.

(** [int + bool]: [True] is 1 and [False] is 0. *)
Definition of_bool (b : bool) : Z := if b then 1 else 0.

(** Truth value of an integer. *)
Definition truthy (z : Z) : bool := negb (z =? 0).

End Py.

(** ** Pieces (Piece.py) *)

(** The six piece classes; [value] is the class attribute [_value]. *)
Inductive Kind := Pawn | Rook | Knight | Bishop | Queen | King.

Definition value (k : Kind) : Z :=
  match k with
  | Pawn => 0 | Rook => 1 | Knight => 2 | Bishop => 3 | Queen => 4 | King => 5
  end.

Definition Square : Type := Z * Z.

(** A live piece object.  [movedEver], [doubleMoved] and [threatened] are
    attributes that exist on some classes only: [None] is an absent
    attribute (reading it raises AttributeError). *)
Record Piece := mkPiece {
  kind : Kind;
  team : bool;
  square : Square;
  movedEver : option bool;
  doubleMoved : option bool;
  threatened : option bool
}.

(** The class constructors: King, Rook and Pawn define [_movedEver], Pawn
    defines [_doubleMoved], King defines [_threatened]. *)
Definition newPiece (k : Kind) (sq : Square) (tm : bool) : Piece :=
  match k with
  | King => mkPiece King tm sq (Some false) None (Some false)
  | Rook => mkPiece Rook tm sq (Some false) None None
  | Pawn => mkPiece Pawn tm sq (Some false) (Some false) None
  | _ => mkPiece k tm sq None None None
  end.

(** [Piece.movedEverTrue]: the assignment creates the attribute when the
    class did not define it (the [except NameError] never fires). *)
Definition movedEverTrue (p : Piece) : Piece :=
  mkPiece (kind p) (team p) (square p) (Some true) (doubleMoved p) (threatened p).

(** [Pawn.doubleMovedTrue]: a method of Pawn only, AttributeError on the
    other classes. *)
Definition doubleMovedTrue (p : Piece) : option Piece :=
  match kind p with
  | Pawn => Some (mkPiece (kind p) (team p) (square p) (movedEver p) (Some true) (threatened p))
  | _ => None
  end.

(** [Piece.encodeInt].  The two reads sit in one [try] block whose
    AttributeError handler is [pass]; the read of [_doubleMoved] is nested
    under a true [_movedEver]. *)
Definition encodeInt (p : Piece) : Z :=
  let code := value (kind p) * 10 + Py.of_bool (team p) in
  match movedEver p with
  | None => code
  | Some false => code
  | Some true =>
      let code := code + 2 in
      match doubleMoved p with
      | None => code
      | Some false => code
      | Some true => code + 4
      end
  end.

(** The class list indexed in [decodeInt]. *)
Definition pieceClasses : list Kind := [Pawn; Rook; Knight; Bishop; Queen; King].

(** [decodeInt(code, square, squareSize)]; [squareSize] only scales the
    image.  [None] is IndexError (no such class) or AttributeError
    ([doubleMovedTrue] on a piece that is not a pawn). *)
Definition decodeInt (code : Z) (sq : Square) : option Piece :=
  let value := code / 10 in
  let bools := code mod 10 in
  let team := bools mod 2 in
  let movedEver := Py.truthy ((bools - team) mod 4) in
  let doubleMoved := bools / 4 in
  k ← Py.index pieceClasses value;
  let piece := newPiece k sq (Py.truthy team) in
  let piece := if movedEver then movedEverTrue piece else piece in
  if Py.truthy doubleMoved then doubleMovedTrue piece else Some piece.

(** The piece states that occur in play.  A pawn's double-move flag is set
    only after its ever-moved flag ([Board.__handleSelectedPiece] calls
    [movedEverTrue] before [__handleSpecialMoves]); rooks and kings carry
    the ever-moved flag; the other classes have no flag until they move,
    when [movedEverTrue] creates a true one. *)
Definition validPiece (p : Piece) : bool :=
  match kind p with
  | Pawn =>
      match movedEver p, doubleMoved p with
      | Some true, Some _ => true
      | Some false, Some false => true
      | _, _ => false
      end
  | Rook | King =>
      match movedEver p, doubleMoved p with
      | Some _, None => true
      | _, _ => false
      end
  | Knight | Bishop | Queen =>
      match movedEver p, doubleMoved p with
      | None, None => true
      | Some true, None => true
      | _, _ => false
      end
  end.


(** ** Move generation (Piece.py) *)

(** The third component of a special move: ["d"] double advance, ["e"] en
    passant, ["lc"] and ["rc"] left and right castle. *)
Inductive Tag := TagD | TagE | TagLC | TagRC.

Global Instance Tag_eq_dec : EqDecision Tag.
Proof. solve_decision. Defined.

(** A component of a move pattern in [__pieceMoves]: the strings ["x"]
    (any distance), ["mx"] (the same distance, negated) or an integer. *)
Inductive Comp := Cx | Cmx | Cn (n : Z).

Definition Pattern : Type := Comp * Comp.

Definition isx (c : Comp) : bool :=
  match c with Cx => true | _ => false end.

(** [coordinate + component] for a component that must be a number:
    adding a string raises TypeError. *)
Definition plusComp (s : Z) (c : Comp) : option Z :=
  match c with Cn n => Some (s + n) | _ => None end.

(** A board array, indexed [board[x][y]]; [None] is an empty square. *)
Abbreviation Board T := (list (list (option T))).

(** The read [board[x][y]] of the generator.  Every such read follows an
    [onBoard] test (or uses the mover's own rank) and the array is 8 by 8
    ([VirtualBoard.__init__], [Board.__init__]), so it cannot raise there;
    outside the array this function answers [None]. *)
Definition at_ {T} (board : Board T) (x y : Z) : option T :=
  if (0 <=? x) && (0 <=? y) then
    match board !! Z.to_nat x with
    | Some column =>
        match column !! Z.to_nat y with
        | Some target => target
        | None => None
        end
    | None => None
    end
  else None.

Definition onBoard (sq : Square) : bool :=
  (0 <=? sq.1) && (sq.1 <=? 7) && (0 <=? sq.2) && (sq.2 <=? 7).

(** [freeCheck(squares, board)]. *)
Definition freeCheck {T} (squares : list Square) (board : Board T) : bool :=
  forallb (fun sq => match at_ board sq.1 sq.2 with None => true | Some _ => false end) squares.

(** The anonymous functions the generator picks by
    [isinstance(agent, int)]: one instance for integer codes, one for live
    piece objects.  [addMove src agent dest tag] builds the list entry. *)
Class Agent (T M : Type) := {
  getTeam : T -> bool;
  getMovedEver : T -> bool;
  isPawn : T -> bool;
  getDoubleMoved : T -> bool;
  addMove : Square -> T -> Square -> option Tag -> M
}.

(** A move of the integer representation: [(square, dest)] or
    [(square, dest, flag)]. *)
Record Move := mkMove { src : Square; dst : Square; tag : option Tag }.

Global Instance Move_eq_dec : EqDecision Move.
Proof. solve_decision. Defined.

(** A move of the live representation: [(dest, agent)] where [dest] is a
    vector or a tuple [(x, y, flag)]. *)
Record LiveMove := mkLiveMove { ldst : Square; ltag : option Tag; lagent : Piece }.

(** Integer codes: [target % 2], [(target // 2) % 2 != 0],
    [target // 10 == 5], [(target % 10) // 4]. *)
Global Instance IntAgent : Agent Z Move := {
  getTeam target := Py.truthy (target mod 2);
  getMovedEver target := negb ((target / 2) mod 2 =? 0);
  isPawn target := target / 10 =? 5;
  getDoubleMoved target := Py.truthy ((target mod 10) / 4);
  addMove square _ dest flag := mkMove square dest flag
}.

(** Live pieces: the accessor methods and [isinstance(target, Pawn)].  The
    two flags are read on pawns only, whose constructor defines them. *)
Global Instance LiveAgent : Agent Piece LiveMove := {
  getTeam target := team target;
  getMovedEver target := default false (movedEver target);
  isPawn target := match kind target with Pawn => true | _ => false end;
  getDoubleMoved target := default false (doubleMoved target);
  addMove _ agent dest flag := mkLiveMove dest flag agent
}.

(** The generator functions, once for both representations.  On live
    pieces they also call [threatenedTrue] on an enemy king they reach; that
    write goes to the king object and leaves the returned list as it is, so
    the lists below are the returned values of both modes. *)
Section Generator.
Context {T M : Type} `{Agent T M}.

(** The [while validMove] loop of [infDist] for one [changer]; [inf] is
    the counter before the step.  [None] is TypeError (a string where a
    number is added) or fuel that ran out. *)
Fixpoint infDistLoop (fuel : nat) (changer : Z -> Z) (inf : Z) (team_ : bool)
    (square_ : Square) (agent : T) (move : Pattern) (board : Board T) : option (list M) :=
  match fuel with
  | O => None
  | S fuel' =>
      let inf := changer inf in
      x ← match move.1 with
          | Cx => Some (square_.1 + inf)
          | Cmx => Some (square_.1 - inf)
          | c => plusComp square_.1 c
          end;
      y ← match move.2 with
          | Cx => Some (square_.2 + inf)
          | c => plusComp square_.2 c
          end;
      if onBoard (x, y) then
        match at_ board x y with
        | None =>
            rest ← infDistLoop fuel' changer inf team_ square_ agent move board;
            Some (addMove square_ agent (x, y) None :: rest)
        | Some target =>
            if negb (eqb (getTeam target) team_)
            then Some [addMove square_ agent (x, y) None]
            else Some []
        end
      else Some []
  end.

(** Iterations allowed to one ray: more than any run on or next to the
    board takes (see [infDistLoop_fuel]). *)
Definition rayFuel : nat := 16.

(** [infDist]: the positive direction, then the negative one. *)
Definition infDist (team_ : bool) (square_ : Square) (agent : T) (move : Pattern)
    (board : Board T) : option (list M) :=
  up ← infDistLoop rayFuel (fun base => base + 1) 0 team_ square_ agent move board;
  down ← infDistLoop rayFuel (fun base => base - 1) 0 team_ square_ agent move board;
  Some (up ++ down).

(** One pattern of [updateRegularMoves]. *)
Definition regularMove (team_ : bool) (square_ : Square) (agent : T) (move : Pattern)
    (board : Board T) : option (list M) :=
  if isx move.1 || isx move.2 then infDist team_ square_ agent move board
  else
    x ← plusComp square_.1 move.1;
    y ← plusComp square_.2 move.2;
    if onBoard (x, y) then
      match at_ board x y with
      | None => Some [addMove square_ agent (x, y) None]
      | Some target =>
          if negb (eqb (getTeam target) team_)
          then Some [addMove square_ agent (x, y) None]
          else Some []
      end
    else Some [].

(** [updateRegularMoves]: the moves of every pattern, in order. *)
Fixpoint updateRegularMoves (team_ : bool) (square_ : Square) (agent : T)
    (moveList : list Pattern) (board : Board T) : option (list M) :=
  match moveList with
  | [] => Some []
  | move :: moveList' =>
      ms ← regularMove team_ square_ agent move board;
      rest ← updateRegularMoves team_ square_ agent moveList' board;
      Some (ms ++ rest)
  end.

(** The body of the capture loop of [updatePawnMoves] for one diagonal
    square [toAdd]; [dir] is the local [turn] (-1 or 1). *)
Definition pawnCapture (team_ : bool) (dir : Z) (square_ : Square) (agent : T)
    (board : Board T) (toAdd : Square) : list M :=
  if (0 <=? toAdd.1) && (toAdd.1 <=? 7) && (0 <=? toAdd.2) && (toAdd.2 <=? 7) then
    match at_ board toAdd.1 toAdd.2 with
    | Some target =>
        if negb (eqb (getTeam target) team_)
        then [addMove square_ agent toAdd None]
        else []
    | None =>
        match at_ board toAdd.1 (toAdd.2 - dir) with
        | Some target =>
            if isPawn target && getDoubleMoved target && negb (eqb (getTeam target) team_)
            then [addMove square_ agent toAdd (Some TagE)]
            else []
        | None => []
        end
    end
  else [].

(** [updatePawnMoves]: single step, double step, then the two diagonals
    with en passant. *)
Definition updatePawnMoves (team_ turn_ : bool) (square_ : Square) (agent : T)
    (board : Board T) : list M :=
  let dir := if eqb team_ turn_ then -1 else 1 in
  let toAdd := (square_.1, square_.2 + dir) in
  let forward :=
    if onBoard toAdd && freeCheck [toAdd] board then
      addMove square_ agent toAdd None ::
        (if negb (getMovedEver agent) then
           let toAdd := (square_.1, square_.2 + 2 * dir) in
           if onBoard toAdd && freeCheck [toAdd] board
           then [addMove square_ agent toAdd (Some TagD)]
           else []
         else [])
    else [] in
  forward
    ++ pawnCapture team_ dir square_ agent board (square_.1 - 1, square_.2 + dir)
    ++ pawnCapture team_ dir square_ agent board (square_.1 + 1, square_.2 + dir).

End Generator.

(** ** The virtual board (Board.py, class VirtualBoard) *)

(** [__pieceMoves], the patterns of each piece value; a key that is not in
    the dictionary raises KeyError. *)
Definition kingPatterns : list Pattern :=
  x ← [-1; 0; 1]; y ← [-1; 0; 1];
  if decide ((x, y) = (0, 0)) then [] else [(Cn x, Cn y)].

Definition knightPatterns : list Pattern :=
  x ← [-2; 0; 2]; y ← [-2; 0; 2];
  if (x + y =? 2) || (x + y =? -2)
  then z ← [-1; 1]; [if x =? 0 then (Cn (x + z), Cn y) else (Cn x, Cn (y + z))]
  else [].

Definition pieceMoves (key : Z) : option (list Pattern) :=
  if key =? 5 then Some kingPatterns
  else if key =? 4 then Some [(Cx, Cx); (Cmx, Cx); (Cn 0, Cx); (Cx, Cn 0)]
  else if key =? 3 then Some [(Cx, Cx); (Cmx, Cx)]
  else if key =? 2 then Some knightPatterns
  else if key =? 1 then Some [(Cx, Cn 0); (Cn 0, Cx)]
  else None.

(** The object state: the [__board] array of integer codes and [__turn]. *)
Record VirtualBoard := mkVB { vboard : Board Z; vturn : bool }.

(** [[[None] * 8 for y in range(8)]]. *)
Definition emptyBoard {T} : Board T := replicate 8 (replicate 8 None).

(** [enumerate]. *)
Definition enumerate {A} (l : list A) : list (Z * A) :=
  imap (fun i a => (Z.of_nat i, a)) l.

(** The squares the comprehension of [getAllMoves] visits: column by
    column, the occupied squares whose code has the parity of [turn]. *)
Definition ownSquares (turn_ : bool) (board : Board Z) : list (Square * Z) :=
  '(x, column) ← enumerate board;
  '(y, piece) ← enumerate column;
  match piece with
  | Some piece => if eqb (Py.truthy (piece mod 2)) turn_ then [((x, y), piece)] else []
  | None => []
  end.

(** The moves of one visited square. *)
Definition movesOf (turn_ : bool) (board : Board Z) (entry : Square * Z) : option (list Move) :=
  let '(sq, piece) := entry in
  if 10 <=? piece then
    moveList ← pieceMoves (piece / 10);
    updateRegularMoves turn_ sq piece moveList board
  else Some (updatePawnMoves turn_ turn_ sq piece board).

(** [getAllMoves(turn, board)] with both arguments passed. *)
Definition getAllMovesOn (turn_ : bool) (board : Board Z) : option (list Move) :=
  allMoves ← mapM (movesOf turn_ board) (ownSquares turn_ board);
  Some (concat allMoves).

(** An argument [board] counts as passed when it is a non-empty list
    ([if not board] also takes the empty list for missing). *)
Definition boardArg (self : VirtualBoard) (board : option (Board Z)) : Board Z :=
  match board with
  | Some (column :: rest) => column :: rest
  | _ => vboard self
  end.

Definition turnArg (self : VirtualBoard) (turn_ : option bool) : bool :=
  default (vturn self) turn_.

(** [VirtualBoard.getAllMoves(turn=None, board=False)]. *)
Definition getAllMoves (self : VirtualBoard) (turn_ : option bool) (board : option (Board Z))
    : option (list Move) :=
  getAllMovesOn (turnArg self turn_) (boardArg self board).

(** [board[x][y]] and [board[x][y] = v] outside the generator, with
    Python's index rules. *)
Definition getItem2 {T} (board : Board T) (x y : Z) : option (option T) :=
  column ← Py.index board x; Py.index column y.

Definition setItem2 {T} (board : Board T) (x y : Z) (v : option T) : option (Board T) :=
  column ← Py.index board x;
  column' ← Py.setitem column y v;
  Py.setitem board x column'.

(** [[row.reverse() for row in board]; board.reverse()]. *)
Definition rotateBoard {T} (board : Board T) : Board T := reverse (reverse <$> board).

(** [board[x][y] %= 4] on every pawn code. *)
Definition resetCode (piece : option Z) : option Z :=
  match piece with
  | Some piece => if piece / 10 =? 0 then Some (piece mod 4) else Some piece
  | None => None
  end.

Definition resetDoubleMoved (board : Board Z) : Board Z :=
  (fun column : list (option Z) => resetCode <$> column) <$> board.

(** The promotion loop: [column[0]] of every column. *)
Definition promoteColumn (promote : Z) (column : list (option Z)) : option (list (option Z)) :=
  match column with
  | [] => None
  | Some piece :: rest =>
      if piece <? 10 then Some (Some (promote * 10 + piece) :: rest) else Some column
  | None :: rest => Some column
  end.

(** A code that must be an integer: arithmetic on [None] raises TypeError. *)
Definition asInt (v : option Z) : option Z := v.

(** The statements that [fakeMove] (on its copy) and [makeMove] (on the
    attribute) share, up to the rotation. *)
Definition applyMove (board : Board Z) (move : Move) (promote : Z) : option (Board Z) :=
  let '(mkMove s d flag) := move in
  (* the piece moves *)
  moving ← getItem2 board s.1 s.2;
  board ← setItem2 board d.1 d.2 moving;
  board ← setItem2 board s.1 s.2 None;
  (* the moved-ever bit *)
  piece ← getItem2 board d.1 d.2 ≫= asInt;
  board ← (if ((piece / 10 =? 0) || (piece / 10 =? 1) || (piece / 10 =? 5))
              && (((piece mod 10) / 2) mod 2 =? 0)
           then setItem2 board d.1 d.2 (Some (piece + 2))
           else Some board);
  (* the double-moved bits *)
  let board := resetDoubleMoved board in
  (* special moves *)
  board ← match flag with
          | None => Some board
          | Some flag =>
              board ← (if decide (flag = TagLC) then
                         rook ← getItem2 board 0 7;
                         board ← setItem2 board (d.1 + 1) 7 rook;
                         setItem2 board 0 7 None
                       else Some board);
              board ← (if decide (flag = TagRC) then
                         rook ← getItem2 board 7 7;
                         board ← setItem2 board (d.1 - 1) 7 rook;
                         setItem2 board 7 7 None
                       else Some board);
              if decide (flag = TagD) then
                piece ← getItem2 board d.1 d.2 ≫= asInt;
                setItem2 board d.1 d.2 (Some (piece + 4))
              else setItem2 board d.1 s.2 None
          end;
  (* promotions *)
  mapM (promoteColumn promote) board.

(** [VirtualBoard.fakeMove(move, promote=4)]: works on
    [copy.deepcopy(self.__board)] and returns the rotated copy. *)
Definition fakeMove (self : VirtualBoard) (move : Move) (promote : Z) : option (Board Z) :=
  board ← applyMove (vboard self) move promote;
  Some (rotateBoard board).

(** [VirtualBoard.makeMove(move, promote=4)]: the same on [self.__board],
    then [rotateBoard] and the turn swap. *)
Definition makeMove (self : VirtualBoard) (move : Move) (promote : Z) : option VirtualBoard :=
  board ← applyMove (vboard self) move promote;
  Some (mkVB (rotateBoard board) (negb (vturn self))).

(** The condition of the comprehension in [getCheck]: the destination of
    a move of the side [turn_] holds a king of the other side. *)
Definition hitsKing (board : Board Z) (turn_ : bool) (move : Move) : bool :=
  match at_ board (dst move).1 (dst move).2 with
  | Some piece => negb (eqb (Py.truthy (piece mod 2)) turn_) && (piece / 10 =? 5)
  | None => false
  end.

(** [VirtualBoard.getCheck(board=False, turnOffset=False)]. *)
Definition getCheck (self : VirtualBoard) (board : option (Board Z)) (turnOffset : bool)
    : option bool :=
  let turn_ := xorb (vturn self) turnOffset in
  let board := boardArg self board in
  allMoves ← getAllMovesOn turn_ board;
  Some (existsb (hitsKing board turn_) allMoves).

(** [allMoves.remove(move)] for every move of [toDel]; [list.remove]
    deletes the first equal entry and raises ValueError without one. *)
Fixpoint listRemove (move : Move) (l : list Move) : option (list Move) :=
  match l with
  | [] => None
  | entry :: l' =>
      if decide (entry = move) then Some l'
      else l'' ← listRemove move l'; Some (entry :: l'')
  end.

Fixpoint removeAll (toDel allMoves : list Move) : option (list Move) :=
  match toDel with
  | [] => Some allMoves
  | move :: toDel' => allMoves' ← listRemove move allMoves; removeAll toDel' allMoves'
  end.

(** The comprehension that fills [toDel]. *)
Fixpoint collectIllegal (self : VirtualBoard) (allMoves : list Move) : option (list Move) :=
  match allMoves with
  | [] => Some []
  | move :: rest =>
      after ← fakeMove self move 4;
      attacked ← getCheck self (Some after) true;
      toDel ← collectIllegal self rest;
      Some (if attacked : bool then move :: toDel else toDel)
  end.

(** [VirtualBoard.getAllLegalMoves(turn=None, board=False)]. *)
Definition getAllLegalMoves (self : VirtualBoard) (turn_ : option bool)
    (board : option (Board Z)) : option (list Move) :=
  allMoves ← getAllMovesOn (turnArg self turn_) (boardArg self board);
  toDel ← collectIllegal self allMoves;
  removeAll toDel allMoves.

(** [placePiece]. *)
Definition placePiece (self : VirtualBoard) (sq : Square) (piece : Z) : option VirtualBoard :=
  board ← setItem2 (vboard self) sq.1 sq.2 (Some piece);
  Some (mkVB board (vturn self)).

(** ** The starting position (Board.__init__, Board.createVBoard) *)

(** The pieces in the order the constructor adds them: the back ranks of
    team 0 on row 7 and team 1 on row 0, then the pawn rows 6 and 1. *)
Definition initialPieces : list Piece :=
  ('(tm, ySquare) ← enumerate [7; 0];
   '(xSquare, piece) ← enumerate [Rook; Knight; Bishop; Queen; King; Bishop; Knight; Rook];
   [newPiece piece (xSquare, ySquare) (Py.truthy tm)])
  ++
  ('(tm, ySquare) ← enumerate [6; 1];
   xSquare ← [0; 1; 2; 3; 4; 5; 6; 7];
   [newPiece Pawn (xSquare, ySquare) (Py.truthy tm)]).

(** [Board.createVBoard(turn)]: every live piece is encoded and placed. *)
Definition createVBoard (pieces : list Piece) (turn_ : bool) : option VirtualBoard :=
  foldl (fun vb piece => vb ← vb; placePiece vb (square piece) (encodeInt piece))
        (Some (mkVB emptyBoard turn_)) pieces.

(** ** The search engine (NegaMax.py) *)

(** [__piecePoints]; a missing key raises KeyError. *)
Definition piecePoints (key : Z) : option Z :=
  if key =? 4 then Some 900
  else if key =? 3 then Some 300
  else if key =? 2 then Some 320
  else if key =? 1 then Some 500
  else if key =? 0 then Some 100
  else None.

(** [__posPoints], one table per piece value, read as [table[y][x]]. *)
Definition kingTable : list (list Z) :=
  [ [(-65); 23; 16; (-15); (-56); (-34); 2; 13];
    [29; (-1); (-20); (-7); (-8); (-4); (-38); (-29)];
    [(-9); 24; 2; (-16); (-20); 6; 22; (-22)];
    [(-17); (-20); (-12); (-27); (-30); (-25); (-14); (-36)];
    [(-49); (-1); (-27); (-39); (-46); (-44); (-33); (-51)];
    [(-14); (-14); (-22); (-46); (-44); (-30); (-15); (-27)];
    [1; 7; (-8); (-64); (-43); (-16); 9; 8];
    [(-15); 36; 12; (-54); 8; (-28); 24; 14] ].

Definition queenTable : list (list Z) :=
  [ [(-28); 0; 29; 12; 59; 44; 43; 45];
    [(-24); (-39); (-5); 1; (-16); 57; 28; 54];
    [(-13); (-17); 7; 8; 29; 56; 47; 57];
    [(-27); (-27); (-16); (-16); (-1); 17; (-2); 1];
    [(-9); (-26); (-9); (-10); (-2); (-4); 3; (-3)];
    [(-14); 2; (-11); (-2); (-5); 2; 14; 5];
    [(-35); (-8); 11; 2; 8; 15; (-3); 1];
    [(-1); (-18); (-9); 10; (-15); (-25); (-31); (-50)] ].

Definition bishopTable : list (list Z) :=
  [ [(-29); 4; (-82); (-37); (-25); (-42); 7; (-8)];
    [(-26); 16; (-18); (-13); 30; 59; 18; (-47)];
    [(-16); 37; 43; 40; 35; 50; 37; (-2)];
    [(-4); 5; 19; 50; 37; 37; 7; (-2)];
    [(-6); 13; 13; 26; 34; 12; 10; 4];
    [0; 15; 15; 15; 14; 27; 18; 10];
    [4; 15; 16; 0; 7; 21; 33; 1];
    [(-33); (-3); (-14); (-21); (-13); (-12); (-39); (-21)] ].

Definition knightTable : list (list Z) :=
  [ [(-167); (-89); (-34); (-49); 61; (-97); (-15); (-107)];
    [(-73); (-41); 72; 36; 23; 62; 7; (-17)];
    [(-47); 60; 37; 65; 84; 129; 73; 44];
    [(-9); 17; 19; 53; 37; 69; 18; 22];
    [(-13); 4; 16; 13; 28; 19; 21; (-8)];
    [(-23); (-9); 12; 10; 19; 17; 25; (-16)];
    [(-29); (-53); (-12); (-3); (-1); 18; (-14); (-19)];
    [(-105); (-21); (-58); (-33); (-17); (-28); (-19); (-23)] ].

Definition rookTable : list (list Z) :=
  [ [32; 42; 32; 51; 63; 9; 31; 43];
    [27; 32; 58; 62; 80; 67; 26; 44];
    [(-5); 19; 26; 36; 17; 45; 61; 16];
    [(-24); (-11); 7; 26; 24; 35; (-8); (-20)];
    [(-36); (-26); (-12); (-1); 9; (-7); 6; (-23)];
    [(-45); (-25); (-16); (-17); 3; 0; (-5); (-33)];
    [(-44); (-16); (-20); (-9); (-1); 11; (-6); (-71)];
    [(-19); (-13); 1; 17; 16; 7; (-37); (-26)] ].

Definition pawnTable : list (list Z) :=
  [ [0; 0; 0; 0; 0; 0; 0; 0];
    [98; 134; 61; 95; 68; 126; 34; (-11)];
    [(-6); 7; 26; 31; 65; 56; 25; (-20)];
    [(-14); 13; 6; 21; 23; 12; 17; (-23)];
    [(-27); (-2); (-5); 12; 17; 6; 10; (-25)];
    [(-26); (-4); (-4); (-10); 3; 3; 33; (-12)];
    [(-35); (-1); (-20); (-23); (-15); 24; 38; (-22)];
    [0; 0; 0; 0; 0; 0; 0; 0] ].

Definition posPoints (key : Z) : option (list (list Z)) :=
  if key =? 5 then Some kingTable
  else if key =? 4 then Some queenTable
  else if key =? 3 then Some bishopTable
  else if key =? 2 then Some knightTable
  else if key =? 1 then Some rookTable
  else if key =? 0 then Some pawnTable
  else None.

Definition possibilityPoints : Z := 10.
Definition perilPoints : Z := -300.

(** [__plusPoints]. *)
Definition plusB : Z := 50.
Definition plusR : Z := -30.
Definition plusD : Z := -50.
Definition plusI : Z := -70.
Definition plusC : Z := 30.

(** A [for] loop whose body may raise. *)
Fixpoint foldM {A B} (f : B -> A -> option B) (l : list A) (b : B) : option B :=
  match l with
  | [] => Some b
  | a :: l' => b' ← f b a; foldM f l' b'
  end.

(** The body of the fast-mode loops of [__boardEval] for one square. *)
Definition fastSquare (turn_ : bool) (eval : Z) (piece : option Z) : option Z :=
  match piece with
  | None => Some eval
  | Some piece =>
      if eqb (Py.truthy (piece mod 2)) turn_ then
        if piece <? 50 then pts ← piecePoints (piece / 10); Some (eval + pts)
        else Some (eval + 10000)
      else
        if piece <? 50 then pts ← piecePoints (piece / 10); Some (eval - pts)
        else Some eval
  end.

(** The last summand of both modes:
    [__possibilityPoints * len(legal) + __perilPoints * (getCheck() - getCheck(turnOffset=True))]. *)
Definition extras (board : VirtualBoard) : option Z :=
  legal ← getAllLegalMoves board None None;
  own ← getCheck board None false;
  offset ← getCheck board None true;
  Some (possibilityPoints * Z.of_nat (length legal)
        + perilPoints * (Py.of_bool own - Py.of_bool offset)).

(** The running values of the full-mode loops. *)
Record FullAcc := mkFullAcc {
  accEval : Z; accBishops : Z; accRooks : Z; accPawnRows : list Z
}.

(** The body of the full-mode loops for the square [(x, y)]. *)
Definition fullSquare (turn_ : bool) (x : Z) (acc : FullAcc) (entry : Z * option Z)
    : option FullAcc :=
  let '(y, piece) := entry in
  match piece with
  | None => Some acc
  | Some piece =>
      if eqb (Py.truthy (piece mod 2)) turn_ then
        table ← posPoints (piece / 10);
        row ← Py.index table y;
        bonus ← Py.index row x;
        let eval := accEval acc + bonus in
        if piece <? 50 then
          pts ← piecePoints (piece / 10);
          let eval := eval + pts in
          if piece / 10 =? 3 then
            Some (mkFullAcc eval (accBishops acc + 1) (accRooks acc) (accPawnRows acc))
          else if piece <? 20 then
            if piece <? 10 then
              Some (mkFullAcc eval (accBishops acc) (accRooks acc) (accPawnRows acc ++ [x]))
            else
              Some (mkFullAcc eval (accBishops acc) (accRooks acc + 1) (accPawnRows acc))
          else Some (mkFullAcc eval (accBishops acc) (accRooks acc) (accPawnRows acc))
        else
          Some (mkFullAcc (eval + 10000) (accBishops acc) (accRooks acc) (accPawnRows acc))
      else
        if piece <? 50 then
          pts ← piecePoints (piece / 10);
          Some (mkFullAcc (accEval acc - pts) (accBishops acc) (accRooks acc) (accPawnRows acc))
        else Some acc
  end.

(** The loop over [pawnRows]: the state is [(eval, prev, solo)]. *)
Definition pawnRowStep (st : Z * Z * Z) (row : Z) : Z * Z * Z :=
  let '(eval, prev, solo) := st in
  let eval := if existsb (Z.eqb row) [2; 3; 4; 5] then eval + plusC else eval in
  if prev =? row then (eval + plusD, row, solo)
  else if prev <? row - 1 then
    ((if prev =? solo then eval + plusI else eval), row, row)
  else (eval, row, -1).

(** [NegaMax.__boardEval(board, speed)]. *)
Definition boardEval (board : VirtualBoard) (speed : bool) : option Z :=
  let eval := -10000 in
  if speed then
    eval ← foldM (fun eval column => foldM (fastSquare (vturn board)) column eval)
                 (vboard board) eval;
    extra ← extras board;
    Some (eval + (extra + 100))
  else
    acc ← foldM (fun acc '(x, column) => foldM (fullSquare (vturn board) x) (enumerate column) acc)
                (enumerate (vboard board)) (mkFullAcc eval 0 0 []);
    let eval := accEval acc in
    let eval := if accBishops acc =? 2 then eval + plusB else eval in
    let eval := if accRooks acc =? 2 then eval + plusR else eval in
    let '(eval, _, _) := foldl pawnRowStep (eval, -1, -1) (accPawnRows acc) in
    extra ← extras board;
    Some (eval + extra).

(** The keys of the dictionary [taken], in the order of its literal. *)
Inductive TakenKey := Taken (value_ : Z) | TakenNone.

Global Instance TakenKey_eq_dec : EqDecision TakenKey.
Proof. solve_decision. Defined.

Definition takenKeys : list TakenKey :=
  [Taken 5; Taken 4; Taken 3; Taken 2; Taken 1; Taken 0; TakenNone].

(** The key under which the first loop of [__orderMoves] files a move;
    [None] is IndexError from the board read or KeyError from [taken]. *)
Definition takenKey (board : Board Z) (move : Move) : option TakenKey :=
  target ← getItem2 board (dst move).1 (dst move).2;
  match target with
  | None =>
      if decide (tag move = Some TagE) then Some (Taken 0) else Some TakenNone
  | Some piece =>
      let key := Taken (piece / 10) in
      if decide (key ∈ takenKeys) then Some key else None
  end.

(** [len(move) == 3]. *)
Definition isSpecial (move : Move) : bool :=
  match tag move with Some _ => true | None => false end.

(** Twice the sort key [prox = abs((move[0].x + move[1].x) / 2 - 3.5)]:
    on integer coordinates the halves are exact, so the keys compare as
    these integers do. *)
Definition prox2 (move : Move) : Z := Z.abs ((src move).1 + (dst move).1 - 7).

(** [list.sort(key=prox)] is stable; insertion from the right computes the
    stable order. *)
Fixpoint insertByProx (move : Move) (sorted : list Move) : list Move :=
  match sorted with
  | [] => [move]
  | other :: sorted' =>
      if prox2 move <=? prox2 other then move :: other :: sorted'
      else other :: insertByProx move sorted'
  end.

Fixpoint sortByProx (moves : list Move) : list Move :=
  match moves with
  | [] => []
  | move :: moves' => insertByProx move (sortByProx moves')
  end.

(** The moves filed under one key: the special ones, then the regular
    ones, each sorted. *)
Definition bucket (keyed : list (TakenKey * Move)) (key : TakenKey) : list Move :=
  let here := snd <$> filter (fun entry => entry.1 = key) keyed in
  sortByProx (filter (fun move => isSpecial move = true) here)
    ++ sortByProx (filter (fun move => isSpecial move = false) here).

(** [NegaMax.__orderMoves(board, moves)]. *)
Definition orderMoves (board : Board Z) (moves : list Move) : option (list Move) :=
  keyed ← mapM (fun move => key ← takenKey board move; Some (key, move)) moves;
  Some (takenKeys ≫= bucket keyed).

(** *** The timed search *)

(** The attributes of a NegaMax object. *)
Record NegaMax := mkNegaMax {
  thinkingTime : Q;
  moveComplete : bool;
  moveMade : bool;
  bestMove : option Move;
  ROE : Q;
  maxDepth : nat
}.

(** [NegaMax.__init__]: the best move starts as the empty tuple. *)
Definition newNegaMax : NegaMax := mkNegaMax 0%Q true true None 10%Q 2.

(** [weaponsTight] and [weaponsFree]. *)
Definition weaponsTight (self : NegaMax) : NegaMax :=
  mkNegaMax (thinkingTime self) (moveComplete self) (moveMade self) (bestMove self) 10%Q 2.

Definition weaponsFree (self : NegaMax) : NegaMax :=
  mkNegaMax (thinkingTime self) (moveComplete self) (moveMade self) (bestMove self) 3%Q 1.

(** What a run of the search thread sees and does: the object, the number
    of clock readings taken so far, and the moves handed to the pointer
    device by [__makeAMove] (each with its promotion flag). *)
Record World := mkWorld {
  engine : NegaMax;
  ticks : nat;
  played : list (Move * bool)
}.

(** A computation of the search thread: a result or an exception, and the
    world it leaves. *)
Definition Run (A : Type) : Type := World -> option A * World.

Definition ret {A} (a : A) : Run A := fun w => (Some a, w).

Definition bind {A B} (m : Run A) (k : A -> Run B) : Run B :=
  fun w => match m w with
           | (Some a, w') => k a w'
           | (None, w') => (None, w')
           end.

Definition raise {A} : Run A := fun w => (None, w).

Definition lift {A} (o : option A) : Run A :=
  match o with Some a => ret a | None => raise end.

Definition getEngine : Run NegaMax := fun w => (Some (engine w), w).

Definition setEngine (e : NegaMax) : Run unit :=
  fun w => (Some tt, mkWorld e (ticks w) (played w)).

Global Instance Run_ret : MRet Run := @ret.
Global Instance Run_bind : MBind Run := fun A B k m => bind m k.

Section Search.
(** [time.perf_counter()]: the n-th reading of the clock. *)
Variable clock : nat -> Q.

Definition perf_counter : Run Q :=
  fun w => (Some (clock (ticks w)), mkWorld (engine w) (S (ticks w)) (played w)).

Definition setBestMove (move : Move) : Run unit :=
  self ← getEngine;
  setEngine (mkNegaMax (thinkingTime self) (moveComplete self) (moveMade self)
                       (Some move) (ROE self) (maxDepth self)).

(** [NegaMax.__startThinking(board)]; [[0]] of an empty list raises
    IndexError. *)
Definition startThinking (board : VirtualBoard) : Run unit :=
  now ← perf_counter;
  self ← getEngine;
  setEngine (mkNegaMax now false false (bestMove self) (ROE self) (maxDepth self));;
  legal ← lift (getAllLegalMoves board None None);
  first ← lift (head legal);
  setBestMove first.

(** [NegaMax.stopThinking()]. *)
Definition stopThinking : Run unit :=
  self ← getEngine;
  setEngine (mkNegaMax 0%Q true true (bestMove self) (ROE self) (maxDepth self)).

(** The pointer plays [move]. *)
Definition play (move : Move) (promotion : bool) : Run unit :=
  fun w => (Some tt, mkWorld (engine w) (ticks w) (played w ++ [(move, promotion)])).

(** [NegaMax.__makeAMove(boardPos, squareSize, promotion)]: its log line
    reads the clock; the pointer plays the best move unless a move was
    made already. *)
Definition makeAMove (promotion : bool) : Run unit :=
  perf_counter;;
  self ← getEngine;
  if moveMade self then ret tt
  else move ← lift (bestMove self); play move promotion.

(** The promotion test before both calls of [__makeAMove]:
    [board.getBoard()[x][y] < 10 and self.__bestMove[1].y == 0], where
    comparing [None] with a number raises TypeError. *)
Definition promotionTest (board : VirtualBoard) : Run bool :=
  self ← getEngine;
  move ← lift (bestMove self);
  piece ← lift (getItem2 (vboard board) (src move).1 (src move).2 ≫= asInt);
  ret ((piece <? 10) && ((dst move).2 =? 0)).

(** The forced move of an exhausted time budget. *)
Definition forceMove (board : VirtualBoard) : Run unit :=
  promote ← promotionTest board;
  makeAMove promote;;
  stopThinking.

(** The loop over the ordered moves, with [recurse] for the recursive
    call; the state is [(maxScore, alpha)]. *)
Fixpoint searchLoop (recurse : VirtualBoard -> Z -> Z -> Run (option Z))
    (atRoot : bool) (board : VirtualBoard) (beta : Z)
    (moves : list Move) (maxScore alpha : Z) : Run Z :=
  match moves with
  | [] => ret maxScore
  | move :: moves' =>
      newBoard ← lift (makeMove (mkVB (vboard board) (vturn board)) move 4);
      result ← recurse newBoard (- beta) (- alpha);
      value_ ← lift result;
      let score := - value_ in
      maxScore ← (if maxScore <? score
                  then (if atRoot then setBestMove move else ret tt);; ret score
                  else ret maxScore);
      let alpha := Z.max alpha maxScore in
      if beta <=? alpha then ret maxScore
      else searchLoop recurse atRoot board beta moves' maxScore alpha
  end.

(** [NegaMax.takeTurn(boardPos, squareSize, board, depth, alpha, beta)]
    with [depth] passed.  The result is [None] where the method falls off
    its end (the outermost call). *)
Fixpoint takeTurnAt (depth : nat) (board : VirtualBoard) (alpha beta : Z)
    : Run (option Z) :=
  self ← getEngine;
  (if Nat.eqb depth (maxDepth self) then startThinking board else ret tt);;
  now ← perf_counter;
  self ← getEngine;
  (if Qle_bool (ROE self) (now - thinkingTime self) then forceMove board else ret tt);;
  match depth with
  | O =>
      now ← perf_counter;
      self ← getEngine;
      let speed := negb (Qle_bool (now - thinkingTime self) (ROE self - (1 # 2))) in
      score ← lift (boardEval board speed);
      ret (Some score)
  | S depth' =>
      self ← getEngine;
      if negb (moveComplete self) then
        legal ← lift (getAllLegalMoves board None None);
        moves ← lift (orderMoves (vboard board) legal);
        self ← getEngine;
        maxScore ← searchLoop (takeTurnAt depth') (Nat.eqb depth (maxDepth self))
                              board beta moves (-10000) alpha;
        self ← getEngine;
        if negb (Nat.eqb depth (maxDepth self)) then ret (Some maxScore)
        else
          perf_counter;;
          perf_counter;;
          promote ← promotionTest board;
          makeAMove promote;;
          stopThinking;;
          ret None
      else ret (Some (-10000))
  end.

(** [takeTurn] as the thread calls it: [depth=None] becomes the maximum
    depth, the window is [-10000, 10000]. *)
Definition takeTurn (board : VirtualBoard) : Run (option Z) :=
  self ← getEngine;
  takeTurnAt (maxDepth self) board (-10000) 10000.

End Search.

(** ** Sample games *)

(** The moves of [moves] made one after the other with [makeMove]. *)
Definition playMoves (start : VirtualBoard) (moves : list Move) : option VirtualBoard :=
  foldM (fun board move => makeMove board move 4) moves start.

(** The virtual board of the starting position, white (team 0) to move. *)
Definition startPosition : VirtualBoard :=
  mkVB [ [Some 11; Some 1; None; None; None; None; Some 0; Some 10];
         [Some 21; Some 1; None; None; None; None; Some 0; Some 20];
         [Some 31; Some 1; None; None; None; None; Some 0; Some 30];
         [Some 41; Some 1; None; None; None; None; Some 0; Some 40];
         [Some 51; Some 1; None; None; None; None; Some 0; Some 50];
         [Some 31; Some 1; None; None; None; None; Some 0; Some 30];
         [Some 21; Some 1; None; None; None; None; Some 0; Some 20];
         [Some 11; Some 1; None; None; None; None; Some 0; Some 10] ] false.

(** 1. e4 h6 2. e5 d5: the black pawn has just advanced two squares and
    stands beside the white pawn on e5.  Each move is written in the
    orientation of its mover. *)
Definition enPassantGame : list Move :=
  [ mkMove (4, 6) (4, 4) (Some TagD); mkMove (0, 6) (0, 5) None;
    mkMove (4, 4) (4, 3) None; mkMove (4, 6) (4, 4) (Some TagD) ].

(** 1. d4 h6 2. Nc3 h5 3. Bf4 h4 4. Qd2 a6: white may castle to the left. *)
Definition castleGame : list Move :=
  [ mkMove (3, 6) (3, 4) (Some TagD); mkMove (0, 6) (0, 5) None;
    mkMove (1, 7) (2, 5) None; mkMove (0, 5) (0, 4) None;
    mkMove (2, 7) (5, 4) None; mkMove (0, 4) (0, 3) None;
    mkMove (3, 7) (3, 6) None; mkMove (7, 6) (7, 5) None ].

(** The left castle that [updateCastle] offers the white king there and
    that [Board.__updateAllMoves] hands to [fakeMove]. *)
Definition leftCastle : Move := mkMove (4, 7) (2, 7) (Some TagLC).

(** 1. f3 e5 2. g4 Qh4: the white king is in check. *)
Definition checkGame : list Move :=
  [ mkMove (5, 6) (5, 5) None; mkMove (3, 6) (3, 4) (Some TagD);
    mkMove (6, 6) (6, 4) (Some TagD); mkMove (4, 7) (0, 3) None ].

(** 1. a4: the position the engine (black) searches in the timeout run. *)
Definition timeoutGame : list Move := [ mkMove (0, 6) (0, 4) (Some TagD) ].

(** A clock that reads 0 twice and 10, the whole budget, from then on. *)
Definition lateClock (n : nat) : Q := if (n <? 2)%nat then 0%Q else 10%Q.

(** A white queen on d5 that can take a black rook on d8 or a black bishop
    on a5; white to move. *)
Definition captureChoice : VirtualBoard :=
  mkVB [ [None; None; None; Some 31; None; None; None; None];
         [None; None; None; None; None; None; None; None];
         [None; None; None; None; None; None; None; None];
         [Some 13; None; None; Some 40; None; None; None; None];
         [None; None; None; None; None; None; None; None];
         [None; None; None; None; None; None; None; Some 52];
         [None; None; None; None; None; None; None; None];
         [Some 53; None; None; None; None; None; None; None] ] false.

(** The position with the sides swapped: the array rotated to the other
    mover's orientation and the turn flipped. *)
Definition swapSides (board : VirtualBoard) : VirtualBoard :=
  mkVB (rotateBoard (vboard board)) (negb (vturn board)).

(** ** Valid boards and generated moves *)

(** The codes of the integer representation: a piece value 0 to 5 and flag
    bits 0 to 7. *)
Definition validCode (c : Z) : bool := (0 <=? c) && (c <=? 59) && (c mod 10 <=? 7).

Definition validSquare (piece : option Z) : bool :=
  match piece with Some c => validCode c | None => true end.

(** An 8 by 8 array of valid codes, as [VirtualBoard] keeps it. *)
Definition validBoard (board : Board Z) : bool :=
  (length board =? 8)%nat
  && forallb (fun column => (length column =? 8)%nat && forallb validSquare column) board.

Definition dims {T} (board : Board T) : Prop :=
  length board = 8%nat /\ Forall (fun column => length column = 8%nat) board.

Definition codesOK (board : Board Z) : Prop :=
  Forall (Forall (fun piece => validSquare piece = true)) board.

(** The array with the square [(x, y)] set to [v]. *)
Definition setSq {T} (board : Board T) (x y : Z) (v : option T) : Board T :=
  alter (fun column => <[Z.to_nat y := v]> column) (Z.to_nat x) board.

(** A generated move of a piece on [sq]: it starts there, ends on another
    square of the board and is no castle; [pawn] tells whether it may be a
    pawn's special move. *)
Definition movesFrom (sq : Square) (pawn : bool) (move : Move) : Prop :=
  src move = sq /\ onBoard (dst move) = true /\ dst move <> sq
  /\ (tag move = None \/ (pawn = true /\ (tag move = Some TagD \/ tag move = Some TagE))).

(** A pattern that [infDist] may receive from the tables: it moves along
    at least one axis and adds no string. *)
Definition rayPattern (move : Pattern) : Prop :=
  move.2 <> Cmx /\ (move.1 = Cx \/ move.1 = Cmx \/ move.2 = Cx).

(** A pattern of the tables: a ray, or two numbers that are not both 0. *)
Definition tablePattern (move : Pattern) : Prop :=
  (isx move.1 || isx move.2 = true /\ rayPattern move)
  \/ exists a b, move = (Cn a, Cn b) /\ (a, b) <> (0, 0).

(** A pseudo-legal move of the side [turn_] on [board]: a piece of that side
    stands on its source, it ends on another square of the board, and only a
    pawn's move carries a flag (double advance or en passant). *)
Definition generated (board : Board Z) (turn_ : bool) (move : Move) : Prop :=
  onBoard (src move) = true /\ onBoard (dst move) = true /\ dst move <> src move
  /\ exists piece, at_ board (src move).1 (src move).2 = Some piece
       /\ Py.truthy (piece mod 2) = turn_
       /\ (tag move = None
           \/ (piece < 10 /\ (tag move = Some TagD \/ tag move = Some TagE))).

(** After [move], some pseudo-legal move of the opponent ends on the square
    of the mover's own king. *)
Definition kingAttackedAfter (self : VirtualBoard) (move : Move) : Prop :=
  exists after replies reply king,
    fakeMove self move 4 = Some after
    /\ getAllMovesOn (negb (vturn self)) after = Some replies
    /\ reply ∈ replies
    /\ at_ after (dst reply).1 (dst reply).2 = Some king
    /\ king / 10 = 5
    /\ Py.truthy (king mod 2) = vturn self.

(** The answer of the legality test for one move, [false] where the test
    raises. *)
Definition leavesInCheck (self : VirtualBoard) (move : Move) : bool :=
  default false (fakeMove self move 4 ≫= fun after => getCheck self (Some after) true).

(** No square of [board] holds a king of team [tm]. *)
Definition kingAbsent (tm : bool) (board : Board Z) : bool :=
  forallb (forallb (fun piece : option Z =>
    match piece with
    | Some piece => negb ((piece / 10 =? 5) && eqb (Py.truthy (piece mod 2)) tm)
    | None => true
    end)) board.

(** ** The terms of the fast evaluation *)

Definition sumZ (l : list Z) : Z := foldr Z.add 0 l.

(** The signed material value of one square for the side [turn_]: the
    points of a piece that is no king, positive for an own piece and
    negative for an enemy one. *)
Definition materialOf (turn_ : bool) (piece : option Z) : Z :=
  match piece with
  | Some piece =>
      if piece <? 50 then
        let pts := default 0 (piecePoints (piece / 10)) in
        if eqb (Py.truthy (piece mod 2)) turn_ then pts else - pts
      else 0
  | None => 0
  end.

Definition material (turn_ : bool) (board : Board Z) : Z :=
  sumZ (materialOf turn_ <$> concat board).

(** 1 for a king of the side [turn_]. *)
Definition ownKing (turn_ : bool) (piece : option Z) : Z :=
  match piece with
  | Some piece =>
      if negb (piece <? 50) && eqb (Py.truthy (piece mod 2)) turn_ then 1 else 0
  | None => 0
  end.

Definition ownKings (turn_ : bool) (board : Board Z) : Z :=
  sumZ (ownKing turn_ <$> concat board).

(** ** The order of [__orderMoves] *)

(** The value of the piece a move captures: the value of the piece on its
    destination, or 0, a pawn, for an en passant move onto an empty
    square. *)
Definition capturedValue (board : Board Z) (move : Move) : option Z :=
  match at_ board (dst move).1 (dst move).2 with
  | Some piece => Some (piece / 10)
  | None => if decide (tag move = Some TagE) then Some 0 else None
  end.

(** The key of [taken] that belongs to a captured value. *)
Definition keyOf (board : Board Z) (move : Move) : TakenKey :=
  match capturedValue board move with
  | Some v => Taken v
  | None => TakenNone
  end.

(** The order inside one group: special moves first, then by the distance
    of the move's middle from the centre files. *)
Definition withinGroup (m1 m2 : Move) : Prop :=
  (isSpecial m1 = true /\ isSpecial m2 = false)
  \/ (isSpecial m1 = isSpecial m2 /\ prox2 m1 <= prox2 m2).

(** The order of the keys: a higher piece value first, no capture last. *)
Definition keyBefore (k1 k2 : TakenKey) : Prop :=
  match k1, k2 with
  | Taken v1, Taken v2 => v2 < v1
  | Taken _, TakenNone => True
  | TakenNone, _ => False
  end.

(** [m1] may stand before [m2]: it captures a piece of a higher value, or a
    piece where [m2] captures none, or they are in one group and ordered
    there. *)
Definition precedes (board : Board Z) (m1 m2 : Move) : Prop :=
  keyBefore (keyOf board m1) (keyOf board m2)
  \/ (keyOf board m1 = keyOf board m2 /\ withinGroup m1 m2).

(** The order of the sort key. *)
Definition proxLe (m1 m2 : Move) : Prop := prox2 m1 <= prox2 m2.

(** ** The virtual board as Python objects

    [fakeMove] works on [copy.deepcopy(self.__board)].  To say that the
    object's own array is left alone, lists are kept here as objects in a
    store, named by their addresses, so that two names of one list share
    its updates. *)

Module Store.

Definition loc : Type := nat.

(** An element of a list: [None], an integer, or a list (by address). *)
Inductive value := VNone | VInt (z : Z) | VRef (l : loc).

(** The list objects, and the VirtualBoard objects with their attributes
    [__board] (a list) and [__turn]. *)
Record State := mkState {
  lists : gmap loc (list value);
  objects : gmap loc (loc * bool)
}.

(** A computation on the store: a result or an exception, and the store it
    leaves. *)
Definition Eff (A : Type) : Type := State -> option A * State.

Definition pure {A} (a : A) : Eff A := fun st => (Some a, st).

Definition fail {A} : Eff A := fun st => (None, st).

Definition andThen {A B} (m : Eff A) (k : A -> Eff B) : Eff B :=
  fun st => match m st with
            | (Some a, st') => k a st'
            | (None, st') => (None, st')
            end.

Global Instance Eff_ret : MRet Eff := @pure.
Global Instance Eff_bind : MBind Eff := fun A B k m => andThen m k.

Definition liftOpt {A} (o : option A) : Eff A :=
  match o with Some a => pure a | None => fail end.

(** A new list object. *)
Definition allocList (elems : list value) : Eff loc :=
  fun st =>
    let l := fresh (dom (lists st)) in
    (Some l, mkState (<[l := elems]> (lists st)) (objects st)).

Definition getList (l : loc) : Eff (list value) :=
  fun st => (lists st !! l, st).

(** The list at [l] becomes [elems] (an update in place). *)
Definition putList (l : loc) (elems : list value) : Eff unit :=
  fun st =>
    match lists st !! l with
    | Some _ => (Some tt, mkState (<[l := elems]> (lists st)) (objects st))
    | None => (None, st)
    end.

Definition getObject (self : loc) : Eff (loc * bool) :=
  fun st => (objects st !! self, st).

(** A value used as a list, or as a number: TypeError otherwise. *)
Definition asList (v : value) : Eff loc :=
  match v with VRef l => pure l | _ => fail end.

Definition asInt (v : value) : Eff Z :=
  match v with VInt z => pure z | _ => fail end.

(** [board[x][y]]. *)
Definition index2 (board : loc) (x y : Z) : Eff value :=
  outer ← getList board;
  column ← liftOpt (Py.index outer x) ≫= asList;
  elems ← getList column;
  liftOpt (Py.index elems y).

(** [board[x][y] = v]. *)
Definition setIndex2 (board : loc) (x y : Z) (v : value) : Eff unit :=
  outer ← getList board;
  column ← liftOpt (Py.index outer x) ≫= asList;
  elems ← getList column;
  elems' ← liftOpt (Py.setitem elems y v);
  putList column elems'.

(** A [for] loop over [l]. *)
Fixpoint forEach {A} (l : list A) (body : A -> Eff unit) : Eff unit :=
  match l with
  | [] => pure tt
  | a :: l' => body a;; forEach l' body
  end.

(** The indices of a list of length [n]. *)
Definition indices (n : nat) : list Z := Z.of_nat <$> seq 0 n.

(** The copies of the elements of a list, with the memo threaded through. *)
Fixpoint copyElems (copy : value -> list (loc * loc) -> Eff (value * list (loc * loc)))
    (elems : list value) (memo : list (loc * loc)) : Eff (list value * list (loc * loc)) :=
  match elems with
  | [] => pure ([], memo)
  | v :: elems' =>
      '(v', memo) ← copy v memo;
      '(rest, memo) ← copyElems copy elems' memo;
      pure (v' :: rest, memo)
  end.

Definition memoLookup (memo : list (loc * loc)) (l : loc) : option loc :=
  snd <$> List.find (fun entry => Nat.eqb entry.1 l) memo.

(** [copy.deepcopy(v, memo)]: integers and [None] are returned as they
    are; a list already in the memo gives its copy; any other list gets a
    new list, entered in the memo before its elements are copied into it.
    [fuel] bounds the nesting of the lists; [deepcopy] starts with one
    more than the number of lists in the store, which is enough for an
    array of columns ([deepcopy_repr]). *)
Fixpoint deepcopyWith (fuel : nat) (v : value) (memo : list (loc * loc))
    : Eff (value * list (loc * loc)) :=
  match v with
  | VRef l =>
      match memoLookup memo l with
      | Some l' => pure (VRef l', memo)
      | None =>
          match fuel with
          | O => fail
          | S fuel' =>
              elems ← getList l;
              l' ← allocList [];
              '(elems', memo) ← copyElems (deepcopyWith fuel') elems ((l, l') :: memo);
              putList l' elems';;
              pure (VRef l', memo)
          end
      end
  | _ => pure (v, memo)
  end.

Definition countLists : Eff nat := fun st => (Some (size (lists st)), st).

Definition deepcopy (v : value) : Eff value :=
  n ← countLists;
  result ← deepcopyWith (S n) v [];
  pure result.1.

(** The loop that resets the double-moved bits. *)
Definition resetLoop (board : loc) : Eff unit :=
  outer ← getList board;
  forEach (indices (length outer)) (fun x =>
    outer ← getList board;
    column ← liftOpt (Py.index outer x) ≫= asList;
    elems ← getList column;
    forEach (indices (length elems)) (fun y =>
      elems ← getList column;
      piece ← liftOpt (Py.index elems y);
      match piece with
      | VNone => pure tt
      | _ =>
          piece ← asInt piece;
          if piece / 10 =? 0 then
            current ← index2 board x y ≫= asInt;
            setIndex2 board x y (VInt (current mod 4))
          else pure tt
      end)).

(** The promotion loop. *)
Definition promoteLoop (board : loc) (promote : Z) : Eff unit :=
  outer ← getList board;
  forEach (indices (length outer)) (fun x =>
    outer ← getList board;
    column ← liftOpt (Py.index outer x) ≫= asList;
    first ← getList column ≫= fun elems => liftOpt (Py.index elems 0);
    match first with
    | VNone => pure tt
    | _ =>
        piece ← asInt first;
        if piece <? 10 then
          first ← getList column ≫= fun elems => liftOpt (Py.index elems 0);
          piece ← asInt first;
          setIndex2 board x 0 (VInt (promote * 10 + piece))
        else pure tt
    end).

(** [[row.reverse() for row in board]; board.reverse()]. *)
Definition rotateLoop (board : loc) : Eff unit :=
  outer ← getList board;
  forEach outer (fun row =>
    column ← asList row;
    elems ← getList column;
    putList column (reverse elems));;
  outer ← getList board;
  putList board (reverse outer).

(** [VirtualBoard.fakeMove(move, promote)] on the object [self]; the
    result is the address of the returned list. *)
Definition fakeMove (self : loc) (move : Move) (promote : Z) : Eff loc :=
  let '(mkMove s d flag) := move in
  attrs ← getObject self;
  board ← deepcopy (VRef attrs.1) ≫= asList;
  moving ← index2 board s.1 s.2;
  setIndex2 board d.1 d.2 moving;;
  setIndex2 board s.1 s.2 VNone;;
  piece ← index2 board d.1 d.2 ≫= asInt;
  (if ((piece / 10 =? 0) || (piece / 10 =? 1) || (piece / 10 =? 5))
      && (((piece mod 10) / 2) mod 2 =? 0)
   then
     piece ← index2 board d.1 d.2 ≫= asInt;
     setIndex2 board d.1 d.2 (VInt (piece + 2))
   else pure tt);;
  resetLoop board;;
  match flag with
  | None => pure tt
  | Some flag =>
      (if decide (flag = TagLC) then
         rook ← index2 board 0 7;
         setIndex2 board (d.1 + 1) 7 rook;;
         setIndex2 board 0 7 VNone
       else pure tt);;
      (if decide (flag = TagRC) then
         rook ← index2 board 7 7;
         setIndex2 board (d.1 - 1) 7 rook;;
         setIndex2 board 7 7 VNone
       else pure tt);;
      if decide (flag = TagD) then
        piece ← index2 board d.1 d.2 ≫= asInt;
        setIndex2 board d.1 d.2 (VInt (piece + 4))
      else setIndex2 board d.1 s.2 VNone
  end;;
  promoteLoop board promote;;
  rotateLoop board;;
  pure board.

(** A new VirtualBoard object with the given attributes. *)
Definition allocObject (attrs : loc * bool) : Eff loc :=
  fun st =>
    let self := fresh (dom (objects st)) in
    (Some self, mkState (lists st) (<[self := attrs]> (objects st))).

(** [VirtualBoard.__init__(turn)]: eight new columns of eight [None]. *)
Definition newVirtualBoard (turn_ : bool) : Eff loc :=
  columns ← mapM (fun _ : nat => column ← allocList (replicate 8 VNone); pure (VRef column))
                 (seq 0 8);
  board ← allocList columns;
  allocObject (board, turn_).

(** [VirtualBoard.placePiece(square, piece)]. *)
Definition placePiece (self : loc) (sq : Square) (piece : Z) : Eff unit :=
  attrs ← getObject self;
  setIndex2 attrs.1 sq.1 sq.2 (VInt piece).

(** The array of an object as a value: what [getBoard] copies.  [None]
    where the attribute is not a list of lists of integers and [None]. *)
Definition readCell (v : value) : option (option Z) :=
  match v with
  | VNone => Some None
  | VInt z => Some (Some z)
  | VRef _ => None
  end.

Definition readArray (st : State) (board : loc) : option (Board Z) :=
  outer ← lists st !! board;
  mapM (fun v => match v with
                 | VRef column => elems ← lists st !! column; mapM readCell elems
                 | _ => None
                 end) outer.

Definition readBoard (st : State) (self : loc) : option (Board Z) :=
  attrs ← objects st !! self; readArray st attrs.1.

(** [getTurn]. *)
Definition readTurn (st : State) (self : loc) : option bool :=
  snd <$> objects st !! self.

(** The store after [Board.createVBoard] on the starting position: a new
    virtual board with every piece placed. *)
Definition startStore : option loc * State :=
  (self ← newVirtualBoard false;
   forEach initialPieces (fun piece => placePiece self (square piece) (encodeInt piece));;
   pure self) (mkState ∅ ∅).

End Store.

(** *** What a computation on a copy may touch *)

(** An address that names no list of the store [st0]. *)
Definition isNew (st0 : Store.State) (l : Store.loc) : Prop := Store.lists st0 !! l = None.

(** A value that is no list of [st0]. *)
Definition valueNew (st0 : Store.State) (v : Store.value) : Prop :=
  match v with Store.VRef l => isNew st0 l | _ => True end.

Definition memoNew (st0 : Store.State) (memo : list (Store.loc * Store.loc)) : Prop :=
  Forall (fun entry => isNew st0 entry.2) memo.

(** [st] extends [st0]: the lists and objects of [st0] are as they were,
    and the lists added since hold no list of [st0]. *)
Definition extends (st0 st : Store.State) : Prop :=
  (forall l elems, Store.lists st0 !! l = Some elems -> Store.lists st !! l = Some elems)
  /\ Store.objects st = Store.objects st0
  /\ (forall l elems, isNew st0 l -> Store.lists st !! l = Some elems ->
        Forall (valueNew st0) elems).

(** [m] keeps every store that extends [st0] an extension of [st0], and
    its results satisfy [Q]. *)
Definition safe (st0 : Store.State) {A} (m : Store.Eff A) (Q : A -> Prop) : Prop :=
  forall st, extends st0 st ->
    extends st0 (m st).2 /\ forall a, (m st).1 = Some a -> Q a.

(** The results of the deep copy: new values and a memo of new lists. *)
Definition copied (st0 : Store.State) (r : Store.value * list (Store.loc * Store.loc)) : Prop :=
  valueNew st0 r.1 /\ memoNew st0 r.2.

Definition copiedAll (st0 : Store.State)
    (r : list Store.value * list (Store.loc * Store.loc)) : Prop :=
  Forall (valueNew st0) r.1 /\ memoNew st0 r.2.
(** ** The array of a store as a value *)

(** The element that stands for a square. *)
Definition toValue (cell : option Z) : Store.value :=
  match cell with None => Store.VNone | Some z => Store.VInt z end.

(** The list [board] of [st] is the array [array]: its elements are the
    lists [cols], one object each, and each holds the squares of its
    column. *)
Definition repr (st : Store.State) (board : Store.loc) (cols : list Store.loc)
    (array : Board Z) : Prop :=
  Store.lists st !! board = Some (Store.VRef <$> cols)
  /\ NoDup cols
  /\ (board ∉ cols)
  /\ Forall2 (fun c column => Store.lists st !! c = Some (toValue <$> column)) cols array.

(** The place that a Python index names in a list of length [n]. *)
Definition position (n : nat) (i : Z) : option nat :=
  if (0 <=? i) && (i <? Z.of_nat n) then Some (Z.to_nat i)
  else if (- Z.of_nat n <=? i) && (i <? 0) then Some (Z.to_nat (Z.of_nat n + i))
  else None.

(** A computation on an array value: a result and the new array, or an
    exception. *)
Definition Arr (A : Type) : Type := Board Z -> option (A * Board Z).

Definition arrRet {A} (a : A) : Arr A := fun array => Some (a, array).

Definition arrBind {A B} (p : Arr A) (q : A -> Arr B) : Arr B :=
  fun array => match p array with
               | Some (a, array') => q a array'
               | None => None
               end.

Definition arrLift {A} (o : option A) : Arr A :=
  fun array => a ← o; Some (a, array).

Definition arrLen : Arr nat := fun array => Some (length array, array).

Definition arrCol (x : Z) : Arr (list (option Z)) :=
  fun array => column ← Py.index array x; Some (column, array).

Definition arrPutCol (x : Z) (column : list (option Z)) : Arr unit :=
  fun array => array' ← Py.setitem array x column; Some (tt, array').

Definition arrGet (x y : Z) : Arr (option Z) :=
  arrBind (arrCol x) (fun _ =>
  arrBind (arrCol x) (fun column =>
  arrLift (Py.index column y))).

Definition arrSet (x y : Z) (cell : option Z) : Arr unit :=
  arrBind (arrCol x) (fun _ =>
  arrBind (arrCol x) (fun column =>
  arrBind (arrLift (Py.setitem column y cell)) (fun column' =>
  arrPutCol x column'))).

Definition arrRotate : Arr unit := fun array => Some (tt, rotateBoard array).

Fixpoint arrFor {A} (l : list A) (body : A -> Arr unit) : Arr unit :=
  match l with
  | [] => arrRet tt
  | a :: l' => arrBind (body a) (fun _ => arrFor l' body)
  end.

(** [m], run on a store that holds an array in [board] with the columns
    [cols], does what [p] does to the array: both raise, or both return,
    with results related by [R], and the store then holds the new array
    with the columns [cols']. *)
Definition sim {A A'} (board : Store.loc) (cols cols' : list Store.loc) (R : A -> A' -> Prop)
    (m : Store.Eff A) (p : Arr A') : Prop :=
  forall st array, repr st board cols array ->
    match p array with
    | Some (a', array') =>
        exists a st', m st = (Some a, st') /\ R a a' /\ repr st' board cols' array'
    | None => (m st).1 = None
    end.

(** The statements of [fakeMove] after the copy, on the array. *)
Definition resetLoopArr : Arr unit :=
  arrBind arrLen (fun n =>
  arrFor (Store.indices n) (fun x =>
    arrBind (arrCol x) (fun _ =>
    arrBind (arrCol x) (fun column =>
    arrFor (Store.indices (length column)) (fun y =>
      arrBind (arrCol x) (fun column =>
      arrBind (arrLift (Py.index column y)) (fun piece =>
      match piece with
      | None => arrRet tt
      | Some piece =>
          if piece / 10 =? 0 then
            arrBind (arrBind (arrGet x y) arrLift) (fun current =>
            arrSet x y (Some (current mod 4)))
          else arrRet tt
      end))))))).

Definition promoteLoopArr (promote : Z) : Arr unit :=
  arrBind arrLen (fun n =>
  arrFor (Store.indices n) (fun x =>
    arrBind (arrCol x) (fun _ =>
    arrBind (arrBind (arrCol x) (fun column => arrLift (Py.index column 0))) (fun first =>
    match first with
    | None => arrRet tt
    | Some piece =>
        if piece <? 10 then
          arrBind (arrBind (arrCol x) (fun column => arrLift (Py.index column 0))) (fun first =>
          arrBind (arrLift first) (fun piece =>
          arrSet x 0 (Some (promote * 10 + piece))))
        else arrRet tt
    end)))).

Definition fakeMoveArr (move : Move) (promote : Z) : Arr unit :=
  let '(mkMove s d flag) := move in
  arrBind (arrGet s.1 s.2) (fun moving =>
  arrBind (arrSet d.1 d.2 moving) (fun _ =>
  arrBind (arrSet s.1 s.2 None) (fun _ =>
  arrBind (arrBind (arrGet d.1 d.2) arrLift) (fun piece =>
  arrBind (if ((piece / 10 =? 0) || (piece / 10 =? 1) || (piece / 10 =? 5))
              && (((piece mod 10) / 2) mod 2 =? 0)
           then arrBind (arrBind (arrGet d.1 d.2) arrLift) (fun piece =>
                  arrSet d.1 d.2 (Some (piece + 2)))
           else arrRet tt) (fun _ =>
  arrBind resetLoopArr (fun _ =>
  arrBind (match flag with
           | None => arrRet tt
           | Some flag =>
               arrBind (if decide (flag = TagLC) then
                          arrBind (arrGet 0 7) (fun rook =>
                          arrBind (arrSet (d.1 + 1) 7 rook) (fun _ =>
                          arrSet 0 7 None))
                        else arrRet tt) (fun _ =>
               arrBind (if decide (flag = TagRC) then
                          arrBind (arrGet 7 7) (fun rook =>
                          arrBind (arrSet (d.1 - 1) 7 rook) (fun _ =>
                          arrSet 7 7 None))
                        else arrRet tt) (fun _ =>
               if decide (flag = TagD) then
                 arrBind (arrBind (arrGet d.1 d.2) arrLift) (fun piece =>
                   arrSet d.1 d.2 (Some (piece + 4)))
               else arrSet d.1 s.2 None))
           end) (fun _ =>
  arrBind (promoteLoopArr promote) (fun _ =>
  arrRotate)))))))).
(** ** Castling (Piece.py, updateCastle) *)

(** [range(lo, hi)]. *)
Definition pyRange (lo hi : Z) : list Z := seqZ lo (hi - lo).

(** [not [None for x in range(...) if board[x][row] != None]]. *)
Definition rowFree {T} (board : Board T) (row : Z) (xs : list Z) : option bool :=
  cells ← mapM (fun x => getItem2 board x row) xs;
  Some (forallb (fun cell : option T => match cell with None => true | Some _ => false end)
                cells).

(** One of the two blocks of [updateCastle]: the test of the corner piece
    and of the squares of [range], and the move it appends.  A result
    [None] of [isRookNeverMoved] is its exception. *)
Definition castleSide {T M} (isRookNeverMoved : option T -> option bool)
    (board : Board T) (corner row : Z) (range : list Z) (move : M) : option (list M) :=
  piece ← getItem2 board corner row;
  rook ← isRookNeverMoved piece;
  if rook : bool then
    free ← rowFree board row range;
    Some (if free : bool then [move] else [])
  else Some [].

(** The body of [updateCastle] for the two anonymous functions that
    [isinstance(agent, int)] selects: the left block, then the right one. *)
Definition updateCastleWith {T M} (isRookNeverMoved : option T -> option bool)
    (addMove : Z -> Z -> Tag -> M) (active turn_ : bool) (board : Board T)
    : option (list M) :=
  let a := Py.of_bool active in
  let na := Py.of_bool (negb active) in
  let t := Py.of_bool turn_ in
  let nt := Py.of_bool (negb turn_) in
  let activeRow := a * 7 in
  let lEnd := 6 - (t + a * 4) in
  let rEnd := 6 - (t + na * 4) in
  left ← castleSide isRookNeverMoved board (7 - activeRow) activeRow
            (pyRange (na * 4 + Py.of_bool (Py.truthy (nt + a))) (na * 4 + 3 + nt * a))
            (addMove lEnd activeRow TagLC);
  right ← castleSide isRookNeverMoved board activeRow activeRow
             (pyRange (a * 4 + Py.of_bool (negb (Py.truthy (t * a))))
                      (a * 4 + 3 + Py.of_bool (negb (Py.truthy (t + a)))))
             (addMove rEnd activeRow TagRC);
  Some (left ++ right).

(** On live pieces: [isinstance(piece, Rook) and not piece.getMovedEver()],
    and the move [((x, y, flag), agent)]. *)
Definition liveRookNeverMoved (piece : option Piece) : option bool :=
  match piece with
  | Some piece =>
      match kind piece with
      | Rook => negb <$> movedEver piece
      | _ => Some false
      end
  | None => Some false
  end.

Definition updateCastleLive (active turn_ : bool) (agent : Piece) (board : Board Piece)
    : option (list LiveMove) :=
  updateCastleWith liveRookNeverMoved (fun x y flag => mkLiveMove (x, y) (Some flag) agent)
                   active turn_ board.

(** On integer codes: [(piece // 10 == 4) and ((piece % 10) % 4 == (0 or 1))],
    where [0 or 1] is 1 and [None // 10] raises TypeError, and the move
    [((4 - turn, activeRow), (x, y), flag)]. *)
Definition intRookNeverMoved (piece : option Z) : option bool :=
  match piece with
  | Some piece => Some ((piece / 10 =? 4) && ((piece mod 10) mod 4 =? 1))
  | None => None
  end.

Definition updateCastleInt (active turn_ : bool) (board : Board Z) : option (list Move) :=
  updateCastleWith intRookNeverMoved
    (fun x y flag => mkMove (4 - Py.of_bool turn_, Py.of_bool active * 7) (x, y) (Some flag))
    active turn_ board.

(** [King.updateLegalMoves(moveList, board, turn)]: the new [_legalMoves]. *)
Definition kingLegalMoves (self : Piece) (moveList : list Pattern) (board : Board Piece)
    (turn_ : bool) : option (list LiveMove) :=
  moves ← updateRegularMoves (team self) (square self) self moveList board;
  moved ← movedEver self;
  if moved : bool then Some moves
  else
    threat ← threatened self;
    if threat : bool then Some moves
    else
      castles ← updateCastleLive (eqb (team self) turn_) turn_ self board;
      Some (moves ++ castles).

(** The castle towards the corner column [corner] (0 or 7) of the row
    [row] is open for the king whose home column is [home]: the corner
    holds a rook that has not moved and the squares between are empty. *)
Definition castleOpen (board : Board Piece) (row home corner : Z) : Prop :=
  (exists rook, at_ board corner row = Some rook /\ kind rook = Rook
                /\ movedEver rook = Some false)
  /\ forall x, Z.min corner home < x < Z.max corner home -> at_ board x row = None.

(** The square two columns from [home] towards [corner]. *)
Definition castleDest (row home corner : Z) : Square :=
  (if corner <? home then home - 2 else home + 2, row).

(** ** The array of live pieces (Board.__init__, PlayGame.__setFrame) *)

(** [board[int(square[0])][int(square[1])] = piece] for every piece, on
    [[[None] * 8 for y in range(8)]]. *)
Definition buildBoard (pieces : list Piece) : option (Board Piece) :=
  foldM (fun board piece => setItem2 board (square piece).1 (square piece).2 (Some piece))
        pieces emptyBoard.

(** An 8 by 8 array of pieces in states that occur in play. *)
Definition validLiveBoard (board : Board Piece) : bool :=
  (length board =? 8)%nat
  && forallb (fun column =>
       (length column =? 8)%nat
       && forallb (fun cell : option Piece =>
            match cell with Some piece => validPiece piece | None => true end) column)
     board.

(** A white king on its home square with both rooks, nothing between. *)
Definition castleReady : Board Piece :=
  default [] (buildBoard [newPiece King (4, 7) false; newPiece Rook (0, 7) false;
                          newPiece Rook (7, 7) false; newPiece King (4, 0) true]).
(** ** The codes of the pieces *)

(** The codes that [encodeInt] gives: a pawn's flag digit is 0 to 3, 6 or
    7 (the double-move bit only with the ever-moved bit), another piece's
    is 0 to 3. *)
Definition encodable (c : Z) : bool :=
  ((c / 10 =? 0) && ((c mod 10 <=? 3) || (6 <=? c mod 10) && (c mod 10 <=? 7)))
  || ((1 <=? c / 10) && (c / 10 <=? 5) && (c mod 10 <=? 3)).

(** The piece [p] on the square [sq]. *)
Definition onSquare (sq : Square) (p : Piece) : Piece :=
  mkPiece (kind p) (team p) sq (movedEver p) (doubleMoved p) (threatened p).
(** ** Frames of the undo stack (PlayGame.py, __createFrame and __setFrame) *)

(** The squares the comprehension of [__setFrame] visits: column by
    column, the occupied ones, each with its code. *)
Definition occupiedSquares (board : Board Z) : list (Square * Z) :=
  '(x, column) ← enumerate board;
  '(y, piece) ← enumerate column;
  match piece with
  | Some code => [((x, y), code)]
  | None => []
  end.

(** The board of live pieces that [__setFrame] builds from the array of a
    frame: every code is decoded on its square into the new sprite group,
    and every piece of the group is put on the square it names. *)
Definition restoreBoard (board : Board Z) : option (Board Piece) :=
  pieces ← mapM (fun entry : Square * Z => decodeInt entry.2 entry.1) (occupiedSquares board);
  buildBoard pieces.

(** The pieces of a board of live pieces are in states that occur in
    play, on squares of the board. *)
Definition piecesOK (pieces : list Piece) : Prop :=
  Forall (fun piece => validPiece piece = true /\ onBoard (square piece) = true) pieces.
(** ** What a move does to the squares *)

(** The promotion loop on one square: a code below 10 on row 0 becomes
    [promote * 10 + code]. *)
Definition promoteCell (promote y : Z) (cell : option Z) : option Z :=
  match cell with
  | Some code =>
      if (y =? 0) && (code <? 10) then Some (promote * 10 + code) else Some code
  | None => None
  end.

(** The code that a moved piece has on its destination before the
    promotion loop: the ever-moved bit set on pawns, rooks and kings, a
    pawn's double-move bit cleared, and set again on a double step. *)
Definition movedCode (flag : option Tag) (piece : Z) : Z :=
  let piece :=
    if ((piece / 10 =? 0) || (piece / 10 =? 1) || (piece / 10 =? 5))
       && (((piece mod 10) / 2) mod 2 =? 0)
    then piece + 2 else piece in
  let piece := if piece / 10 =? 0 then piece mod 4 else piece in
  if decide (flag = Some TagD) then piece + 4 else piece.

(** The square [(x, y)] after [move], before the rotation: the square
    beside an en passant capture is emptied, the destination holds the
    moved piece, the source is empty, every other square keeps its piece
    with a pawn's double-move bit cleared; then the promotion loop. *)
Definition squareAfter (board : Board Z) (move : Move) (promote x y : Z) : option Z :=
  let cell :=
    if decide (tag move = Some TagE /\ (x, y) = ((dst move).1, (src move).2)) then None
    else if decide ((x, y) = dst move)
         then movedCode (tag move) <$> at_ board (src move).1 (src move).2
    else if decide ((x, y) = src move) then None
    else resetCode (at_ board x y) in
  promoteCell promote y cell.
(** ** Move notation (Board.py, algebraicNotation) *)

Definition ranksList : list string := ["a"; "b"; "c"; "d"; "e"; "f"; "g"; "h"]%string.

Definition pieceLetters : list string := [""; "R"; "N"; "B"; "Q"; "K"]%string.

(** [ranks[int(sq.x)] + str(int(abs(((not team) * 9) - (sq.y + 1))))];
    the list is reversed for team 1. *)
Definition squareName (tm : bool) (sq : Square) : option string :=
  file ← Py.index (if tm then reverse ranksList else ranksList) sq.1;
  Some (file +:+ pretty (Z.abs (Py.of_bool (negb tm) * 9 - (sq.2 + 1)))).

(** [algebraicNotation(start, end, piece, special)].  The test
    [special == ("lc" or "rc")] compares with ["lc"], the value of the
    [or]; the squares are named before it, so their IndexError comes
    first. *)
Definition algebraicNotation (start end_ : Square) (piece : Piece) (special : option Tag)
    : option string :=
  source ← squareName (team piece) start;
  dest ← squareName (team piece) end_;
  if decide (special = Some TagLC) then
    Py.index ["O-O"; "O-O-O"]%string (Py.of_bool (xorb (team piece) true))
  else
    letter ← Py.index pieceLetters (value (kind piece));
    let strOut := (letter +:+ source +:+ dest)%string in
    Some (if decide (special = Some TagE) then (strOut +:+ "ep")%string else strOut).

(** The squares of the board. *)
Definition boardSquares : list Square := x ← seqZ 0 8; y ← seqZ 0 8; [(x, y)].
(** ** The legal moves of a live piece (Piece.py, removeLegalMove) *)

(** [move[0][0] == square.x and move[0][1] == square.y]. *)
Definition movesTo (sq : Square) (move : LiveMove) : bool :=
  ((ldst move).1 =? sq.1) && ((ldst move).2 =? sq.2).

(** The loop [for i, move in enumerate(self._legalMoves)] with its
    [del(self._legalMoves[i])]: the iterator reads the entry at its own
    counter in the list as it is then, and stops when there is none.
    [fuel] bounds the iterations. *)
Fixpoint removeLoop (fuel i : nat) (sq : Square) (l : list LiveMove) : list LiveMove :=
  match fuel with
  | O => l
  | S fuel' =>
      match l !! i with
      | None => l
      | Some move =>
          if movesTo sq move then removeLoop fuel' (S i) sq (delete i l)
          else removeLoop fuel' (S i) sq l
      end
  end.

(** [Piece.removeLegalMove(square)]: the new [_legalMoves].  The counter
    grows with every iteration and the list never does, so the length of
    the list bounds the iterations ([removeLoop_skip]). *)
Definition removeLegalMove (sq : Square) (l : list LiveMove) : list LiveMove :=
  removeLoop (length l) 0 sq l.

(** What the loop does to the entries from the counter on: after a
    deletion the next entry has moved under the counter and is passed
    over. *)
Fixpoint skipRemove (sq : Square) (l : list LiveMove) : list LiveMove :=
  match l with
  | [] => []
  | move :: rest =>
      if movesTo sq move then
        match rest with
        | [] => []
        | next :: rest' => next :: skipRemove sq rest'
        end
      else move :: skipRemove sq rest
  end.
(** ** The rules of movement *)

(** The destination is empty or holds a piece of the other side. *)
Definition landsOK (board : Board Z) (turn_ : bool) (dest : Square) : Prop :=
  match at_ board dest.1 dest.2 with
  | None => True
  | Some target => Py.truthy (target mod 2) <> turn_
  end.

(** A move along one of the directions [dirs] over empty squares. *)
Definition slides (board : Board Z) (dirs : list (Z * Z)) (from to : Square) : Prop :=
  exists u n, u ∈ dirs /\ 0 < n
    /\ to = (from.1 + n * u.1, from.2 + n * u.2)
    /\ forall j, 0 < j < n -> at_ board (from.1 + j * u.1) (from.2 + j * u.2) = None.

(** A move by one of the offsets [offsets]. *)
Definition jumps (offsets : list (Z * Z)) (from to : Square) : Prop :=
  exists u, u ∈ offsets /\ to = (from.1 + u.1, from.2 + u.2).

Definition straight : list (Z * Z) := [(1, 0); (-1, 0); (0, 1); (0, -1)].
Definition diagonal : list (Z * Z) := [(1, 1); (-1, -1); (-1, 1); (1, -1)].
Definition knightJumps : list (Z * Z) :=
  [(1, 2); (2, 1); (-1, 2); (-2, 1); (1, -2); (2, -1); (-1, -2); (-2, -1)].

(** The rule of the piece of value [value] (1 rook, 2 knight, 3 bishop,
    4 queen, 5 king). *)
Definition followsRule (board : Board Z) (value : Z) (from to : Square) : Prop :=
  match value with
  | 1 => slides board straight from to
  | 2 => jumps knightJumps from to
  | 3 => slides board diagonal from to
  | 4 => slides board (straight ++ diagonal) from to
  | 5 => jumps (straight ++ diagonal) from to
  | _ => False
  end.

(** The direction of a pattern component: ["x"] is 1, ["mx"] is -1 and
    the number 0 is 0. *)
Definition dirOf (c : Comp) : option Z :=
  match c with
  | Cx => Some 1
  | Cmx => Some (-1)
  | Cn 0 => Some 0
  | Cn _ => None
  end.

(** The rule of a pawn of the side to move on [from] with the code
    [agent]: a step ahead onto an empty square, two steps ahead over
    empty squares while its ever-moved bit is clear, a diagonal step onto a
    piece of the other side, or the diagonal step onto an empty square that
    the generator flags as en passant (beside a code of the other side whose
    piece value is 5 and whose bit 4 is set). *)
Definition pawnRule (board : Board Z) (turn_ : bool) (agent : Z) (from : Square)
    (move : Move) : Prop :=
  src move = from /\ onBoard (dst move) = true
  /\ ((tag move = None /\ dst move = (from.1, from.2 - 1)
       /\ at_ board from.1 (from.2 - 1) = None)
      \/ (tag move = Some TagD /\ dst move = (from.1, from.2 - 2)
          /\ at_ board from.1 (from.2 - 1) = None /\ at_ board from.1 (from.2 - 2) = None
          /\ (agent / 2) mod 2 = 0)
      \/ (exists side target,
            (side = 1 \/ side = -1) /\ tag move = None
            /\ dst move = (from.1 + side, from.2 - 1)
            /\ at_ board (from.1 + side) (from.2 - 1) = Some target
            /\ Py.truthy (target mod 2) <> turn_)
      \/ (exists side target,
            (side = 1 \/ side = -1) /\ tag move = Some TagE
            /\ dst move = (from.1 + side, from.2 - 1)
            /\ at_ board (from.1 + side) (from.2 - 1) = None
            /\ at_ board (from.1 + side) from.2 = Some target
            /\ target / 10 = 5 /\ (target mod 10) / 4 <> 0
            /\ Py.truthy (target mod 2) <> turn_)).
(** ** One search, one move *)

(** The state of a running search that started with the played moves
    [base] on a position with the legal moves [legal]: either nothing has
    been played since and, as long as the move-made flag is clear, the best
    move is a legal move; or the flag is set and one legal move has been
    played. *)
Definition searching (depthMax : nat) (base : list (Move * bool)) (legal : list Move)
    (w : World) : Prop :=
  maxDepth (engine w) = depthMax
  /\ ((played w = base
       /\ (moveMade (engine w) = false ->
           exists move, bestMove (engine w) = Some move /\ move ∈ legal))
      \/ (moveMade (engine w) = true
          /\ exists move promotion, played w = base ++ [(move, promotion)] /\ move ∈ legal)).

(** A computation of the search thread leaves a world in [P] in [P],
    whether it returns or raises. *)
Definition keeps (P : World -> Prop) {A} (m : Run A) : Prop :=
  forall w, P w -> P (m w).2.

(** From a world in [P] the computation returns, with a result and a world
    in [Q]. *)
Definition total {A} (P : World -> Prop) (m : Run A) (Q : A -> World -> Prop) : Prop :=
  forall w, P w -> exists a w', m w = (Some a, w') /\ Q a w'.

(** The state of a search that has not been cut short: the flags are
    clear, nothing has been played and the best move is a legal move. *)
Definition thinking (start roe : Q) (depthMax : nat) (base : list (Move * bool))
    (legal : list Move) (w : World) : Prop :=
  thinkingTime (engine w) = start /\ ROE (engine w) = roe
  /\ maxDepth (engine w) = depthMax
  /\ moveComplete (engine w) = false /\ moveMade (engine w) = false
  /\ played w = base
  /\ exists move, bestMove (engine w) = Some move /\ move ∈ legal.

(** The state after the move of a search: one legal move has been played
    and the move-made flag is set. *)
Definition finished (base : list (Move * bool)) (legal : list Move) (w : World) : Prop :=
  moveMade (engine w) = true
  /\ exists move promotion, played w = base ++ [(move, promotion)] /\ move ∈ legal.
(** ** The undo stack (Stack.py) *)

(** A [Stack] object: [__maxSize] and [__list], the newest entity last. *)
Record Stack (A : Type) := mkStack { stackMax : Z; stackList : list A }.
Arguments mkStack {A} _ _.
Arguments stackMax {A} _.
Arguments stackList {A} _.

(** [Stack.__init__(maxSize)]. *)
Definition newStack {A} (maxSize : Z) : Stack A := mkStack maxSize [].

(** [setMaxSize]: the list is left as it is. *)
Definition setMaxSize {A} (self : Stack A) (newMaxSize : Z) : Stack A :=
  mkStack newMaxSize (stackList self).

Definition isEmpty {A} (self : Stack A) : bool := (length (stackList self) =? 0)%nat.

Definition isFull {A} (self : Stack A) : bool :=
  Z.of_nat (length (stackList self)) =? stackMax self.

(** [while len(self.__list) != self.__maxSize: del(self.__list[0])];
    [del] on the empty list raises IndexError. *)
Fixpoint trimFront {A} (maxSize : Z) (l : list A) : option (list A) :=
  if Z.of_nat (length l) =? maxSize then Some l
  else match l with
       | [] => None
       | _ :: l' => trimFront maxSize l'
       end.

(** [push(newItem)]. *)
Definition push {A} (self : Stack A) (newItem : A) : option (Stack A) :=
  let l := stackList self ++ [newItem] in
  if stackMax self <? Z.of_nat (length l)
  then l' ← trimFront (stackMax self) l; Some (mkStack (stackMax self) l')
  else Some (mkStack (stackMax self) l).

(** [peek()]: the result [None] is Python's [None]. *)
Definition peek {A} (self : Stack A) : option A :=
  if negb (length (stackList self) =? 0)%nat then Py.index (stackList self) (-1) else None.

(** [pop()]: the result and the object afterwards. *)
Definition pop {A} (self : Stack A) : option A * Stack A :=
  if negb (length (stackList self) =? 0)%nat
  then (last (stackList self), mkStack (stackMax self) (removelast (stackList self)))
  else (None, self).
(** C4. For every valid piece state, decoding the integer produced by
    [encodeInt] succeeds and gives a piece of the same kind, colour,
    ever-moved flag and double-moved flag. *)
Theorem decode_encode_roundtrip (p : Piece) (sq : Square) :
  validPiece p = true ->
  exists q, decodeInt (encodeInt p) sq = Some q
    /\ kind q = kind p /\ team q = team p
    /\ movedEver q = movedEver p /\ doubleMoved q = doubleMoved p.
Proof.
  destruct p as [k t s me dm th]; unfold validPiece; simpl.
  destruct k, t, me as [[|]|], dm as [[|]|]; intros Hv; try discriminate Hv;
    (eexists; split; [vm_compute; reflexivity | simpl; auto]).
Qed.

Lemma decode_encode_roundtrip_witness :
  validPiece (mkPiece Pawn true (4, 3) (Some true) (Some true) None) = true
  /\ exists q, decodeInt (encodeInt (mkPiece Pawn true (4, 3) (Some true) (Some true) None)) (4, 3) = Some q
    /\ kind q = Pawn /\ team q = true
    /\ movedEver q = Some true /\ doubleMoved q = Some true.
Proof.
  split; [reflexivity |].
  apply (decode_encode_roundtrip (mkPiece Pawn true (4, 3) (Some true) (Some true) None) (4, 3)).
  reflexivity.
Defined.

(** ** The starting position *)

Lemma createVBoard_start : createVBoard initialPieces false = Some startPosition.
Proof. vm_compute. reflexivity. Qed.

(** C8. From the standard initial setup with white to move, the legal-move
    computation returns a list of exactly 20 moves. *)
Theorem start_has_20_legal_moves :
  exists board moves,
    createVBoard initialPieces false = Some board
    /\ getAllLegalMoves board None None = Some moves
    /\ length moves = 20%nat.
Proof.
  eexists; eexists; split; [apply createVBoard_start |].
  split; vm_compute; reflexivity.
Qed.

(** ** Castling on the virtual board *)

(** C2, at a position where white may castle to the left: [fakeMove] and
    [makeMove] put the rook on the crossed square, and then the branch
    written for en passant empties the king's destination, so that the
    returned board (rotated: the destination (2,7) is its square (5,0), the
    crossed square (3,7) its square (4,0)) has no white king at all. *)
Theorem castle_removes_king :
  exists position after moved,
    playMoves startPosition castleGame = Some position
    /\ at_ (vboard position) 4 7 = Some 50
    /\ at_ (vboard position) 0 7 = Some 10
    /\ fakeMove position leftCastle 4 = Some after
    /\ makeMove position leftCastle 4 = Some moved
    /\ vboard moved = after
    /\ at_ after 4 0 = Some 10
    /\ at_ after 5 0 = None
    /\ kingAbsent false after = true.
Proof.
  eexists; eexists; eexists.
  split; [vm_compute; reflexivity |].
  repeat split; vm_compute; reflexivity.
Qed.

(** ** En passant on the integer representation *)

(** C3, on the integer representation: after 1. e4 h6 2. e5 d5 the white
    pawn on (4,3) has the empty square (3,2) diagonally ahead and the black
    pawn that just advanced two squares (code 7) beside it on (3,3), and
    the generated moves hold no en passant capture: the integer test
    [isPawn] compares the piece value with 5, the king's, and not with 0. *)
Theorem int_en_passant_missing :
  exists position moves,
    playMoves startPosition enPassantGame = Some position
    /\ at_ (vboard position) 4 3 = Some 2
    /\ at_ (vboard position) 3 2 = None
    /\ at_ (vboard position) 3 3 = Some 7
    /\ getAllMoves position None None = Some moves
    /\ updatePawnMoves false false (4, 3) 2 (vboard position) = [mkMove (4, 3) (4, 2) None]
    /\ forallb (fun move => negb (bool_decide (tag move = Some TagE))) moves = true.
Proof.
  eexists; eexists.
  split; [vm_compute; reflexivity |].
  repeat split; vm_compute; reflexivity.
Qed.

(** ** The check term of the evaluation *)

(** C5, after 1. f3 e5 2. g4 Qh4: white is to move, its own king is attacked
    and the black king is not; the material sum is 0, white has its king
    and no legal move, so that the mobility-and-check term is the check
    term alone.  That term is +300 and the fast evaluation is
    0 + 0 + 300 + 100 = 400: the check of the mover's own king adds 300
    where the specification has a penalty of 300. *)
Theorem own_check_adds_300 :
  exists position,
    playMoves startPosition checkGame = Some position
    /\ getCheck position None true = Some true
    /\ getCheck position None false = Some false
    /\ getAllLegalMoves position None None = Some []
    /\ material (vturn position) (vboard position) = 0
    /\ ownKings (vturn position) (vboard position) = 1
    /\ extras position = Some 300
    /\ boardEval position true = Some 400.
Proof.
  eexists.
  split; [vm_compute; reflexivity |].
  repeat split; vm_compute; reflexivity.
Qed.

(** ** The evaluation under a swap of sides *)

(** C6 fails at the starting position: both sides get 300 in fast mode
    (193 and 106 in full mode), not opposite values. *)
Lemma eval_not_zero_sum :
  boardEval startPosition true = Some 300
  /\ boardEval (swapSides startPosition) true = Some 300
  /\ boardEval startPosition false = Some 193
  /\ boardEval (swapSides startPosition) false = Some 106
  /\ boardEval startPosition true <> Z.opp <$> boardEval (swapSides startPosition) true
  /\ boardEval startPosition false <> Z.opp <$> boardEval (swapSides startPosition) false.
Proof. repeat split; vm_compute; congruence. Qed.

(** ** Move ordering *)

(** C7 fails where a queen can take a bishop (300 points) or a rook (500
    points): the capture of the bishop is ordered first. *)
Lemma bishop_capture_before_rook_capture :
  exists legal ordered,
    getAllLegalMoves captureChoice None None = Some legal
    /\ orderMoves (vboard captureChoice) legal = Some ordered
    /\ ordered !! 0%nat = Some (mkMove (3, 3) (0, 3) None)
    /\ ordered !! 1%nat = Some (mkMove (3, 3) (3, 0) None)
    /\ (at_ (vboard captureChoice) 0 3 ≫= fun piece => piecePoints (piece / 10)) = Some 300
    /\ (at_ (vboard captureChoice) 3 0 ≫= fun piece => piecePoints (piece / 10)) = Some 500.
Proof.
  eexists; eexists.
  split; [vm_compute; reflexivity |].
  repeat split; vm_compute; reflexivity.
Qed.

(** ** The search under an exhausted time budget *)

(** C9, after 1. a4 with the clock [lateClock]: the search starts, takes
    the first legal move (0,6)-(0,5) as its best move, and the budget is
    found exhausted at the first recursive call.  There the promotion test
    reads the square (0,6) of the board of that call, which is empty, and
    compares [None] with 10: the thread ends with a TypeError and no move
    is played. *)
Theorem timeout_plays_no_move :
  exists position legal,
    playMoves startPosition timeoutGame = Some position
    /\ getAllLegalMoves position None None = Some legal
    /\ head legal = Some (mkMove (0, 6) (0, 5) None)
    /\ let '(result, world) := takeTurn lateClock position (mkWorld newNegaMax 0 []) in
       result = None
       /\ bestMove (engine world) = Some (mkMove (0, 6) (0, 5) None)
       /\ moveMade (engine world) = false
       /\ played world = [].
Proof.
  eexists; eexists.
  split; [vm_compute; reflexivity |].
  split; [vm_compute; reflexivity |].
  split; [vm_compute; reflexivity |].
  vm_compute. repeat split; reflexivity.
Qed.

(** ** Fuel of the ray loop *)

(** A ray that ends within its fuel ends the same way with more. *)
Lemma infDistLoop_fuel {T M : Type} `{Agent T M} (fuel extra : nat) (changer : Z -> Z)
    (inf : Z) (team_ : bool) (sq : Square) (agent : T) (move : Pattern) (board : Board T)
    (moves : list M) :
  infDistLoop fuel changer inf team_ sq agent move board = Some moves ->
  infDistLoop (fuel + extra) changer inf team_ sq agent move board = Some moves.
Proof.
  revert inf moves. induction fuel as [| fuel IH]; intros inf moves; [discriminate |].
  cbn [infDistLoop Nat.add].
  destruct (match move.1 with
            | Cx => Some (sq.1 + changer inf)
            | Cmx => Some (sq.1 - changer inf)
            | Cn n => plusComp sq.1 (Cn n)
            end) as [x |]; [| discriminate].
  cbn [mbind option_bind].
  destruct (match move.2 with
            | Cx => Some (sq.2 + changer inf)
            | Cmx => plusComp sq.2 Cmx
            | Cn n => plusComp sq.2 (Cn n)
            end) as [y |]; [| discriminate].
  cbn [mbind option_bind].
  destruct (onBoard (x, y)); [| auto].
  destruct (at_ board x y); [auto |].
  destruct (infDistLoop fuel changer (changer inf) team_ sq agent move board)
    as [rest |] eqn:Hrest; [| discriminate].
  rewrite (IH _ _ Hrest). auto.
Qed.

(** ** Boards of the right shape *)

Section Shape.
Context {T : Type}.
Implicit Types (board : Board T) (column : list (option T)).

Lemma index_in_range {A} (l : list A) (i : Z) :
  0 <= i < Z.of_nat (length l) -> Py.index l i = l !! Z.to_nat i.
Proof.
  intros Hi. unfold Py.index.
  destruct (0 <=? i) eqn:E1; [| lia].
  destruct (i <? Z.of_nat (length l)) eqn:E2; [reflexivity | lia].
Qed.

Lemma setitem_in_range {A} (l : list A) (i : Z) (x : A) :
  0 <= i < Z.of_nat (length l) -> Py.setitem l i x = Some (<[Z.to_nat i := x]> l).
Proof.
  intros Hi. unfold Py.setitem.
  destruct (0 <=? i) eqn:E1; [| lia].
  destruct (i <? Z.of_nat (length l)) eqn:E2; [reflexivity | lia].
Qed.

Lemma onBoard_range (sq : Square) :
  onBoard sq = true <-> (0 <= sq.1 <= 7 /\ 0 <= sq.2 <= 7).
Proof. unfold onBoard. rewrite !andb_true_iff, !Z.leb_le. lia. Qed.

Lemma dims_column board (x : Z) :
  dims board -> 0 <= x <= 7 ->
  exists column, board !! Z.to_nat x = Some column /\ length column = 8%nat.
Proof.
  intros [Hl Hc] Hx.
  destruct (lookup_lt_is_Some_2 board (Z.to_nat x)) as [column Hcol]; [lia |].
  exists column. split; [assumption |].
  eapply Forall_lookup_1 in Hc; eauto.
Qed.

Lemma getItem2_at board (x y : Z) :
  dims board -> 0 <= x <= 7 -> 0 <= y <= 7 ->
  getItem2 board x y = Some (at_ board x y).
Proof.
  intros Hd Hx Hy.
  destruct (dims_column board x Hd Hx) as (column & Hcol & Hlen).
  destruct (lookup_lt_is_Some_2 column (Z.to_nat y)) as [v Hv]; [lia |].
  unfold getItem2, at_.
  rewrite index_in_range by (destruct Hd; lia).
  rewrite Hcol. simpl.
  rewrite index_in_range by lia. rewrite Hv.
  destruct (0 <=? x) eqn:E1; [| lia]. destruct (0 <=? y) eqn:E2; [| lia].
  reflexivity.
Qed.

Lemma setItem2_setSq board (x y : Z) (v : option T) :
  dims board -> 0 <= x <= 7 -> 0 <= y <= 7 ->
  setItem2 board x y v = Some (setSq board x y v).
Proof.
  intros Hd Hx Hy.
  destruct (dims_column board x Hd Hx) as (column & Hcol & Hlen).
  unfold setItem2, setSq.
  rewrite index_in_range by (destruct Hd; lia).
  rewrite Hcol. simpl.
  rewrite setitem_in_range by lia. simpl.
  rewrite setitem_in_range by (destruct Hd; lia).
  f_equal. symmetry. apply list_eq. intros i.
  destruct (decide (i = Z.to_nat x)) as [-> | Hne].
  - rewrite list_lookup_alter_eq, Hcol. simpl.
    rewrite list_lookup_insert_eq; [reflexivity |]. destruct Hd; lia.
  - rewrite list_lookup_alter_ne by congruence.
    rewrite list_lookup_insert_ne by congruence. reflexivity.
Qed.

Lemma dims_setSq board x y v : dims board -> dims (setSq board x y v).
Proof.
  intros [Hl Hc]. unfold setSq. split.
  - rewrite length_alter. assumption.
  - apply Forall_alter; [assumption |]. intros column _ Hlen.
    rewrite length_insert. apply Hlen.
Qed.

Lemma at_setSq board x y v x' y' :
  dims board -> 0 <= x <= 7 -> 0 <= y <= 7 ->
  at_ (setSq board x y v) x' y' = if decide ((x', y') = (x, y)) then v else at_ board x' y'.
Proof.
  intros Hd Hx Hy. unfold at_, setSq.
  destruct (dims_column board x Hd Hx) as (column & Hcol & Hlen).
  destruct (0 <=? x') eqn:E1; simpl.
  2: { destruct (decide _) as [Heq | _]; [| reflexivity]. inversion Heq; lia. }
  destruct (0 <=? y') eqn:E2; simpl.
  2: { destruct (decide _) as [Heq | _]; [| reflexivity]. inversion Heq; lia. }
  destruct (decide (Z.to_nat x' = Z.to_nat x)) as [Hxx | Hxx].
  - assert (x' = x) by lia. subst x'.
    rewrite list_lookup_alter_eq, Hcol. simpl.
    destruct (decide (Z.to_nat y' = Z.to_nat y)) as [Hyy | Hyy].
    + assert (y' = y) by lia. subst y'.
      rewrite list_lookup_insert_eq by lia.
      rewrite decide_True by reflexivity. reflexivity.
    + rewrite list_lookup_insert_ne by congruence.
      rewrite decide_False; [reflexivity |]. intros Heq. inversion Heq. lia.
  - rewrite list_lookup_alter_ne by congruence.
    rewrite decide_False; [reflexivity |]. intros Heq. inversion Heq. lia.
Qed.
End Shape.

(** ** Valid codes *)

Lemma validBoard_spec board : validBoard board = true <-> dims board /\ codesOK board.
Proof.
  unfold validBoard, dims, codesOK.
  rewrite andb_true_iff, Nat.eqb_eq, forallb_forall.
  rewrite !Forall_forall.
  split.
  - intros [Hl Hc]. repeat split; [assumption | |].
    + intros column Hin. apply list_elem_of_In in Hin. specialize (Hc column Hin).
      apply andb_true_iff in Hc as [Hc _]. apply Nat.eqb_eq in Hc. assumption.
    + intros column Hin. apply list_elem_of_In in Hin. specialize (Hc column Hin).
      apply andb_true_iff in Hc as [_ Hc]. rewrite forallb_forall in Hc.
      apply Forall_forall. intros piece Hp. apply Hc. apply list_elem_of_In. assumption.
  - intros [[Hl Hc] Hv]. split; [assumption |].
    intros column Hin. apply list_elem_of_In in Hin.
    apply andb_true_iff. split.
    + apply Nat.eqb_eq. auto.
    + apply forallb_forall. intros piece Hp.
      specialize (Hv column Hin). rewrite Forall_forall in Hv. apply Hv.
      apply list_elem_of_In. assumption.
Qed.

Lemma codesOK_at board x y c :
  codesOK board -> at_ board x y = Some c -> validCode c = true.
Proof.
  unfold at_, codesOK. intros Hv Hat.
  destruct ((0 <=? x) && (0 <=? y)); [| discriminate].
  destruct (board !! Z.to_nat x) as [column |] eqn:Hcol; [| discriminate].
  destruct (column !! Z.to_nat y) as [piece |] eqn:Hp; [| discriminate].
  subst piece.
  pose proof (Forall_lookup_1 _ _ _ _ Hv Hcol) as Hc.
  exact (Forall_lookup_1 _ _ _ _ Hc Hp).
Qed.

Lemma codesOK_setSq board x y v :
  codesOK board -> validSquare v = true -> codesOK (setSq board x y v).
Proof.
  unfold codesOK, setSq. intros Hv Hval.
  apply Forall_alter; [assumption |]. intros column _ Hc.
  apply Forall_insert; assumption.
Qed.

(** ** What the generator returns on a valid board *)

Ltac forall_list :=
  repeat first [apply Forall_nil_2 | apply Forall_cons_2; [assumption |] ].

Section IntGenerator.
Variables (team_ : bool) (sq : Square) (agent : Z) (board : Board Z).
Hypothesis Hsq : onBoard sq = true.

Lemma infDistLoop_up fuel inf move :
  rayPattern move -> 0 <= inf -> 8 <= Z.of_nat fuel + inf -> (0 < fuel)%nat ->
  exists moves,
    infDistLoop fuel (fun base => base + 1) inf team_ sq agent move board = Some moves
    /\ Forall (movesFrom sq false) moves.
Proof.
  destruct move as [c0 c1]. unfold rayPattern. simpl.
  intros [Hy Hmove]. revert inf.
  induction fuel as [| fuel IH]; intros inf Hinf Hfuel Hpos; [lia |].
  apply onBoard_range in Hsq as Hr.
  cbn [infDistLoop fst snd].
  set (inf' := inf + 1).
  assert (exists x, match c0 with
                    | Cx => Some (sq.1 + inf')
                    | Cmx => Some (sq.1 - inf')
                    | Cn n => plusComp sq.1 (Cn n)
                    end = Some x
                    /\ (c0 = Cx -> x = sq.1 + inf')
                    /\ (c0 = Cmx -> x = sq.1 - inf')) as (x & Hx & Hx1 & Hx2).
  { destruct c0; eexists; (split; [reflexivity |]); split; congruence. }
  assert (exists y, match c1 with
                    | Cx => Some (sq.2 + inf')
                    | Cmx => plusComp sq.2 Cmx
                    | Cn n => plusComp sq.2 (Cn n)
                    end = Some y /\ (c1 = Cx -> y = sq.2 + inf')) as (y & Hyy & Hy1).
  { destruct c1; [| congruence |]; eexists; (split; [reflexivity |]); congruence. }
  rewrite Hx. cbn [mbind option_bind]. rewrite Hyy. cbn [mbind option_bind].
  destruct (onBoard (x, y)) eqn:Hon; [| exists []; split; [reflexivity | constructor]].
  apply onBoard_range in Hon as Hxy. simpl in Hxy.
  assert (Hne : (x, y) <> sq).
  { intros <-. simpl in *. destruct Hmove as [H | [H | H]];
      [apply Hx1 in H | apply Hx2 in H | apply Hy1 in H]; lia. }
  assert (Hgood : movesFrom sq false (addMove sq agent (x, y) None)).
  { repeat split; simpl; auto. }
  destruct (at_ board x y) as [target |].
  - destruct (negb _); eexists; (split; [reflexivity |]); forall_list.
  - destruct (IH inf') as (rest & Hrest & Hgood').
    + lia.
    + lia.
    + destruct Hmove as [H | [H | H]];
        [apply Hx1 in H | apply Hx2 in H | apply Hy1 in H]; lia.
    + rewrite Hrest. eexists. split; [reflexivity |]. constructor; assumption.
Qed.

Lemma infDistLoop_down fuel inf move :
  rayPattern move -> inf <= 0 -> 8 <= Z.of_nat fuel - inf -> (0 < fuel)%nat ->
  exists moves,
    infDistLoop fuel (fun base => base - 1) inf team_ sq agent move board = Some moves
    /\ Forall (movesFrom sq false) moves.
Proof.
  destruct move as [c0 c1]. unfold rayPattern. simpl.
  intros [Hy Hmove]. revert inf.
  induction fuel as [| fuel IH]; intros inf Hinf Hfuel Hpos; [lia |].
  apply onBoard_range in Hsq as Hr.
  cbn [infDistLoop fst snd].
  set (inf' := inf - 1).
  assert (exists x, match c0 with
                    | Cx => Some (sq.1 + inf')
                    | Cmx => Some (sq.1 - inf')
                    | Cn n => plusComp sq.1 (Cn n)
                    end = Some x
                    /\ (c0 = Cx -> x = sq.1 + inf')
                    /\ (c0 = Cmx -> x = sq.1 - inf')) as (x & Hx & Hx1 & Hx2).
  { destruct c0; eexists; (split; [reflexivity |]); split; congruence. }
  assert (exists y, match c1 with
                    | Cx => Some (sq.2 + inf')
                    | Cmx => plusComp sq.2 Cmx
                    | Cn n => plusComp sq.2 (Cn n)
                    end = Some y /\ (c1 = Cx -> y = sq.2 + inf')) as (y & Hyy & Hy1).
  { destruct c1; [| congruence |]; eexists; (split; [reflexivity |]); congruence. }
  rewrite Hx. cbn [mbind option_bind]. rewrite Hyy. cbn [mbind option_bind].
  destruct (onBoard (x, y)) eqn:Hon; [| exists []; split; [reflexivity | constructor]].
  apply onBoard_range in Hon as Hxy. simpl in Hxy.
  assert (Hne : (x, y) <> sq).
  { intros <-. simpl in *. destruct Hmove as [H | [H | H]];
      [apply Hx1 in H | apply Hx2 in H | apply Hy1 in H]; lia. }
  assert (Hgood : movesFrom sq false (addMove sq agent (x, y) None)).
  { repeat split; simpl; auto. }
  destruct (at_ board x y) as [target |].
  - destruct (negb _); eexists; (split; [reflexivity |]); forall_list.
  - destruct (IH inf') as (rest & Hrest & Hgood').
    + lia.
    + lia.
    + destruct Hmove as [H | [H | H]];
        [apply Hx1 in H | apply Hx2 in H | apply Hy1 in H]; lia.
    + rewrite Hrest. eexists. split; [reflexivity |]. constructor; assumption.
Qed.

Lemma infDist_good move :
  rayPattern move ->
  exists moves, infDist team_ sq agent move board = Some moves
                /\ Forall (movesFrom sq false) moves.
Proof.
  intros Hray. unfold infDist.
  destruct (infDistLoop_up rayFuel 0 move Hray) as (up & -> & Hup);
    [lia | unfold rayFuel; lia | unfold rayFuel; lia |].
  destruct (infDistLoop_down rayFuel 0 move Hray) as (down & -> & Hdown);
    [lia | unfold rayFuel; lia | unfold rayFuel; lia |].
  simpl. eexists. split; [reflexivity |]. apply Forall_app. split; assumption.
Qed.

Lemma regularMove_good move :
  tablePattern move ->
  exists moves, regularMove team_ sq agent move board = Some moves
                /\ Forall (movesFrom sq false) moves.
Proof.
  intros [[Hx Hray] | (a & b & -> & Hab)]; unfold regularMove.
  - rewrite Hx. apply infDist_good. assumption.
  - simpl.
    destruct (onBoard (sq.1 + a, sq.2 + b)) eqn:Hon;
      [| exists []; split; [reflexivity | constructor]].
    assert (Hgood : movesFrom sq false (addMove sq agent (sq.1 + a, sq.2 + b) None)).
    { repeat split; simpl; auto. intros Heq. apply Hab.
      destruct sq as [sx sy]. simpl in Heq. inversion Heq. f_equal; lia. }
    destruct (at_ board (sq.1 + a) (sq.2 + b)) as [target |].
    + destruct (negb _); eexists; (split; [reflexivity |]); forall_list.
    + eexists. split; [reflexivity |]. forall_list.
Qed.

Lemma updateRegularMoves_good moveList :
  Forall tablePattern moveList ->
  exists moves, updateRegularMoves team_ sq agent moveList board = Some moves
                /\ Forall (movesFrom sq false) moves.
Proof.
  induction 1 as [| move moveList Hmove _ IH].
  - exists []. split; [reflexivity | constructor].
  - destruct (regularMove_good move Hmove) as (ms & Hms & Hgood).
    destruct IH as (rest & Hrest & Hgood').
    cbn [updateRegularMoves]. rewrite Hms, Hrest. simpl.
    eexists. split; [reflexivity |]. apply Forall_app. split; assumption.
Qed.

Lemma pawnCapture_good dir toAdd :
  toAdd.2 = sq.2 + dir -> dir <> 0 ->
  Forall (movesFrom sq true) (pawnCapture team_ dir sq agent board toAdd).
Proof.
  intros Hto Hdir. unfold pawnCapture.
  destruct ((0 <=? toAdd.1) && (toAdd.1 <=? 7) && (0 <=? toAdd.2) && (toAdd.2 <=? 7))
    eqn:Hon; [| constructor].
  assert (Hne : toAdd <> sq) by (intros ->; lia).
  assert (Hb : onBoard toAdd = true) by exact Hon.
  assert (H1 : movesFrom sq true (addMove sq agent toAdd None)).
  { unfold movesFrom; simpl; intuition auto. }
  assert (H2 : movesFrom sq true (addMove sq agent toAdd (Some TagE))).
  { unfold movesFrom; simpl; intuition auto. }
  destruct (at_ board toAdd.1 toAdd.2) as [target |].
  - destruct (negb _); forall_list.
  - destruct (at_ board toAdd.1 (toAdd.2 - dir)) as [target |]; [| constructor].
    destruct (isPawn target && getDoubleMoved target && negb (eqb (getTeam target) team_));
      forall_list.
Qed.

Lemma updatePawnMoves_good turn_ :
  Forall (movesFrom sq true) (updatePawnMoves team_ turn_ sq agent board).
Proof.
  unfold updatePawnMoves.
  set (dir := if eqb team_ turn_ then -1 else 1).
  assert (Hdir : dir = -1 \/ dir = 1) by (subst dir; destruct (eqb _ _); auto).
  repeat apply Forall_app_2.
  - destruct (onBoard (sq.1, sq.2 + dir) && _) eqn:Hon; [| constructor].
    apply andb_true_iff in Hon as [Hon _].
    assert (Hne1 : (sq.1, sq.2 + dir) <> sq).
    { destruct sq as [sx sy]; simpl. intros Heq. inversion Heq. lia. }
    assert (Hne2 : (sq.1, sq.2 + 2 * dir) <> sq).
    { destruct sq as [sx sy]; simpl. intros Heq. inversion Heq. lia. }
    assert (H1 : movesFrom sq true (addMove sq agent (sq.1, sq.2 + dir) None)).
    { unfold movesFrom; simpl; intuition auto. }
    apply Forall_cons_2; [assumption |].
    destruct (negb _); [| constructor].
    destruct (onBoard (sq.1, sq.2 + 2 * dir) && _) eqn:Hon2; [| constructor].
    apply andb_true_iff in Hon2 as [Hon2 _].
    assert (H2 : movesFrom sq true (addMove sq agent (sq.1, sq.2 + 2 * dir) (Some TagD))).
    { unfold movesFrom; simpl; intuition auto. }
    forall_list.
  - apply pawnCapture_good; simpl; lia.
  - apply pawnCapture_good; simpl; lia.
Qed.
End IntGenerator.

Lemma mapM_total {A B} (f : A -> option B) (R : A -> B -> Prop) (l : list A) :
  Forall (fun a => exists b, f a = Some b /\ R a b) l ->
  exists bs, mapM f l = Some bs /\ Forall2 R l bs.
Proof.
  induction 1 as [| a l (b & Hb & Hr) _ (bs & Hbs & Hrs)].
  - exists []. split; [reflexivity | constructor].
  - exists (b :: bs). split; [| constructor; assumption].
    cbn. rewrite Hb. cbn. rewrite Hbs. reflexivity.
Qed.

Lemma Forall_concat_Forall2 {A B} (R : A -> list B -> Prop) (P : B -> Prop) l bss :
  Forall2 R l bss -> (forall a bs, a ∈ l -> R a bs -> Forall P bs) -> Forall P (concat bss).
Proof.
  induction 1 as [| a bs l bss Hr _ IH]; intros HP; [constructor |].
  simpl. apply Forall_app_2.
  - apply (HP a); [left | assumption].
  - apply IH. intros a' bs' Hin. apply HP. right. assumption.
Qed.

Ltac table_entry :=
  first
    [ left; split; [reflexivity | split; [discriminate | auto] ]
    | right; eexists; eexists; split; [reflexivity | discriminate] ].

Lemma pieceMoves_table key moveList :
  pieceMoves key = Some moveList -> Forall tablePattern moveList.
Proof.
  unfold pieceMoves.
  repeat (destruct (key =? _); [intros [= <-]; repeat (apply Forall_cons_2; [table_entry |]);
                                 apply Forall_nil_2 |]).
  discriminate.
Qed.

Lemma pieceMoves_some piece :
  validCode piece = true -> 10 <= piece -> is_Some (pieceMoves (piece / 10)).
Proof.
  unfold validCode. rewrite !andb_true_iff, !Z.leb_le. intros [[H0 H59] _] H10.
  assert (Hk : 1 <= piece / 10 <= 5) by (Z.to_euclidean_division_equations; lia).
  assert (Hcase : piece / 10 = 1 \/ piece / 10 = 2 \/ piece / 10 = 3
                  \/ piece / 10 = 4 \/ piece / 10 = 5) by lia.
  destruct Hcase as [-> | [-> | [-> | [-> | ->]]]]; eexists; reflexivity.
Qed.

(** The squares visited by [getAllMoves] hold the codes they are paired
    with. *)
Lemma ownSquares_spec turn_ board sq piece :
  dims board -> (sq, piece) ∈ ownSquares turn_ board ->
  onBoard sq = true /\ at_ board sq.1 sq.2 = Some piece
  /\ Py.truthy (piece mod 2) = turn_.
Proof.
  intros [Hl Hc] Hin. unfold ownSquares in Hin.
  apply list_elem_of_bind in Hin as ([x column] & Hin & Hx).
  unfold enumerate in Hx. apply elem_of_lookup_imap in Hx as (i & column' & [= -> ->] & Hcol).
  apply list_elem_of_bind in Hin as ([y target] & Hin & Hy).
  apply elem_of_lookup_imap in Hy as (j & target' & [= -> ->] & Htarget).
  destruct target' as [piece' |]; [| apply elem_of_nil in Hin; contradiction].
  destruct (eqb (Py.truthy (piece' mod 2)) turn_) eqn:Hteam;
    [| apply elem_of_nil in Hin; contradiction].
  apply list_elem_of_singleton in Hin as [= -> ->].
  apply lookup_lt_Some in Hcol as Hi.
  pose proof (Forall_lookup_1 _ _ _ _ Hc Hcol) as Hlen. simpl in Hlen.
  apply lookup_lt_Some in Htarget as Hj.
  split; [apply onBoard_range; simpl; lia |].
  split; [| apply eqb_prop; assumption].
  unfold at_. simpl.
  destruct (0 <=? Z.of_nat i) eqn:E1; [| lia].
  destruct (0 <=? Z.of_nat j) eqn:E2; [| lia]. simpl.
  rewrite !Nat2Z.id, Hcol, Htarget. reflexivity.
Qed.

Lemma getAllMovesOn_total turn_ board :
  dims board -> codesOK board ->
  exists moves, getAllMovesOn turn_ board = Some moves
                /\ Forall (generated board turn_) moves.
Proof.
  intros Hd Hv. unfold getAllMovesOn.
  destruct (mapM_total (movesOf turn_ board)
              (fun entry ms => Forall (generated board turn_) ms)
              (ownSquares turn_ board)) as (mss & Hmss & Hall).
  - apply Forall_forall. intros [sq piece] Hin.
    destruct (ownSquares_spec _ _ _ _ Hd Hin) as (Hon & Hat & Hteam).
    pose proof (codesOK_at _ _ _ _ Hv Hat) as Hcode.
    unfold movesOf.
    destruct (10 <=? piece) eqn:Hten.
    + apply Z.leb_le in Hten.
      destruct (pieceMoves_some piece Hcode Hten) as [moveList Hml]. rewrite Hml. simpl.
      destruct (updateRegularMoves_good turn_ sq piece board Hon moveList
                  (pieceMoves_table _ _ Hml)) as (ms & Hms & Hgood).
      exists ms. split; [assumption |].
      eapply Forall_impl; [exact Hgood |].
      intros move (Hsrc & Hdst & Hne & Htag). unfold generated. rewrite Hsrc.
      repeat split; try assumption.
      exists piece. repeat split; try assumption.
      destruct Htag as [Htag | [Hp _]]; [left; assumption | discriminate].
    + apply Z.leb_gt in Hten.
      eexists. split; [reflexivity |].
      eapply Forall_impl; [apply updatePawnMoves_good; assumption |].
      intros move (Hsrc & Hdst & Hne & Htag). unfold generated. rewrite Hsrc.
      repeat split; try assumption.
      exists piece. repeat split; try assumption.
      destruct Htag as [Htag | [_ Htag]]; [left; assumption | right; split; assumption].
  - rewrite Hmss. simpl. eexists. split; [reflexivity |].
    eapply Forall_concat_Forall2; [exact Hall |]. intros entry ms _ Hms. exact Hms.
Qed.

(** ** Applying a generated move keeps the board valid *)

Lemma validCode_range c :
  validCode c = true <-> (0 <= c <= 59 /\ c mod 10 <= 7).
Proof. unfold validCode. rewrite !andb_true_iff, !Z.leb_le. lia. Qed.

Lemma dims_resetDoubleMoved board : dims board -> dims (resetDoubleMoved board).
Proof.
  intros [Hl Hc]. unfold resetDoubleMoved. split.
  - rewrite length_fmap. assumption.
  - apply Forall_fmap. eapply Forall_impl; [exact Hc |].
    intros column Hlen. simpl. rewrite length_fmap. assumption.
Qed.

Lemma validSquare_resetCode piece :
  validSquare piece = true -> validSquare (resetCode piece) = true.
Proof.
  destruct piece as [c |]; [| reflexivity]. simpl.
  destruct (c / 10 =? 0) eqn:Hp; [| trivial].
  apply Z.eqb_eq in Hp. intros _.
  change (validCode (c mod 4) = true). apply validCode_range.
  Z.to_euclidean_division_equations. lia.
Qed.

Lemma codesOK_resetDoubleMoved board : codesOK board -> codesOK (resetDoubleMoved board).
Proof.
  unfold codesOK, resetDoubleMoved. intros Hv.
  apply Forall_fmap. eapply Forall_impl; [exact Hv |].
  intros column Hc. simpl. apply Forall_fmap. eapply Forall_impl; [exact Hc |].
  intros piece. apply validSquare_resetCode.
Qed.

Lemma at_resetDoubleMoved board x y :
  at_ (resetDoubleMoved board) x y = resetCode (at_ board x y).
Proof.
  unfold at_, resetDoubleMoved.
  destruct ((0 <=? x) && (0 <=? y)); [| reflexivity].
  rewrite list_lookup_fmap.
  destruct (board !! Z.to_nat x) as [column |]; [| reflexivity]. simpl.
  rewrite list_lookup_fmap.
  destruct (column !! Z.to_nat y) as [piece |]; reflexivity.
Qed.

Lemma dims_rotateBoard {T} (board : Board T) : dims board -> dims (rotateBoard board).
Proof.
  intros [Hl Hc]. unfold rotateBoard. split.
  - rewrite length_reverse, length_fmap. assumption.
  - apply Forall_reverse, Forall_fmap. eapply Forall_impl; [exact Hc |].
    intros column Hlen. simpl. rewrite length_reverse. assumption.
Qed.

Lemma codesOK_rotateBoard board : codesOK board -> codesOK (rotateBoard board).
Proof.
  unfold codesOK, rotateBoard. intros Hv.
  apply Forall_reverse, Forall_fmap. eapply Forall_impl; [exact Hv |].
  intros column Hc. simpl. apply Forall_reverse. assumption.
Qed.

Lemma promotions_total board :
  dims board -> codesOK board ->
  exists board', mapM (promoteColumn 4) board = Some board'
                 /\ dims board' /\ codesOK board'.
Proof.
  intros [Hl Hc] Hv.
  destruct (mapM_total (promoteColumn 4)
              (fun column column' =>
                 length column' = 8%nat /\ Forall (fun p => validSquare p = true) column')
              board) as (board' & Hb & Hall).
  - apply Forall_forall. intros column Hin.
    rewrite Forall_forall in Hc. specialize (Hc column Hin).
    unfold codesOK in Hv. rewrite Forall_forall in Hv. specialize (Hv column Hin).
    destruct column as [| [piece |] rest]; [discriminate Hc | |].
    + cbn [promoteColumn]. destruct (piece <? 10) eqn:Hp.
      * eexists. split; [reflexivity |]. split; [exact Hc |].
        apply Forall_cons in Hv as [Hpv Hrest]. apply Forall_cons_2; [| assumption].
        simpl in *. apply validCode_range in Hpv. apply validCode_range.
        apply Z.ltb_lt in Hp. Z.to_euclidean_division_equations. lia.
      * eexists. split; [reflexivity |]. split; assumption.
    + eexists. split; [reflexivity |]. split; assumption.
  - exists board'. split; [assumption |].
    apply Forall2_length in Hall as Hlen.
    split; [split; [lia |] |].
    + apply Forall_forall. intros column' Hin.
      apply list_elem_of_lookup in Hin as [i Hi].
      destruct (Forall2_lookup_r _ _ _ _ _ Hall Hi) as (column & _ & [Hlen' _]). assumption.
    + apply Forall_forall. intros column' Hin.
      apply list_elem_of_lookup in Hin as [i Hi].
      destruct (Forall2_lookup_r _ _ _ _ _ Hall Hi) as (column & _ & [_ Hval]). assumption.
Qed.

Lemma applyMove_total board turn_ move :
  dims board -> codesOK board -> generated board turn_ move ->
  exists board', applyMove board move 4 = Some board' /\ dims board' /\ codesOK board'.
Proof.
  intros Hd Hv (Hs & Hdst & Hne & piece & Hat & _ & Htag).
  destruct move as [s d flag]. simpl in *.
  apply onBoard_range in Hs as [Hs1 Hs2]. apply onBoard_range in Hdst as [Hd1 Hd2].
  pose proof (codesOK_at _ _ _ _ Hv Hat) as Hcode.
  apply validCode_range in Hcode as Hrange.
  unfold applyMove.
  rewrite getItem2_at, Hat by assumption. cbn [mbind option_bind].
  rewrite setItem2_setSq by assumption. cbn [mbind option_bind].
  set (b1 := setSq board d.1 d.2 (Some piece)).
  assert (Hd1' : dims b1) by (apply dims_setSq; assumption).
  assert (Hv1 : codesOK b1) by (apply codesOK_setSq; assumption).
  rewrite setItem2_setSq by assumption. cbn [mbind option_bind].
  set (b2 := setSq b1 s.1 s.2 None).
  assert (Hd2' : dims b2) by (apply dims_setSq; assumption).
  assert (Hv2 : codesOK b2) by (apply codesOK_setSq; [assumption | reflexivity]).
  assert (Hat2 : at_ b2 d.1 d.2 = Some piece).
  { unfold b2. rewrite at_setSq by assumption.
    rewrite decide_False by (destruct s, d; simpl in *; congruence).
    unfold b1. rewrite at_setSq by assumption.
    rewrite decide_True by reflexivity. reflexivity. }
  rewrite getItem2_at, Hat2 by assumption. unfold asInt. cbn [mbind option_bind].
  set (cond := ((piece / 10 =? 0) || (piece / 10 =? 1) || (piece / 10 =? 5))
               && (piece mod 10 / 2 mod 2 =? 0)).
  set (piece3 := if cond then piece + 2 else piece).
  assert (Hp3 : validCode piece3 = true /\ (piece < 10 -> piece3 < 10)).
  { unfold piece3. destruct cond eqn:Hcond; [| split; [assumption | trivial]].
    unfold cond in Hcond. apply andb_true_iff in Hcond as [_ Hbit].
    apply Z.eqb_eq in Hbit. rewrite validCode_range.
    Z.to_euclidean_division_equations. lia. }
  destruct Hp3 as [Hcode3 Hpawn3].
  assert (exists b3, (if cond then setItem2 b2 d.1 d.2 (Some (piece + 2)) else Some b2) = Some b3
                     /\ dims b3 /\ codesOK b3 /\ at_ b3 d.1 d.2 = Some piece3)
    as (b3 & -> & Hd3 & Hv3 & Hat3).
  { unfold piece3. destruct cond.
    - rewrite setItem2_setSq by assumption. eexists. split; [reflexivity |].
      split; [apply dims_setSq; assumption |].
      split; [apply codesOK_setSq; assumption |].
      rewrite at_setSq by assumption. rewrite decide_True by reflexivity. reflexivity.
    - eexists. split; [reflexivity |]. auto. }
  cbn [mbind option_bind]. cbv zeta.
  set (b4 := resetDoubleMoved b3).
  assert (Hd4 : dims b4) by (apply dims_resetDoubleMoved; assumption).
  assert (Hv4 : codesOK b4) by (apply codesOK_resetDoubleMoved; assumption).
  destruct Htag as [-> | [Hpawn [-> | ->]]].
  - cbn [mbind option_bind]. apply promotions_total; assumption.
  - rewrite decide_False by discriminate. cbn [mbind option_bind].
    rewrite decide_False by discriminate. cbn [mbind option_bind].
    rewrite decide_True by reflexivity.
    rewrite getItem2_at by assumption.
    assert (Hq : (piece3 / 10 =? 0) = true).
    { apply Z.eqb_eq. specialize (Hpawn3 Hpawn). apply validCode_range in Hcode3.
      Z.to_euclidean_division_equations. lia. }
    assert (Hat4 : at_ b4 d.1 d.2 = Some (piece3 mod 4)).
    { unfold b4. rewrite at_resetDoubleMoved, Hat3. cbn [resetCode]. rewrite Hq. reflexivity. }
    rewrite Hat4. unfold asInt. cbn [mbind option_bind].
    rewrite setItem2_setSq by assumption. cbn [mbind option_bind].
    apply promotions_total; [apply dims_setSq; assumption |].
    apply codesOK_setSq; [assumption |].
    simpl. apply validCode_range. Z.to_euclidean_division_equations. lia.
  - rewrite decide_False by discriminate. cbn [mbind option_bind].
    rewrite decide_False by discriminate. cbn [mbind option_bind].
    rewrite decide_False by discriminate.
    rewrite setItem2_setSq by assumption. cbn [mbind option_bind].
    apply promotions_total; [apply dims_setSq; assumption |].
    apply codesOK_setSq; [assumption | reflexivity].
Qed.

Lemma fakeMove_total self turn_ move :
  dims (vboard self) -> codesOK (vboard self) -> generated (vboard self) turn_ move ->
  exists after, fakeMove self move 4 = Some after
                /\ dims after /\ codesOK after.
Proof.
  intros Hd Hv Hgen. unfold fakeMove.
  destruct (applyMove_total _ _ _ Hd Hv Hgen) as (board' & -> & Hd' & Hv').
  simpl. eexists. split; [reflexivity |].
  split; [apply dims_rotateBoard | apply codesOK_rotateBoard]; assumption.
Qed.

(** ** Removing the collected moves is filtering *)

Lemma listRemove_middle (pre : list Move) move rest :
  move ∉ pre -> listRemove move (pre ++ move :: rest) = Some (pre ++ rest).
Proof.
  induction pre as [| entry pre IH]; intros Hnot; simpl.
  - rewrite decide_True by reflexivity. reflexivity.
  - rewrite decide_False by (intros ->; apply Hnot; left).
    rewrite IH by (intros Hin; apply Hnot; right; assumption). reflexivity.
Qed.

Lemma removeAll_filter (bad : Move -> bool) (pre moves : list Move) :
  Forall (fun move => bad move = false) pre ->
  removeAll (List.filter bad moves) (pre ++ moves)
  = Some (pre ++ List.filter (fun move => negb (bad move)) moves).
Proof.
  revert pre. induction moves as [| move moves IH]; intros pre Hpre; simpl.
  - reflexivity.
  - destruct (bad move) eqn:Hbad; simpl.
    + rewrite listRemove_middle.
      * simpl. apply IH. assumption.
      * intros Hin. rewrite Forall_forall in Hpre. specialize (Hpre _ Hin). congruence.
    + replace (pre ++ move :: moves) with ((pre ++ [move]) ++ moves)
        by (rewrite <- app_assoc; reflexivity).
      rewrite IH.
      * rewrite <- app_assoc. reflexivity.
      * apply Forall_app_2; [assumption |]. apply Forall_cons_2; [assumption | constructor].
Qed.

(** ** The legality filter *)

Lemma getCheck_after self after :
  dims after -> codesOK after ->
  exists replies,
    getAllMovesOn (negb (vturn self)) after = Some replies
    /\ getCheck self (Some after) true
       = Some (existsb (hitsKing after (negb (vturn self))) replies).
Proof.
  intros Hd Hv.
  destruct (getAllMovesOn_total (negb (vturn self)) after Hd Hv) as (replies & Hr & _).
  exists replies. split; [assumption |].
  unfold getCheck. rewrite xorb_true_r.
  assert (Harg : boardArg self (Some after) = after).
  { destruct after as [| column rest]; [destruct Hd; discriminate | reflexivity]. }
  rewrite Harg, Hr. reflexivity.
Qed.

Lemma hitsKing_exists self after replies :
  existsb (hitsKing after (negb (vturn self))) replies = true <->
  exists reply king,
    reply ∈ replies /\ at_ after (dst reply).1 (dst reply).2 = Some king
    /\ king / 10 = 5 /\ Py.truthy (king mod 2) = vturn self.
Proof.
  rewrite existsb_exists. split.
  - intros (reply & Hin & Hhit). unfold hitsKing in Hhit.
    destruct (at_ after (dst reply).1 (dst reply).2) as [king |] eqn:Hat; [| discriminate].
    apply andb_true_iff in Hhit as [Hteam Hking].
    exists reply, king. split; [apply list_elem_of_In; assumption |].
    split; [exact Hat |]. split; [apply Z.eqb_eq; assumption |].
    destruct (Py.truthy (king mod 2)), (vturn self); simpl in Hteam; congruence.
  - intros (reply & king & Hin & Hat & Hking & Hteam).
    exists reply. split; [apply list_elem_of_In; assumption |].
    unfold hitsKing. rewrite Hat, Hteam.
    apply andb_true_iff. split; [destruct (vturn self); reflexivity | apply Z.eqb_eq; assumption].
Qed.

Lemma legality_test self move :
  dims (vboard self) -> codesOK (vboard self) ->
  generated (vboard self) (vturn self) move ->
  (exists after, fakeMove self move 4 = Some after
      /\ getCheck self (Some after) true = Some (leavesInCheck self move))
  /\ (leavesInCheck self move = true <-> kingAttackedAfter self move).
Proof.
  intros Hd Hv Hgen.
  destruct (fakeMove_total self _ move Hd Hv Hgen) as (after & Hafter & Hd' & Hv').
  destruct (getCheck_after self after Hd' Hv') as (replies & Hreplies & Hcheck).
  assert (Hleaves : leavesInCheck self move
                    = existsb (hitsKing after (negb (vturn self))) replies).
  { unfold leavesInCheck. rewrite Hafter. simpl. rewrite Hcheck. reflexivity. }
  split.
  - exists after. split; [assumption |]. rewrite Hleaves. assumption.
  - rewrite Hleaves, hitsKing_exists. split.
    + intros (reply & king & Hin & Hat & Hking & Hteam).
      exists after, replies, reply, king. auto 10.
    + intros (after' & replies' & reply & king & Hafter' & Hreplies' & Hrest).
      rewrite Hafter in Hafter'. injection Hafter' as <-.
      rewrite Hreplies in Hreplies'. injection Hreplies' as <-.
      exists reply, king. assumption.
Qed.

Lemma collectIllegal_filter self moves :
  Forall (fun move => exists after, fakeMove self move 4 = Some after
            /\ getCheck self (Some after) true = Some (leavesInCheck self move)) moves ->
  collectIllegal self moves = Some (List.filter (leavesInCheck self) moves).
Proof.
  induction 1 as [| move moves (after & Hafter & Hcheck) _ IH]; [reflexivity |].
  cbn [collectIllegal]. rewrite Hafter. cbn [mbind option_bind].
  rewrite Hcheck. cbn [mbind option_bind]. rewrite IH. cbn [mbind option_bind].
  simpl. destruct (leavesInCheck self move); reflexivity.
Qed.

(** The legality filter on a valid position, for this and the later
    developments. *)
Lemma legal_moves_core (self : VirtualBoard) :
  dims (vboard self) -> codesOK (vboard self) ->
  exists pseudo,
    getAllMovesOn (vturn self) (vboard self) = Some pseudo
    /\ Forall (generated (vboard self) (vturn self)) pseudo
    /\ getAllLegalMoves self None None
       = Some (List.filter (fun move => negb (leavesInCheck self move)) pseudo).
Proof.
  intros Hd Hv.
  destruct (getAllMovesOn_total (vturn self) (vboard self) Hd Hv) as (pseudo & Hpseudo & Hgen).
  exists pseudo. split; [exact Hpseudo |]. split; [exact Hgen |].
  unfold getAllLegalMoves, turnArg, boardArg. simpl. rewrite Hpseudo. cbn [mbind option_bind].
  rewrite collectIllegal_filter.
  - cbn [mbind option_bind]. apply (removeAll_filter (leavesInCheck self) [] pseudo).
    constructor.
  - eapply Forall_impl; [exact Hgen |]. intros move Hmove.
    apply legality_test; assumption.
Qed.

(** C1. On every valid position the legal move list is computed without an
    exception and equals the pseudo-legal moves, in their order, without
    those after which an opposing pseudo-legal move ends on the square of
    the mover's own king. *)
Theorem legal_moves_are_filtered_pseudo_legal (self : VirtualBoard) :
  validBoard (vboard self) = true ->
  exists pseudo legal (safe : Move -> bool),
    getAllMoves self None None = Some pseudo
    /\ getAllLegalMoves self None None = Some legal
    /\ legal = List.filter safe pseudo
    /\ forall move, move ∈ pseudo ->
         is_Some (fakeMove self move 4)
         /\ (safe move = true <-> ~ kingAttackedAfter self move).
Proof.
  intros Hvalid. apply validBoard_spec in Hvalid as [Hd Hv].
  destruct (legal_moves_core self Hd Hv) as (pseudo & Hpseudo & Hgen & Hlegal).
  exists pseudo, (List.filter (fun move => negb (leavesInCheck self move)) pseudo),
         (fun move => negb (leavesInCheck self move)).
  split; [exact Hpseudo |].
  split; [exact Hlegal |]. split; [reflexivity |].
  intros move Hin. rewrite Forall_forall in Hgen.
  destruct (legality_test self move Hd Hv (Hgen move Hin)) as [(after & Hafter & _) Hiff].
  split; [eexists; eassumption |].
  rewrite negb_true_iff, <- Hiff. destruct (leavesInCheck self move); intuition congruence.
Qed.

Lemma legal_moves_are_filtered_pseudo_legal_witness :
  validBoard (vboard startPosition) = true
  /\ exists pseudo legal (safe : Move -> bool),
       getAllMoves startPosition None None = Some pseudo
       /\ getAllLegalMoves startPosition None None = Some legal
       /\ legal = List.filter safe pseudo
       /\ forall move, move ∈ pseudo ->
            is_Some (fakeMove startPosition move 4)
            /\ (safe move = true <-> ~ kingAttackedAfter startPosition move).
Proof.
  split; [reflexivity |].
  apply (legal_moves_are_filtered_pseudo_legal startPosition). reflexivity.
Defined.

(** ** The fast evaluation, term by term *)

Lemma sumZ_app l1 l2 : sumZ (l1 ++ l2) = sumZ l1 + sumZ l2.
Proof. unfold sumZ. induction l1 as [| z l1 IH]; simpl; lia. Qed.

Lemma sumZ_reverse l : sumZ (reverse l) = sumZ l.
Proof.
  induction l as [| z l IH]; [reflexivity |].
  rewrite reverse_cons, sumZ_app, IH. unfold sumZ. simpl. lia.
Qed.

Lemma concat_rotateBoard {T} (board : Board T) :
  concat (rotateBoard board) = reverse (concat board).
Proof.
  unfold rotateBoard. induction board as [| column board IH]; [reflexivity |].
  rewrite fmap_cons, reverse_cons, concat_app, IH. simpl.
  rewrite app_nil_r, reverse_app. reflexivity.
Qed.

Lemma piecePoints_some piece :
  validCode piece = true -> piece < 50 -> is_Some (piecePoints (piece / 10)).
Proof.
  intros Hv Hp. apply validCode_range in Hv.
  assert (Hcase : piece / 10 = 0 \/ piece / 10 = 1 \/ piece / 10 = 2
                  \/ piece / 10 = 3 \/ piece / 10 = 4)
    by (Z.to_euclidean_division_equations; lia).
  destruct Hcase as [-> | [-> | [-> | [-> | ->]]]]; eexists; reflexivity.
Qed.

Lemma fastSquare_terms turn_ eval piece :
  validSquare piece = true ->
  fastSquare turn_ eval piece
  = Some (eval + (materialOf turn_ piece + 10000 * ownKing turn_ piece)).
Proof.
  destruct piece as [piece |]; simpl; [| intros _; f_equal; lia].
  intros Hv.
  destruct (eqb (Py.truthy (piece mod 2)) turn_), (piece <? 50) eqn:Hp; simpl;
    try (f_equal; lia);
    apply Z.ltb_lt in Hp;
    destruct (piecePoints_some piece Hv Hp) as [pts ->]; simpl; f_equal; lia.
Qed.

Lemma fastColumn_terms turn_ column eval :
  Forall (fun piece => validSquare piece = true) column ->
  foldM (fastSquare turn_) column eval
  = Some (eval + (sumZ (materialOf turn_ <$> column)
                  + 10000 * sumZ (ownKing turn_ <$> column))).
Proof.
  intros Hv. revert eval. induction Hv as [| piece column Hp _ IH]; intros eval.
  - simpl. f_equal. lia.
  - cbn [foldM]. rewrite fastSquare_terms by assumption. cbn [mbind option_bind].
    rewrite IH. f_equal. rewrite !fmap_cons. unfold sumZ. simpl. lia.
Qed.

Lemma fastBoard_terms turn_ board eval :
  codesOK board ->
  foldM (fun eval column => foldM (fastSquare turn_) column eval) board eval
  = Some (eval + (material turn_ board + 10000 * ownKings turn_ board)).
Proof.
  intros Hv. revert eval. induction Hv as [| column board Hc _ IH]; intros eval.
  - simpl. f_equal. unfold material, ownKings. simpl. lia.
  - cbn [foldM]. rewrite fastColumn_terms by assumption. cbn [mbind option_bind].
    rewrite IH. f_equal. unfold material, ownKings. simpl.
    rewrite !fmap_app, !sumZ_app. lia.
Qed.

Lemma materialOf_swap turn_ piece :
  materialOf (negb turn_) piece = - materialOf turn_ piece.
Proof.
  destruct piece as [piece |]; [| reflexivity]. simpl.
  destruct (piece <? 50); [| reflexivity].
  destruct (Py.truthy (piece mod 2)), turn_; simpl; lia.
Qed.

Lemma sumZ_opp (f g : option Z -> Z) l :
  (forall piece, f piece = - g piece) -> sumZ (f <$> l) = - sumZ (g <$> l).
Proof.
  intros Hfg. induction l as [| piece l IH]; [reflexivity |].
  rewrite !fmap_cons. unfold sumZ in *. simpl. rewrite Hfg, IH. lia.
Qed.

(** The material sum changes sign under a swap of sides. *)
Lemma material_swap turn_ board :
  material (negb turn_) (rotateBoard board) = - material turn_ board.
Proof.
  unfold material. rewrite concat_rotateBoard, fmap_reverse, sumZ_reverse.
  apply sumZ_opp. apply materialOf_swap.
Qed.

Lemma getCheck_total self offset :
  dims (vboard self) -> codesOK (vboard self) -> is_Some (getCheck self None offset).
Proof.
  intros Hd Hv. unfold getCheck. simpl.
  destruct (getAllMovesOn_total (xorb (vturn self) offset) (vboard self) Hd Hv)
    as (moves & -> & _).
  eexists. reflexivity.
Qed.

Lemma extras_total self :
  dims (vboard self) -> codesOK (vboard self) -> is_Some (extras self).
Proof.
  intros Hd Hv. unfold extras.
  destruct (legal_moves_core self Hd Hv) as (pseudo & _ & _ & ->).
  destruct (getCheck_total self false Hd Hv) as [own ->].
  destruct (getCheck_total self true Hd Hv) as [offset ->].
  eexists. reflexivity.
Qed.

(** C6 as amended. On every valid board the fast evaluation is the signed
    material sum, plus 10000 for each own king less one, plus the mover's
    mobility and check term, plus 100; the same holds for the position with
    the sides swapped, whose material sum is the negated one.  The other
    terms are the mover's alone and are not negated. *)
Theorem fast_eval_terms (self : VirtualBoard) :
  validBoard (vboard self) = true ->
  exists extra extra',
    extras self = Some extra
    /\ extras (swapSides self) = Some extra'
    /\ boardEval self true
       = Some (material (vturn self) (vboard self)
               + 10000 * (ownKings (vturn self) (vboard self) - 1) + extra + 100)
    /\ boardEval (swapSides self) true
       = Some (- material (vturn self) (vboard self)
               + 10000 * (ownKings (negb (vturn self)) (rotateBoard (vboard self)) - 1)
               + extra' + 100).
Proof.
  intros Hvalid. apply validBoard_spec in Hvalid as [Hd Hv].
  assert (Hd' : dims (vboard (swapSides self))) by (apply dims_rotateBoard; assumption).
  assert (Hv' : codesOK (vboard (swapSides self))) by (apply codesOK_rotateBoard; assumption).
  destruct (extras_total self Hd Hv) as [extra Hextra].
  destruct (extras_total (swapSides self) Hd' Hv') as [extra' Hextra'].
  exists extra, extra'. split; [assumption |]. split; [assumption |].
  unfold boardEval. rewrite !fastBoard_terms by assumption.
  cbn [mbind option_bind]. rewrite Hextra, Hextra'. cbn [mbind option_bind].
  simpl vturn. simpl vboard. rewrite material_swap.
  split; f_equal; lia.
Qed.

Lemma fast_eval_terms_witness :
  validBoard (vboard startPosition) = true
  /\ exists extra extra',
       extras startPosition = Some extra
       /\ extras (swapSides startPosition) = Some extra'
       /\ boardEval startPosition true
          = Some (material (vturn startPosition) (vboard startPosition)
                  + 10000 * (ownKings (vturn startPosition) (vboard startPosition) - 1)
                  + extra + 100)
       /\ boardEval (swapSides startPosition) true
          = Some (- material (vturn startPosition) (vboard startPosition)
                  + 10000 * (ownKings (negb (vturn startPosition))
                                       (rotateBoard (vboard startPosition)) - 1)
                  + extra' + 100).
Proof.
  split; [reflexivity |].
  apply (fast_eval_terms startPosition). reflexivity.
Defined.

(** ** Move ordering is a sorted permutation *)

Lemma mapM_fmap_total {A B} (f : A -> option B) (g : A -> B) (l : list A) :
  Forall (fun a => f a = Some (g a)) l -> mapM f l = Some (g <$> l).
Proof.
  induction 1 as [| a l Ha _ IH]; [reflexivity |].
  cbn. rewrite Ha. cbn. rewrite IH. reflexivity.
Qed.

Lemma takenKey_keyOf board move :
  dims board -> codesOK board -> onBoard (dst move) = true ->
  takenKey board move = Some (keyOf board move) /\ keyOf board move ∈ takenKeys.
Proof.
  intros Hd Hv Hon. apply onBoard_range in Hon as [Hx Hy].
  unfold takenKey, keyOf, capturedValue.
  rewrite getItem2_at by assumption. cbn [mbind option_bind].
  destruct (at_ board (dst move).1 (dst move).2) as [piece |] eqn:Hat.
  - apply codesOK_at in Hat; [| assumption]. apply validCode_range in Hat.
    assert (Hin : Taken (piece / 10) ∈ takenKeys).
    { assert (Hcase : piece / 10 = 0 \/ piece / 10 = 1 \/ piece / 10 = 2
                      \/ piece / 10 = 3 \/ piece / 10 = 4 \/ piece / 10 = 5)
        by (Z.to_euclidean_division_equations; lia).
      unfold takenKeys.
      destruct Hcase as [-> | [-> | [-> | [-> | [-> | ->]]]]];
        apply list_elem_of_In; simpl; auto 10. }
    rewrite decide_True by assumption. split; [reflexivity | assumption].
  - destruct (decide (tag move = Some TagE)); (split; [reflexivity |]);
      unfold takenKeys; apply list_elem_of_In; simpl; auto 10.
Qed.

Lemma bucket_keyed board (moves : list Move) key :
  snd <$> filter (fun entry : TakenKey * Move => entry.1 = key)
                 ((fun move => (keyOf board move, move)) <$> moves)
  = filter (fun move => keyOf board move = key) moves.
Proof.
  induction moves as [| move moves IH]; [reflexivity |].
  rewrite fmap_cons.
  destruct (decide (keyOf board move = key)) as [Heq | Hne].
  - rewrite !filter_cons_True by exact Heq. rewrite fmap_cons, IH. reflexivity.
  - rewrite !filter_cons_False by exact Hne. exact IH.
Qed.

(** *** The stable sort *)

Lemma insertByProx_perm move sorted : insertByProx move sorted ≡ₚ move :: sorted.
Proof.
  induction sorted as [| other sorted IH]; [reflexivity |]. simpl.
  destruct (prox2 move <=? prox2 other); [reflexivity |].
  rewrite IH. apply perm_swap.
Qed.

Lemma sortByProx_perm moves : sortByProx moves ≡ₚ moves.
Proof.
  induction moves as [| move moves IH]; [reflexivity |]. simpl.
  rewrite insertByProx_perm, IH. reflexivity.
Qed.

Lemma insertByProx_sorted move sorted :
  StronglySorted proxLe sorted -> StronglySorted proxLe (insertByProx move sorted).
Proof.
  induction 1 as [| other sorted Hs IH Hall]; simpl.
  - repeat constructor.
  - destruct (prox2 move <=? prox2 other) eqn:Hle.
    + apply Z.leb_le in Hle. constructor; [constructor; assumption |].
      constructor; [exact Hle |].
      eapply Forall_impl; [exact Hall |]. unfold proxLe. intros m Hm. simpl in Hm. lia.
    + apply Z.leb_gt in Hle. constructor; [assumption |].
      rewrite insertByProx_perm.
      apply Forall_cons_2; [unfold proxLe; lia | assumption].
Qed.

Lemma sortByProx_sorted moves : StronglySorted proxLe (sortByProx moves).
Proof.
  induction moves as [| move moves IH]; simpl; [constructor |].
  apply insertByProx_sorted. assumption.
Qed.

(** *** One group *)

Lemma StronglySorted_weaken {A} (R1 R2 : A -> A -> Prop) (P : A -> Prop) l :
  StronglySorted R1 l -> Forall P l ->
  (forall x y, P x -> P y -> R1 x y -> R2 x y) -> StronglySorted R2 l.
Proof.
  intros Hs HP HR. induction Hs as [| x l Hs IH Hall]; [constructor |].
  apply Forall_cons in HP as [Hx Hl].
  constructor; [apply IH; assumption |].
  rewrite Forall_forall in *. intros y Hy. apply HR; auto.
Qed.

Lemma group_sorted board (group : list Move) key :
  Forall (fun move => keyOf board move = key) group ->
  StronglySorted (precedes board)
    (sortByProx (filter (fun move => isSpecial move = true) group)
     ++ sortByProx (filter (fun move => isSpecial move = false) group)).
Proof.
  intros Hkey.
  assert (Hsub : forall (flag : bool) move,
            move ∈ sortByProx (filter (fun move => isSpecial move = flag) group) ->
            isSpecial move = flag /\ keyOf board move = key).
  { intros flag move Hin. rewrite sortByProx_perm in Hin.
    apply list_elem_of_filter in Hin as [Hflag Hin].
    rewrite Forall_forall in Hkey. auto. }
  assert (Hpart : forall flag : bool,
            StronglySorted (precedes board)
              (sortByProx (filter (fun move => isSpecial move = flag) group))).
  { intros flag.
    apply (StronglySorted_weaken proxLe _
             (fun move => isSpecial move = flag /\ keyOf board move = key));
      [apply sortByProx_sorted | apply Forall_forall; apply Hsub |].
    intros x y [Hx Hkx] [Hy Hky] Hle. right.
    split; [congruence |]. right. split; [congruence | exact Hle]. }
  apply StronglySorted_app_2; [| apply Hpart | apply Hpart].
  intros x y Hx Hy. apply Hsub in Hx as [Hx Hkx]. apply Hsub in Hy as [Hy Hky].
  right. split; [congruence |]. left. auto.
Qed.

(** *** All groups *)

Lemma groups_sorted {A} (R : A -> A -> Prop) (keys : list TakenKey)
    (group : TakenKey -> list A) (keyOfA : A -> TakenKey) :
  StronglySorted keyBefore keys ->
  (forall key, StronglySorted R (group key)) ->
  (forall key x, x ∈ group key -> keyOfA x = key) ->
  (forall x y, keyBefore (keyOfA x) (keyOfA y) -> R x y) ->
  StronglySorted R (keys ≫= group).
Proof.
  intros Hkeys Hgroup Hmem Hcross.
  induction Hkeys as [| key keys Hs IH Hall]; [constructor |].
  rewrite bind_cons. apply StronglySorted_app_2; [| apply Hgroup | apply IH].
  intros x y Hx Hy. apply Hcross.
  apply Hmem in Hx. apply list_elem_of_bind in Hy as (key' & Hy & Hkey').
  apply Hmem in Hy. rewrite Hx, Hy.
  rewrite Forall_forall in Hall. apply Hall. assumption.
Qed.

Lemma takenKeys_sorted : StronglySorted keyBefore takenKeys.
Proof.
  unfold takenKeys.
  repeat (constructor; [| repeat (apply Forall_cons_2; [simpl; try lia; exact I |]);
                          apply Forall_nil_2]).
  constructor.
Qed.

Lemma takenKeys_NoDup : NoDup takenKeys.
Proof.
  unfold takenKeys.
  repeat (constructor; [rewrite list_elem_of_In; simpl; intuition discriminate |]).
  constructor.
Qed.

Lemma groups_skip {A} `{EqDecision K} (keyOfA : A -> K) (keys : list K) x l :
  keyOfA x ∉ keys ->
  keys ≫= (fun key => filter (fun y => keyOfA y = key) (x :: l))
  = keys ≫= (fun key => filter (fun y => keyOfA y = key) l).
Proof.
  induction keys as [| key keys IH]; intros Hnot; [reflexivity |].
  rewrite !bind_cons, filter_cons_False by (intros <-; apply Hnot; left).
  rewrite IH by (intros Hin; apply Hnot; right; assumption). reflexivity.
Qed.

Lemma groups_insert {A} `{EqDecision K} (keyOfA : A -> K) (keys : list K) x l :
  NoDup keys -> keyOfA x ∈ keys ->
  keys ≫= (fun key => filter (fun y => keyOfA y = key) (x :: l))
  ≡ₚ x :: (keys ≫= (fun key => filter (fun y => keyOfA y = key) l)).
Proof.
  induction 1 as [| key keys Hnot Hnd IH]; intros Hin; [inversion Hin |].
  rewrite !bind_cons.
  destruct (decide (keyOfA x = key)) as [Heq | Hne].
  - rewrite filter_cons_True by assumption.
    rewrite groups_skip by (rewrite Heq; assumption). reflexivity.
  - rewrite filter_cons_False by assumption.
    rewrite IH by (apply elem_of_cons in Hin as [Hin | Hin]; [congruence | assumption]).
    symmetry. apply Permutation_middle.
Qed.

Lemma groups_perm {A} `{EqDecision K} (keyOfA : A -> K) (keys : list K) l :
  NoDup keys -> Forall (fun x => keyOfA x ∈ keys) l ->
  keys ≫= (fun key => filter (fun y => keyOfA y = key) l) ≡ₚ l.
Proof.
  intros Hnd. induction 1 as [| x l Hx _ IH].
  - induction keys as [| key keys IHk]; [reflexivity |].
    rewrite bind_cons. simpl. apply IHk. inversion Hnd; assumption.
  - rewrite groups_insert by assumption. rewrite IH. reflexivity.
Qed.

Lemma bind_pointwise_perm {A B} (f g : A -> list B) (l : list A) :
  (forall x, f x ≡ₚ g x) -> l ≫= f ≡ₚ l ≫= g.
Proof.
  intros Hfg. induction l as [| x l IH]; [reflexivity |].
  rewrite !bind_cons, Hfg, IH. reflexivity.
Qed.

Lemma special_split (group : list Move) :
  sortByProx (filter (fun move => isSpecial move = true) group)
  ++ sortByProx (filter (fun move => isSpecial move = false) group) ≡ₚ group.
Proof.
  rewrite !sortByProx_perm.
  induction group as [| move group IH]; [reflexivity |].
  rewrite !filter_cons.
  destruct (isSpecial move) eqn:Hs.
  - rewrite decide_True by reflexivity. rewrite decide_False by discriminate.
    simpl. rewrite IH. reflexivity.
  - rewrite decide_False by discriminate. rewrite decide_True by reflexivity.
    rewrite <- Permutation_middle, IH. reflexivity.
Qed.

(** C7 as amended. For every valid board and every list of moves that end
    on the board, [__orderMoves] returns a permutation of the list in which
    the captures come first, ordered by the falling piece value (5 king,
    4 queen, 3 bishop, 2 knight, 1 rook, 0 pawn) of the captured piece, an
    en passant move counting as the capture of a pawn, then the moves that
    capture nothing; inside each group the flagged moves precede the plain
    ones, and each of the two parts is ordered by the distance to the
    centre files. *)
Theorem orderMoves_sorted_permutation (board : Board Z) (moves : list Move) :
  validBoard board = true ->
  forallb (fun move => onBoard (dst move)) moves = true ->
  exists final,
    orderMoves board moves = Some final
    /\ Permutation moves final
    /\ StronglySorted (precedes board) final.
Proof.
  intros Hvalid Hmoves. apply validBoard_spec in Hvalid as [Hd Hv].
  rewrite forallb_forall in Hmoves.
  assert (Hkeys : Forall (fun move => takenKey board move = Some (keyOf board move)
                                      /\ keyOf board move ∈ takenKeys) moves).
  { apply Forall_forall. intros move Hin. apply takenKey_keyOf; try assumption.
    apply Hmoves. apply list_elem_of_In. assumption. }
  unfold orderMoves.
  rewrite (mapM_fmap_total _ (fun move => (keyOf board move, move))).
  2: { eapply Forall_impl; [exact Hkeys |]. intros move [-> _]. reflexivity. }
  cbn [mbind option_bind].
  set (group := fun key => filter (fun move => keyOf board move = key) moves).
  assert (Hfinal : takenKeys ≫= bucket ((fun move => (keyOf board move, move)) <$> moves)
                   = takenKeys ≫= (fun key =>
                       sortByProx (filter (fun move => isSpecial move = true) (group key))
                       ++ sortByProx (filter (fun move => isSpecial move = false) (group key)))).
  { apply list_bind_ext; [| reflexivity]. intros key. unfold bucket.
    rewrite bucket_keyed. reflexivity. }
  eexists. split; [reflexivity |]. rewrite Hfinal. split.
  - symmetry. etransitivity.
    + apply (bind_pointwise_perm _ group). intros key. apply special_split.
    + apply groups_perm; [apply takenKeys_NoDup |].
      eapply Forall_impl; [exact Hkeys |]. intros move [_ Hin]. exact Hin.
  - apply (groups_sorted _ _ _ (keyOf board)).
    + apply takenKeys_sorted.
    + intros key. apply (group_sorted board (group key) key).
      apply Forall_forall. intros move Hin. unfold group in Hin.
      apply list_elem_of_filter in Hin as [Hkey _]. exact Hkey.
    + intros key move Hin. rewrite special_split in Hin. unfold group in Hin.
      apply list_elem_of_filter in Hin as [Hkey _]. exact Hkey.
    + intros x y Hxy. left. exact Hxy.
Qed.

Lemma orderMoves_sorted_permutation_witness :
  validBoard (vboard captureChoice) = true
  /\ forallb (fun move => onBoard (dst move))
             [mkMove (3, 3) (3, 0) None; mkMove (3, 3) (0, 3) None;
              mkMove (5, 7) (5, 6) None] = true
  /\ exists final,
       orderMoves (vboard captureChoice)
                  [mkMove (3, 3) (3, 0) None; mkMove (3, 3) (0, 3) None;
                   mkMove (5, 7) (5, 6) None] = Some final
       /\ Permutation [mkMove (3, 3) (3, 0) None; mkMove (3, 3) (0, 3) None;
                       mkMove (5, 7) (5, 6) None] final
       /\ StronglySorted (precedes (vboard captureChoice)) final.
Proof.
  split; [reflexivity |]. split; [reflexivity |].
  apply (orderMoves_sorted_permutation (vboard captureChoice)); reflexivity.
Defined.

(** ** The start of a search *)

Section SearchStart.
Variable clock : nat -> Q.

(** At the start of a search on a board with a legal move, the best move
    becomes the first legal move, nothing is played, and the two flags are
    cleared. *)
Lemma startThinking_first_legal (board : VirtualBoard) (w : World) first rest :
  getAllLegalMoves board None None = Some (first :: rest) ->
  exists w',
    startThinking clock board w = (Some tt, w')
    /\ bestMove (engine w') = Some first
    /\ thinkingTime (engine w') = clock (ticks w)
    /\ moveComplete (engine w') = false
    /\ moveMade (engine w') = false
    /\ ROE (engine w') = ROE (engine w)
    /\ maxDepth (engine w') = maxDepth (engine w)
    /\ ticks w' = S (ticks w)
    /\ played w' = played w.
Proof.
  intros Hlegal. destruct w as [e t p].
  unfold startThinking, setBestMove, mbind, Run_bind, bind, perf_counter, getEngine,
    setEngine, lift. simpl.
  rewrite Hlegal. simpl.
  eexists. split; [reflexivity |]. simpl. repeat split; reflexivity.
Qed.

(** When the budget is found exhausted at the first test of the outermost
    call, the first legal move is played. *)
Lemma forced_at_root_plays_first (board : VirtualBoard) (w : World) first rest depth' :
  validBoard (vboard board) = true ->
  getAllLegalMoves board None None = Some (first :: rest) ->
  maxDepth (engine w) = S depth' ->
  Qle_bool (ROE (engine w)) (clock (S (ticks w)) - clock (ticks w)) = true ->
  exists promote w',
    takeTurn clock board w = (Some (Some (-10000)), w')
    /\ played w' = played w ++ [(first, promote)]
    /\ moveMade (engine w') = true.
Proof.
  intros Hvalid Hlegal Hdepth Hlate.
  apply validBoard_spec in Hvalid as [Hd Hv].
  destruct (legal_moves_core board Hd Hv) as (pseudo & _ & Hgen & Hfilter).
  rewrite Hlegal in Hfilter. injection Hfilter as Hfilter.
  assert (Hin : first ∈ pseudo).
  { apply list_elem_of_In.
    apply (proj1 (filter_In (fun move => negb (leavesInCheck board move)) first pseudo)).
    rewrite <- Hfilter. left. reflexivity. }
  rewrite Forall_forall in Hgen.
  destruct (Hgen first Hin) as (Hsrc & _ & _ & piece & Hat & _).
  apply onBoard_range in Hsrc as [Hx Hy].
  assert (Hget : getItem2 (vboard board) (src first).1 (src first).2 = Some (Some piece)).
  { rewrite getItem2_at by assumption. rewrite Hat. reflexivity. }
  destruct (startThinking_first_legal board w first rest Hlegal)
    as (w1 & Hstart & Hbest & Htime & Hcomplete & Hmade & Hroe & Hmax & Hticks & Hplayed).
  exists ((piece <? 10) && ((dst first).2 =? 0)).
  unfold takeTurn, mbind, Run_bind, bind, getEngine. cbn beta iota.
  rewrite Hdepth. cbn [takeTurnAt].
  unfold mbind, Run_bind, bind, getEngine. cbn beta iota.
  rewrite Hdepth, Nat.eqb_refl, Hstart.
  destruct w1 as [e1 t1 p1]. simpl in *. subst t1 p1.
  rewrite Htime, Hroe, Hlate.
  unfold forceMove, promotionTest, makeAMove, stopThinking, play, mbind, Run_bind, bind,
    getEngine, setEngine, perf_counter, lift, ret. simpl.
  rewrite Hbest. simpl. rewrite Hget. simpl. rewrite Hmade. simpl.
  rewrite Hbest. simpl.
  eexists. split; [reflexivity |]. simpl. split; reflexivity.
Qed.

End SearchStart.

(** ** En passant on the live representation *)

Section LiveEnPassant.
Variables (tm : bool) (sq : Square) (agent : Piece) (board : Board Piece).

Lemma live_pawnCapture_en_passant (toAdd : Square) :
  mkLiveMove toAdd (Some TagE) agent ∈ pawnCapture tm (-1) sq agent board toAdd
  <-> onBoard toAdd = true
      /\ at_ board toAdd.1 toAdd.2 = None
      /\ exists target, at_ board toAdd.1 (toAdd.2 + 1) = Some target
           /\ kind target = Pawn /\ doubleMoved target = Some true
           /\ team target <> tm.
Proof.
  unfold pawnCapture. fold (onBoard toAdd).
  replace (toAdd.2 - -1) with (toAdd.2 + 1) by lia.
  destruct (onBoard toAdd); [| split; [intros Hin; inversion Hin | intros [? _]; discriminate]].
  destruct (at_ board toAdd.1 toAdd.2) as [occupant |].
  { split; [| intros (_ & ? & _); discriminate].
    destruct (negb _); intros Hin; [| inversion Hin].
    apply list_elem_of_singleton in Hin. discriminate. }
  destruct (at_ board toAdd.1 (toAdd.2 + 1)) as [target |].
  2: { split; [intros Hin; inversion Hin | intros (_ & _ & ? & ? & _); discriminate]. }
  simpl.
  destruct (kind target) eqn:Hkind;
    try (split; [intros Hin; inversion Hin
                | intros (_ & _ & ? & [= <-] & ? & _); congruence]).
  destruct (doubleMoved target) as [[|] |] eqn:Hdouble; simpl;
    try (split; [intros Hin; inversion Hin
                | intros (_ & _ & ? & [= <-] & _ & ? & _); congruence]).
  destruct (eqb (team target) tm) eqn:Hteam; simpl.
  - split; [intros Hin; inversion Hin |].
    intros (_ & _ & ? & [= <-] & _ & _ & Hne). apply eqb_prop in Hteam. contradiction.
  - split; [| intros _; left].
    intros _. repeat split. exists target. repeat split; try assumption.
    intros Heq. rewrite Heq, eqb_reflx in Hteam. discriminate.
Qed.

(** On live pieces the moves of a pawn of the side to move contain the
    en passant capture onto the diagonal square beside [side]
    (-1 or 1) exactly when that square is on the board and empty and the
    square beside the pawn holds an enemy pawn whose double-move flag is
    set. *)
Lemma live_en_passant_iff (side : Z) :
  side = -1 \/ side = 1 ->
  mkLiveMove (sq.1 + side, sq.2 - 1) (Some TagE) agent
    ∈ updatePawnMoves tm tm sq agent board
  <-> onBoard (sq.1 + side, sq.2 - 1) = true
      /\ at_ board (sq.1 + side) (sq.2 - 1) = None
      /\ exists target, at_ board (sq.1 + side) sq.2 = Some target
           /\ kind target = Pawn /\ doubleMoved target = Some true
           /\ team target <> tm.
Proof.
  intros Hside. unfold updatePawnMoves. rewrite eqb_reflx.
  replace (sq.2 + -1) with (sq.2 - 1) by lia.
  rewrite !elem_of_app.
  assert (Hforward : ~ mkLiveMove (sq.1 + side, sq.2 - 1) (Some TagE) agent
                       ∈ (if onBoard (sq.1, sq.2 - 1) && freeCheck [(sq.1, sq.2 - 1)] board
                          then addMove sq agent (sq.1, sq.2 - 1) None
                               :: (if negb (getMovedEver agent)
                                   then if onBoard (sq.1, sq.2 + 2 * -1)
                                           && freeCheck [(sq.1, sq.2 + 2 * -1)] board
                                        then [addMove sq agent (sq.1, sq.2 + 2 * -1) (Some TagD)]
                                        else []
                                   else [])
                          else [])).
  { intros Hin.
    destruct (onBoard (sq.1, sq.2 - 1) && _); [| inversion Hin].
    apply elem_of_cons in Hin as [Hin | Hin]; [discriminate |].
    destruct (negb _); [| inversion Hin].
    destruct (onBoard (sq.1, sq.2 + 2 * -1) && _); [| inversion Hin].
    apply list_elem_of_singleton in Hin. discriminate. }
  pose proof (live_pawnCapture_en_passant (sq.1 + side, sq.2 - 1)) as Hhere.
  cbn [fst snd] in Hhere. replace (sq.2 - 1 + 1) with sq.2 in Hhere by lia.
  assert (Hother : forall other, other <> side ->
            ~ mkLiveMove (sq.1 + side, sq.2 - 1) (Some TagE) agent
                ∈ pawnCapture tm (-1) sq agent board (sq.1 + other, sq.2 - 1)).
  { intros other Hne Hin. unfold pawnCapture in Hin.
    destruct (_ && _) in Hin; [| inversion Hin].
    destruct (at_ board _ _) in Hin.
    - destruct (negb _) in Hin; [| inversion Hin].
      apply list_elem_of_singleton in Hin. discriminate.
    - destruct (at_ board _ _) in Hin; [| inversion Hin].
      destruct (_ && _) in Hin; [| inversion Hin].
      apply list_elem_of_singleton in Hin. injection Hin as Hx. lia. }
  destruct Hside as [-> | ->].
  - replace (sq.1 - 1) with (sq.1 + -1) by lia.
    specialize (Hother 1 ltac:(lia)). tauto.
  - replace (sq.1 - 1) with (sq.1 + -1) by lia.
    specialize (Hother (-1) ltac:(lia)). tauto.
Qed.

End LiveEnPassant.

(** ** En passant on the integer representation, in general *)

Section IntEnPassant.
Variables (tm : bool) (sq : Square) (agent : Z) (board : Board Z).

Lemma int_pawnCapture_en_passant (toAdd : Square) :
  mkMove sq toAdd (Some TagE) ∈ pawnCapture tm (-1) sq agent board toAdd
  <-> onBoard toAdd = true
      /\ at_ board toAdd.1 toAdd.2 = None
      /\ exists target, at_ board toAdd.1 (toAdd.2 + 1) = Some target
           /\ target / 10 = 5 /\ (target mod 10) / 4 <> 0
           /\ Py.truthy (target mod 2) <> tm.
Proof.
  unfold pawnCapture. fold (onBoard toAdd).
  replace (toAdd.2 - -1) with (toAdd.2 + 1) by lia.
  destruct (onBoard toAdd); [| split; [intros Hin; inversion Hin | intros [? _]; discriminate]].
  destruct (at_ board toAdd.1 toAdd.2) as [occupant |].
  { split; [| intros (_ & ? & _); discriminate].
    destruct (negb _); intros Hin; [| inversion Hin].
    apply list_elem_of_singleton in Hin. discriminate. }
  destruct (at_ board toAdd.1 (toAdd.2 + 1)) as [target |].
  2: { split; [intros Hin; inversion Hin | intros (_ & _ & ? & ? & _); discriminate]. }
  cbn [isPawn getDoubleMoved getTeam addMove IntAgent]. unfold Py.truthy.
  destruct (target / 10 =? 5) eqn:Hking; simpl.
  2: { split; [intros Hin; inversion Hin |].
       intros (_ & _ & ? & [= <-] & ? & _). lia. }
  destruct ((target mod 10) / 4 =? 0) eqn:Hflag; simpl.
  { split; [intros Hin; inversion Hin |].
    intros (_ & _ & ? & [= <-] & _ & ? & _). lia. }
  destruct (eqb (negb (target mod 2 =? 0)) tm) eqn:Hteam; simpl.
  - split; [intros Hin; inversion Hin |].
    intros (_ & _ & ? & [= <-] & _ & _ & Hne). apply eqb_prop in Hteam. contradiction.
  - split; [| intros _; left].
    intros _. repeat split. exists target. repeat split; try lia.
    intros Heq. rewrite Heq, eqb_reflx in Hteam. discriminate.
Qed.

(** On integer codes the moves of a pawn of the side to move contain the
    en passant capture onto the diagonal square beside [side] (-1 or 1)
    exactly when that square is on the board and empty and the square
    beside the pawn holds an enemy code of piece value 5, a king's, whose
    bit 4 is set. *)
Lemma int_en_passant_iff (side : Z) :
  side = -1 \/ side = 1 ->
  mkMove sq (sq.1 + side, sq.2 - 1) (Some TagE) ∈ updatePawnMoves tm tm sq agent board
  <-> onBoard (sq.1 + side, sq.2 - 1) = true
      /\ at_ board (sq.1 + side) (sq.2 - 1) = None
      /\ exists target, at_ board (sq.1 + side) sq.2 = Some target
           /\ target / 10 = 5 /\ (target mod 10) / 4 <> 0
           /\ Py.truthy (target mod 2) <> tm.
Proof.
  intros Hside. unfold updatePawnMoves. rewrite eqb_reflx.
  replace (sq.2 + -1) with (sq.2 - 1) by lia.
  rewrite !elem_of_app.
  assert (Hforward : ~ mkMove sq (sq.1 + side, sq.2 - 1) (Some TagE)
                       ∈ (if onBoard (sq.1, sq.2 - 1) && freeCheck [(sq.1, sq.2 - 1)] board
                          then addMove sq agent (sq.1, sq.2 - 1) None
                               :: (if negb (getMovedEver agent)
                                   then if onBoard (sq.1, sq.2 + 2 * -1)
                                           && freeCheck [(sq.1, sq.2 + 2 * -1)] board
                                        then [addMove sq agent (sq.1, sq.2 + 2 * -1) (Some TagD)]
                                        else []
                                   else [])
                          else [])).
  { intros Hin.
    destruct (onBoard (sq.1, sq.2 - 1) && _); [| inversion Hin].
    apply elem_of_cons in Hin as [Hin | Hin]; [discriminate |].
    destruct (negb _); [| inversion Hin].
    destruct (onBoard (sq.1, sq.2 + 2 * -1) && _); [| inversion Hin].
    apply list_elem_of_singleton in Hin. discriminate. }
  pose proof (int_pawnCapture_en_passant (sq.1 + side, sq.2 - 1)) as Hhere.
  cbn [fst snd] in Hhere. replace (sq.2 - 1 + 1) with sq.2 in Hhere by lia.
  assert (Hother : forall other, other <> side ->
            ~ mkMove sq (sq.1 + side, sq.2 - 1) (Some TagE)
                ∈ pawnCapture tm (-1) sq agent board (sq.1 + other, sq.2 - 1)).
  { intros other Hne Hin. unfold pawnCapture in Hin.
    destruct (_ && _) in Hin; [| inversion Hin].
    destruct (at_ board _ _) in Hin.
    - destruct (negb _) in Hin; [| inversion Hin].
      apply list_elem_of_singleton in Hin. discriminate.
    - destruct (at_ board _ _) in Hin; [| inversion Hin].
      destruct (_ && _) in Hin; [| inversion Hin].
      apply list_elem_of_singleton in Hin. injection Hin as Hx. lia. }
  destruct Hside as [-> | ->].
  - replace (sq.1 - 1) with (sq.1 + -1) by lia.
    specialize (Hother 1 ltac:(lia)). tauto.
  - replace (sq.1 - 1) with (sq.1 + -1) by lia.
    specialize (Hother (-1) ltac:(lia)). tauto.
Qed.

(** So no en passant capture is generated beside a pawn, whatever its
    flags: a pawn's code has piece value 0. *)
Lemma int_no_en_passant_beside_pawn (side target : Z) :
  side = -1 \/ side = 1 ->
  at_ board (sq.1 + side) sq.2 = Some target -> target / 10 = 0 ->
  mkMove sq (sq.1 + side, sq.2 - 1) (Some TagE) ∉ updatePawnMoves tm tm sq agent board.
Proof.
  intros Hside Htarget Hpawn Hin.
  apply (int_en_passant_iff side Hside) in Hin as (_ & _ & target' & Hat & Hking & _).
  rewrite Htarget in Hat. injection Hat as <-. lia.
Qed.

End IntEnPassant.

(** *** Python indices as places *)

Lemma index_position {A} (l : list A) i :
  Py.index l i = n ← position (length l) i; l !! n.
Proof.
  unfold Py.index, position. cbv zeta.
  destruct ((0 <=? i) && (i <? Z.of_nat (length l))); [reflexivity |].
  destruct ((- Z.of_nat (length l) <=? i) && (i <? 0)); reflexivity.
Qed.

Lemma setitem_position {A} (l : list A) i x :
  Py.setitem l i x = n ← position (length l) i; Some (<[n := x]> l).
Proof.
  unfold Py.setitem, position. cbv zeta.
  destruct ((0 <=? i) && (i <? Z.of_nat (length l))); [reflexivity |].
  destruct ((- Z.of_nat (length l) <=? i) && (i <? 0)); reflexivity.
Qed.

Lemma position_of_nat n k : (k < n)%nat -> position n (Z.of_nat k) = Some k.
Proof.
  intros Hlt. unfold position.
  replace ((0 <=? Z.of_nat k) && (Z.of_nat k <? Z.of_nat n)) with true by lia.
  rewrite Nat2Z.id. reflexivity.
Qed.

Lemma index_fmap {A B} (f : A -> B) (l : list A) i :
  Py.index (f <$> l) i = f <$> Py.index l i.
Proof.
  rewrite !index_position, length_fmap.
  destruct (position (length l) i) as [n |]; [| reflexivity].
  simpl. apply list_lookup_fmap.
Qed.

Lemma setitem_fmap {A B} (f : A -> B) (l : list A) i x :
  Py.setitem (f <$> l) i (f x) = (fun l' : list A => f <$> l') <$> Py.setitem l i x.
Proof.
  rewrite !setitem_position, length_fmap.
  destruct (position (length l) i) as [n |]; [| reflexivity].
  simpl. rewrite list_fmap_insert. reflexivity.
Qed.

Lemma index_middle {A} (done rest : list A) x :
  Py.index (done ++ x :: rest) (Z.of_nat (length done)) = Some x.
Proof.
  rewrite index_position, position_of_nat by (rewrite length_app; simpl; lia).
  simpl. apply list_lookup_middle. reflexivity.
Qed.

Lemma setitem_middle {A} (done rest : list A) x v :
  Py.setitem (done ++ x :: rest) (Z.of_nat (length done)) v = Some (done ++ v :: rest).
Proof.
  rewrite setitem_position, position_of_nat by (rewrite length_app; simpl; lia).
  simpl. rewrite insert_app_r_alt by lia. rewrite Nat.sub_diag. reflexivity.
Qed.

(** *** The statements on the array and the functions of the value model *)

Lemma arrGet_spec x y array :
  arrGet x y array = cell ← getItem2 array x y; Some (cell, array).
Proof.
  unfold arrGet, arrBind, arrCol, arrLift, getItem2.
  destruct (Py.index array x) as [column |] eqn:Hcolumn; simpl; [| reflexivity].
  rewrite Hcolumn. reflexivity.
Qed.

Lemma arrSet_spec x y cell array :
  arrSet x y cell array = array' ← setItem2 array x y cell; Some (tt, array').
Proof.
  unfold arrSet, arrBind, arrCol, arrLift, arrPutCol, setItem2.
  destruct (Py.index array x) as [column |] eqn:Hcolumn; simpl; [| reflexivity].
  rewrite Hcolumn. simpl.
  destruct (Py.setitem column y cell) as [column' |]; reflexivity.
Qed.

(** A loop over the indices of a list that replaces each element by its
    image under [g] is [mapM g]; [ctx] is where the list sits in the
    array. *)
Lemma arrFor_zipper {X} (ctx : list X -> Board Z) (body : Z -> Arr unit) (g : X -> option X) :
  (forall done x rest,
     body (Z.of_nat (length done)) (ctx (done ++ x :: rest))
     = x' ← g x; Some (tt, ctx (done ++ x' :: rest))) ->
  forall rest done,
    arrFor (Z.of_nat <$> seq (length done) (length rest)) body (ctx (done ++ rest))
    = rest' ← mapM g rest; Some (tt, ctx (done ++ rest')).
Proof.
  intros Hbody. induction rest as [| x rest IH]; intros done.
  - reflexivity.
  - simpl. unfold arrBind. rewrite Hbody.
    destruct (g x) as [x' |]; simpl; [| reflexivity].
    specialize (IH (done ++ [x'])).
    rewrite length_app, Nat.add_comm in IH. simpl in IH.
    rewrite <- !app_assoc in IH. simpl in IH.
    change (list_fmap nat Z Z.of_nat) with (fmap (M := list) Z.of_nat). rewrite IH.
    destruct (mapM g rest) as [rest' |]; simpl; [| reflexivity].
    rewrite <- app_assoc. reflexivity.
Qed.

Lemma arrFor_indices {X} (ctx : list X -> Board Z) (body : Z -> Arr unit) (g : X -> option X) l :
  (forall done x rest,
     body (Z.of_nat (length done)) (ctx (done ++ x :: rest))
     = x' ← g x; Some (tt, ctx (done ++ x' :: rest))) ->
  arrFor (Store.indices (length l)) body (ctx l) = l' ← mapM g l; Some (tt, ctx l').
Proof.
  intros Hbody. exact (arrFor_zipper ctx body g Hbody l []).
Qed.

Lemma mapM_total_fmap {X} (f : X -> X) (l : list X) :
  mapM (fun x => Some (f x)) l = Some (f <$> l).
Proof.
  induction l as [| x l IH]; [reflexivity |].
  simpl. rewrite IH. reflexivity.
Qed.

Lemma getItem2_middle {T} (done rest : Board T) (cdone crest : list (option T)) cell :
  getItem2 (done ++ (cdone ++ cell :: crest) :: rest)
           (Z.of_nat (length done)) (Z.of_nat (length cdone)) = Some cell.
Proof. unfold getItem2. rewrite index_middle. simpl. apply index_middle. Qed.

Lemma setItem2_middle {T} (done rest : Board T) (cdone crest : list (option T)) cell v :
  setItem2 (done ++ (cdone ++ cell :: crest) :: rest)
           (Z.of_nat (length done)) (Z.of_nat (length cdone)) v
  = Some (done ++ (cdone ++ v :: crest) :: rest).
Proof.
  unfold setItem2. rewrite index_middle. simpl. rewrite setitem_middle. simpl.
  apply setitem_middle.
Qed.

(** The loop that resets the double-moved bits is [resetDoubleMoved]. *)
Lemma resetLoopArr_spec array : resetLoopArr array = Some (tt, resetDoubleMoved array).
Proof.
  unfold resetLoopArr, arrBind at 1, arrLen.
  rewrite (arrFor_indices (fun l => l) _ (fun column => Some (resetCode <$> column))).
  - rewrite mapM_total_fmap. reflexivity.
  - intros done column rest. cbn [mbind option_bind].
    unfold arrBind at 1, arrCol at 1. rewrite index_middle. cbn [mbind option_bind].
    unfold arrBind at 1, arrCol at 1. rewrite index_middle. cbn [mbind option_bind].
    rewrite (arrFor_indices (fun col => done ++ col :: rest) _
               (fun cell => Some (resetCode cell))).
    + rewrite mapM_total_fmap. reflexivity.
    + intros cdone cell crest. cbn [mbind option_bind].
      unfold arrBind at 1, arrCol at 1. rewrite index_middle. cbn [mbind option_bind].
      unfold arrBind at 1, arrLift at 1. rewrite index_middle. cbn [mbind option_bind].
      destruct cell as [piece |]; [| reflexivity]. simpl.
      destruct (piece / 10 =? 0); [| reflexivity].
      unfold arrBind. rewrite arrGet_spec, getItem2_middle. simpl.
      rewrite arrSet_spec, setItem2_middle. reflexivity.
Qed.

(** The promotion loop is [promoteColumn] on every column. *)
Lemma promoteLoopArr_spec promote array :
  promoteLoopArr promote array
  = array' ← mapM (promoteColumn promote) array; Some (tt, array').
Proof.
  unfold promoteLoopArr, arrBind at 1, arrLen.
  apply (arrFor_indices (fun l => l)).
  intros done column rest.
  unfold arrBind at 1, arrCol at 1. rewrite index_middle. cbn [mbind option_bind].
  unfold arrBind at 1. unfold arrBind at 1, arrCol at 1. rewrite index_middle.
  cbn [mbind option_bind]. unfold arrLift at 1.
  destruct column as [| first column]; [reflexivity |].
  change (Py.index (first :: column) 0) with (Some first). cbn [mbind option_bind].
  destruct first as [piece |]; [| reflexivity]. simpl.
  destruct (piece <? 10); [| reflexivity].
  unfold arrBind, arrCol, arrLift. rewrite index_middle. simpl.
  rewrite arrSet_spec.
  rewrite (setItem2_middle done rest [] column (Some piece)). reflexivity.
Qed.

Ltac arr_step :=
  cbn [mbind option_bind fmap option_fmap option_map];
  first
    [ reflexivity
    | rewrite arrGet_spec
    | rewrite arrSet_spec
    | rewrite resetLoopArr_spec
    | rewrite promoteLoopArr_spec
    | match goal with
      | H : getItem2 ?a ?x ?y = _ |- context [getItem2 ?a ?x ?y] => rewrite H
      | |- context [decide (?a = ?b)] =>
          destruct (decide (a = b)); [try discriminate | try congruence]
      | |- context [if ?c then _ else _] => destruct c
      | |- context [getItem2 ?a ?x ?y] =>
          let Hget := fresh "Hget" in
          destruct (getItem2 a x y) as [[? |] |] eqn:Hget
      | |- context [setItem2 ?a ?x ?y ?v] => destruct (setItem2 a x y v) as [? |]
      | |- context [mapM ?f ?a] => destruct (mapM f a) as [? |]
      end ].

(** The statements on the array are [fakeMove] of the value model. *)
Lemma fakeMoveArr_spec move promote array turn_ :
  fakeMoveArr move promote array
  = array' ← fakeMove (mkVB array turn_) move promote; Some (tt, array').
Proof.
  destruct move as [s d flag].
  unfold fakeMoveArr, fakeMove, applyMove, arrBind, arrLift, arrRet, arrRotate, asInt.
  cbn [vboard].
  destruct flag as [[] |]; repeat arr_step.
Qed.

(** *** The statements on the store and on the array *)

Lemma bind_run {A B} (m : Store.Eff A) (k : A -> Store.Eff B) st a st1 :
  m st = (Some a, st1) -> (m ≫= k) st = k a st1.
Proof.
  intros Hrun. unfold mbind, Store.Eff_bind, Store.andThen. rewrite Hrun. reflexivity.
Qed.

Lemma bind_raise {A B} (m : Store.Eff A) (k : A -> Store.Eff B) st :
  (m st).1 = None -> ((m ≫= k) st).1 = None.
Proof.
  unfold mbind, Store.Eff_bind, Store.andThen.
  destruct (m st) as [[a |] st1]; simpl; [discriminate | reflexivity].
Qed.

Lemma repr_column st board cols array x c :
  repr st board cols array -> Py.index cols x = Some c ->
  exists n column,
    position (length array) x = Some n /\ cols !! n = Some c /\ array !! n = Some column
    /\ Store.lists st !! c = Some (toValue <$> column).
Proof.
  intros (_ & _ & _ & Hcolumns) Hindex.
  rewrite index_position in Hindex.
  rewrite (Forall2_length _ _ _ Hcolumns) in Hindex.
  destruct (position (length array) x) as [n |] eqn:Hplace; [| discriminate].
  simpl in Hindex.
  destruct (Forall2_lookup_l _ _ _ _ _ Hcolumns Hindex) as (column & Hcolumn & Hlist).
  eauto 10.
Qed.

Lemma repr_no_column st board cols array x :
  repr st board cols array -> Py.index cols x = None -> Py.index array x = None.
Proof.
  intros (_ & _ & _ & Hcolumns) Hindex.
  rewrite index_position in Hindex. rewrite index_position.
  rewrite <- (Forall2_length _ _ _ Hcolumns).
  destruct (position (length cols) x) as [n |] eqn:Hplace; [| reflexivity].
  simpl in *. apply lookup_ge_None in Hindex. apply lookup_ge_None.
  rewrite <- (Forall2_length _ _ _ Hcolumns). exact Hindex.
Qed.

Section Simulation.

Variable board : Store.loc.

Lemma sim_ret {A A'} cols (R : A -> A' -> Prop) a a' :
  R a a' -> sim board cols cols R (Store.pure a) (arrRet a').
Proof. intros HR st array Hrepr. simpl. eauto. Qed.

Lemma sim_bind {A A' B B'} cols cols1 cols2 (R : A -> A' -> Prop) (R' : B -> B' -> Prop)
    (m : Store.Eff A) (k : A -> Store.Eff B) (p : Arr A') (q : A' -> Arr B') :
  sim board cols cols1 R m p ->
  (forall a a', R a a' -> sim board cols1 cols2 R' (k a) (q a')) ->
  sim board cols cols2 R' (m ≫= k) (arrBind p q).
Proof.
  intros Hm Hk st array Hrepr. specialize (Hm st array Hrepr). unfold arrBind.
  destruct (p array) as [[a' array'] |].
  - destruct Hm as (a & st' & Hrun & HR & Hrepr').
    rewrite (bind_run _ _ _ _ _ Hrun). exact (Hk a a' HR st' array' Hrepr').
  - apply bind_raise. exact Hm.
Qed.

Lemma sim_pure_bind {A B B'} cols cols' (R : B -> B' -> Prop) (a : A) (k : A -> Store.Eff B) p :
  sim board cols cols' R (k a) p -> sim board cols cols' R (Store.pure a ≫= k) p.
Proof. intros Hk. exact Hk. Qed.

Lemma sim_weaken {A A'} cols cols' (R R' : A -> A' -> Prop) m p :
  sim board cols cols' R m p -> (forall a a', R a a' -> R' a a') ->
  sim board cols cols' R' m p.
Proof.
  intros Hm HR st array Hrepr. specialize (Hm st array Hrepr).
  destruct (p array) as [[a' array'] |]; [| exact Hm].
  destruct Hm as (a & st' & Hrun & Ha & Hrepr'). eauto 10.
Qed.

Lemma sim_getBoard {A A'} cols cols' (R : A -> A' -> Prop) (k : list Store.value -> Store.Eff A) p :
  sim board cols cols' R (k (Store.VRef <$> cols)) p ->
  sim board cols cols' R (Store.getList board ≫= k) p.
Proof.
  intros Hk st array Hrepr. specialize (Hk st array Hrepr).
  assert (Hrun : Store.getList board st = (Some (Store.VRef <$> cols), st)).
  { unfold Store.getList. destruct Hrepr as (-> & _). reflexivity. }
  rewrite (bind_run _ _ _ _ _ Hrun). exact Hk.
Qed.

Lemma sim_len cols :
  sim board cols cols (fun outer n => length outer = n) (Store.getList board) arrLen.
Proof.
  intros st array Hrepr. unfold arrLen, Store.getList.
  pose proof Hrepr as (Hboard & _ & _ & Hcolumns).
  exists (Store.VRef <$> cols), st. rewrite Hboard.
  split; [reflexivity |]. split; [| exact Hrepr].
  rewrite length_fmap. exact (Forall2_length _ _ _ Hcolumns).
Qed.

Lemma sim_colRef cols x :
  sim board cols cols (fun c _ => Py.index cols x = Some c)
      (Store.liftOpt (Py.index (Store.VRef <$> cols) x) ≫= Store.asList) (arrCol x).
Proof.
  intros st array Hrepr. unfold arrCol. rewrite index_fmap.
  destruct (Py.index cols x) as [c |] eqn:Hindex.
  - destruct (repr_column _ _ _ _ _ _ Hrepr Hindex) as (n & column & Hplace & _ & Hcolumn & _).
    rewrite index_position, Hplace. simpl. rewrite Hcolumn. simpl.
    exists c, st. auto.
  - rewrite (repr_no_column _ _ _ _ _ Hrepr Hindex). reflexivity.
Qed.

Lemma sim_elems cols x c :
  Py.index cols x = Some c ->
  sim board cols cols (fun elems column => elems = toValue <$> column)
      (Store.getList c) (arrCol x).
Proof.
  intros Hindex st array Hrepr. unfold arrCol, Store.getList.
  destruct (repr_column _ _ _ _ _ _ Hrepr Hindex) as (n & column & Hplace & _ & Hcolumn & Hlist).
  rewrite index_position, Hplace. simpl. rewrite Hcolumn. simpl.
  exists (toValue <$> column), st. rewrite Hlist. auto.
Qed.

Lemma sim_liftOpt {A A'} cols (f : A' -> A) (o : option A') :
  sim board cols cols (fun a a' => a = f a') (Store.liftOpt (f <$> o)) (arrLift o).
Proof.
  intros st array Hrepr. unfold arrLift.
  destruct o as [a' |]; simpl; [| reflexivity].
  exists (f a'), st. auto.
Qed.

Lemma sim_asInt cols v cell :
  v = toValue cell -> sim board cols cols eq (Store.asInt v) (arrLift cell).
Proof.
  intros -> st array Hrepr. unfold arrLift.
  destruct cell as [z |]; simpl; [| reflexivity].
  exists z, st. auto.
Qed.

Lemma sim_putCol cols x c column' :
  Py.index cols x = Some c ->
  sim board cols cols (fun _ _ => True)
      (Store.putList c (toValue <$> column')) (arrPutCol x column').
Proof.
  intros Hindex st array Hrepr. unfold arrPutCol, Store.putList.
  destruct (repr_column _ _ _ _ _ _ Hrepr Hindex) as (n & column & Hplace & Hc & Hcolumn & Hlist).
  rewrite setitem_position, Hplace. simpl. rewrite Hlist.
  eexists tt, _. split; [reflexivity |]. split; [exact I |].
  destruct Hrepr as (Hboard & Hdistinct & Hother & Hcolumns).
  assert (Hne : board <> c).
  { intros ->. apply Hother. eapply list_elem_of_lookup_2. exact Hc. }
  split; [| split; [exact Hdistinct | split; [exact Hother |]]]; simpl.
  - rewrite lookup_insert_ne by congruence. exact Hboard.
  - apply Forall2_same_length_lookup. split.
    + rewrite length_insert. exact (Forall2_length _ _ _ Hcolumns).
    + intros i c' col' Hc' Hcol'.
      destruct (decide (i = n)) as [-> | Hi].
      * rewrite list_lookup_insert_eq in Hcol' by (eapply lookup_lt_Some; exact Hcolumn).
        injection Hcol' as <-. rewrite Hc in Hc'. injection Hc' as <-.
        apply lookup_insert_eq.
      * rewrite list_lookup_insert_ne in Hcol' by congruence.
        rewrite lookup_insert_ne.
        -- exact (Forall2_lookup_lr _ _ _ _ _ _ Hcolumns Hc' Hcol').
        -- intros <-. apply Hi. exact (NoDup_lookup _ _ _ _ Hdistinct Hc' Hc).
Qed.

Lemma sim_forEach {A} cols (l : list A) body body' :
  (forall a, sim board cols cols (fun _ _ => True) (body a) (body' a)) ->
  sim board cols cols (fun _ _ => True) (Store.forEach l body) (arrFor l body').
Proof.
  intros Hbody. induction l as [| a l IH]; simpl.
  - apply sim_ret. exact I.
  - eapply sim_bind; [apply Hbody |]. intros _ _ _. exact IH.
Qed.

End Simulation.

Section Statements.

Variable board : Store.loc.
Variable cols : list Store.loc.

Lemma sim_index2 x y :
  sim board cols cols (fun v cell => v = toValue cell) (Store.index2 board x y) (arrGet x y).
Proof.
  unfold Store.index2, arrGet.
  apply sim_getBoard.
  eapply sim_bind; [apply sim_colRef |]. intros c column0 Hc. simpl in Hc. clear column0.
  eapply sim_bind; [apply (sim_elems board cols x c Hc) |]. intros elems column ->.
  rewrite index_fmap. apply sim_liftOpt.
Qed.

Lemma sim_index2_int x y :
  sim board cols cols eq (Store.index2 board x y ≫= Store.asInt) (arrBind (arrGet x y) arrLift).
Proof.
  eapply sim_bind; [apply sim_index2 |]. intros v cell ->. apply sim_asInt. reflexivity.
Qed.

Lemma sim_setIndex2 x y v cell :
  v = toValue cell ->
  sim board cols cols (fun _ _ => True) (Store.setIndex2 board x y v) (arrSet x y cell).
Proof.
  intros ->. unfold Store.setIndex2, arrSet.
  apply sim_getBoard.
  eapply sim_bind; [apply sim_colRef |]. intros c column0 Hc. simpl in Hc. clear column0.
  eapply sim_bind; [apply (sim_elems board cols x c Hc) |]. intros elems column ->.
  rewrite setitem_fmap.
  eapply sim_bind; [apply (sim_liftOpt board cols (fun l' : list (option Z) => toValue <$> l')) |].
  intros elems' column' ->. apply sim_putCol. exact Hc.
Qed.

Lemma sim_resetLoop :
  sim board cols cols (fun _ _ => True) (Store.resetLoop board) resetLoopArr.
Proof.
  unfold Store.resetLoop, resetLoopArr.
  eapply sim_bind; [apply sim_len |]. intros outer n <-.
  apply sim_forEach. intros x.
  apply sim_getBoard.
  eapply sim_bind; [apply sim_colRef |]. intros c column0 Hc. simpl in Hc. clear column0.
  eapply sim_bind; [apply (sim_elems board cols x c Hc) |]. intros elems column ->.
  rewrite length_fmap.
  apply sim_forEach. intros y.
  eapply sim_bind; [apply (sim_elems board cols x c Hc) |]. intros elems column' ->.
  rewrite index_fmap.
  eapply sim_bind; [apply sim_liftOpt |]. intros v cell ->.
  destruct cell as [piece |]; simpl.
  - apply sim_pure_bind.
    destruct (piece / 10 =? 0).
    + eapply sim_bind; [apply sim_index2_int |]. intros current current0 <-.
      apply sim_setIndex2. reflexivity.
    + apply sim_ret. exact I.
  - apply sim_ret. exact I.
Qed.

Lemma sim_first x c :
  Py.index cols x = Some c ->
  sim board cols cols (fun v cell => v = toValue cell)
      (Store.getList c ≫= fun elems => Store.liftOpt (Py.index elems 0))
      (arrBind (arrCol x) (fun column => arrLift (Py.index column 0))).
Proof.
  intros Hc.
  eapply sim_bind; [apply (sim_elems board cols x c Hc) |]. intros elems column ->.
  rewrite index_fmap. apply sim_liftOpt.
Qed.

Lemma sim_promoteLoop promote :
  sim board cols cols (fun _ _ => True) (Store.promoteLoop board promote)
      (promoteLoopArr promote).
Proof.
  unfold Store.promoteLoop, promoteLoopArr.
  eapply sim_bind; [apply sim_len |]. intros outer n <-.
  apply sim_forEach. intros x.
  apply sim_getBoard.
  eapply sim_bind; [apply sim_colRef |]. intros c column0 Hc. simpl in Hc. clear column0.
  eapply sim_bind; [apply (sim_first x c Hc) |]. intros v cell ->.
  destruct cell as [piece |]; simpl.
  - apply sim_pure_bind.
    destruct (piece <? 10).
    + eapply sim_bind; [apply (sim_first x c Hc) |]. intros v cell ->.
      eapply sim_bind; [apply sim_asInt; reflexivity |]. intros piece1 piece0 <-.
      apply sim_setIndex2. reflexivity.
    + apply sim_ret. exact I.
  - apply sim_ret. exact I.
Qed.

End Statements.

Lemma Forall2_impl_elem {A B} (P Q : A -> B -> Prop) l k :
  Forall2 P l k -> (forall x y, x ∈ l -> P x y -> Q x y) -> Forall2 Q l k.
Proof.
  induction 1 as [| x y l k HP _ IH]; intros HPQ; constructor.
  - apply HPQ; [left | exact HP].
  - apply IH. intros x' y' Hin. apply HPQ. right. exact Hin.
Qed.

(** Reversing every column: the lists outside [cols] stay, and each
    column of [cols] holds its squares in reverse. *)
Lemma rotate_columns cols array : forall st,
  NoDup cols ->
  Forall2 (fun c column => Store.lists st !! c = Some (toValue <$> column)) cols array ->
  exists st',
    Store.forEach (Store.VRef <$> cols) (fun row =>
      column ← Store.asList row;
      elems ← Store.getList column;
      Store.putList column (reverse elems)) st = (Some tt, st')
    /\ (forall l, l ∉ cols -> Store.lists st' !! l = Store.lists st !! l)
    /\ Forall2 (fun c column => Store.lists st' !! c = Some (toValue <$> reverse column))
         cols array.
Proof.
  revert array. induction cols as [| c cols IH]; intros array st Hdistinct Hcolumns.
  - apply Forall2_nil_inv_l in Hcolumns as ->. exists st. simpl. auto.
  - apply Forall2_cons_inv_l in Hcolumns as (column & array' & Hc & Hcolumns & ->).
    apply NoDup_cons in Hdistinct as [Hfirst Hdistinct].
    set (st1 := Store.mkState (<[c := reverse (toValue <$> column)]> (Store.lists st))
                  (Store.objects st)).
    destruct (IH array' st1 Hdistinct) as (st' & Hrun & Hframe & Hdone).
    { eapply Forall2_impl_elem; [exact Hcolumns |]. intros c' column' Hin Hc'.
      simpl. rewrite lookup_insert_ne; [exact Hc' |]. intros <-. exact (Hfirst Hin). }
    exists st'. split; [| split].
    + cbn [fmap list_fmap Store.forEach].
      assert (Hstep : (column0 ← Store.asList (Store.VRef c);
                       elems ← Store.getList column0;
                       Store.putList column0 (reverse elems)) st = (Some tt, st1)).
      { unfold mbind, Store.Eff_bind, Store.andThen, Store.asList, Store.pure,
          Store.getList, Store.putList. rewrite Hc. reflexivity. }
      rewrite (bind_run _ _ _ _ _ Hstep). exact Hrun.
    + intros l Hl. apply not_elem_of_cons in Hl as [Hne Hl].
      rewrite (Hframe l Hl). simpl. apply lookup_insert_ne. congruence.
    + constructor; [| exact Hdone].
      rewrite (Hframe c Hfirst). simpl. rewrite lookup_insert_eq, fmap_reverse. reflexivity.
Qed.

Lemma sim_rotateLoop board cols :
  sim board cols (reverse cols) (fun _ _ => True) (Store.rotateLoop board) arrRotate.
Proof.
  intros st array (Hboard & Hdistinct & Hother & Hcolumns). unfold arrRotate.
  destruct (rotate_columns cols array st Hdistinct Hcolumns) as (st1 & Hrun & Hframe & Hdone).
  assert (Hboard1 : Store.lists st1 !! board = Some (Store.VRef <$> cols)).
  { rewrite (Hframe board Hother). exact Hboard. }
  eexists tt, _. split; [| split; [exact I |]].
  - unfold Store.rotateLoop.
    assert (Hget : Store.getList board st = (Some (Store.VRef <$> cols), st)).
    { unfold Store.getList. rewrite Hboard. reflexivity. }
    rewrite (bind_run _ _ _ _ _ Hget), (bind_run _ _ _ _ _ Hrun).
    unfold mbind, Store.Eff_bind, Store.andThen, Store.getList, Store.putList.
    rewrite Hboard1. reflexivity.
  - split; [| split; [| split]]; simpl.
    + rewrite lookup_insert_eq, fmap_reverse. reflexivity.
    + rewrite reverse_Permutation. exact Hdistinct.
    + rewrite elem_of_reverse. exact Hother.
    + unfold rotateBoard. apply Forall2_reverse. apply Forall2_fmap_r.
      eapply Forall2_impl_elem; [exact Hdone |]. intros c column Hin Hc.
      rewrite lookup_insert_ne; [exact Hc |]. intros <-. exact (Hother Hin).
Qed.

Lemma sim_then_pure {A A' B} board cols cols' (R : A -> A' -> Prop) m p (b : B) :
  sim board cols cols' R m p ->
  sim board cols cols' (fun r (_ : A') => r = b) (m ≫= fun _ => Store.pure b) p.
Proof.
  intros Hm st array Hrepr. specialize (Hm st array Hrepr).
  destruct (p array) as [[a' array'] |].
  - destruct Hm as (a & st' & Hrun & _ & Hrepr').
    rewrite (bind_run _ _ _ _ _ Hrun). exists b, st'. auto.
  - apply bind_raise. exact Hm.
Qed.

(** The statements of [fakeMove] after the copy, on the list [board]. *)
Lemma sim_statements board cols s d flag promote :
  sim board cols (reverse cols) (fun r (_ : unit) => r = board)
    (moving ← Store.index2 board s.1 s.2;
     Store.setIndex2 board d.1 d.2 moving;;
     Store.setIndex2 board s.1 s.2 Store.VNone;;
     piece ← Store.index2 board d.1 d.2 ≫= Store.asInt;
     (if ((piece / 10 =? 0) || (piece / 10 =? 1) || (piece / 10 =? 5))
         && (((piece mod 10) / 2) mod 2 =? 0)
      then
        piece ← Store.index2 board d.1 d.2 ≫= Store.asInt;
        Store.setIndex2 board d.1 d.2 (Store.VInt (piece + 2))
      else Store.pure tt);;
     Store.resetLoop board;;
     match flag with
     | None => Store.pure tt
     | Some flag =>
         (if decide (flag = TagLC) then
            rook ← Store.index2 board 0 7;
            Store.setIndex2 board (d.1 + 1) 7 rook;;
            Store.setIndex2 board 0 7 Store.VNone
          else Store.pure tt);;
         (if decide (flag = TagRC) then
            rook ← Store.index2 board 7 7;
            Store.setIndex2 board (d.1 - 1) 7 rook;;
            Store.setIndex2 board 7 7 Store.VNone
          else Store.pure tt);;
         if decide (flag = TagD) then
           piece ← Store.index2 board d.1 d.2 ≫= Store.asInt;
           Store.setIndex2 board d.1 d.2 (Store.VInt (piece + 4))
         else Store.setIndex2 board d.1 s.2 Store.VNone
     end;;
     Store.promoteLoop board promote;;
     Store.rotateLoop board;;
     Store.pure board)
    (fakeMoveArr (mkMove s d flag) promote).
Proof.
  unfold fakeMoveArr.
  eapply sim_bind; [apply sim_index2 |]. intros moving cell ->.
  eapply sim_bind; [apply sim_setIndex2; reflexivity |]. intros _ _ _.
  eapply sim_bind; [apply (sim_setIndex2 board cols s.1 s.2 _ None); reflexivity |].
  intros _ _ _.
  eapply sim_bind; [apply sim_index2_int |]. intros piece piece0 <-.
  eapply sim_bind.
  { destruct (((piece / 10 =? 0) || (piece / 10 =? 1) || (piece / 10 =? 5))
              && (((piece mod 10) / 2) mod 2 =? 0)).
    - eapply sim_bind; [apply sim_index2_int |]. intros piece' piece0 <-.
      apply (sim_setIndex2 board cols d.1 d.2 _ (Some (piece' + 2))). reflexivity.
    - apply (sim_ret board cols (fun _ _ : unit => True)). exact I. }
  intros _ _ _.
  eapply sim_bind; [apply sim_resetLoop |]. intros _ _ _.
  eapply sim_bind.
  { destruct flag as [flag |].
    - eapply sim_bind.
      { destruct (decide (flag = TagLC)).
        - eapply sim_bind; [apply sim_index2 |]. intros rook cell' ->.
          eapply sim_bind; [apply sim_setIndex2; reflexivity |]. intros _ _ _.
          apply (sim_setIndex2 board cols 0 7 _ None). reflexivity.
        - apply (sim_ret board cols (fun _ _ : unit => True)). exact I. }
      intros _ _ _.
      eapply sim_bind.
      { destruct (decide (flag = TagRC)).
        - eapply sim_bind; [apply sim_index2 |]. intros rook cell' ->.
          eapply sim_bind; [apply sim_setIndex2; reflexivity |]. intros _ _ _.
          apply (sim_setIndex2 board cols 7 7 _ None). reflexivity.
        - apply (sim_ret board cols (fun _ _ : unit => True)). exact I. }
      intros _ _ _.
      destruct (decide (flag = TagD)).
      + eapply sim_bind; [apply sim_index2_int |]. intros piece' piece0 <-.
        apply (sim_setIndex2 board cols d.1 d.2 _ (Some (piece' + 4))). reflexivity.
      + apply (sim_setIndex2 board cols d.1 s.2 _ None). reflexivity.
    - apply (sim_ret board cols (fun _ _ : unit => True)). exact I. }
  intros _ _ _.
  eapply sim_bind; [apply sim_promoteLoop |]. intros _ _ _.
  apply sim_then_pure with (R := fun _ _ => True). apply sim_rotateLoop.
Qed.

(** *** The deep copy *)

Lemma copy_cells k (column : list (option Z)) memo st :
  Store.copyElems (Store.deepcopyWith k) (toValue <$> column) memo st
  = (Some (toValue <$> column, memo), st).
Proof.
  induction column as [| cell column IH]; [reflexivity |].
  cbn [fmap list_fmap Store.copyElems].
  assert (Hcell : Store.deepcopyWith k (toValue cell) memo st = (Some (toValue cell, memo), st)).
  { destruct k, cell; reflexivity. }
  rewrite (bind_run _ _ _ _ _ Hcell). cbv beta iota.
  change (list_fmap (option Z) Store.value toValue column) with (toValue <$> column).
  rewrite (bind_run _ _ _ _ _ IH). reflexivity.
Qed.

Lemma memoLookup_cons c c' memo l :
  Store.memoLookup ((c, c') :: memo) l
  = if Nat.eqb c l then Some c' else Store.memoLookup memo l.
Proof. unfold Store.memoLookup. simpl. destruct (Nat.eqb c l); reflexivity. Qed.

(** A column that is not in the memo is copied to a new list. *)
Lemma copy_column k c column memo st :
  Store.lists st !! c = Some (toValue <$> column) -> Store.memoLookup memo c = None ->
  Store.deepcopyWith (S k) (Store.VRef c) memo st
  = (Some (Store.VRef (fresh (dom (Store.lists st))), (c, fresh (dom (Store.lists st))) :: memo),
     Store.mkState (<[fresh (dom (Store.lists st)) := toValue <$> column]> (Store.lists st))
       (Store.objects st)).
Proof.
  intros Hc Hmemo. cbn [Store.deepcopyWith]. rewrite Hmemo.
  assert (Hget : Store.getList c st = (Some (toValue <$> column), st)).
  { unfold Store.getList. rewrite Hc. reflexivity. }
  rewrite (bind_run _ _ _ _ _ Hget).
  set (c' := fresh (dom (Store.lists st))).
  assert (Halloc : Store.allocList [] st
                   = (Some c', Store.mkState (<[c' := []]> (Store.lists st)) (Store.objects st))).
  { reflexivity. }
  rewrite (bind_run _ _ _ _ _ Halloc).
  rewrite (bind_run _ _ _ _ _ (copy_cells k column _ _)). cbv beta iota.
  unfold mbind, Store.Eff_bind, Store.andThen, Store.putList, Store.pure. simpl.
  rewrite lookup_insert_eq, insert_insert_eq. reflexivity.
Qed.

Lemma copy_columns k cols : forall array st memo,
  Forall2 (fun c column => Store.lists st !! c = Some (toValue <$> column)) cols array ->
  NoDup cols ->
  (forall c, c ∈ cols -> Store.memoLookup memo c = None) ->
  exists cols' memo' st',
    Store.copyElems (Store.deepcopyWith (S k)) (Store.VRef <$> cols) memo st
    = (Some (Store.VRef <$> cols', memo'), st')
    /\ Forall2 (fun c' column => Store.lists st' !! c' = Some (toValue <$> column)) cols' array
    /\ NoDup cols'
    /\ (forall c', c' ∈ cols' -> Store.lists st !! c' = None)
    /\ (forall l, is_Some (Store.lists st !! l) -> Store.lists st' !! l = Store.lists st !! l).
Proof.
  induction cols as [| c cols IH]; intros array st memo Hcolumns Hdistinct Hmemo.
  - apply Forall2_nil_inv_l in Hcolumns as ->. exists [], memo, st.
    split; [reflexivity |]. split; [constructor |]. split; [constructor |].
    split; [intros c' Hin; inversion Hin | auto].
  - apply Forall2_cons_inv_l in Hcolumns as (column & array' & Hc & Hcolumns & ->).
    apply NoDup_cons in Hdistinct as [Hfirst Hdistinct].
    set (c' := fresh (dom (Store.lists st))).
    assert (Hfresh : Store.lists st !! c' = None).
    { apply not_elem_of_dom. apply is_fresh. }
    set (st1 := Store.mkState (<[c' := toValue <$> column]> (Store.lists st)) (Store.objects st)).
    assert (Hkeep : forall l, is_Some (Store.lists st !! l) ->
                      Store.lists st1 !! l = Store.lists st !! l).
    { intros l [elems Hl]. simpl. apply lookup_insert_ne. intros <-. congruence. }
    destruct (IH array' st1 ((c, c') :: memo)) as (cols' & memo' & st' & Hrun & Hnew & Hdistinct' & Hfresh' & Hkeep').
    { eapply Forall2_impl; [exact Hcolumns |]. intros c0 column0 Hc0. simpl in *.
      rewrite (Hkeep c0) by eauto. exact Hc0. }
    { exact Hdistinct. }
    { intros c0 Hin. rewrite memoLookup_cons.
      destruct (Nat.eqb c c0) eqn:Heq.
      - apply Nat.eqb_eq in Heq as ->. contradiction.
      - apply Hmemo. right. exact Hin. }
    assert (Hc' : Store.lists st1 !! c' = Some (toValue <$> column)).
    { simpl. apply lookup_insert_eq. }
    exists (c' :: cols'), memo', st'. split; [| split; [| split; [| split]]].
    + cbn [fmap list_fmap Store.copyElems].
      rewrite (bind_run _ _ _ _ _ (copy_column k c column memo st Hc (Hmemo c ltac:(left)))).
      cbv beta iota. fold c'. fold st1.
      change (list_fmap Store.loc Store.value Store.VRef cols) with (Store.VRef <$> cols).
      rewrite (bind_run _ _ _ _ _ Hrun). reflexivity.
    + constructor; [| exact Hnew]. rewrite (Hkeep' c') by eauto. exact Hc'.
    + apply NoDup_cons. split; [| exact Hdistinct'].
      intros Hin. specialize (Hfresh' c' Hin). congruence.
    + intros l Hin. apply elem_of_cons in Hin as [-> | Hin]; [exact Hfresh |].
      specialize (Hfresh' l Hin). simpl in Hfresh'.
      apply lookup_insert_None in Hfresh'. tauto.
    + intros l Hl. rewrite (Hkeep' l); [apply Hkeep; exact Hl |].
      rewrite (Hkeep l Hl). exact Hl.
Qed.

(** The copy of an array with distinct columns is a new array with
    distinct columns and the same squares. *)
Lemma deepcopy_repr st board0 cols0 array :
  repr st board0 cols0 array ->
  exists board cols st',
    Store.deepcopy (Store.VRef board0) st = (Some (Store.VRef board), st')
    /\ repr st' board cols array.
Proof.
  intros (Hboard & Hdistinct & Hother & Hcolumns).
  unfold Store.deepcopy.
  assert (Hcount : Store.countLists st = (Some (size (Store.lists st)), st)) by reflexivity.
  rewrite (bind_run _ _ _ _ _ Hcount).
  destruct (size (Store.lists st)) as [| k] eqn:Hsize.
  { apply map_size_empty_iff in Hsize. rewrite Hsize, lookup_empty in Hboard. discriminate. }
  set (board := fresh (dom (Store.lists st))).
  assert (Hfresh : Store.lists st !! board = None).
  { apply not_elem_of_dom. apply is_fresh. }
  set (st1 := Store.mkState (<[board := []]> (Store.lists st)) (Store.objects st)).
  assert (Hkeep : forall l, is_Some (Store.lists st !! l) ->
                    Store.lists st1 !! l = Store.lists st !! l).
  { intros l [elems Hl]. simpl. apply lookup_insert_ne. intros <-. congruence. }
  destruct (copy_columns k cols0 array st1 [(board0, board)])
    as (cols & memo & st2 & Hrun & Hnew & Hdistinct' & Hfresh' & Hkeep').
  { eapply Forall2_impl; [exact Hcolumns |]. intros c column Hc. simpl in *.
    rewrite (Hkeep c) by eauto. exact Hc. }
  { exact Hdistinct. }
  { intros c Hin. rewrite memoLookup_cons.
    destruct (Nat.eqb board0 c) eqn:Heq; [| reflexivity].
    apply Nat.eqb_eq in Heq as ->. contradiction. }
  assert (Hboard2 : Store.lists st2 !! board = Some []).
  { rewrite Hkeep'; simpl; rewrite lookup_insert_eq; eauto. }
  exists board, cols. eexists. split.
  - assert (Hcopy : Store.deepcopyWith (S (S k)) (Store.VRef board0) [] st
                    = (Some (Store.VRef board, memo),
                       Store.mkState (<[board := Store.VRef <$> cols]> (Store.lists st2))
                         (Store.objects st2))).
    { cbn [Store.deepcopyWith]. change (Store.memoLookup [] board0) with (@None Store.loc).
      cbv iota.
      assert (Hget : Store.getList board0 st = (Some (Store.VRef <$> cols0), st)).
      { unfold Store.getList. rewrite Hboard. reflexivity. }
      rewrite (bind_run _ _ _ _ _ Hget).
      assert (Halloc : Store.allocList [] st = (Some board, st1)) by reflexivity.
      rewrite (bind_run _ _ _ _ _ Halloc).
      rewrite (bind_run _ _ _ _ _ Hrun). cbv beta iota.
      unfold mbind, Store.Eff_bind, Store.andThen, Store.putList, Store.pure.
      rewrite Hboard2. reflexivity. }
    rewrite (bind_run _ _ _ _ _ Hcopy). reflexivity.
  - assert (Hne : forall c, c ∈ cols -> board <> c).
    { intros c Hin <-. specialize (Hfresh' board Hin). simpl in Hfresh'.
      rewrite lookup_insert_eq in Hfresh'. discriminate. }
    split; [| split; [exact Hdistinct' | split]]; simpl.
    + apply lookup_insert_eq.
    + intros Hin. exact (Hne board Hin eq_refl).
    + eapply Forall2_impl_elem; [exact Hnew |]. intros c column Hin Hc.
      rewrite lookup_insert_ne; [exact Hc |]. exact (Hne c Hin).
Qed.

(** *** The array that the store holds *)

Lemma readCell_toValue column : mapM Store.readCell (toValue <$> column) = Some column.
Proof.
  induction column as [| cell column IH]; [reflexivity |].
  cbn [fmap list_fmap mapM]. fold (toValue <$> column). rewrite IH.
  destruct cell; reflexivity.
Qed.

Lemma readCell_inv elems : forall column,
  mapM Store.readCell elems = Some column -> elems = toValue <$> column.
Proof.
  induction elems as [| v elems IH]; intros column Hread.
  - injection Hread as <-. reflexivity.
  - cbn [mapM] in Hread.
    destruct (Store.readCell v) as [cell |] eqn:Hcell; [| discriminate].
    destruct (mapM Store.readCell elems) as [column' |]; [| discriminate].
    injection Hread as <-. rewrite (IH column' eq_refl).
    destruct v; simpl in Hcell; try discriminate; injection Hcell as <-; reflexivity.
Qed.

Lemma repr_readArray st board cols array :
  repr st board cols array -> Store.readArray st board = Some array.
Proof.
  intros (Hboard & _ & _ & Hcolumns). unfold Store.readArray. rewrite Hboard. simpl.
  apply mapM_Some. apply Forall2_fmap_l.
  eapply Forall2_impl; [exact Hcolumns |]. intros c column Hc. simpl.
  rewrite Hc. simpl. apply readCell_toValue.
Qed.

Lemma readArray_repr st board cols array :
  Store.readArray st board = Some array ->
  Store.lists st !! board = Some (Store.VRef <$> cols) -> NoDup cols ->
  repr st board cols array.
Proof.
  intros Hread Hboard Hdistinct. unfold Store.readArray in Hread.
  rewrite Hboard in Hread. simpl in Hread.
  apply mapM_Some in Hread. apply Forall2_fmap_l in Hread.
  assert (Hcolumns : Forall2 (fun c column => Store.lists st !! c = Some (toValue <$> column))
                       cols array).
  { eapply Forall2_impl; [exact Hread |]. intros c column Hc. simpl in Hc.
    destruct (Store.lists st !! c) as [elems |]; [| discriminate]. simpl in Hc.
    rewrite (readCell_inv elems column Hc). reflexivity. }
  split; [exact Hboard |]. split; [exact Hdistinct |]. split; [| exact Hcolumns].
  intros Hin.
  apply list_elem_of_lookup in Hin as [n Hn].
  destruct (Forall2_lookup_l _ _ _ _ _ Hcolumns Hn) as (column & _ & Hlist).
  rewrite Hboard in Hlist. injection Hlist as Hlist.
  destruct cols as [| c cols]; [discriminate |].
  destruct column as [| [z |] column]; discriminate.
Qed.

(** On a store whose array has distinct columns the method returns the
    array that [fakeMove] of the value model computes, and raises where it
    raises. *)
Lemma fakeMove_refines st self board0 turn_ cols0 array move promote :
  Store.objects st !! self = Some (board0, turn_) ->
  repr st board0 cols0 array ->
  ((Store.fakeMove self move promote st).1
     ≫= Store.readArray (Store.fakeMove self move promote st).2)
  = fakeMove (mkVB array turn_) move promote.
Proof.
  intros Hself Hrepr. destruct move as [s d flag].
  destruct (deepcopy_repr st board0 cols0 array Hrepr) as (board & cols & st1 & Hcopy & Hrepr1).
  pose proof (sim_statements board cols s d flag promote st1 array Hrepr1) as Hsim.
  rewrite (fakeMoveArr_spec _ _ _ turn_) in Hsim.
  unfold Store.fakeMove.
  assert (Hget : Store.getObject self st = (Some (board0, turn_), st)).
  { unfold Store.getObject. rewrite Hself. reflexivity. }
  rewrite !(bind_run _ _ _ _ _ Hget). cbn [fst].
  assert (Hboard : (Store.deepcopy (Store.VRef board0) ≫= Store.asList) st = (Some board, st1)).
  { rewrite (bind_run _ _ _ _ _ Hcopy). reflexivity. }
  rewrite !(bind_run _ _ _ _ _ Hboard).
  destruct (fakeMove (mkVB array turn_) (mkMove s d flag) promote) as [array' |];
    cbn [mbind option_bind] in Hsim.
  - destruct Hsim as (returned & st' & Hrun & -> & Hrepr').
    rewrite Hrun. simpl. eapply repr_readArray. exact Hrepr'.
  - match type of Hsim with (?m _).1 = None => destruct (m st1) as [result st'] end.
    simpl in Hsim. subst result. reflexivity.
Qed.

(** ** Special moves on the virtual board, in general *)

Lemma position_lt n i k : position n i = Some k -> (k < n)%nat.
Proof.
  unfold position.
  destruct ((0 <=? i) && (i <? Z.of_nat n)) eqn:Hup.
  - intros [= <-]. lia.
  - destruct ((- Z.of_nat n <=? i) && (i <? 0)) eqn:Hdown; [| discriminate].
    intros [= <-]. lia.
Qed.

Lemma getItem2_setItem2 {T} (board board' : Board T) x y v :
  setItem2 board x y v = Some board' -> getItem2 board' x y = Some v.
Proof.
  unfold setItem2, getItem2. rewrite !index_position.
  destruct (position (length board) x) as [n |] eqn:Hn; [| discriminate].
  cbn [mbind option_bind].
  destruct (board !! n) as [column |] eqn:Hcolumn; [| discriminate].
  cbn [mbind option_bind]. rewrite !setitem_position.
  destruct (position (length column) y) as [m |] eqn:Hm; [| discriminate].
  cbn [mbind option_bind]. rewrite setitem_position, Hn. cbn [mbind option_bind].
  intros [= <-]. rewrite length_insert, Hn. cbn [mbind option_bind].
  rewrite list_lookup_insert_eq by (eapply lookup_lt_Some; exact Hcolumn).
  cbn [mbind option_bind]. rewrite index_position, length_insert, Hm.
  cbn [mbind option_bind]. apply list_lookup_insert_eq. eapply position_lt. exact Hm.
Qed.

Lemma promoteColumn_keeps_empty promote column column' y :
  promoteColumn promote column = Some column' ->
  Py.index column y = Some None -> Py.index column' y = Some None.
Proof.
  intros Hpromote Hy. destruct column as [| [piece |] rest]; simpl in Hpromote.
  - discriminate.
  - destruct (piece <? 10); injection Hpromote as <-; [| exact Hy].
    rewrite index_position in *. cbn [length] in *.
    destruct (position (S (length rest)) y) as [[| m] |]; simpl in *;
      [discriminate | exact Hy | discriminate].
  - injection Hpromote as <-. exact Hy.
Qed.

Lemma promotions_keep_empty promote (board after : Board Z) x y :
  mapM (promoteColumn promote) board = Some after ->
  getItem2 board x y = Some None -> getItem2 after x y = Some None.
Proof.
  intros Hpromote Hget. apply mapM_Some in Hpromote.
  unfold getItem2 in *. rewrite index_position in *.
  rewrite <- (Forall2_length _ _ _ Hpromote).
  destruct (position (length board) x) as [n |]; [| discriminate].
  cbn [mbind option_bind] in *.
  destruct (board !! n) as [column |] eqn:Hcolumn; [| discriminate].
  destruct (Forall2_lookup_l _ _ _ _ _ Hpromote Hcolumn) as (column' & -> & Hcolumn').
  cbn [mbind option_bind] in *.
  eapply promoteColumn_keeps_empty; eassumption.
Qed.

Ltac bind_step H :=
  match type of H with
  | (?o ≫= _) = Some _ =>
      let result := fresh "board" in
      let Hstep := fresh "Hstep" in
      destruct o as [result |] eqn:Hstep; [cbn [mbind option_bind] in H | discriminate]
  end.

(** A move with a flag other than the double advance's, a castle among
    them, leaves the square in the destination's column and the source's
    row empty: for a castle that is the square the king has moved to. *)
Lemma flagged_move_empties_square (board after : Board Z) s d flag promote :
  flag <> TagD ->
  applyMove board (mkMove s d (Some flag)) promote = Some after ->
  getItem2 after d.1 s.2 = Some None.
Proof.
  intros Hflag Hrun. unfold applyMove in Hrun.
  do 6 bind_step Hrun.
  eapply promotions_keep_empty; [exact Hrun |].
  do 2 bind_step Hstep4.
  destruct (decide (flag = TagD)); [contradiction |].
  eapply getItem2_setItem2. exact Hstep4.
Qed.

Lemma castle_empties_destination (self : VirtualBoard) (after : Board Z) s d flag promote :
  flag = TagLC \/ flag = TagRC -> s.2 = d.2 ->
  fakeMove self (mkMove s d (Some flag)) promote = Some after ->
  exists before, after = rotateBoard before /\ getItem2 before d.1 d.2 = Some None.
Proof.
  intros Hflag Hrow Hrun. unfold fakeMove in Hrun.
  destruct (applyMove (vboard self) (mkMove s d (Some flag)) promote) as [before |] eqn:Happly;
    [| discriminate].
  injection Hrun as <-. exists before. split; [reflexivity |].
  rewrite <- Hrow. eapply flagged_move_empties_square; [| exact Happly].
  destruct Hflag as [-> | ->]; discriminate.
Qed.

(** ** [fakeMove] works on a copy *)

Section Frame.
Variable st0 : Store.State.

Lemma extends_refl : extends st0 st0.
Proof.
  split; [auto |]. split; [reflexivity |].
  intros l elems Hnew Hl. unfold isNew in Hnew. congruence.
Qed.

Lemma safe_pure {A} (a : A) (Q : A -> Prop) : Q a -> safe st0 (Store.pure a) Q.
Proof. intros HQ st Hst. split; [exact Hst |]. intros a' [= <-]. exact HQ. Qed.

Lemma safe_fail {A} (Q : A -> Prop) : safe st0 Store.fail Q.
Proof. intros st Hst. split; [exact Hst |]. intros a' [=]. Qed.

Lemma safe_bind {A B} (m : Store.Eff A) (k : A -> Store.Eff B) (P : A -> Prop)
    (Q : B -> Prop) :
  safe st0 m P -> (forall a, P a -> safe st0 (k a) Q) -> safe st0 (m ≫= k) Q.
Proof.
  intros Hm Hk st Hst. unfold mbind, Store.Eff_bind, Store.andThen.
  destruct (Hm st Hst) as [Hst' HP].
  destruct (m st) as [[a |] st']; simpl in *.
  - apply Hk; auto.
  - split; [exact Hst' |]. intros b [=].
Qed.

Lemma safe_weaken {A} (m : Store.Eff A) (P Q : A -> Prop) :
  safe st0 m P -> (forall a, P a -> Q a) -> safe st0 m Q.
Proof. intros Hm HPQ st Hst. destruct (Hm st Hst). split; auto. Qed.

Lemma safe_liftOpt {A} (o : option A) (Q : A -> Prop) :
  (forall a, o = Some a -> Q a) -> safe st0 (Store.liftOpt o) Q.
Proof. destruct o; intros HQ; [apply safe_pure; auto | apply safe_fail]. Qed.

Lemma safe_getList l :
  safe st0 (Store.getList l) (fun elems => isNew st0 l -> Forall (valueNew st0) elems).
Proof.
  intros st Hst. split; [exact Hst |]. simpl. intros elems Hl Hnew.
  destruct Hst as (_ & _ & Hfresh). eauto.
Qed.

Lemma safe_getObject self : safe st0 (Store.getObject self) (fun _ => True).
Proof. intros st Hst. split; [exact Hst | auto]. Qed.

Lemma safe_countLists : safe st0 Store.countLists (fun _ => True).
Proof. intros st Hst. split; [exact Hst | auto]. Qed.

Lemma safe_putList l elems :
  isNew st0 l -> Forall (valueNew st0) elems ->
  safe st0 (Store.putList l elems) (fun _ => True).
Proof.
  intros Hnew Helems st Hst. unfold Store.putList.
  destruct (Store.lists st !! l) eqn:Hl; simpl; [| split; [exact Hst | auto]].
  split; [| auto].
  destruct Hst as (Hold & Hobj & Hfresh). split; [| split]; simpl.
  - intros l' elems' Hl'. rewrite lookup_insert_ne; [auto |].
    intros <-. unfold isNew in Hnew. congruence.
  - exact Hobj.
  - intros l' elems' Hnew' Hl'. destruct (decide (l = l')) as [<- | Hne].
    + rewrite lookup_insert_eq in Hl'. injection Hl' as <-. exact Helems.
    + rewrite lookup_insert_ne in Hl' by exact Hne. eauto.
Qed.

Lemma safe_allocList elems :
  Forall (valueNew st0) elems -> safe st0 (Store.allocList elems) (isNew st0).
Proof.
  intros Helems st Hst. unfold Store.allocList. simpl.
  set (l := fresh (dom (Store.lists st))).
  assert (Hl : Store.lists st !! l = None).
  { apply not_elem_of_dom. apply is_fresh. }
  assert (Hnew : isNew st0 l).
  { unfold isNew. destruct (Store.lists st0 !! l) as [old |] eqn:Hold; [| reflexivity].
    destruct Hst as (Hkeep & _). apply Hkeep in Hold. congruence. }
  split; [| intros a [= <-]; exact Hnew].
  destruct Hst as (Hold & Hobj & Hfresh). split; [| split]; simpl.
  - intros l' elems' Hl'. rewrite lookup_insert_ne; [auto |].
    intros <-. unfold isNew in Hnew. congruence.
  - exact Hobj.
  - intros l' elems' Hnew' Hl'. destruct (decide (l = l')) as [<- | Hne].
    + rewrite lookup_insert_eq in Hl'. injection Hl' as <-. exact Helems.
    + rewrite lookup_insert_ne in Hl' by exact Hne. eauto.
Qed.

Lemma safe_asList v : valueNew st0 v -> safe st0 (Store.asList v) (isNew st0).
Proof. destruct v; intros Hv; [apply safe_fail | apply safe_fail | apply safe_pure; exact Hv]. Qed.

Lemma safe_asInt v : safe st0 (Store.asInt v) (fun _ => True).
Proof. destruct v; [apply safe_fail | apply safe_pure; exact I | apply safe_fail]. Qed.

Lemma index_Forall {A} (P : A -> Prop) (l : list A) i a :
  Forall P l -> Py.index l i = Some a -> P a.
Proof.
  intros Hl. unfold Py.index.
  destruct (_ && _); [intros Hi; exact (Forall_lookup_1 _ _ _ _ Hl Hi) |].
  destruct (_ && _); [intros Hi; exact (Forall_lookup_1 _ _ _ _ Hl Hi) | discriminate].
Qed.

Lemma setitem_Forall {A} (P : A -> Prop) (l l' : list A) i a :
  Forall P l -> P a -> Py.setitem l i a = Some l' -> Forall P l'.
Proof.
  intros Hl Ha. unfold Py.setitem.
  destruct (_ && _); [intros [= <-]; apply Forall_insert; assumption |].
  destruct (_ && _); [intros [= <-]; apply Forall_insert; assumption | discriminate].
Qed.

(** The column [board[x]] of a new array is new, and so are its elements. *)
Lemma safe_column board x :
  isNew st0 board ->
  safe st0 (outer ← Store.getList board;
            Store.liftOpt (Py.index outer x) ≫= Store.asList) (isNew st0).
Proof.
  intros Hboard.
  eapply safe_bind; [apply safe_getList |]. intros outer Houter.
  eapply safe_bind; [apply safe_liftOpt; intros v Hv; exact (index_Forall _ _ _ _ (Houter Hboard) Hv) |].
  intros v Hv. apply safe_asList. exact Hv.
Qed.

Lemma safe_index2 board x y :
  isNew st0 board -> safe st0 (Store.index2 board x y) (valueNew st0).
Proof.
  intros Hboard. unfold Store.index2.
  eapply safe_bind; [apply safe_getList |]. intros outer Houter.
  eapply safe_bind.
  { eapply safe_bind; [apply safe_liftOpt; intros v Hv;
                       exact (index_Forall _ _ _ _ (Houter Hboard) Hv) |].
    intros v Hv. apply safe_asList. exact Hv. }
  intros column Hcolumn.
  eapply safe_bind; [apply safe_getList |]. intros elems Helems.
  apply safe_liftOpt. intros v Hv. exact (index_Forall _ _ _ _ (Helems Hcolumn) Hv).
Qed.

Lemma safe_setIndex2 board x y v :
  isNew st0 board -> valueNew st0 v ->
  safe st0 (Store.setIndex2 board x y v) (fun _ => True).
Proof.
  intros Hboard Hv. unfold Store.setIndex2.
  eapply safe_bind; [apply safe_getList |]. intros outer Houter.
  eapply safe_bind.
  { eapply safe_bind; [apply safe_liftOpt; intros w Hw;
                       exact (index_Forall _ _ _ _ (Houter Hboard) Hw) |].
    intros w Hw. apply safe_asList. exact Hw. }
  intros column Hcolumn.
  eapply safe_bind; [apply safe_getList |]. intros elems Helems.
  eapply safe_bind.
  { apply (safe_liftOpt _ (Forall (valueNew st0))). intros elems' Hset.
    exact (setitem_Forall _ _ _ _ _ (Helems Hcolumn) Hv Hset). }
  intros elems' Helems'. apply safe_putList; assumption.
Qed.

Lemma safe_index2_int board x y :
  isNew st0 board -> safe st0 (Store.index2 board x y ≫= Store.asInt) (fun _ => True).
Proof.
  intros Hboard. eapply safe_bind; [apply safe_index2; exact Hboard |].
  intros v _. apply safe_asInt.
Qed.

Lemma safe_forEach {A} (l : list A) (body : A -> Store.Eff unit) :
  Forall (fun a => safe st0 (body a) (fun _ => True)) l ->
  safe st0 (Store.forEach l body) (fun _ => True).
Proof.
  induction 1 as [| a l Ha _ IH]; [apply safe_pure; exact I |].
  cbn [Store.forEach]. eapply safe_bind; [exact Ha |]. intros _ _. exact IH.
Qed.

Lemma safe_forEach_all {A} (l : list A) (body : A -> Store.Eff unit) :
  (forall a, safe st0 (body a) (fun _ => True)) ->
  safe st0 (Store.forEach l body) (fun _ => True).
Proof. intros Hbody. apply safe_forEach. apply Forall_forall. auto. Qed.

(** *** The deep copy *)

Lemma memoLookup_new memo l l' :
  memoNew st0 memo -> Store.memoLookup memo l = Some l' -> isNew st0 l'.
Proof.
  unfold Store.memoLookup, memoNew. intros Hmemo Hfind.
  match type of Hfind with
  | context [List.find ?f ?m] => destruct (List.find f m) as [entry |] eqn:Hentry
  end; simpl in Hfind; [| discriminate].
  injection Hfind as <-. apply find_some in Hentry as [Hin _].
  rewrite Forall_forall in Hmemo. apply Hmemo. apply list_elem_of_In. exact Hin.
Qed.

Lemma safe_copyElems copy elems :
  (forall v memo, memoNew st0 memo -> safe st0 (copy v memo) (copied st0)) ->
  forall memo, memoNew st0 memo -> safe st0 (Store.copyElems copy elems memo) (copiedAll st0).
Proof.
  intros Hcopy. induction elems as [| v elems IH]; intros memo Hmemo.
  - apply safe_pure. split; [constructor | exact Hmemo].
  - cbn [Store.copyElems].
    eapply safe_bind; [apply Hcopy; exact Hmemo |]. intros [v' memo'] [Hv' Hmemo'].
    eapply safe_bind; [apply IH; exact Hmemo' |]. intros [rest memo''] [Hrest Hmemo''].
    apply safe_pure. split; [apply Forall_cons_2; assumption | exact Hmemo''].
Qed.

Lemma safe_deepcopyWith fuel :
  forall v memo, memoNew st0 memo -> safe st0 (Store.deepcopyWith fuel v memo) (copied st0).
Proof.
  induction fuel as [| fuel IH]; intros v memo Hmemo;
    (destruct v as [| z | l]; [apply safe_pure; split; [exact I | exact Hmemo]
                               | apply safe_pure; split; [exact I | exact Hmemo] |]);
    cbn [Store.deepcopyWith];
    (destruct (Store.memoLookup memo l) as [l' |] eqn:Hl';
       [apply safe_pure; split; [exact (memoLookup_new _ _ _ Hmemo Hl') | exact Hmemo] |]).
  - apply safe_fail.
  - eapply safe_bind; [apply safe_getList |]. intros elems _.
    eapply safe_bind; [apply safe_allocList; constructor |]. intros l' Hnew.
    eapply safe_bind.
    { apply safe_copyElems; [exact IH |]. apply Forall_cons_2; [exact Hnew | exact Hmemo]. }
    intros [elems' memo'] [Helems' Hmemo'].
    eapply safe_bind; [apply safe_putList; assumption |]. intros _ _.
    apply safe_pure. split; [exact Hnew | exact Hmemo'].
Qed.

Lemma safe_deepcopy v : safe st0 (Store.deepcopy v) (valueNew st0).
Proof.
  unfold Store.deepcopy.
  eapply safe_bind; [apply safe_countLists |]. intros n _.
  eapply safe_bind; [apply safe_deepcopyWith; constructor |]. intros [v' memo] [Hv' _].
  apply safe_pure. exact Hv'.
Qed.

(** *** The loops and the whole method *)

Lemma safe_resetLoop board :
  isNew st0 board -> safe st0 (Store.resetLoop board) (fun _ => True).
Proof.
  intros Hboard. unfold Store.resetLoop.
  eapply safe_bind; [apply safe_getList |]. intros outer _.
  apply safe_forEach_all. intros x.
  eapply safe_bind; [apply safe_getList |]. intros outer' Houter.
  eapply safe_bind.
  { eapply safe_bind; [apply safe_liftOpt; intros v Hv;
                       exact (index_Forall _ _ _ _ (Houter Hboard) Hv) |].
    intros v Hv. apply safe_asList. exact Hv. }
  intros column Hcolumn.
  eapply safe_bind; [apply safe_getList |]. intros elems _.
  apply safe_forEach_all. intros y.
  eapply safe_bind; [apply safe_getList |]. intros elems' _.
  eapply safe_bind; [apply safe_liftOpt; intros; exact I |]. intros piece _.
  assert (Hint : safe st0
            (piece0 ← Store.asInt piece;
             if piece0 / 10 =? 0
             then current ← Store.index2 board x y ≫= Store.asInt;
                  Store.setIndex2 board x y (Store.VInt (current mod 4))
             else Store.pure tt) (fun _ => True)).
  { eapply safe_bind; [apply safe_asInt |]. intros piece0 _.
    destruct (piece0 / 10 =? 0); [| apply safe_pure; exact I].
    eapply safe_bind; [apply safe_index2_int; exact Hboard |]. intros current _.
    apply safe_setIndex2; [exact Hboard | exact I]. }
  destruct piece; [apply safe_pure; exact I | exact Hint | exact Hint].
Qed.

Lemma safe_promoteLoop board promote :
  isNew st0 board -> safe st0 (Store.promoteLoop board promote) (fun _ => True).
Proof.
  intros Hboard. unfold Store.promoteLoop.
  eapply safe_bind; [apply safe_getList |]. intros outer _.
  apply safe_forEach_all. intros x.
  eapply safe_bind; [apply safe_getList |]. intros outer' Houter.
  eapply safe_bind.
  { eapply safe_bind; [apply safe_liftOpt; intros v Hv;
                       exact (index_Forall _ _ _ _ (Houter Hboard) Hv) |].
    intros v Hv. apply safe_asList. exact Hv. }
  intros column Hcolumn.
  assert (Hfirst : safe st0 (Store.getList column ≫= fun elems =>
                               Store.liftOpt (Py.index elems 0)) (fun _ => True)).
  { eapply safe_bind; [apply safe_getList |]. intros elems _.
    apply safe_liftOpt. intros; exact I. }
  eapply safe_bind; [exact Hfirst |]. intros first _.
  assert (Hint : safe st0
            (piece ← Store.asInt first;
             if piece <? 10
             then first0 ← Store.getList column ≫= (fun elems =>
                              Store.liftOpt (Py.index elems 0));
                  piece0 ← Store.asInt first0;
                  Store.setIndex2 board x 0 (Store.VInt (promote * 10 + piece0))
             else Store.pure tt) (fun _ => True)).
  { eapply safe_bind; [apply safe_asInt |]. intros piece _.
    destruct (piece <? 10); [| apply safe_pure; exact I].
    eapply safe_bind; [exact Hfirst |]. intros first0 _.
    eapply safe_bind; [apply safe_asInt |]. intros piece0 _.
    apply safe_setIndex2; [exact Hboard | exact I]. }
  destruct first; [apply safe_pure; exact I | exact Hint | exact Hint].
Qed.

Lemma safe_rotateLoop board :
  isNew st0 board -> safe st0 (Store.rotateLoop board) (fun _ => True).
Proof.
  intros Hboard. unfold Store.rotateLoop.
  eapply safe_bind; [apply safe_getList |]. intros outer Houter.
  eapply safe_bind.
  { apply safe_forEach. eapply Forall_impl; [exact (Houter Hboard) |].
    intros row Hrow.
    eapply safe_bind; [apply safe_asList; exact Hrow |]. intros column Hcolumn.
    eapply safe_bind; [apply safe_getList |]. intros elems Helems.
    apply safe_putList; [exact Hcolumn |]. apply Forall_reverse. auto. }
  intros _ _.
  eapply safe_bind; [apply safe_getList |]. intros outer' Houter'.
  apply safe_putList; [exact Hboard |]. apply Forall_reverse. auto.
Qed.

(** The method keeps the store an extension, and the list it returns is a
    new one. *)
Lemma safe_fakeMove self move promote :
  safe st0 (Store.fakeMove self move promote) (isNew st0).
Proof.
  destruct move as [s d flag]. unfold Store.fakeMove.
  eapply safe_bind; [apply safe_getObject |]. intros attrs _.
  eapply safe_bind.
  { eapply safe_bind; [apply safe_deepcopy |]. intros v Hv. apply safe_asList. exact Hv. }
  intros board Hboard.
  eapply safe_bind; [apply safe_index2; exact Hboard |]. intros moving Hmoving.
  eapply safe_bind; [apply safe_setIndex2; assumption |]. intros _ _.
  eapply safe_bind; [apply safe_setIndex2; [assumption | exact I] |]. intros _ _.
  eapply safe_bind; [apply safe_index2_int; exact Hboard |]. intros piece _.
  eapply (safe_bind _ _ (fun _ : unit => True)).
  { destruct (_ && _); [| apply safe_pure; exact I].
    eapply safe_bind; [apply safe_index2_int; exact Hboard |]. intros piece' _.
    apply safe_setIndex2; [exact Hboard | exact I]. }
  intros _ _.
  eapply safe_bind; [apply safe_resetLoop; exact Hboard |]. intros _ _.
  eapply (safe_bind _ _ (fun _ : unit => True)).
  { destruct flag as [flag |]; [| apply safe_pure; exact I].
    eapply (safe_bind _ _ (fun _ : unit => True)).
    { destruct (decide (flag = TagLC)); [| apply safe_pure; exact I].
      eapply safe_bind; [apply safe_index2; exact Hboard |]. intros rook Hrook.
      eapply safe_bind; [apply safe_setIndex2; assumption |]. intros _ _.
      apply safe_setIndex2; [exact Hboard | exact I]. }
    intros _ _.
    eapply (safe_bind _ _ (fun _ : unit => True)).
    { destruct (decide (flag = TagRC)); [| apply safe_pure; exact I].
      eapply safe_bind; [apply safe_index2; exact Hboard |]. intros rook Hrook.
      eapply safe_bind; [apply safe_setIndex2; assumption |]. intros _ _.
      apply safe_setIndex2; [exact Hboard | exact I]. }
    intros _ _.
    destruct (decide (flag = TagD)).
    - eapply safe_bind; [apply safe_index2_int; exact Hboard |]. intros piece' _.
      apply safe_setIndex2; [exact Hboard | exact I].
    - apply safe_setIndex2; [exact Hboard | exact I]. }
  intros _ _.
  eapply safe_bind; [apply safe_promoteLoop; exact Hboard |]. intros _ _.
  eapply safe_bind; [apply safe_rotateLoop; exact Hboard |]. intros _ _.
  apply safe_pure. exact Hboard.
Qed.

End Frame.

Lemma mapM_same {A B} (f g : A -> option B) (l : list A) (k : list B) :
  mapM f l = Some k -> (forall a b, f a = Some b -> g a = Some b) -> mapM g l = Some k.
Proof.
  intros Hf Hfg. apply mapM_Some_2. apply mapM_Some_1 in Hf.
  eapply Forall2_impl; [exact Hf |]. auto.
Qed.

(** What an extension leaves readable. *)
Lemma readArray_extends st0 st board array :
  extends st0 st -> Store.readArray st0 board = Some array ->
  Store.readArray st board = Some array.
Proof.
  intros (Hold & _ & _). unfold Store.readArray.
  destruct (Store.lists st0 !! board) as [outer |] eqn:Houter; [| discriminate].
  rewrite (Hold _ _ Houter). cbn [mbind option_bind]. intros Hread.
  eapply mapM_same; [exact Hread |].
  intros [| z | column] cells; try discriminate.
  destruct (Store.lists st0 !! column) as [elems |] eqn:Helems; [| discriminate].
  rewrite (Hold _ _ Helems). auto.
Qed.

Lemma bind_result {A B} (m : Store.Eff A) (k : A -> Store.Eff B) st b st' :
  (m ≫= k) st = (Some b, st') ->
  exists a st1, m st = (Some a, st1) /\ k a st1 = (Some b, st').
Proof.
  unfold mbind, Store.Eff_bind, Store.andThen.
  destruct (m st) as [[a |] st1]; [eauto | discriminate].
Qed.

Ltac peel H :=
  let a := fresh "a" in
  let st1 := fresh "st1" in
  apply bind_result in H as (a & st1 & _ & H).

Lemma rotateLoop_keeps_list board st st' :
  Store.rotateLoop board st = (Some tt, st') -> is_Some (Store.lists st' !! board).
Proof.
  unfold Store.rotateLoop. intros Hrun.
  do 3 peel Hrun. unfold Store.putList in Hrun.
  destruct (Store.lists st2 !! board); [| discriminate].
  injection Hrun as <-. simpl. rewrite lookup_insert_eq. eexists; reflexivity.
Qed.

(** A list that [fakeMove] returns is in the store. *)
Lemma fakeMove_returns_list self move promote st returned st' :
  Store.fakeMove self move promote st = (Some returned, st') ->
  is_Some (Store.lists st' !! returned).
Proof.
  destruct move as [s d flag]. unfold Store.fakeMove. intros Hrun.
  do 10 peel Hrun.
  apply bind_result in Hrun as ([] & st11 & Hrotate & Hrun).
  injection Hrun as <- <-. eapply rotateLoop_keeps_list. exact Hrotate.
Qed.

(** C10. For every store, every VirtualBoard object of it whose array is
    readable and every move, [fakeMove] leaves the array and the turn of
    the object as they were, whether it returns or raises, and the list it
    returns is a new object whose columns are new objects too.  Where the
    columns of the object's array are distinct lists, the returned list
    holds the array that [fakeMove] of the value model computes from the
    object's array, and the method raises where that function raises. *)
Theorem fakeMove_leaves_object (st : Store.State) (self : Store.loc) (move : Move)
    (promote : Z) (array : Board Z) :
  Store.readBoard st self = Some array ->
  let (result, st') := Store.fakeMove self move promote st in
  Store.readBoard st' self = Some array
  /\ Store.readTurn st' self = Store.readTurn st self
  /\ (forall returned, result = Some returned ->
       Store.lists st !! returned = None
       /\ exists outer, Store.lists st' !! returned = Some outer
            /\ Forall (fun v => match v with
                                | Store.VRef column => Store.lists st !! column = None
                                | _ => True
                                end) outer)
  /\ forall board turn_ cols,
       Store.objects st !! self = Some (board, turn_) ->
       Store.lists st !! board = Some (Store.VRef <$> cols) -> NoDup cols ->
       (result ≫= Store.readArray st') = fakeMove (mkVB array turn_) move promote.
Proof.
  intros Hread.
  destruct (safe_fakeMove st self move promote st (extends_refl st)) as [Hext Hnew].
  pose proof (fun board turn_ cols => fakeMove_refines st self board turn_ cols array move promote)
    as Hrefines.
  destruct (Store.fakeMove self move promote st) as [result st'] eqn:Hrun. simpl in *.
  pose proof Hext as (Hold & Hobj & Hfresh).
  split; [| split; [| split]].
  - unfold Store.readBoard in *. rewrite Hobj.
    destruct (Store.objects st !! self) as [attrs |]; [| discriminate].
    cbn [mbind option_bind] in *. eapply readArray_extends; eassumption.
  - unfold Store.readTurn. rewrite Hobj. reflexivity.
  - intros returned ->. specialize (Hnew returned eq_refl).
    split; [exact Hnew |].
    assert (Hreturned : is_Some (Store.lists st' !! returned)).
    { eapply fakeMove_returns_list. exact Hrun. }
    destruct Hreturned as [outer Houter]. exists outer. split; [exact Houter |].
    specialize (Hfresh returned outer Hnew Houter).
    eapply Forall_impl; [exact Hfresh |]. intros [| z | column]; auto.
  - intros board turn_ cols Hself Hboard Hdistinct.
    apply (Hrefines board turn_ cols Hself).
    apply readArray_repr; [| exact Hboard | exact Hdistinct].
    unfold Store.readBoard in Hread. rewrite Hself in Hread. exact Hread.
Qed.

Lemma fakeMove_leaves_object_witness :
  Store.readBoard Store.startStore.2 0%nat = Some (vboard startPosition)
  /\ let (result, st') :=
       Store.fakeMove 0%nat (mkMove (4, 6) (4, 4) (Some TagD)) 4 Store.startStore.2 in
     Store.readBoard st' 0%nat = Some (vboard startPosition)
     /\ Store.readTurn st' 0%nat = Store.readTurn Store.startStore.2 0%nat
     /\ (forall returned, result = Some returned ->
          Store.lists Store.startStore.2 !! returned = None
          /\ exists outer, Store.lists st' !! returned = Some outer
               /\ Forall (fun v => match v with
                                   | Store.VRef column =>
                                       Store.lists Store.startStore.2 !! column = None
                                   | _ => True
                                   end) outer)
     /\ forall board turn_ cols,
          Store.objects Store.startStore.2 !! 0%nat = Some (board, turn_) ->
          Store.lists Store.startStore.2 !! board = Some (Store.VRef <$> cols) -> NoDup cols ->
          (result ≫= Store.readArray st')
          = fakeMove (mkVB (vboard startPosition) turn_) (mkMove (4, 6) (4, 4) (Some TagD)) 4.
Proof.
  split; [vm_compute; reflexivity |].
  apply (fakeMove_leaves_object Store.startStore.2 0%nat
           (mkMove (4, 6) (4, 4) (Some TagD)) 4 (vboard startPosition)).
  vm_compute. reflexivity.
Defined.

(** The store of the starting position holds its array in eight distinct
    columns. *)
Lemma startStore_repr :
  Store.objects Store.startStore.2 !! 0%nat = Some (8%nat, false)
  /\ repr Store.startStore.2 8%nat (seq 0 8) (vboard startPosition).
Proof.
  split; [vm_compute; reflexivity |].
  apply readArray_repr.
  - vm_compute. reflexivity.
  - vm_compute. reflexivity.
  - apply NoDup_seq.
Qed.

(** On the store of the starting position the method returns, for each of
    the pseudo-legal moves and for the left castle, the array that the
    function [fakeMove] of the value model computes. *)
Lemma store_fakeMove_agrees_at_start :
  Store.startStore.1 = Some 0%nat
  /\ forallb (fun move =>
       let (result, st') := Store.fakeMove 0%nat move 4 Store.startStore.2 in
       bool_decide ((result ≫= Store.readArray st') = fakeMove startPosition move 4))
     (leftCastle :: default [] (getAllMoves startPosition None None)) = true.
Proof. split; vm_compute; reflexivity. Qed.

(** ** Castling *)

Lemma validLiveBoard_spec board :
  validLiveBoard board = true ->
  dims board /\ forall x y piece, at_ board x y = Some piece -> validPiece piece = true.
Proof.
  unfold validLiveBoard. intros Hvalid.
  apply andb_true_iff in Hvalid as [Hlen Hcolumns]. apply Nat.eqb_eq in Hlen.
  rewrite forallb_forall in Hcolumns. split.
  - split; [exact Hlen |]. apply Forall_forall. intros column Hin.
    specialize (Hcolumns column (proj1 (list_elem_of_In _ _) Hin)).
    apply andb_true_iff in Hcolumns as [Hlen' _]. apply Nat.eqb_eq. exact Hlen'.
  - intros x y piece. unfold at_.
    destruct ((0 <=? x) && (0 <=? y)); [| discriminate].
    destruct (board !! Z.to_nat x) as [column |] eqn:Hcolumn; [| discriminate].
    destruct (column !! Z.to_nat y) as [cell |] eqn:Hcell; [| discriminate].
    intros ->.
    specialize (Hcolumns column (proj1 (list_elem_of_In _ _) (list_elem_of_lookup_2 _ _ _ Hcolumn))).
    apply andb_true_iff in Hcolumns as [_ Hcells]. rewrite forallb_forall in Hcells.
    exact (Hcells (Some piece) (proj1 (list_elem_of_In _ _) (list_elem_of_lookup_2 _ _ _ Hcell))).
Qed.

Lemma rowFree_spec {T} (board : Board T) row lo hi :
  dims board ->
  0 <= row <= 7 -> 0 <= lo -> hi <= 8 ->
  exists free : bool,
    rowFree board row (pyRange lo hi) = Some free
    /\ (free = true <-> forall x, lo <= x < hi -> at_ board x row = None).
Proof.
  intros Hdims Hrow Hlo Hhi. unfold rowFree, pyRange.
  assert (Hcells : mapM (fun x => getItem2 board x row) (seqZ lo (hi - lo))
                   = Some ((fun x => at_ board x row) <$> seqZ lo (hi - lo))).
  { apply mapM_Some. apply Forall2_fmap_r. apply Forall_Forall2_diag.
    apply Forall_forall. intros x Hx. apply elem_of_seqZ in Hx.
    apply getItem2_at; [exact Hdims | lia | lia]. }
  rewrite Hcells. cbn [mbind option_bind]. eexists. split; [reflexivity |].
  rewrite forallb_forall. split.
  - intros Hall x Hx.
    destruct (at_ board x row) as [piece |] eqn:Hat; [| reflexivity].
    discriminate (Hall (Some piece)). apply list_elem_of_In. apply list_elem_of_fmap.
    exists x. split; [symmetry; exact Hat |]. apply elem_of_seqZ. lia.
  - intros Hall cell Hin. apply list_elem_of_In, list_elem_of_fmap in Hin as (x & -> & Hx).
    apply elem_of_seqZ in Hx. rewrite Hall by lia. reflexivity.
Qed.

Section LiveCastle.
Variables (agent : Piece) (board : Board Piece).
Hypothesis Hdims : dims board.
Hypothesis Hrooks : forall x y piece,
  at_ board x y = Some piece -> kind piece = Rook -> is_Some (movedEver piece).

Lemma liveRookNeverMoved_spec x y :
  exists rook : bool,
    liveRookNeverMoved (at_ board x y) = Some rook
    /\ (rook = true <-> exists piece, at_ board x y = Some piece /\ kind piece = Rook
                                       /\ movedEver piece = Some false).
Proof.
  unfold liveRookNeverMoved.
  destruct (at_ board x y) as [piece |] eqn:Hat.
  - destruct (kind piece) eqn:Hkind;
      try (exists false; split; [reflexivity |]; split; [discriminate |];
           intros (? & [= <-] & ? & _); congruence).
    destruct (Hrooks x y piece Hat Hkind) as [moved Hmoved]. rewrite Hmoved.
    exists (negb moved). split; [reflexivity |]. split.
    + intros Hneg. exists piece. destruct moved; [discriminate | auto].
    + intros (? & [= <-] & _ & Heq). rewrite Hmoved in Heq. injection Heq as ->. reflexivity.
  - exists false. split; [reflexivity |]. split; [discriminate |].
    intros (? & ? & _). discriminate.
Qed.


(** One block on live pieces. *)
Lemma live_castleSide (corner row lo hi home : Z) (move : LiveMove) :
  0 <= corner <= 7 -> 0 <= row <= 7 -> 0 <= lo -> hi <= 8 ->
  Z.min corner home + 1 = lo -> Z.max corner home = hi ->
  exists l,
    castleSide liveRookNeverMoved board corner row (pyRange lo hi) move = Some l
    /\ forall m, m ∈ l <-> m = move /\ castleOpen board row home corner.
Proof.
  intros Hcorner Hrow Hlo Hhi Hmin Hmax. unfold castleSide.
  rewrite getItem2_at by (exact Hdims || lia). cbn [mbind option_bind].
  destruct (liveRookNeverMoved_spec corner row) as (rook & -> & Hrook).
  destruct (rowFree_spec board row lo hi Hdims Hrow Hlo Hhi) as (free & Hrun & Hfree).
  cbn [mbind option_bind]. unfold castleOpen.
  destruct rook.
  - rewrite Hrun. cbn [mbind option_bind]. eexists. split; [reflexivity |]. intros m.
    destruct free.
    + rewrite list_elem_of_singleton.
      split; [intros ->; split; [reflexivity |] | tauto].
      split; [apply Hrook; reflexivity |]. intros x Hx. apply Hfree; [reflexivity | lia].
    + split; [intros Hin; inversion Hin |]. intros (_ & _ & Hall).
      assert (false = true); [| discriminate]. apply Hfree. intros x Hx. apply Hall. lia.
  - eexists. split; [reflexivity |]. intros m.
    split; [intros Hin; inversion Hin |]. intros (_ & Hpiece & _).
    assert (false = true); [| discriminate]. apply Hrook. exact Hpiece.
Qed.

Lemma live_castle_sides (active turn_ : bool) :
  let row := if active then 7 else 0 in
  let home := if turn_ then 3 else 4 in
  let cornerL := if active then 0 else 7 in
  let cornerR := 7 - cornerL in
  exists moves,
    updateCastleLive active turn_ agent board = Some moves
    /\ forall m, m ∈ moves <->
         (m = mkLiveMove (castleDest row home cornerL) (Some TagLC) agent
          /\ castleOpen board row home cornerL)
         \/ (m = mkLiveMove (castleDest row home cornerR) (Some TagRC) agent
             /\ castleOpen board row home cornerR).
Proof.
  cbv zeta. unfold updateCastleLive, updateCastleWith. cbv zeta.
  set (row := if active then 7 else 0).
  set (home := if turn_ then 3 else 4).
  set (cornerL := if active then 0 else 7).
  destruct (live_castleSide cornerL row (Z.min cornerL home + 1) (Z.max cornerL home) home
              (mkLiveMove (castleDest row home cornerL) (Some TagLC) agent))
    as (left & Hleft & Hin_left);
    try (unfold cornerL, row, home; destruct active, turn_; simpl; lia).
  destruct (live_castleSide (7 - cornerL) row (Z.min (7 - cornerL) home + 1)
              (Z.max (7 - cornerL) home) home
              (mkLiveMove (castleDest row home (7 - cornerL)) (Some TagRC) agent))
    as (right & Hright & Hin_right);
    try (unfold cornerL, row, home; destruct active, turn_; simpl; lia).
  exists (left ++ right). split.
  - unfold cornerL, row, home in Hleft, Hright.
    destruct active, turn_; vm_compute castleDest in *;
      exact (eq_trans (f_equal2 (fun l r => l ≫= fun left => r ≫= fun right => Some (left ++ right))
                                 Hleft Hright) eq_refl).
  - intros m. rewrite elem_of_app, Hin_left, Hin_right. reflexivity.
Qed.

End LiveCastle.

(** X8. On an 8 by 8 board of live pieces in states that occur in play
    [updateCastle] returns, and it offers the castle
    towards a corner exactly when that corner holds a rook that has never
    moved and the squares between the corner and the king's home column
    are empty; the destination is two columns from the home column.  The
    home column is 4 on white's turn and 3 on black's; the row is 7 for the
    king whose turn it is and 0 for the other; the left castle goes to
    column 0 for the former and to column 7 for the latter.  Neither the
    king's own square nor the rook's team is looked at. *)
Theorem live_castle_offered (agent : Piece) (board : Board Piece) (active turn_ : bool) :
  validLiveBoard board = true ->
  let row := if active then 7 else 0 in
  let home := if turn_ then 3 else 4 in
  let cornerL := if active then 0 else 7 in
  let cornerR := 7 - cornerL in
  exists moves,
    updateCastleLive active turn_ agent board = Some moves
    /\ forall m, m ∈ moves <->
         (m = mkLiveMove (castleDest row home cornerL) (Some TagLC) agent
          /\ castleOpen board row home cornerL)
         \/ (m = mkLiveMove (castleDest row home cornerR) (Some TagRC) agent
             /\ castleOpen board row home cornerR).
Proof.
  intros Hvalid. destruct (validLiveBoard_spec board Hvalid) as [Hdims Hpieces].
  apply live_castle_sides; [exact Hdims |].
  intros x y piece Hat Hkind. specialize (Hpieces x y piece Hat).
  unfold validPiece in Hpieces. rewrite Hkind in Hpieces.
  destruct (movedEver piece); [eauto | discriminate].
Qed.

Lemma live_castle_offered_witness :
  validLiveBoard castleReady = true
  /\ exists moves,
       updateCastleLive true false (newPiece King (4, 7) false) castleReady = Some moves
       /\ forall m, m ∈ moves <->
            (m = mkLiveMove (castleDest 7 4 0) (Some TagLC) (newPiece King (4, 7) false)
             /\ castleOpen castleReady 7 4 0)
            \/ (m = mkLiveMove (castleDest 7 4 (7 - 0)) (Some TagRC) (newPiece King (4, 7) false)
                /\ castleOpen castleReady 7 4 (7 - 0)).
Proof.
  split; [vm_compute; reflexivity |].
  apply (live_castle_offered (newPiece King (4, 7) false) castleReady true false).
  vm_compute. reflexivity.
Defined.

(** One block on integer codes. *)
Lemma int_castleSide (board : Board Z) (corner row lo hi : Z) (move : Move) :
  dims board -> 0 <= corner <= 7 -> 0 <= row <= 7 -> 0 <= lo -> hi <= 8 ->
  match at_ board corner row with
  | None => castleSide intRookNeverMoved board corner row (pyRange lo hi) move = None
  | Some code =>
      exists l, castleSide intRookNeverMoved board corner row (pyRange lo hi) move = Some l
                /\ forall m, m ∈ l -> code / 10 = 4 /\ (code mod 10) mod 4 = 1
  end.
Proof.
  intros Hdims Hcorner Hrow Hlo Hhi. unfold castleSide.
  rewrite getItem2_at by (exact Hdims || lia). cbn [mbind option_bind].
  destruct (at_ board corner row) as [code |]; [| reflexivity]. simpl.
  destruct (rowFree_spec board row lo hi Hdims Hrow Hlo Hhi) as (free & -> & _).
  destruct ((code / 10 =? 4) && ((code mod 10) mod 4 =? 1)) eqn:Hcode; simpl.
  - eexists. split; [reflexivity |]. intros _ _. lia.
  - eexists. split; [reflexivity |]. intros m Hin. inversion Hin.
Qed.

(** X9. On an 8 by 8 board of integer codes [updateCastle] raises exactly
    when one of the two corner squares of the king's row is empty, and a
    castle it offers stands beside a corner code of piece value 4 (a
    queen's) whose flag digit leaves 1 modulo 4: beside a rook's code,
    whose piece value is 1, it offers none. *)
Theorem int_castle_needs_queen_code (board : Board Z) (active turn_ : bool) :
  validBoard board = true ->
  let row := if active then 7 else 0 in
  (updateCastleInt active turn_ board = None
   <-> at_ board 0 row = None \/ at_ board 7 row = None)
  /\ forall moves m,
       updateCastleInt active turn_ board = Some moves -> m ∈ moves ->
       exists corner code,
         (corner = 0 \/ corner = 7) /\ at_ board corner row = Some code
         /\ code / 10 = 4 /\ (code mod 10) mod 4 = 1.
Proof.
  intros Hvalid. apply validBoard_spec in Hvalid as [Hdims _]. cbv zeta.
  set (row := if active then 7 else 0).
  set (home := if turn_ then 3 else 4).
  set (cornerL := if active then 0 else 7).
  set (sideL := castleSide intRookNeverMoved board cornerL row
                  (pyRange (Z.min cornerL home + 1) (Z.max cornerL home))
                  (mkMove (home, row) (castleDest row home cornerL) (Some TagLC))).
  set (sideR := castleSide intRookNeverMoved board (7 - cornerL) row
                  (pyRange (Z.min (7 - cornerL) home + 1) (Z.max (7 - cornerL) home))
                  (mkMove (home, row) (castleDest row home (7 - cornerL)) (Some TagRC))).
  assert (Hrun : updateCastleInt active turn_ board
                 = (left ← sideL; right ← sideR; Some (left ++ right))).
  { unfold sideL, sideR, cornerL, row, home. destruct active, turn_; reflexivity. }
  rewrite Hrun.
  assert (Hleft := int_castleSide board cornerL row
                     (Z.min cornerL home + 1) (Z.max cornerL home)
                     (mkMove (home, row) (castleDest row home cornerL) (Some TagLC)) Hdims).
  assert (Hright := int_castleSide board (7 - cornerL) row
                      (Z.min (7 - cornerL) home + 1) (Z.max (7 - cornerL) home)
                      (mkMove (home, row) (castleDest row home (7 - cornerL)) (Some TagRC)) Hdims).
  fold sideL in Hleft. fold sideR in Hright.
  assert (Hcorners : (at_ board 0 row = None \/ at_ board 7 row = None)
                     <-> (at_ board cornerL row = None \/ at_ board (7 - cornerL) row = None)).
  { unfold cornerL. destruct active; simpl; tauto. }
  rewrite Hcorners.
  assert (Hside : forall corner, corner = cornerL \/ corner = 7 - cornerL ->
                    corner = 0 \/ corner = 7).
  { unfold cornerL. destruct active; lia. }
  destruct (at_ board cornerL row) as [codeL |] eqn:HatL.
  - destruct Hleft as (left & HsideL & HinL);
      try (unfold cornerL, row, home; destruct active, turn_; simpl; lia).
    rewrite HsideL. cbn [mbind option_bind].
    destruct (at_ board (7 - cornerL) row) as [codeR |] eqn:HatR.
    + destruct Hright as (right & HsideR & HinR);
        try (unfold cornerL, row, home; destruct active, turn_; simpl; lia).
      rewrite HsideR. cbn [mbind option_bind]. split.
      * split; [discriminate | intros [? | ?]; discriminate].
      * intros moves m [= <-] Hin. apply elem_of_app in Hin as [Hin | Hin].
        -- exists cornerL, codeL. split; [apply Hside; auto |]. split; [exact HatL |].
           exact (HinL m Hin).
        -- exists (7 - cornerL), codeR. split; [apply Hside; auto |]. split; [exact HatR |].
           exact (HinR m Hin).
    + rewrite Hright by (unfold cornerL, row, home; destruct active, turn_; simpl; lia).
      split; [tauto | discriminate].
  - rewrite Hleft by (unfold cornerL, row, home; destruct active, turn_; simpl; lia).
    split; [tauto | discriminate].
Qed.

Lemma int_castle_needs_queen_code_witness :
  validBoard (vboard startPosition) = true
  /\ (updateCastleInt true false (vboard startPosition) = None
      <-> at_ (vboard startPosition) 0 7 = None \/ at_ (vboard startPosition) 7 7 = None)
  /\ forall moves m,
       updateCastleInt true false (vboard startPosition) = Some moves -> m ∈ moves ->
       exists corner code,
         (corner = 0 \/ corner = 7) /\ at_ (vboard startPosition) corner 7 = Some code
         /\ code / 10 = 4 /\ (code mod 10) mod 4 = 1.
Proof.
  split; [vm_compute; reflexivity |].
  apply (int_castle_needs_queen_code (vboard startPosition) true false).
  vm_compute. reflexivity.
Defined.

(** ** Decoding and encoding again *)

Lemma decodeInt_onSquare c sq : decodeInt c sq = onSquare sq <$> decodeInt c (0, 0).
Proof.
  unfold decodeInt. cbv zeta.
  destruct (Py.index pieceClasses (c / 10)) as [k |]; [| reflexivity].
  cbn [mbind option_bind].
  destruct (Py.truthy ((c mod 10 - (c mod 10) mod 2) mod 4)),
    (Py.truthy (c mod 10 / 4)), k; reflexivity.
Qed.

Lemma encodeInt_onSquare sq p : encodeInt (onSquare sq p) = encodeInt p.
Proof. reflexivity. Qed.

Lemma decodeInt_class c sq p : decodeInt c sq = Some p -> -6 <= c / 10 <= 5.
Proof.
  unfold decodeInt. cbv zeta. rewrite index_position.
  destruct (position (length pieceClasses) (c / 10)) as [n |] eqn:Hplace; [| discriminate].
  intros _. unfold position in Hplace.
  change (- Z.of_nat (length pieceClasses)) with (-6) in Hplace.
  change (Z.of_nat (length pieceClasses)) with 6 in Hplace.
  destruct (Z.leb_spec 0 (c / 10)), (Z.ltb_spec (c / 10) 6),
    (Z.leb_spec (- 6) (c / 10)), (Z.ltb_spec (c / 10) 0);
    simpl in Hplace; try discriminate; lia.
Qed.

Lemma codec_table :
  forallb (fun c =>
    bool_decide (match decodeInt c (0, 0) with
                 | Some p => encodeInt p =? c
                 | None => false
                 end = encodable c)
    && bool_decide (is_Some (decodeInt c (0, 0))
                    <-> (c / 10 = 0 \/ c / 10 = -6 \/ c mod 10 <= 3)))
    (seqZ (-60) 120) = true.
Proof. vm_compute. reflexivity. Qed.

Lemma codec_entry c :
  -6 <= c / 10 <= 5 ->
  match decodeInt c (0, 0) with
  | Some p => encodeInt p =? c
  | None => false
  end = encodable c
  /\ (is_Some (decodeInt c (0, 0)) <-> (c / 10 = 0 \/ c / 10 = -6 \/ c mod 10 <= 3)).
Proof.
  intros Hclass. pose proof codec_table as Htable. rewrite forallb_forall in Htable.
  assert (Hin : In c (seqZ (-60) 120)).
  { apply list_elem_of_In, elem_of_seqZ. Z.to_euclidean_division_equations. lia. }
  specialize (Htable c Hin). apply andb_true_iff in Htable as [Hfirst Hsecond].
  apply bool_decide_eq_true in Hfirst, Hsecond. auto.
Qed.

(** X12. Decoding a code and encoding the piece again gives the code back
    exactly for the codes [encodeInt] produces: piece value 0 to 5 with a
    flag digit 0 to 3, or 6 or 7 for a pawn.  For every other code
    [decodeInt] raises or the piece encodes to a different code (a pawn
    code with flag digit 4, 5, 8 or 9 loses its double-move bit, a negative
    code is read with Python's negative index). *)
Theorem decode_then_encode (c : Z) (sq : Square) :
  (exists p, decodeInt c sq = Some p /\ encodeInt p = c) <-> encodable c = true.
Proof.
  rewrite decodeInt_onSquare. split.
  - intros (p & Hdecode & Hencode).
    destruct (decodeInt c (0, 0)) as [p0 |] eqn:Hp0; [| discriminate].
    injection Hdecode as <-. rewrite encodeInt_onSquare in Hencode.
    destruct (codec_entry c (decodeInt_class c (0, 0) p0 Hp0)) as [Hentry _].
    rewrite Hp0 in Hentry. rewrite <- Hentry. apply Z.eqb_eq. exact Hencode.
  - intros Hcode.
    assert (Hclass : -6 <= c / 10 <= 5).
    { unfold encodable in Hcode.
      destruct (Z.eqb_spec (c / 10) 0), (Z.leb_spec 1 (c / 10)), (Z.leb_spec (c / 10) 5);
        simpl in Hcode; try discriminate; lia. }
    destruct (codec_entry c Hclass) as [Hentry _]. rewrite Hcode in Hentry.
    destruct (decodeInt c (0, 0)) as [p0 |]; [| discriminate].
    exists (onSquare sq p0). split; [reflexivity |].
    rewrite encodeInt_onSquare. apply Z.eqb_eq. exact Hentry.
Qed.

(** X13. [decodeInt] raises exactly when the code's piece value is outside
    -6 to 5 (no such class, the negative values being read from the end
    of the class list) or when the flag digit is 4 or more on a piece
    that is not a pawn ([doubleMovedTrue] is a method of Pawn only). *)
Theorem decodeInt_raises (c : Z) (sq : Square) :
  decodeInt c sq = None
  <-> (c / 10 < -6 \/ 5 < c / 10 \/ (c / 10 <> 0 /\ c / 10 <> -6 /\ 4 <= c mod 10)).
Proof.
  rewrite decodeInt_onSquare.
  destruct (decodeInt c (0, 0)) as [p0 |] eqn:Hp0.
  - pose proof (decodeInt_class c (0, 0) p0 Hp0) as Hclass.
    destruct (codec_entry c Hclass) as [_ Hsome]. rewrite Hp0 in Hsome.
    split; [discriminate |]. intros Hbad.
    assert (Hok : c / 10 = 0 \/ c / 10 = -6 \/ c mod 10 <= 3) by (apply Hsome; eauto).
    lia.
  - split; [| reflexivity]. intros _.
    destruct (Z_lt_le_dec (c / 10) (-6)) as [? | Hlow]; [auto |].
    destruct (Z_lt_le_dec 5 (c / 10)) as [? | Hhigh]; [auto |].
    destruct (codec_entry c (conj Hlow Hhigh)) as [_ Hsome]. rewrite Hp0 in Hsome.
    right. right.
    assert (Hnot : ~ (c / 10 = 0 \/ c / 10 = -6 \/ c mod 10 <= 3)).
    { intros Hok. apply Hsome in Hok. destruct Hok as [? Hok]. discriminate. }
    lia.
Qed.

(** ** Frames of the undo stack *)

Section Placing.
Context {A T : Type}.
Variables (sqOf : A -> Square) (valOf : A -> T).

(** Writing entries one after the other on squares of the board that are
    all different: each square holds its entry, the others are as before. *)
Lemma foldM_place (entries : list A) : forall board : Board T,
  dims board ->
  Forall (fun entry => onBoard (sqOf entry) = true) entries ->
  NoDup (sqOf <$> entries) ->
  exists board',
    foldM (fun board entry => setItem2 board (sqOf entry).1 (sqOf entry).2 (Some (valOf entry)))
          entries board = Some board'
    /\ dims board'
    /\ (forall entry, entry ∈ entries ->
          at_ board' (sqOf entry).1 (sqOf entry).2 = Some (valOf entry))
    /\ (forall x y, (x, y) ∉ sqOf <$> entries -> at_ board' x y = at_ board x y).
Proof.
  induction entries as [| entry entries IH]; intros board Hdims Hon Hdistinct.
  - exists board. split; [reflexivity |]. split; [exact Hdims |].
    split; [intros entry Hin; inversion Hin | auto].
  - apply Forall_cons in Hon as [Hentry Hon].
    cbn [fmap list_fmap] in Hdistinct. apply NoDup_cons in Hdistinct as [Hfirst Hdistinct].
    apply onBoard_range in Hentry as Hrange.
    cbn [foldM]. rewrite setItem2_setSq by (exact Hdims || lia). cbn [mbind option_bind].
    destruct (IH (setSq board (sqOf entry).1 (sqOf entry).2 (Some (valOf entry)))
                 (dims_setSq _ _ _ _ Hdims) Hon Hdistinct)
      as (board' & Hrun & Hdims' & Hin & Hout).
    exists board'. split; [exact Hrun |]. split; [exact Hdims' |]. split.
    + intros entry' Hin'. apply elem_of_cons in Hin' as [-> | Hin']; [| auto].
      rewrite Hout by (destruct (sqOf entry); exact Hfirst).
      rewrite at_setSq by (exact Hdims || lia).
      destruct (decide _) as [_ | Hne]; [reflexivity |]. destruct (sqOf entry); contradiction.
    + intros x y Hnot. cbn [fmap list_fmap] in Hnot. apply not_elem_of_cons in Hnot as [Hne Hnot].
      rewrite (Hout x y Hnot). rewrite at_setSq by (exact Hdims || lia).
      destruct (decide _) as [Heq | _]; [| reflexivity].
      destruct (sqOf entry); simpl in *. congruence.
Qed.

End Placing.

Lemma dims_emptyBoard {T} : dims (@emptyBoard T).
Proof. split; [reflexivity |]. repeat constructor. Qed.

Lemma at_emptyBoard {T} x y : at_ (@emptyBoard T) x y = None.
Proof.
  unfold at_. destruct ((0 <=? x) && (0 <=? y)); [| reflexivity].
  unfold emptyBoard. destruct (replicate 8 (replicate 8 None) !! Z.to_nat x) as [column |] eqn:Hcolumn;
    [| reflexivity].
  apply lookup_replicate in Hcolumn as [-> _].
  destruct (replicate 8 None !! Z.to_nat y) as [cell |] eqn:Hcell; [| reflexivity].
  apply lookup_replicate in Hcell as [-> _]. reflexivity.
Qed.

Lemma createVBoard_foldM pieces turn_ :
  createVBoard pieces turn_
  = (fun board => mkVB board turn_)
      <$> foldM (fun board piece => setItem2 board (square piece).1 (square piece).2
                                      (Some (encodeInt piece)))
                pieces emptyBoard.
Proof.
  unfold createVBoard. generalize (@emptyBoard Z) as board.
  assert (Hnone : forall pieces : list Piece,
            foldl (fun vb piece => vb ← vb; placePiece vb (square piece) (encodeInt piece))
                  None pieces = None).
  { intros l. induction l as [| piece l IH]; [reflexivity | exact IH]. }
  induction pieces as [| piece pieces IH]; intros board; [reflexivity |].
  cbn [foldl foldM mbind option_bind]. unfold placePiece at 2. cbn [vboard vturn].
  destruct (setItem2 board (square piece).1 (square piece).2 (Some (encodeInt piece)))
    as [board' |]; cbn [mbind option_bind fmap option_fmap option_map].
  - apply IH.
  - apply Hnone.
Qed.

(** X14. For live pieces on squares of the board that are all different,
    [createVBoard] returns an 8 by 8 array that holds the code of every
    piece on the piece's square and nothing on the other squares, with the
    turn it was given. *)
Theorem createVBoard_places (pieces : list Piece) (turn_ : bool) :
  Forall (fun piece => onBoard (square piece) = true) pieces ->
  NoDup (square <$> pieces) ->
  exists vb,
    createVBoard pieces turn_ = Some vb
    /\ vturn vb = turn_
    /\ dims (vboard vb)
    /\ (forall piece, piece ∈ pieces ->
          at_ (vboard vb) (square piece).1 (square piece).2 = Some (encodeInt piece))
    /\ (forall x y, (x, y) ∉ square <$> pieces -> at_ (vboard vb) x y = None).
Proof.
  intros Hon Hdistinct. rewrite createVBoard_foldM.
  destruct (foldM_place square encodeInt pieces emptyBoard dims_emptyBoard Hon Hdistinct)
    as (board & -> & Hdims & Hin & Hout).
  exists (mkVB board turn_). split; [reflexivity |]. split; [reflexivity |].
  split; [exact Hdims |]. split; [exact Hin |].
  intros x y Hnot. cbn [vboard]. rewrite (Hout x y Hnot). apply at_emptyBoard.
Qed.

Lemma createVBoard_places_witness :
  Forall (fun piece => onBoard (square piece) = true) initialPieces
  /\ NoDup (square <$> initialPieces)
  /\ exists vb,
       createVBoard initialPieces false = Some vb
       /\ vturn vb = false
       /\ dims (vboard vb)
       /\ (forall piece, piece ∈ initialPieces ->
             at_ (vboard vb) (square piece).1 (square piece).2 = Some (encodeInt piece))
       /\ (forall x y, (x, y) ∉ square <$> initialPieces -> at_ (vboard vb) x y = None).
Proof.
  assert (Hon : Forall (fun piece => onBoard (square piece) = true) initialPieces).
  { apply (bool_decide_unpack _). vm_compute. exact I. }
  assert (Hdistinct : NoDup (square <$> initialPieces)).
  { apply (bool_decide_unpack _). vm_compute. exact I. }
  split; [exact Hon |]. split; [exact Hdistinct |].
  apply (createVBoard_places initialPieces false Hon Hdistinct).
Defined.

Lemma enumerate_lookup {A} (l : list A) i a :
  (i, a) ∈ enumerate l <-> 0 <= i /\ l !! Z.to_nat i = Some a.
Proof.
  unfold enumerate. rewrite elem_of_lookup_imap. split.
  - intros (n & a' & [= -> ->] & Hn). rewrite Nat2Z.id. split; [lia | exact Hn].
  - intros [Hi Hn]. exists (Z.to_nat i), a. split; [| exact Hn]. f_equal. lia.
Qed.

Lemma enumerate_fst {A} (l : list A) : (enumerate l).*1 = Z.of_nat <$> seq 0 (length l).
Proof.
  unfold enumerate.
  assert (Hshift : forall k, (imap (fun i a => (Z.of_nat (k + i), a)) l).*1
                             = Z.of_nat <$> seq k (length l)).
  { induction l as [| a l IH]; intros k; [reflexivity |].
    cbn [imap fmap list_fmap length seq]. rewrite Nat.add_0_r. f_equal.
    rewrite <- (IH (S k)). f_equal. apply imap_ext. intros i b _. simpl. f_equal. f_equal. lia. }
  exact (Hshift 0%nat).
Qed.

Lemma NoDup_enumerate {A} (l : list A) : NoDup (enumerate l).
Proof.
  apply (NoDup_fmap_1 fst). rewrite enumerate_fst.
  apply NoDup_fmap_2; [intros ? ? ?; lia | apply NoDup_seq].
Qed.

Lemma occupiedSquares_spec board sq code :
  dims board ->
  (sq, code) ∈ occupiedSquares board <-> onBoard sq = true /\ at_ board sq.1 sq.2 = Some code.
Proof.
  intros [Hlen Hcolumns]. unfold occupiedSquares. rewrite list_elem_of_bind. split.
  - intros ([x column] & Hin & Hx). apply enumerate_lookup in Hx as [Hx Hcolumn].
    apply list_elem_of_bind in Hin as ([y piece] & Hin & Hy).
    apply enumerate_lookup in Hy as [Hy Hpiece].
    destruct piece as [code' |]; [| inversion Hin].
    apply list_elem_of_singleton in Hin. injection Hin as -> ->. cbn [fst snd].
    pose proof (lookup_lt_Some _ _ _ Hcolumn) as Hxlt.
    pose proof (Forall_lookup_1 _ _ _ _ Hcolumns Hcolumn) as Hlen'. cbv beta in Hlen'.
    pose proof (lookup_lt_Some _ _ _ Hpiece) as Hylt.
    split; [apply onBoard_range; simpl; lia |].
    unfold at_. replace ((0 <=? x) && (0 <=? y)) with true by lia.
    rewrite Hcolumn, Hpiece. reflexivity.
  - intros [Hon Hat]. apply onBoard_range in Hon. destruct sq as [x y]. cbn [fst snd] in *.
    unfold at_ in Hat. replace ((0 <=? x) && (0 <=? y)) with true in Hat by lia.
    destruct (board !! Z.to_nat x) as [column |] eqn:Hcolumn; [| discriminate].
    destruct (column !! Z.to_nat y) as [piece |] eqn:Hpiece; [| discriminate]. subst piece.
    exists (x, column). split; [| apply enumerate_lookup; split; [lia | exact Hcolumn]].
    apply list_elem_of_bind. exists (y, Some code).
    split; [left | apply enumerate_lookup; split; [lia | exact Hpiece]].
Qed.

Lemma NoDup_occupiedSquares board : dims board -> NoDup (occupiedSquares board).*1.
Proof.
  intros Hdims.
  assert (Hall : NoDup (occupiedSquares board)).
  { unfold occupiedSquares. apply NoDup_bind; [| | apply NoDup_enumerate].
    - intros [x column] [x' column'] [[u v] code] Hx Hx' Hin Hin'.
      apply list_elem_of_bind in Hin as ([y piece] & Hin & _).
      apply list_elem_of_bind in Hin' as ([y' piece'] & Hin' & _).
      destruct piece; [| inversion Hin]. destruct piece'; [| inversion Hin'].
      apply list_elem_of_singleton in Hin, Hin'.
      injection Hin as -> -> ->. injection Hin' as -> _ _.
      apply enumerate_lookup in Hx as [_ Hx]. apply enumerate_lookup in Hx' as [_ Hx'].
      congruence.
    - intros [x column] _. apply NoDup_bind; [| | apply NoDup_enumerate].
      + intros [y piece] [y' piece'] [[u v] code] Hy Hy' Hin Hin'.
        destruct piece; [| inversion Hin]. destruct piece'; [| inversion Hin'].
        apply list_elem_of_singleton in Hin, Hin'.
        injection Hin as _ -> ->. injection Hin' as _ -> ->. reflexivity.
      + intros [y piece] _. destruct piece; [apply NoDup_singleton | apply NoDup_nil_2]. }
  apply NoDup_fmap_2_strong; [| exact Hall].
  intros [sq code] [sq' code'] Hin Hin' Heq. simpl in Heq. subst sq'.
  apply (occupiedSquares_spec board sq code Hdims) in Hin as [_ Hat].
  apply (occupiedSquares_spec board sq code' Hdims) in Hin' as [_ Hat'].
  congruence.
Qed.

Lemma decode_encode_core (p : Piece) (sq : Square) :
  validPiece p = true ->
  exists q, decodeInt (encodeInt p) sq = Some q
    /\ kind q = kind p /\ team q = team p /\ square q = sq
    /\ movedEver q = movedEver p /\ doubleMoved q = doubleMoved p.
Proof.
  destruct p as [k t s me dm th]; unfold validPiece; simpl.
  destruct k, t, me as [[|]|], dm as [[|]|]; intros Hv; try discriminate Hv;
    (eexists; split; [vm_compute; reflexivity | simpl; auto 10]).
Qed.

Lemma decodeInt_square c sq q : decodeInt c sq = Some q -> square q = sq.
Proof.
  rewrite decodeInt_onSquare. destruct (decodeInt c (0, 0)); [| discriminate].
  intros [= <-]. reflexivity.
Qed.

(** X15. The board that [__setFrame] builds from the frame that
    [createVBoard] makes of live pieces (in states that occur in play, on
    squares of the board that are all different) holds on the square of
    every piece a piece of the same kind, colour, square, ever-moved flag
    and double-moved flag, and nothing on the other squares: an undo
    brings the position back. *)
Theorem frame_restores_pieces (pieces : list Piece) (turn_ : bool) :
  piecesOK pieces -> NoDup (square <$> pieces) ->
  exists vb board,
    createVBoard pieces turn_ = Some vb
    /\ restoreBoard (vboard vb) = Some board
    /\ (forall p, p ∈ pieces ->
          exists q, at_ board (square p).1 (square p).2 = Some q
            /\ kind q = kind p /\ team q = team p /\ square q = square p
            /\ movedEver q = movedEver p /\ doubleMoved q = doubleMoved p)
    /\ (forall x y, (x, y) ∉ square <$> pieces -> at_ board x y = None).
Proof.
  intros Hok Hdistinct.
  assert (Hon : Forall (fun piece => onBoard (square piece) = true) pieces).
  { eapply Forall_impl; [exact Hok |]. intros p [_ Hp]. exact Hp. }
  destruct (foldM_place square encodeInt pieces emptyBoard dims_emptyBoard Hon Hdistinct)
    as (codes & Hcodes & Hdims & Hin & Hout).
  exists (mkVB codes turn_).
  assert (Hcreate : createVBoard pieces turn_ = Some (mkVB codes turn_)).
  { rewrite createVBoard_foldM, Hcodes. reflexivity. }
  cbn [vboard].
  (* every occupied square holds the code of a piece of the list *)
  assert (Hsource : forall sq code, (sq, code) ∈ occupiedSquares codes ->
            exists p, p ∈ pieces /\ square p = sq /\ code = encodeInt p).
  { intros [x y] code Hocc. apply (occupiedSquares_spec codes _ _ Hdims) in Hocc as [_ Hat].
    cbn [fst snd] in Hat.
    destruct (decide ((x, y) ∈ square <$> pieces)) as [Hsq | Hsq].
    - apply list_elem_of_fmap in Hsq as (p & Hp & Hin_p). exists p.
      split; [exact Hin_p |]. split; [auto |].
      specialize (Hin p Hin_p). rewrite <- Hp in Hin. cbn [fst snd] in Hin. congruence.
    - rewrite (Hout x y Hsq), at_emptyBoard in Hat. discriminate. }
  (* the codes decode *)
  destruct (mapM_total (fun entry : Square * Z => decodeInt entry.2 entry.1)
              (fun entry q => decodeInt entry.2 entry.1 = Some q)
              (occupiedSquares codes)) as (decoded & Hdecoded & Heach).
  { apply Forall_forall. intros [sq code] Hocc.
    destruct (Hsource sq code Hocc) as (p & Hin_p & <- & ->).
    destruct (proj1 (Forall_forall _ _) Hok p Hin_p) as [Hvalid _].
    destruct (decode_encode_core p (square p) Hvalid) as (q & Hq & _). eauto. }
  assert (Hsquares : square <$> decoded = (occupiedSquares codes).*1).
  { clear - Heach. induction Heach as [| [sq code] q occ decoded Hq _ IH]; [reflexivity |].
    cbn [fmap list_fmap]. rewrite IH. f_equal. exact (decodeInt_square code sq q Hq). }
  destruct (foldM_place square (fun q : Piece => q) decoded emptyBoard dims_emptyBoard)
    as (board & Hboard & _ & Hin' & Hout').
  { apply Forall_forall. intros q Hq.
    apply list_elem_of_lookup in Hq as [n Hq].
    destruct (Forall2_lookup_r _ _ _ _ _ Heach Hq) as ([sq code] & Hocc & Hdec).
    apply list_elem_of_lookup_2 in Hocc.
    apply (occupiedSquares_spec codes _ _ Hdims) in Hocc as [Hon_sq _].
    rewrite (decodeInt_square code sq q Hdec). exact Hon_sq. }
  { rewrite Hsquares. apply NoDup_occupiedSquares. exact Hdims. }
  exists board. split; [exact Hcreate |]. split.
  { unfold restoreBoard. rewrite Hdecoded. exact Hboard. }
  split.
  - intros p Hin_p.
    destruct (proj1 (Forall_forall _ _) Hok p Hin_p) as [Hvalid Hon_p].
    assert (Hocc : (square p, encodeInt p) ∈ occupiedSquares codes).
    { apply (occupiedSquares_spec codes _ _ Hdims). split; [exact Hon_p | exact (Hin p Hin_p)]. }
    apply list_elem_of_lookup in Hocc as [n Hocc].
    destruct (Forall2_lookup_l _ _ _ _ _ Heach Hocc) as (q & Hq & Hdec). cbn [fst snd] in Hdec.
    destruct (decode_encode_core p (square p) Hvalid) as (q' & Hq' & Hkind & Hteam & Hsq & Hflags).
    rewrite Hq' in Hdec. injection Hdec as ->.
    exists q. split; [| auto].
    rewrite <- Hsq. apply Hin'. eapply list_elem_of_lookup_2. exact Hq.
  - intros x y Hnot. rewrite Hout'; [apply at_emptyBoard |].
    rewrite Hsquares. intros Hsq. apply list_elem_of_fmap in Hsq as ([sq code] & Heq & Hocc).
    simpl in Heq. subst sq.
    destruct (Hsource (x, y) code Hocc) as (p & Hin_p & Hp & _).
    apply Hnot. apply list_elem_of_fmap. exists p. auto.
Qed.

Lemma frame_restores_pieces_witness :
  piecesOK initialPieces /\ NoDup (square <$> initialPieces)
  /\ exists vb board,
       createVBoard initialPieces false = Some vb
       /\ restoreBoard (vboard vb) = Some board
       /\ (forall p, p ∈ initialPieces ->
             exists q, at_ board (square p).1 (square p).2 = Some q
               /\ kind q = kind p /\ team q = team p /\ square q = square p
               /\ movedEver q = movedEver p /\ doubleMoved q = doubleMoved p)
       /\ (forall x y, (x, y) ∉ square <$> initialPieces -> at_ board x y = None).
Proof.
  assert (Hok : piecesOK initialPieces).
  { apply (bool_decide_unpack _). vm_compute. exact I. }
  assert (Hdistinct : NoDup (square <$> initialPieces)).
  { apply (bool_decide_unpack _). vm_compute. exact I. }
  split; [exact Hok |]. split; [exact Hdistinct |].
  apply (frame_restores_pieces initialPieces false Hok Hdistinct).
Defined.

(** ** What a move does to the squares *)

Lemma at_rotateBoard {T} (board : Board T) x y :
  dims board -> 0 <= x <= 7 -> 0 <= y <= 7 ->
  at_ (rotateBoard board) x y = at_ board (7 - x) (7 - y).
Proof.
  intros [Hlen Hcolumns] Hx Hy. unfold at_, rotateBoard.
  replace ((0 <=? x) && (0 <=? y)) with true by lia.
  replace ((0 <=? 7 - x) && (0 <=? 7 - y)) with true by lia.
  rewrite reverse_lookup by (rewrite length_fmap; lia).
  rewrite length_fmap, list_lookup_fmap, Hlen.
  replace (8 - S (Z.to_nat x))%nat with (Z.to_nat (7 - x)) by lia.
  destruct (board !! Z.to_nat (7 - x)) as [column |] eqn:Hcolumn; [| reflexivity].
  simpl. pose proof (Forall_lookup_1 _ _ _ _ Hcolumns Hcolumn) as Hlen'. cbv beta in Hlen'.
  rewrite reverse_lookup by lia. rewrite Hlen'.
  replace (8 - S (Z.to_nat y))%nat with (Z.to_nat (7 - y)) by lia. reflexivity.
Qed.

Lemma at_promotions promote (board board' : Board Z) x y :
  mapM (promoteColumn promote) board = Some board' ->
  0 <= x -> 0 <= y ->
  at_ board' x y = promoteCell promote y (at_ board x y).
Proof.
  intros Hrun Hx Hy. apply mapM_Some in Hrun. unfold at_, promoteCell.
  replace ((0 <=? x) && (0 <=? y)) with true by lia.
  destruct (board !! Z.to_nat x) as [column |] eqn:Hcolumn.
  - destruct (Forall2_lookup_l _ _ _ _ _ Hrun Hcolumn) as (column' & -> & Hpromote).
    destruct (Z.to_nat y) as [| n] eqn:Hn.
    + replace (y =? 0) with true by lia.
      destruct column as [| [piece |] rest]; [discriminate | |]; cbn [promoteColumn] in Hpromote.
      * simpl. destruct (piece <? 10); injection Hpromote as <-; reflexivity.
      * injection Hpromote as <-. reflexivity.
    + replace (y =? 0) with false by lia.
      assert (Hrest : column' !! S n = column !! S n).
      { destruct column as [| [piece |] rest]; [discriminate | |];
          cbn [promoteColumn] in Hpromote.
        - destruct (piece <? 10); injection Hpromote as <-; reflexivity.
        - injection Hpromote as <-. reflexivity. }
      rewrite Hrest. destruct (column !! S n) as [[code |] |]; reflexivity.
  - rewrite (proj2 (lookup_ge_None board' (Z.to_nat x))); [reflexivity |].
    rewrite <- (Forall2_length _ _ _ Hrun). apply lookup_ge_None. exact Hcolumn.
Qed.

Lemma promotions_some promote (board : Board Z) :
  dims board ->
  exists board', mapM (promoteColumn promote) board = Some board' /\ dims board'.
Proof.
  intros [Hlen Hcolumns].
  destruct (mapM_total (promoteColumn promote)
              (fun column column' : list (option Z) => length column' = 8%nat) board)
    as (board' & Hrun & Hall).
  - eapply Forall_impl; [exact Hcolumns |]. intros column Hlen'.
    destruct column as [| [piece |] rest]; [discriminate | |]; cbn [promoteColumn].
    + destruct (piece <? 10); eexists; (split; [reflexivity | exact Hlen']).
    + eexists. split; [reflexivity | exact Hlen'].
  - exists board'. split; [exact Hrun |]. split.
    + rewrite <- (Forall2_length _ _ _ Hall). exact Hlen.
    + apply Forall_forall. intros column' Hin. apply list_elem_of_lookup in Hin as [n Hn].
      destruct (Forall2_lookup_r _ _ _ _ _ Hall Hn) as (column & _ & Hlen'). exact Hlen'.
Qed.

(** The array after the statements that [fakeMove] and [makeMove] share,
    square by square, for a move from an occupied square to another square
    that is no castle. *)
Lemma applyMove_squares (board : Board Z) (move : Move) (promote piece : Z) :
  dims board ->
  onBoard (src move) = true -> onBoard (dst move) = true -> dst move <> src move ->
  at_ board (src move).1 (src move).2 = Some piece ->
  tag move <> Some TagLC -> tag move <> Some TagRC ->
  exists after,
    applyMove board move promote = Some after /\ dims after
    /\ forall x y, 0 <= x <= 7 -> 0 <= y <= 7 ->
         at_ after x y = squareAfter board move promote x y.
Proof.
  intros Hdims Hs Hd Hne Hat Hleft Hright.
  destruct move as [s d flag]. cbn [src dst tag] in *.
  apply onBoard_range in Hs as [Hs1 Hs2]. apply onBoard_range in Hd as [Hd1 Hd2].
  unfold applyMove.
  rewrite getItem2_at, Hat by assumption. cbn [mbind option_bind].
  rewrite setItem2_setSq by assumption. cbn [mbind option_bind].
  set (b1 := setSq board d.1 d.2 (Some piece)).
  assert (Hdims1 : dims b1) by (apply dims_setSq; assumption).
  rewrite setItem2_setSq by assumption. cbn [mbind option_bind].
  set (b2 := setSq b1 s.1 s.2 None).
  assert (Hdims2 : dims b2) by (apply dims_setSq; assumption).
  assert (Hat2 : forall x y, at_ b2 x y
            = if decide ((x, y) = s) then None
              else if decide ((x, y) = d) then Some piece else at_ board x y).
  { intros x y. unfold b2, b1. rewrite !at_setSq by assumption.
    destruct s, d. reflexivity. }
  rewrite getItem2_at by assumption. rewrite Hat2.
  rewrite decide_False by (destruct s, d; simpl in *; congruence).
  rewrite decide_True by (destruct d; reflexivity).
  unfold asInt. cbn [mbind option_bind].
  set (cond := ((piece / 10 =? 0) || (piece / 10 =? 1) || (piece / 10 =? 5))
               && (piece mod 10 / 2 mod 2 =? 0)).
  set (piece3 := if cond then piece + 2 else piece).
  assert (exists b3, (if cond then setItem2 b2 d.1 d.2 (Some (piece + 2)) else Some b2) = Some b3
            /\ dims b3
            /\ forall x y, at_ b3 x y
                 = if decide ((x, y) = d) then Some piece3
                   else if decide ((x, y) = s) then None else at_ board x y)
    as (b3 & -> & Hdims3 & Hat3).
  { unfold piece3. destruct cond.
    - rewrite setItem2_setSq by assumption. eexists. split; [reflexivity |].
      split; [apply dims_setSq; assumption |]. intros x y.
      rewrite at_setSq by assumption. rewrite Hat2.
      destruct d as [d1 d2]. cbn [fst snd].
      destruct (decide ((x, y) = (d1, d2))); [reflexivity |].
      destruct (decide ((x, y) = s)); reflexivity.
    - eexists. split; [reflexivity |]. split; [assumption |]. intros x y. rewrite Hat2.
      destruct (decide ((x, y) = d)) as [-> |]; [| reflexivity].
      rewrite decide_False by congruence. reflexivity. }
  cbn [mbind option_bind]. cbv zeta.
  set (b4 := resetDoubleMoved b3).
  assert (Hdims4 : dims b4) by (apply dims_resetDoubleMoved; assumption).
  assert (Hat4 : forall x y, at_ b4 x y = resetCode (at_ b3 x y)).
  { intros x y. apply at_resetDoubleMoved. }
  assert (Hmoved : resetCode (Some piece3)
            = Some (if piece3 / 10 =? 0 then piece3 mod 4 else piece3)).
  { cbn [resetCode]. destruct (piece3 / 10 =? 0); reflexivity. }
  assert (Hfinish : forall b5 : Board Z, dims b5 ->
            (forall x y, at_ b5 x y
               = if decide (flag = Some TagE /\ (x, y) = (d.1, s.2)) then None
                 else if decide ((x, y) = d) then Some (movedCode flag piece)
                 else if decide ((x, y) = s) then None
                 else resetCode (at_ board x y)) ->
            exists after,
              mapM (promoteColumn promote) b5 = Some after /\ dims after
              /\ forall x y, 0 <= x <= 7 -> 0 <= y <= 7 ->
                   at_ after x y = squareAfter board (mkMove s d flag) promote x y).
  { intros b5 Hdims5 Hat5.
    destruct (promotions_some promote b5 Hdims5) as (after & Hrun & Hdims').
    exists after. split; [exact Hrun |]. split; [exact Hdims' |].
    intros x y Hx Hy. rewrite (at_promotions promote b5 after x y Hrun) by lia.
    unfold squareAfter. cbn [src dst tag]. rewrite Hat5, Hat. reflexivity. }
  assert (Hcode : movedCode flag piece
            = (if decide (flag = Some TagD)
               then (if piece3 / 10 =? 0 then piece3 mod 4 else piece3) + 4
               else if piece3 / 10 =? 0 then piece3 mod 4 else piece3)).
  { reflexivity. }
  destruct flag as [[| | |] |]; [| | congruence | congruence |].
  - rewrite decide_False by discriminate. cbn [mbind option_bind].
    rewrite decide_False by discriminate. cbn [mbind option_bind].
    rewrite decide_True by reflexivity.
    rewrite getItem2_at by assumption. rewrite Hat4, Hat3.
    rewrite decide_True by (destruct d; reflexivity). rewrite Hmoved.
    unfold asInt. cbn [mbind option_bind].
    rewrite setItem2_setSq by assumption. cbn [mbind option_bind].
    apply Hfinish; [apply dims_setSq; assumption |].
    intros x y. rewrite at_setSq by assumption. rewrite Hat4, Hat3, Hcode.
    destruct (decide (_ /\ _)) as [[? _] | _]; [discriminate |].
    rewrite (decide_True (P := Some TagD = Some TagD)) by reflexivity.
    destruct d as [d1 d2]. cbn [fst snd].
    destruct (decide ((x, y) = (d1, d2))); [reflexivity |].
    destruct (decide ((x, y) = s)); reflexivity.
  - rewrite decide_False by discriminate. cbn [mbind option_bind].
    rewrite decide_False by discriminate. cbn [mbind option_bind].
    rewrite decide_False by discriminate.
    rewrite setItem2_setSq by assumption. cbn [mbind option_bind].
    apply Hfinish; [apply dims_setSq; assumption |].
    intros x y. rewrite at_setSq by assumption. rewrite Hat4, Hat3, Hcode.
    rewrite (decide_False (P := Some TagE = Some TagD)) by discriminate.
    destruct (decide ((x, y) = (d.1, s.2))) as [Heq | Hne'].
    + rewrite decide_True by (split; [reflexivity | exact Heq]). reflexivity.
    + destruct (decide (_ /\ _)) as [[_ ?] | _]; [contradiction |].
      destruct (decide ((x, y) = d)); [apply Hmoved |].
      destruct (decide ((x, y) = s)); reflexivity.
  - cbn [mbind option_bind]. apply Hfinish; [exact Hdims4 |].
    intros x y. rewrite Hat4, Hat3, Hcode.
    destruct (decide (_ /\ _)) as [[? _] | _]; [discriminate |].
    rewrite (decide_False (P := None = Some TagD)) by discriminate.
    destruct (decide ((x, y) = d)); [apply Hmoved |].
    destruct (decide ((x, y) = s)); reflexivity.
Qed.

(** X18. [makeMove] with a move from an occupied square to another square
    of the board that is no castle does not raise.  It swaps the turn, and
    the square [(x, y)] of the new, rotated array holds what the statements
    of the move leave on [(7 - x, 7 - y)]: nothing on the source and on the
    square beside an en passant capture, the moved piece with its flags on
    the destination, elsewhere the old content with a pawn's double-move bit
    cleared; a code below 10 on row 0 is promoted. *)
Theorem makeMove_squares (self : VirtualBoard) (move : Move) (promote piece : Z) :
  validBoard (vboard self) = true ->
  onBoard (src move) = true -> onBoard (dst move) = true -> dst move <> src move ->
  at_ (vboard self) (src move).1 (src move).2 = Some piece ->
  tag move <> Some TagLC -> tag move <> Some TagRC ->
  exists after,
    makeMove self move promote = Some after
    /\ vturn after = negb (vturn self)
    /\ forall x y, 0 <= x <= 7 -> 0 <= y <= 7 ->
         at_ (vboard after) x y = squareAfter (vboard self) move promote (7 - x) (7 - y).
Proof.
  intros Hvalid Hs Hd Hne Hat Hleft Hright.
  apply validBoard_spec in Hvalid as [Hdims _].
  destruct (applyMove_squares _ _ promote _ Hdims Hs Hd Hne Hat Hleft Hright)
    as (after & Hrun & Hdims' & Hsquares).
  exists (mkVB (rotateBoard after) (negb (vturn self))).
  unfold makeMove. rewrite Hrun. split; [reflexivity |]. split; [reflexivity |].
  intros x y Hx Hy. cbn [vboard]. rewrite at_rotateBoard by assumption.
  apply Hsquares; lia.
Qed.

Lemma makeMove_squares_witness :
  exists after,
    makeMove startPosition (mkMove (4, 6) (4, 4) (Some TagD)) 4 = Some after
    /\ vturn after = true
    /\ forall x y, 0 <= x <= 7 -> 0 <= y <= 7 ->
         at_ (vboard after) x y
         = squareAfter (vboard startPosition) (mkMove (4, 6) (4, 4) (Some TagD)) 4
             (7 - x) (7 - y).
Proof.
  apply (makeMove_squares startPosition (mkMove (4, 6) (4, 4) (Some TagD)) 4 0);
    try reflexivity; discriminate.
Defined.

(** X19. After [makeMove] on a valid board the double-move bit is set on
    one pawn at most: a pawn code whose bit is set stands on the destination
    of the move, and the move was a double step. *)
Theorem makeMove_double_flag (self after : VirtualBoard) (move : Move) (promote piece : Z)
    (x y code : Z) :
  validBoard (vboard self) = true ->
  onBoard (src move) = true -> onBoard (dst move) = true -> dst move <> src move ->
  at_ (vboard self) (src move).1 (src move).2 = Some piece ->
  tag move <> Some TagLC -> tag move <> Some TagRC ->
  makeMove self move promote = Some after ->
  0 <= x <= 7 -> 0 <= y <= 7 ->
  at_ (vboard after) x y = Some code -> code / 10 = 0 -> (code mod 10) / 4 <> 0 ->
  tag move = Some TagD /\ (7 - x, 7 - y) = dst move.
Proof.
  intros Hvalid Hs Hd Hne Hat Hleft Hright Hrun Hx Hy Hcode Hpawn Hbit.
  pose proof Hvalid as Hvalid'. apply validBoard_spec in Hvalid' as [Hdims Hcodes].
  destruct (applyMove_squares _ _ promote _ Hdims Hs Hd Hne Hat Hleft Hright)
    as (board' & Happly & Hdims' & Hsquares).
  unfold makeMove in Hrun. rewrite Happly in Hrun. injection Hrun as <-.
  cbn [vboard] in Hcode. rewrite at_rotateBoard in Hcode by assumption.
  rewrite Hsquares in Hcode by lia. unfold squareAfter in Hcode.
  assert (Hpromote : forall c, 0 <= c ->
            promoteCell promote (7 - y)
              (Some (if c / 10 =? 0 then c mod 4 else c)) = Some code -> False).
  { intros c Hc. unfold promoteCell.
    destruct (Z.eqb_spec (c / 10) 0) as [Hten | Hten].
    - destruct ((7 - y =? 0) && (c mod 4 <? 10)); intros [= <-];
        revert Hpawn Hbit; Z.to_euclidean_division_equations; lia.
    - destruct ((7 - y =? 0) && (c <? 10)) eqn:Hcond; intros [= <-].
      + apply andb_true_iff in Hcond as [_ Hlow]. apply Z.ltb_lt in Hlow.
        apply Hten. revert Hlow. Z.to_euclidean_division_equations; lia.
      + contradiction. }
  destruct (decide (tag move = Some TagE /\ _)) as [| _]; [discriminate |].
  destruct (decide ((7 - x, 7 - y) = dst move)) as [Hdst | _].
  - split; [| exact Hdst]. rewrite Hat in Hcode. cbn [fmap option_fmap option_map] in Hcode.
    destruct (decide (tag move = Some TagD)) as [| Hnot]; [assumption | exfalso].
    pose proof (codesOK_at _ _ _ _ Hcodes Hat) as Hok.
    unfold movedCode in Hcode. rewrite (decide_False (P := tag move = Some TagD)) in Hcode by assumption.
    revert Hcode. apply Hpromote.
    unfold validCode in Hok. apply andb_true_iff in Hok as [Hok _].
    apply andb_true_iff in Hok as [Hok _]. apply Z.leb_le in Hok.
    destruct (_ && _); lia.
  - exfalso. destruct (decide ((7 - x, 7 - y) = src move)) as [| _]; [discriminate |].
    destruct (at_ (vboard self) (7 - x) (7 - y)) as [c |] eqn:Hc; [| discriminate].
    pose proof (codesOK_at _ _ _ _ Hcodes Hc) as Hok.
    cbn [resetCode] in Hcode.
    replace (if c / 10 =? 0 then Some (c mod 4) else Some c)
      with (Some (if c / 10 =? 0 then c mod 4 else c)) in Hcode
      by (destruct (c / 10 =? 0); reflexivity).
    revert Hcode. apply Hpromote.
    unfold validCode in Hok. apply andb_true_iff in Hok as [Hok _].
    apply andb_true_iff in Hok as [Hok _]. apply Z.leb_le in Hok. exact Hok.
Qed.

Lemma makeMove_double_flag_witness :
  Some TagD = Some TagD /\ (7 - 3, 7 - 3) = (4, 4).
Proof.
  apply (makeMove_double_flag startPosition
           (mkVB (rotateBoard
                    (setSq (setSq (vboard startPosition) 4 6 None) 4 4 (Some 6)))
                 true)
           (mkMove (4, 6) (4, 4) (Some TagD)) 4 0 3 3 6);
    try reflexivity; try discriminate; lia.
Defined.

(** X20. [makeMove] does not raise on a pseudo-legal move that
    [getAllMoves] gives for a valid board: it leaves a valid board, an 8 by
    8 array of piece codes, with the turn swapped. *)
Theorem makeMove_keeps_valid (self : VirtualBoard) (moves : list Move) (move : Move) :
  validBoard (vboard self) = true ->
  getAllMoves self None None = Some moves -> move ∈ moves ->
  exists after,
    makeMove self move 4 = Some after
    /\ validBoard (vboard after) = true
    /\ vturn after = negb (vturn self).
Proof.
  intros Hvalid Hrun Hin. apply validBoard_spec in Hvalid as [Hdims Hcodes].
  change (getAllMovesOn (vturn self) (vboard self) = Some moves) in Hrun.
  destruct (getAllMovesOn_total (vturn self) _ Hdims Hcodes) as (moves' & Hrun' & Hall).
  rewrite Hrun in Hrun'. injection Hrun' as <-.
  rewrite Forall_forall in Hall.
  destruct (applyMove_total _ _ _ Hdims Hcodes (Hall _ Hin)) as (board' & Happly & Hdims' & Hcodes').
  exists (mkVB (rotateBoard board') (negb (vturn self))).
  unfold makeMove. rewrite Happly. split; [reflexivity |]. split; [| reflexivity].
  apply validBoard_spec. split; [apply dims_rotateBoard | apply codesOK_rotateBoard]; assumption.
Qed.

Lemma makeMove_keeps_valid_witness :
  exists after,
    makeMove startPosition (mkMove (4, 6) (4, 4) (Some TagD)) 4 = Some after
    /\ validBoard (vboard after) = true
    /\ vturn after = negb (vturn startPosition).
Proof.
  apply (makeMove_keeps_valid startPosition
           (default [] (getAllMoves startPosition None None))
           (mkMove (4, 6) (4, 4) (Some TagD)));
    [vm_compute; reflexivity | vm_compute; reflexivity |].
  apply (bool_decide_unpack _). vm_compute. exact I.
Defined.

(** ** Move notation *)

Lemma string_app_cons c (a b : string) : (String c a +:+ b = String c (a +:+ b))%string.
Proof. reflexivity. Qed.

Lemma string_app_inv_length (a a' b b' : string) :
  String.length a = String.length a' -> (a +:+ b = a' +:+ b')%string -> a = a' /\ b = b'.
Proof.
  revert a'. induction a as [| c a IH]; intros [| c' a']; try discriminate.
  - auto.
  - rewrite !string_app_cons. intros [= Hlen] [= -> Heq].
    destruct (IH a' Hlen Heq) as [-> ->]. auto.
Qed.

Lemma string_app_assoc (a b c : string) : ((a +:+ b) +:+ c = a +:+ (b +:+ c))%string.
Proof.
  induction a as [| x a IH]; [reflexivity |]. rewrite !string_app_cons. f_equal. exact IH.
Qed.

Lemma onBoard_boardSquares sq : onBoard sq = true -> sq ∈ boardSquares.
Proof.
  intros Hon. apply onBoard_range in Hon. destruct sq as [x y]. simpl in Hon.
  unfold boardSquares. apply list_elem_of_bind. exists x. split.
  - apply list_elem_of_bind. exists y. split; [left |]. apply elem_of_seqZ. lia.
  - apply elem_of_seqZ. lia.
Qed.

Lemma squareName_table tm :
  forallb (fun sq =>
    match squareName tm sq with
    | Some name =>
        (String.length name =? 2)%nat
        && forallb (fun sq' => bool_decide (squareName tm sq' = Some name -> sq' = sq))
                   boardSquares
    | None => false
    end) boardSquares = true.
Proof. destruct tm; vm_compute; reflexivity. Qed.

Lemma squareName_onBoard tm sq :
  onBoard sq = true ->
  exists name, squareName tm sq = Some name /\ String.length name = 2%nat
    /\ forall sq', onBoard sq' = true -> squareName tm sq' = Some name -> sq' = sq.
Proof.
  intros Hon. pose proof (squareName_table tm) as Htable.
  rewrite forallb_forall in Htable.
  specialize (Htable sq (proj1 (list_elem_of_In _ _) (onBoard_boardSquares sq Hon))).
  destruct (squareName tm sq) as [name |]; [| discriminate].
  apply andb_true_iff in Htable as [Hlen Hinj]. exists name. split; [reflexivity |].
  split; [apply Nat.eqb_eq; exact Hlen |].
  intros sq' Hon' Hname. rewrite forallb_forall in Hinj.
  specialize (Hinj sq' (proj1 (list_elem_of_In _ _) (onBoard_boardSquares sq' Hon'))).
  apply bool_decide_eq_true in Hinj. auto.
Qed.

(** X6. A notation that [algebraicNotation] returns is one of the castle
    strings exactly when the move is flagged as a left castle: a right
    castle is written as a king's move. *)
Theorem castle_notation_only_left (start end_ : Square) (piece : Piece)
    (special : option Tag) (out : string) :
  algebraicNotation start end_ piece special = Some out ->
  (out = "O-O"%string \/ out = "O-O-O"%string) <-> special = Some TagLC.
Proof.
  unfold algebraicNotation, squareName. intros Hout.
  destruct (Py.index _ start.1) as [file |] eqn:Hfile; [| discriminate].
  cbn [mbind option_bind] in Hout.
  destruct (Py.index _ end_.1) as [file' |]; [| discriminate].
  cbn [mbind option_bind] in Hout.
  destruct (decide (special = Some TagLC)) as [-> | Hother].
  - split; [reflexivity |]. intros _.
    destruct (team piece); vm_compute in Hout; injection Hout as <-; auto.
  - split; [| contradiction]. intros Hcastle. exfalso.
    rewrite index_position in Hfile.
    destruct (position _ start.1) as [n |]; [| discriminate]. simpl in Hfile.
    cbn [mbind option_bind] in Hout.
    destruct (Py.index pieceLetters (value (kind piece))) as [letter |] eqn:Hletter;
      [| discriminate].
    cbn [mbind option_bind] in Hout.
    assert (Hhead : String.get 0 out <> String.get 0 "O-O"%string
                    /\ String.get 0 out <> String.get 0 "O-O-O"%string).
    { destruct (decide (special = Some TagE)); injection Hout as <-;
        destruct (team piece);
        do 8 (destruct n as [| n]; [injection Hfile as <-;
                destruct (kind piece); injection Hletter as <-;
                split; vm_compute; discriminate |]);
        discriminate. }
    destruct Hcastle as [-> | ->]; tauto.
Qed.

Lemma castle_notation_only_left_witness :
  algebraicNotation (4, 7) (6, 7) (newPiece King (4, 7) false) (Some TagRC)
    = Some "Ke1g1"%string
  /\ (("Ke1g1"%string = "O-O"%string \/ "Ke1g1"%string = "O-O-O"%string)
      <-> Some TagRC = Some TagLC).
Proof.
  split; [vm_compute; reflexivity |].
  apply (castle_notation_only_left (4, 7) (6, 7) (newPiece King (4, 7) false) (Some TagRC)).
  vm_compute. reflexivity.
Defined.

(** X7. For moves between squares of the board that are not flagged as a
    left castle the notation is returned and names the move: two moves of
    the same piece with the same flag and the same notation have the same
    source and the same destination. *)
Theorem notation_determines_squares (start end_ start' end_' : Square) (piece : Piece)
    (special : option Tag) :
  onBoard start = true -> onBoard end_ = true ->
  onBoard start' = true -> onBoard end_' = true ->
  special <> Some TagLC ->
  is_Some (algebraicNotation start end_ piece special)
  /\ (algebraicNotation start end_ piece special
      = algebraicNotation start' end_' piece special ->
      start = start' /\ end_ = end_').
Proof.
  intros Hs He Hs' He' Hspecial. unfold algebraicNotation.
  destruct (squareName_onBoard (team piece) start Hs) as (source & -> & Hlen & Hinj).
  destruct (squareName_onBoard (team piece) end_ He) as (dest & -> & Hlend & Hinjd).
  destruct (squareName_onBoard (team piece) start' Hs') as (source' & Hsource' & Hlen' & _).
  destruct (squareName_onBoard (team piece) end_' He') as (dest' & Hdest' & Hlend' & _).
  rewrite Hsource', Hdest'. cbn [mbind option_bind].
  destruct (decide (special = Some TagLC)); [contradiction |].
  assert (Hletter : is_Some (Py.index pieceLetters (value (kind piece)))).
  { destruct (kind piece); vm_compute; eauto. }
  destruct Hletter as [letter ->]. cbn [mbind option_bind].
  split; [eauto |]. intros Heq.
  assert (Hnames : source = source' /\ dest = dest').
  { destruct (decide (special = Some TagE)); injection Heq as Heq.
    - rewrite !string_app_assoc in Heq. apply String.app_inj in Heq.
      apply string_app_inv_length in Heq as [-> Heq]; [| congruence].
      apply string_app_inv_length in Heq as [-> _]; [auto | congruence].
    - apply String.app_inj in Heq.
      apply string_app_inv_length in Heq as [-> Heq]; [auto | congruence]. }
  destruct Hnames as [<- <-]. split; symmetry; auto.
Qed.

Lemma notation_determines_squares_witness :
  onBoard (4, 6) = true /\ onBoard (4, 4) = true
  /\ onBoard (4, 6) = true /\ onBoard (4, 4) = true
  /\ Some TagD <> Some TagLC
  /\ is_Some (algebraicNotation (4, 6) (4, 4) (newPiece Pawn (4, 6) false) (Some TagD))
  /\ (algebraicNotation (4, 6) (4, 4) (newPiece Pawn (4, 6) false) (Some TagD)
      = algebraicNotation (4, 6) (4, 4) (newPiece Pawn (4, 6) false) (Some TagD) ->
      (4, 6) = (4, 6) /\ (4, 4) = (4, 4)).
Proof.
  do 4 (split; [reflexivity |]). split; [discriminate |].
  apply (notation_determines_squares (4, 6) (4, 4) (4, 6) (4, 4)
           (newPiece Pawn (4, 6) false) (Some TagD)); (reflexivity || discriminate).
Defined.
(** ** Writing one square, and the half turn *)

(** X23. [placePiece] on an 8 by 8 array follows Python's indexing: a
    coordinate from -8 to -1 counts from the end, so the piece lands on the
    square [(x mod 8, y mod 8)]; any other coordinate outside 0..7 raises
    IndexError.  The turn is not touched. *)
Theorem placePiece_wraps (self : VirtualBoard) (sq : Square) (piece : Z) :
  dims (vboard self) ->
  placePiece self sq piece
  = if decide (-8 <= sq.1 <= 7 /\ -8 <= sq.2 <= 7)
    then Some (mkVB (setSq (vboard self) (sq.1 mod 8) (sq.2 mod 8) (Some piece)) (vturn self))
    else None.
Proof.
  intros [Hlen Hcolumns]. destruct sq as [x y]. cbn [fst snd].
  assert (Hposition : forall i, position 8 i
            = if decide (-8 <= i <= 7) then Some (Z.to_nat (i mod 8)) else None).
  { intros i. unfold position. change (Z.of_nat 8) with 8.
    destruct (Z.leb_spec 0 i) as [Hpos | Hneg]; destruct (Z.ltb_spec i 8) as [Hlow | Hhigh];
      destruct (Z.leb_spec (Z.opp 8) i) as [Hmin | Hmin]; destruct (Z.ltb_spec i 0) as [Hzero | Hzero];
      cbn [andb]; destruct (decide (-8 <= i <= 7)) as [Hi | Hi]; try lia; try reflexivity;
      f_equal.
    - rewrite Z.mod_small by lia. reflexivity.
    - replace (i mod 8) with (8 + i); [reflexivity |].
      Z.to_euclidean_division_equations; lia. }
  unfold placePiece, setItem2, setSq. cbn [fst snd].
  rewrite index_position, Hlen, Hposition.
  destruct (decide (-8 <= x <= 7)) as [Hx | Hx].
  2: { rewrite decide_False by tauto. reflexivity. }
  cbn [mbind option_bind].
  assert (Hlt : (Z.to_nat (x mod 8) < 8)%nat)
    by (Z.to_euclidean_division_equations; lia).
  destruct (lookup_lt_is_Some_2 (vboard self) (Z.to_nat (x mod 8))) as [column Hcolumn];
    [rewrite Hlen; exact Hlt |].
  rewrite Hcolumn. cbn [mbind option_bind]. rewrite setitem_position.
  pose proof (Forall_lookup_1 _ _ _ _ Hcolumns Hcolumn) as Hlen'. cbv beta in Hlen'.
  rewrite Hlen', Hposition.
  destruct (decide (-8 <= y <= 7)) as [Hy | Hy].
  2: { rewrite decide_False by tauto. reflexivity. }
  rewrite decide_True by tauto. cbn [mbind option_bind].
  rewrite setitem_position, Hlen, Hposition, decide_True by assumption.
  cbn [mbind option_bind]. do 2 f_equal.
  apply list_eq. intros n.
  destruct (decide (n = Z.to_nat (x mod 8))) as [-> | Hn].
  - rewrite list_lookup_insert_eq by (rewrite Hlen; exact Hlt).
    rewrite list_lookup_alter, Hcolumn, decide_True by reflexivity. reflexivity.
  - rewrite list_lookup_insert_ne by congruence.
    rewrite list_lookup_alter_ne by congruence. reflexivity.
Qed.

Lemma placePiece_wraps_witness :
  placePiece startPosition (-1, -8) 40
  = Some (mkVB (setSq (vboard startPosition) 7 0 (Some 40)) false).
Proof.
  apply (placePiece_wraps startPosition (-1, -8) 40). vm_compute. repeat constructor.
Defined.

(** X24. [rotateBoard] is a half turn of an 8 by 8 array: the new square
    [(x, y)] holds what the square [(7 - x, 7 - y)] held, and rotating twice
    gives the array back. *)
Theorem rotateBoard_half_turn {T} (board : Board T) (x y : Z) :
  dims board -> 0 <= x <= 7 -> 0 <= y <= 7 ->
  at_ (rotateBoard board) x y = at_ board (7 - x) (7 - y)
  /\ rotateBoard (rotateBoard board) = board.
Proof.
  intros Hdims Hx Hy. split; [apply at_rotateBoard; assumption |].
  unfold rotateBoard. rewrite fmap_reverse, reverse_involutive, <- list_fmap_compose.
  rewrite <- (list_fmap_id board) at 2. apply list_fmap_ext.
  intros n column _. apply reverse_involutive.
Qed.

Lemma rotateBoard_half_turn_witness :
  at_ (rotateBoard (vboard startPosition)) 4 0 = at_ (vboard startPosition) (7 - 4) (7 - 0)
  /\ rotateBoard (rotateBoard (vboard startPosition)) = vboard startPosition.
Proof.
  apply (rotateBoard_half_turn (vboard startPosition) 4 0); [| lia | lia].
  vm_compute. repeat constructor.
Defined.

(** ** The legal moves of a live piece *)

Lemma removeLoop_beyond sq fuel i l :
  (length l <= i)%nat -> removeLoop fuel i sq l = l.
Proof.
  intros Hlen. destruct fuel; [reflexivity |]. simpl.
  rewrite (proj2 (lookup_ge_None l i)) by lia. reflexivity.
Qed.

(** The list bounds the iterations, and the loop passes over the entry
    that follows a deleted one. *)
Lemma removeLoop_skip sq fuel : forall pre rest,
  (length rest <= fuel)%nat ->
  removeLoop fuel (length pre) sq (pre ++ rest) = pre ++ skipRemove sq rest.
Proof.
  induction fuel as [| fuel IH]; intros pre rest Hfuel.
  - destruct rest; [reflexivity | simpl in Hfuel; lia].
  - destruct rest as [| move rest]; [apply removeLoop_beyond; rewrite app_nil_r; lia |].
    cbn [removeLoop skipRemove]. rewrite list_lookup_middle by reflexivity.
    simpl in Hfuel. destruct (movesTo sq move).
    + replace (delete (length pre) (pre ++ move :: rest)) with (pre ++ rest).
      2: { rewrite delete_middle. reflexivity. }
      destruct rest as [| next rest].
      * apply removeLoop_beyond. rewrite app_nil_r. lia.
      * specialize (IH (pre ++ [next]) rest). rewrite length_app in IH. simpl in IH.
        rewrite Nat.add_1_r, <- !app_assoc in IH. simpl in IH, Hfuel. apply IH. lia.
    + specialize (IH (pre ++ [move]) rest). rewrite length_app in IH. simpl in IH.
      rewrite Nat.add_1_r, <- !app_assoc in IH. simpl in IH. apply IH. lia.
Qed.

Lemma removeLegalMove_skipRemove sq l : removeLegalMove sq l = skipRemove sq l.
Proof. exact (removeLoop_skip sq (length l) [] l (le_n _)). Qed.

Lemma skipRemove_none sq l :
  Forall (fun move => movesTo sq move = false) l -> skipRemove sq l = l.
Proof.
  induction 1 as [| move l Hmove _ IH]; [reflexivity |].
  simpl. rewrite Hmove, IH. reflexivity.
Qed.

Lemma filter_none sq l :
  Forall (fun move => movesTo sq move = false) l ->
  List.filter (fun move => negb (movesTo sq move)) l = l.
Proof.
  induction 1 as [| move l Hmove _ IH]; [reflexivity |].
  simpl. rewrite Hmove, IH. reflexivity.
Qed.

Lemma movesTo_spec sq move : movesTo sq move = true <-> ldst move = sq.
Proof.
  unfold movesTo. destruct (ldst move) as [x y], sq as [x' y']. simpl.
  rewrite andb_true_iff, !Z.eqb_eq. split; [intros [-> ->]; reflexivity | intros [= -> ->]; auto].
Qed.

(** X10. Where no two moves of the list end on the same square,
    [removeLegalMove] leaves exactly the moves that do not end on the
    given square, in their order. *)
Theorem removeLegalMove_distinct (sq : Square) (l : list LiveMove) :
  NoDup (ldst <$> l) ->
  removeLegalMove sq l = List.filter (fun move => negb (movesTo sq move)) l.
Proof.
  rewrite removeLegalMove_skipRemove.
  induction l as [| move l IH]; intros Hdistinct; [reflexivity |].
  cbn [fmap list_fmap] in Hdistinct. apply NoDup_cons in Hdistinct as [Hfirst Hdistinct].
  cbn [skipRemove List.filter]. destruct (movesTo sq move) eqn:Hmove; cbn [negb].
  - apply movesTo_spec in Hmove.
    assert (Hrest : Forall (fun move' => movesTo sq move' = false) l).
    { apply Forall_forall. intros move' Hin.
      destruct (movesTo sq move') eqn:Hmove'; [| reflexivity].
      apply movesTo_spec in Hmove'. exfalso. apply Hfirst.
      apply list_elem_of_fmap. exists move'. split; [congruence | exact Hin]. }
    rewrite (filter_none sq l Hrest).
    destruct l as [| next l]; [reflexivity |].
    apply Forall_cons in Hrest as [_ Hrest]. rewrite (skipRemove_none sq l Hrest). reflexivity.
  - rewrite IH by exact Hdistinct. reflexivity.
Qed.

Lemma removeLegalMove_distinct_witness :
  NoDup (ldst <$> [mkLiveMove (4, 5) None (newPiece Pawn (4, 6) false);
                   mkLiveMove (4, 4) (Some TagD) (newPiece Pawn (4, 6) false)])
  /\ removeLegalMove (4, 4) [mkLiveMove (4, 5) None (newPiece Pawn (4, 6) false);
                             mkLiveMove (4, 4) (Some TagD) (newPiece Pawn (4, 6) false)]
     = List.filter (fun move => negb (movesTo (4, 4) move))
         [mkLiveMove (4, 5) None (newPiece Pawn (4, 6) false);
          mkLiveMove (4, 4) (Some TagD) (newPiece Pawn (4, 6) false)].
Proof.
  assert (Hdistinct : NoDup (ldst <$> [mkLiveMove (4, 5) None (newPiece Pawn (4, 6) false);
                                      mkLiveMove (4, 4) (Some TagD) (newPiece Pawn (4, 6) false)])).
  { apply (bool_decide_unpack _). vm_compute. exact I. }
  split; [exact Hdistinct |].
  apply (removeLegalMove_distinct (4, 4) _ Hdistinct).
Defined.

(** X11. A move that follows a removed one is passed over: where the
    first move to the given square is followed by another move, that move
    stays in the list whether it ends on the square or not, and the
    removal goes on behind it. *)
Theorem removeLegalMove_skips_next (sq : Square) (pre rest : list LiveMove)
    (move next : LiveMove) :
  Forall (fun move' => movesTo sq move' = false) pre ->
  movesTo sq move = true ->
  removeLegalMove sq (pre ++ move :: next :: rest)
  = pre ++ next :: removeLegalMove sq rest.
Proof.
  intros Hpre Hmove. rewrite !removeLegalMove_skipRemove.
  induction Hpre as [| first pre Hfirst _ IH]; simpl.
  - rewrite Hmove. reflexivity.
  - rewrite Hfirst, IH. reflexivity.
Qed.

Lemma removeLegalMove_skips_next_witness :
  Forall (fun move' => movesTo (2, 7) move' = false) []
  /\ movesTo (2, 7) (mkLiveMove (2, 7) None (newPiece King (3, 7) false)) = true
  /\ removeLegalMove (2, 7)
       ([] ++ mkLiveMove (2, 7) None (newPiece King (3, 7) false)
           :: mkLiveMove (2, 7) (Some TagLC) (newPiece King (3, 7) false) :: [])
     = [] ++ mkLiveMove (2, 7) (Some TagLC) (newPiece King (3, 7) false)
          :: removeLegalMove (2, 7) [].
Proof.
  split; [constructor |]. split; [reflexivity |].
  apply (removeLegalMove_skips_next (2, 7) [] []
           (mkLiveMove (2, 7) None (newPiece King (3, 7) false))
           (mkLiveMove (2, 7) (Some TagLC) (newPiece King (3, 7) false)));
    [constructor | reflexivity].
Defined.

(** ** The rules of movement *)

Section Rays.
Variables (team_ : bool) (sq : Square) (agent : Z) (board : Board Z).

(** The moves of one ray in the direction [s * (d0, d1)] ([s] is 1 or
    -1) from the step [k] on: each goes over empty squares only. *)
Lemma infDistLoop_ray (s d0 d1 : Z) (c0 c1 : Comp) fuel : forall k moves,
  dirOf c0 = Some d0 -> dirOf c1 = Some d1 -> c1 <> Cmx -> 0 <= k ->
  infDistLoop fuel (fun base => base + s) (s * k) team_ sq agent (c0, c1) board = Some moves ->
  (forall j, 0 < j <= k -> at_ board (sq.1 + j * (s * d0)) (sq.2 + j * (s * d1)) = None) ->
  Forall (fun move => exists n, k < n
            /\ move = mkMove sq (sq.1 + n * (s * d0), sq.2 + n * (s * d1)) None
            /\ landsOK board team_ (dst move)
            /\ forall j, 0 < j < n ->
                 at_ board (sq.1 + j * (s * d0)) (sq.2 + j * (s * d1)) = None) moves.
Proof.
  induction fuel as [| fuel IH]; intros k moves Hd0 Hd1 Hc1 Hk Hrun Hempty; [discriminate |].
  cbn [infDistLoop fst snd] in Hrun.
  replace (s * k + s) with (s * (k + 1)) in Hrun by lia.
  assert (Hx : match c0 with
               | Cx => Some (sq.1 + s * (k + 1))
               | Cmx => Some (sq.1 - s * (k + 1))
               | Cn n => plusComp sq.1 (Cn n)
               end = Some (sq.1 + (k + 1) * (s * d0))).
  { destruct c0 as [| | [| |]]; simpl in Hd0; try discriminate;
      injection Hd0 as <-; simpl; f_equal; lia. }
  assert (Hy : match c1 with
               | Cx => Some (sq.2 + s * (k + 1))
               | Cmx => plusComp sq.2 Cmx
               | Cn n => plusComp sq.2 (Cn n)
               end = Some (sq.2 + (k + 1) * (s * d1))).
  { destruct c1 as [| | [| |]]; simpl in Hd1; try discriminate; try congruence;
      injection Hd1 as <-; simpl; f_equal; lia. }
  rewrite Hx in Hrun. cbn [mbind option_bind] in Hrun.
  rewrite Hy in Hrun. cbn [mbind option_bind] in Hrun.
  destruct (onBoard _) in Hrun; [| injection Hrun as <-; constructor].
  destruct (at_ board (sq.1 + (k + 1) * (s * d0)) (sq.2 + (k + 1) * (s * d1)))
    as [target |] eqn:Hat.
  - destruct (negb (eqb (getTeam target) team_)) eqn:Hteam; injection Hrun as <-; [| constructor].
    constructor; [| constructor]. exists (k + 1). split; [lia |]. split; [reflexivity |].
    split.
    + unfold landsOK. cbn [dst fst snd]. rewrite Hat. intros Heq.
      cbn [getTeam IntAgent] in Hteam. rewrite Heq, eqb_reflx in Hteam. discriminate.
    + intros j Hj. apply Hempty. lia.
  - destruct (infDistLoop fuel _ _ _ _ _ _ _) as [rest |] eqn:Hrest in Hrun; [| discriminate].
    injection Hrun as <-.
    assert (Hempty' : forall j, 0 < j <= k + 1 ->
              at_ board (sq.1 + j * (s * d0)) (sq.2 + j * (s * d1)) = None).
    { intros j Hj. destruct (decide (j = k + 1)) as [-> | Hne]; [exact Hat | apply Hempty; lia]. }
    constructor.
    + exists (k + 1). split; [lia |]. split; [reflexivity |]. split.
      * unfold landsOK. cbn [dst fst snd]. rewrite Hat. exact I.
      * intros j Hj. apply Hempty'. lia.
    + eapply Forall_impl; [exact (IH (k + 1) rest Hd0 Hd1 Hc1 ltac:(lia) Hrest Hempty') |].
      intros move (n & Hn & Hrest'). exists n. split; [lia | exact Hrest'].
Qed.

(** The moves of one pattern: a ray in one of its two directions, or the
    one jump of the pattern. *)
Lemma regularMove_rule (c0 c1 : Comp) (moves : list Move) (move : Move) :
  regularMove team_ sq agent (c0, c1) board = Some moves -> move ∈ moves ->
  if isx c0 || isx c1 then
    forall d0 d1, dirOf c0 = Some d0 -> dirOf c1 = Some d1 -> c1 <> Cmx ->
      src move = sq /\ tag move = None /\ landsOK board team_ (dst move)
      /\ slides board [(d0, d1); (- d0, - d1)] sq (dst move)
  else
    exists a b, c0 = Cn a /\ c1 = Cn b
      /\ src move = sq /\ tag move = None /\ landsOK board team_ (dst move)
      /\ dst move = (sq.1 + a, sq.2 + b).
Proof.
  unfold regularMove. cbn [fst snd]. intros Hrun Hin.
  destruct (isx c0 || isx c1) eqn:Hray.
  - unfold infDist in Hrun.
    destruct (infDistLoop rayFuel (fun base => base + 1) 0 _ _ _ _ _) as [up |] eqn:Hup;
      [| discriminate].
    destruct (infDistLoop rayFuel (fun base => base - 1) 0 _ _ _ _ _) as [down |] eqn:Hdown;
      [| discriminate].
    injection Hrun as <-.
    intros d0 d1 Hd0 Hd1 Hc1. apply elem_of_app in Hin as [Hin | Hin].
    + pose proof (infDistLoop_ray 1 d0 d1 c0 c1 rayFuel 0 up Hd0 Hd1 Hc1 ltac:(lia) Hup
                    ltac:(intros; lia)) as Hall.
      destruct (proj1 (Forall_forall _ _) Hall move Hin) as (n & Hn & -> & Hland & Hpath).
      split; [reflexivity |]. split; [reflexivity |]. split; [exact Hland |].
      exists (d0, d1), n. split; [left |]. split; [lia |]. cbn [dst fst snd]. split.
      * f_equal; lia.
      * intros j Hj. rewrite <- (Hpath j Hj). f_equal; lia.
    + pose proof (infDistLoop_ray (-1) d0 d1 c0 c1 rayFuel 0 down Hd0 Hd1 Hc1 ltac:(lia) Hdown
                    ltac:(intros; lia)) as Hall.
      destruct (proj1 (Forall_forall _ _) Hall move Hin) as (n & Hn & -> & Hland & Hpath).
      split; [reflexivity |]. split; [reflexivity |]. split; [exact Hland |].
      exists (- d0, - d1), n. split; [right; left |]. split; [lia |]. cbn [dst fst snd]. split.
      * f_equal; lia.
      * intros j Hj. rewrite <- (Hpath j Hj). f_equal; lia.
  - destruct c0 as [| | a]; try discriminate. destruct c1 as [| | b]; try discriminate.
    cbn [plusComp mbind option_bind] in Hrun. exists a, b.
    split; [reflexivity |]. split; [reflexivity |].
    destruct (onBoard (sq.1 + a, sq.2 + b)); [| injection Hrun as <-; inversion Hin].
    destruct (at_ board (sq.1 + a) (sq.2 + b)) as [target |] eqn:Hat.
    + destruct (negb (eqb (getTeam target) team_)) eqn:Hteam;
        injection Hrun as <-; [| inversion Hin].
      apply list_elem_of_singleton in Hin as ->.
      split; [reflexivity |]. split; [reflexivity |]. split; [| reflexivity].
      unfold landsOK. cbn [addMove IntAgent dst fst snd]. rewrite Hat. intros Heq.
      cbn [getTeam IntAgent] in Hteam. rewrite Heq, eqb_reflx in Hteam. discriminate.
    + injection Hrun as <-. apply list_elem_of_singleton in Hin as ->.
      split; [reflexivity |]. split; [reflexivity |]. split; [| reflexivity].
      unfold landsOK. cbn [addMove IntAgent dst fst snd]. rewrite Hat. exact I.
Qed.

Lemma updateRegularMoves_rule (moveList : list Pattern) : forall moves move,
  updateRegularMoves team_ sq agent moveList board = Some moves -> move ∈ moves ->
  exists pattern ms, pattern ∈ moveList
    /\ regularMove team_ sq agent pattern board = Some ms /\ move ∈ ms.
Proof.
  induction moveList as [| pattern moveList IH]; intros moves move Hrun Hin.
  - injection Hrun as <-. inversion Hin.
  - cbn [updateRegularMoves] in Hrun.
    destruct (regularMove team_ sq agent pattern board) as [ms |] eqn:Hms; [| discriminate].
    destruct (updateRegularMoves team_ sq agent moveList board) as [rest |]; [| discriminate].
    injection Hrun as <-. apply elem_of_app in Hin as [Hin | Hin].
    + exists pattern, ms. split; [left |]. auto.
    + destruct (IH rest move eq_refl Hin) as (pattern' & ms' & Hp & Hrest).
      exists pattern', ms'. split; [right; exact Hp | exact Hrest].
Qed.

Lemma slides_more dirs dirs' from to :
  (forall u, u ∈ dirs -> u ∈ dirs') -> slides board dirs from to -> slides board dirs' from to.
Proof. intros Hsub (u & n & Hu & Hrest). exists u, n. auto. Qed.

Ltac in_list := apply list_elem_of_In; simpl; tauto.

Ltac ray_case Hms Hin d0 d1 :=
  pose proof (regularMove_rule _ _ _ _ Hms Hin) as Hrule; cbn [isx orb] in Hrule;
  destruct (Hrule d0 d1 eq_refl eq_refl ltac:(discriminate)) as (Hsrc & Htag & Hland & Hslide);
  split; [exact Hsrc |]; split; [exact Htag |]; split; [exact Hland |];
  eapply slides_more; [| exact Hslide];
  intros u Hu; apply list_elem_of_In in Hu; simpl in Hu;
  destruct Hu as [<- | [<- | []]]; in_list.

Ltac jump_case Hms Hin :=
  pose proof (regularMove_rule _ _ _ _ Hms Hin) as Hrule; cbn [isx orb] in Hrule;
  destruct Hrule as (a & b & [= <-] & [= <-] & Hsrc & Htag & Hland & Hdst);
  split; [exact Hsrc |]; split; [exact Htag |]; split; [exact Hland |];
  eexists (_, _); split; [| exact Hdst]; in_list.

(** The moves of a piece of value [key] follow the rule of that piece. *)
Lemma pieceMoves_rule (key : Z) (patterns : list Pattern) (moves : list Move) (move : Move) :
  pieceMoves key = Some patterns ->
  updateRegularMoves team_ sq agent patterns board = Some moves -> move ∈ moves ->
  src move = sq /\ tag move = None /\ landsOK board team_ (dst move)
  /\ followsRule board key sq (dst move).
Proof.
  intros Hkey Hrun Hin.
  destruct (updateRegularMoves_rule patterns moves move Hrun Hin) as (pattern & ms & Hp & Hms & Hin').
  unfold pieceMoves in Hkey.
  destruct (Z.eqb_spec key 5) as [-> | _];
    [| destruct (Z.eqb_spec key 4) as [-> | _];
       [| destruct (Z.eqb_spec key 3) as [-> | _];
          [| destruct (Z.eqb_spec key 2) as [-> | _];
             [| destruct (Z.eqb_spec key 1) as [-> | _]; [| discriminate]]]]];
    injection Hkey as <-; cbn [followsRule];
    apply list_elem_of_In in Hp; vm_compute in Hp.
  - unfold jumps.
    destruct Hp as [<- | [<- | [<- | [<- | [<- | [<- | [<- | [<- | []]]]]]]]]; jump_case Hms Hin'.
  - destruct Hp as [<- | [<- | [<- | [<- | []]]]].
    + ray_case Hms Hin' 1 1.
    + ray_case Hms Hin' (-1) 1.
    + ray_case Hms Hin' 0 1.
    + ray_case Hms Hin' 1 0.
  - destruct Hp as [<- | [<- | []]].
    + ray_case Hms Hin' 1 1.
    + ray_case Hms Hin' (-1) 1.
  - unfold jumps.
    destruct Hp as [<- | [<- | [<- | [<- | [<- | [<- | [<- | [<- | []]]]]]]]]; jump_case Hms Hin'.
  - destruct Hp as [<- | [<- | []]].
    + ray_case Hms Hin' 1 0.
    + ray_case Hms Hin' 0 1.
Qed.

End Rays.

Lemma pawnCapture_rule (board : Board Z) (turn_ : bool) (agent : Z) (sq : Square)
    (side : Z) (move : Move) :
  side = 1 \/ side = -1 ->
  move ∈ pawnCapture turn_ (-1) sq agent board (sq.1 + side, sq.2 + -1) ->
  pawnRule board turn_ agent sq move.
Proof.
  intros Hside. unfold pawnCapture. cbn [fst snd].
  replace (sq.2 + -1 - -1) with sq.2 by lia. replace (sq.2 + -1) with (sq.2 - 1) by lia.
  change ((0 <=? sq.1 + side) && (sq.1 + side <=? 7) && (0 <=? sq.2 - 1) && (sq.2 - 1 <=? 7))
    with (onBoard (sq.1 + side, sq.2 - 1)).
  destruct (onBoard (sq.1 + side, sq.2 - 1)) eqn:Hon; [| intros Hin; inversion Hin].
  destruct (at_ board (sq.1 + side) (sq.2 - 1)) as [target |] eqn:Hat.
  - destruct (negb (eqb (getTeam target) turn_)) eqn:Hteam; intros Hin; [| inversion Hin].
    apply list_elem_of_singleton in Hin as ->.
    split; [reflexivity |]. split; [exact Hon |]. right. right. left.
    exists side, target. repeat split; auto.
    intros Heq. cbn [getTeam IntAgent] in Hteam. rewrite Heq, eqb_reflx in Hteam. discriminate.
  - destruct (at_ board (sq.1 + side) sq.2) as [target |] eqn:Hbeside;
      [| intros Hin; inversion Hin].
    destruct (isPawn target && getDoubleMoved target && negb (eqb (getTeam target) turn_))
      eqn:Htest; intros Hin; [| inversion Hin].
    apply list_elem_of_singleton in Hin as ->.
    apply andb_true_iff in Htest as [Htest Hteam]. apply andb_true_iff in Htest as [Hking Hflag].
    cbn [isPawn getDoubleMoved getTeam IntAgent] in *. unfold Py.truthy in Hflag.
    split; [reflexivity |]. split; [exact Hon |]. right. right. right.
    exists side, target. repeat split; auto.
    + apply Z.eqb_eq. exact Hking.
    + intros Heq. rewrite Heq in Hflag. discriminate.
    + intros Heq. rewrite Heq, eqb_reflx in Hteam. discriminate.
Qed.

Lemma updatePawnMoves_rule (board : Board Z) (turn_ : bool) (agent : Z) (sq : Square)
    (move : Move) :
  move ∈ updatePawnMoves turn_ turn_ sq agent board -> pawnRule board turn_ agent sq move.
Proof.
  unfold updatePawnMoves. rewrite eqb_reflx. cbv zeta. cbn [fst snd].
  rewrite !elem_of_app. intros [Hin | [Hin | Hin]].
  - unfold freeCheck in Hin. cbn [forallb fst snd] in Hin.
    replace (sq.2 + -1) with (sq.2 - 1) in Hin by lia.
    replace (sq.2 + 2 * -1) with (sq.2 - 2) in Hin by lia.
    destruct (onBoard (sq.1, sq.2 - 1)) eqn:Hon; [| inversion Hin].
    destruct (at_ board sq.1 (sq.2 - 1)) eqn:Hat; [inversion Hin |].
    cbn [andb] in Hin. apply elem_of_cons in Hin as [-> | Hin].
    + split; [reflexivity |]. split; [exact Hon |]. left. auto.
    + destruct (negb (getMovedEver agent)) eqn:Hmoved; [| inversion Hin].
      destruct (onBoard (sq.1, sq.2 - 2)) eqn:Hon2; [| inversion Hin].
      destruct (at_ board sq.1 (sq.2 - 2)) eqn:Hat2; [inversion Hin |].
      cbn [andb] in Hin. apply list_elem_of_singleton in Hin as ->.
      split; [reflexivity |]. split; [exact Hon2 |]. right. left.
      repeat split; auto.
      cbn [getMovedEver IntAgent] in Hmoved. rewrite negb_involutive in Hmoved.
      apply Z.eqb_eq. exact Hmoved.
  - replace (sq.1 - 1) with (sq.1 + -1) in Hin by lia.
    apply (pawnCapture_rule board turn_ agent sq (-1)); [auto | exact Hin].
  - apply (pawnCapture_rule board turn_ agent sq 1); [auto | exact Hin].
Qed.

Lemma getAllMovesOn_source turn_ board moves move :
  getAllMovesOn turn_ board = Some moves -> move ∈ moves ->
  exists sq piece ms,
    (sq, piece) ∈ ownSquares turn_ board
    /\ movesOf turn_ board (sq, piece) = Some ms /\ move ∈ ms.
Proof.
  unfold getAllMovesOn. intros Hrun Hin.
  destruct (mapM (movesOf turn_ board) (ownSquares turn_ board)) as [allMoves |] eqn:Hall;
    [| discriminate].
  injection Hrun as <-. apply mapM_Some in Hall.
  apply list_elem_of_In, in_concat in Hin as (ms & Hms & Hin).
  apply list_elem_of_In in Hms, Hin.
  apply list_elem_of_lookup in Hms as [n Hms].
  destruct (Forall2_lookup_r _ _ _ _ _ Hall Hms) as ([sq piece] & Hentry & Hrun).
  exists sq, piece, ms. split; [eapply list_elem_of_lookup_2; exact Hentry | auto].
Qed.

Lemma getAllMoves_default self : getAllMoves self None None = getAllMovesOn (vturn self) (vboard self).
Proof. reflexivity. Qed.

(** X16. On an 8 by 8 board every pseudo-legal move that [getAllMoves]
    gives for a piece other than a pawn follows the rule of that piece: a
    rook, bishop or queen moves along its lines over empty squares only, a
    knight and a king make one of their eight jumps; the move carries no
    flag and ends on an empty square or on a piece of the other side. *)
Theorem regular_moves_follow_rules (self : VirtualBoard) (moves : list Move) (move : Move)
    (piece : Z) :
  validBoard (vboard self) = true ->
  getAllMoves self None None = Some moves -> move ∈ moves ->
  at_ (vboard self) (src move).1 (src move).2 = Some piece -> 10 <= piece ->
  tag move = None
  /\ landsOK (vboard self) (vturn self) (dst move)
  /\ followsRule (vboard self) (piece / 10) (src move) (dst move).
Proof.
  intros Hvalid Hrun Hin Hpiece Hregular.
  apply validBoard_spec in Hvalid as [Hdims _]. rewrite getAllMoves_default in Hrun.
  destruct (getAllMovesOn_source _ _ _ _ Hrun Hin) as (sq & piece' & ms & Hown & Hms & Hin').
  apply (ownSquares_spec _ _ _ _ Hdims) in Hown as (Hon & Hat & _).
  unfold movesOf in Hms. destruct (Z.leb_spec 10 piece') as [Hten | Hpawn].
  - destruct (pieceMoves (piece' / 10)) as [patterns |] eqn:Hpatterns; [| discriminate].
    cbn [mbind option_bind] in Hms.
    destruct (pieceMoves_rule _ sq piece' _ _ _ _ move Hpatterns Hms Hin')
      as (Hsrc & Htag & Hland & Hrule).
    rewrite Hsrc in *. rewrite Hat in Hpiece. injection Hpiece as <-. auto.
  - injection Hms as <-. apply updatePawnMoves_rule in Hin' as (Hsrc & _).
    rewrite Hsrc in *. rewrite Hat in Hpiece. injection Hpiece as <-. lia.
Qed.

Lemma regular_moves_follow_rules_witness :
  validBoard (vboard startPosition) = true
  /\ getAllMoves startPosition None None
     = Some (default [] (getAllMoves startPosition None None))
  /\ mkMove (1, 7) (2, 5) None ∈ default [] (getAllMoves startPosition None None)
  /\ at_ (vboard startPosition) 1 7 = Some 20 /\ 10 <= 20
  /\ tag (mkMove (1, 7) (2, 5) None) = None
  /\ landsOK (vboard startPosition) (vturn startPosition) (2, 5)
  /\ followsRule (vboard startPosition) (20 / 10) (1, 7) (2, 5).
Proof.
  assert (Hin : mkMove (1, 7) (2, 5) None ∈ default [] (getAllMoves startPosition None None)).
  { apply (bool_decide_unpack _). vm_compute. exact I. }
  split; [vm_compute; reflexivity |]. split; [vm_compute; reflexivity |].
  split; [exact Hin |]. split; [vm_compute; reflexivity |]. split; [lia |].
  apply (regular_moves_follow_rules startPosition
           (default [] (getAllMoves startPosition None None)) (mkMove (1, 7) (2, 5) None) 20);
    [vm_compute; reflexivity | vm_compute; reflexivity | exact Hin
    | vm_compute; reflexivity | lia].
Defined.

(** X17. On an 8 by 8 board every pseudo-legal move that [getAllMoves]
    gives for a pawn is a step ahead onto an empty square, a double step
    over two empty squares by a pawn whose ever-moved bit is clear, a
    diagonal step onto a piece of the other side, or a flagged diagonal
    step onto an empty square; it ends on the board. *)
Theorem pawn_moves_follow_rules (self : VirtualBoard) (moves : list Move) (move : Move)
    (piece : Z) :
  validBoard (vboard self) = true ->
  getAllMoves self None None = Some moves -> move ∈ moves ->
  at_ (vboard self) (src move).1 (src move).2 = Some piece -> piece < 10 ->
  pawnRule (vboard self) (vturn self) piece (src move) move.
Proof.
  intros Hvalid Hrun Hin Hpiece Hpawn.
  apply validBoard_spec in Hvalid as [Hdims _]. rewrite getAllMoves_default in Hrun.
  destruct (getAllMovesOn_source _ _ _ _ Hrun Hin) as (sq & piece' & ms & Hown & Hms & Hin').
  apply (ownSquares_spec _ _ _ _ Hdims) in Hown as (Hon & Hat & _).
  unfold movesOf in Hms. destruct (Z.leb_spec 10 piece') as [Hten | Hlow].
  - destruct (pieceMoves (piece' / 10)) as [patterns |] eqn:Hpatterns; [| discriminate].
    cbn [mbind option_bind] in Hms.
    destruct (pieceMoves_rule _ sq piece' _ _ _ _ move Hpatterns Hms Hin') as (Hsrc & _).
    rewrite Hsrc in *. rewrite Hat in Hpiece. injection Hpiece as <-. lia.
  - injection Hms as <-. apply updatePawnMoves_rule in Hin' as Hrule.
    pose proof Hrule as (Hsrc & _).
    rewrite Hsrc in *. rewrite Hat in Hpiece. injection Hpiece as <-. exact Hrule.
Qed.

Lemma pawn_moves_follow_rules_witness :
  validBoard (vboard startPosition) = true
  /\ getAllMoves startPosition None None
     = Some (default [] (getAllMoves startPosition None None))
  /\ mkMove (4, 6) (4, 4) (Some TagD) ∈ default [] (getAllMoves startPosition None None)
  /\ at_ (vboard startPosition) 4 6 = Some 0 /\ 0 < 10
  /\ pawnRule (vboard startPosition) (vturn startPosition) 0 (4, 6)
       (mkMove (4, 6) (4, 4) (Some TagD)).
Proof.
  assert (Hin : mkMove (4, 6) (4, 4) (Some TagD)
                ∈ default [] (getAllMoves startPosition None None)).
  { apply (bool_decide_unpack _). vm_compute. exact I. }
  split; [vm_compute; reflexivity |]. split; [vm_compute; reflexivity |].
  split; [exact Hin |]. split; [vm_compute; reflexivity |]. split; [lia |].
  apply (pawn_moves_follow_rules startPosition
           (default [] (getAllMoves startPosition None None))
           (mkMove (4, 6) (4, 4) (Some TagD)) 0);
    [vm_compute; reflexivity | vm_compute; reflexivity | exact Hin
    | vm_compute; reflexivity | lia].
Defined.
(** ** One search, one move *)

Lemma orderMoves_subset board moves final move :
  orderMoves board moves = Some final -> move ∈ final -> move ∈ moves.
Proof.
  unfold orderMoves. intros Hrun Hin.
  destruct (mapM _ moves) as [keyed |] eqn:Hkeyed; [| discriminate].
  injection Hrun as <-.
  assert (Hsnd : snd <$> keyed = moves).
  { apply mapM_Some in Hkeyed. clear Hin.
    induction Hkeyed as [| m entry ms keyed' Hentry _ IH]; [reflexivity |].
    destruct (takenKey board m); [| discriminate]. injection Hentry as <-.
    cbn. f_equal. exact IH. }
  change (move ∈ takenKeys ≫= bucket keyed) in Hin.
  apply list_elem_of_bind in Hin as (key & Hin & _). unfold bucket in Hin.
  rewrite <- Hsnd.
  apply elem_of_app in Hin as [Hin | Hin]; rewrite sortByProx_perm in Hin;
    apply list_elem_of_filter in Hin as [_ Hin];
    apply list_elem_of_fmap in Hin as (entry & -> & Hin);
    apply list_elem_of_filter in Hin as [_ Hin];
    apply list_elem_of_fmap; exists entry; split; [reflexivity | exact Hin | reflexivity | exact Hin].
Qed.

Lemma run_bind_snd {A B} (m : Run A) (k : A -> Run B) (P : World -> Prop) w :
  P (m w).2 -> (forall a, (m w).1 = Some a -> P (k a (m w).2).2) -> P ((m ≫= k) w).2.
Proof.
  intros Hm Hk. unfold mbind, Run_bind, bind.
  destruct (m w) as [[a |] w']; simpl in *; auto.
Qed.

Section OneMove.
Variable clock : nat -> Q.
Variable depthMax : nat.
Variable base : list (Move * bool).
Variable legal : list Move.


Lemma keeps_bind {A B} (m : Run A) (k : A -> Run B) :
  keeps (searching depthMax base legal) m ->
  (forall a, keeps (searching depthMax base legal) (k a)) ->
  keeps (searching depthMax base legal) (m ≫= k).
Proof.
  intros Hm Hk w Hw. apply run_bind_snd; [apply Hm, Hw |].
  intros a _. apply Hk, Hm, Hw.
Qed.

Lemma keeps_engine {B} (k : NegaMax -> Run B) :
  (forall w, searching depthMax base legal w ->
             searching depthMax base legal (k (engine w) w).2) ->
  keeps (searching depthMax base legal) (getEngine ≫= k).
Proof. intros Hk w Hw. apply (Hk w Hw). Qed.

Lemma keeps_ret {A} (a : A) : keeps (searching depthMax base legal) (ret a).
Proof. intros w Hw. exact Hw. Qed.

Lemma keeps_lift {A} (o : option A) : keeps (searching depthMax base legal) (lift o).
Proof. intros w Hw. destruct o; exact Hw. Qed.

Lemma keeps_perf_counter : keeps (searching depthMax base legal) (perf_counter clock).
Proof. intros w Hw. exact Hw. Qed.

Lemma keeps_setBestMove move :
  move ∈ legal -> keeps (searching depthMax base legal) (setBestMove move).
Proof.
  intros Hin w (Hmax & Hw). split; [exact Hmax |]. cbn.
  destruct Hw as [[Hplayed _] | Hw]; [left | right; exact Hw].
  split; [exact Hplayed |]. intros _. exists move. split; [reflexivity | exact Hin].
Qed.

Lemma promotionTest_world board w : (promotionTest board w).2 = w.
Proof.
  unfold promotionTest, mbind, Run_bind, bind, getEngine, lift, ret, raise. cbn.
  destruct (bestMove (engine w)) as [move |]; [| reflexivity]. cbn.
  destruct (option_bind _ _ _ _); reflexivity.
Qed.

Lemma played_step promote w :
  searching depthMax base legal w ->
  match makeAMove clock promote w with
  | (Some _, w') => searching depthMax base legal (stopThinking w').2
  | (None, w') => searching depthMax base legal w'
  end.
Proof.
  destruct w as [e t p]. intros (Hmax & Hw). cbn in Hmax, Hw.
  unfold makeAMove, stopThinking, play, mbind, Run_bind, bind, perf_counter, getEngine,
    setEngine, lift, ret, raise. cbn.
  destruct (moveMade e) eqn:Hmade; cbn.
  - split; [exact Hmax |]. cbn.
    destruct Hw as [[Hplayed _] | Hw]; [left | right; exact Hw].
    split; [exact Hplayed | discriminate].
  - destruct Hw as [[Hplayed Hbest] | [Hw _]]; [| discriminate].
    destruct (Hbest eq_refl) as (move & -> & Hin). cbn.
    split; [exact Hmax |]. cbn. right. split; [reflexivity |].
    exists move, promote. rewrite Hplayed. split; [reflexivity | exact Hin].
Qed.

Lemma keeps_played promote :
  keeps (searching depthMax base legal) (makeAMove clock promote ;; stopThinking).
Proof.
  intros w Hw. pose proof (played_step promote w Hw) as Hstep.
  unfold mbind, Run_bind, bind. destruct (makeAMove clock promote w) as [[[] |] w']; exact Hstep.
Qed.

Lemma keeps_played_then {A} promote (k : Run A) :
  keeps (searching depthMax base legal) k ->
  keeps (searching depthMax base legal) (makeAMove clock promote ;; stopThinking ;; k).
Proof.
  intros Hk w Hw. pose proof (played_step promote w Hw) as Hstep.
  unfold mbind at 1, Run_bind at 1, bind at 1.
  destruct (makeAMove clock promote w) as [[[] |] w']; [| exact Hstep].
  change (searching depthMax base legal (k (stopThinking w').2).2). apply Hk, Hstep.
Qed.

Lemma keeps_forceMove board : keeps (searching depthMax base legal) (forceMove clock board).
Proof.
  intros w Hw. unfold forceMove. apply run_bind_snd.
  - rewrite promotionTest_world. exact Hw.
  - intros promote _. rewrite promotionTest_world. apply keeps_played, Hw.
Qed.

Lemma keeps_searchLoop (recurse : VirtualBoard -> Z -> Z -> Run (option Z)) atRoot board beta
    moves :
  (forall board' alpha' beta',
     keeps (searching depthMax base legal) (recurse board' alpha' beta')) ->
  (atRoot = true -> forall move, move ∈ moves -> move ∈ legal) ->
  forall maxScore alpha,
    keeps (searching depthMax base legal)
      (searchLoop recurse atRoot board beta moves maxScore alpha).
Proof.
  intros Hrecurse. induction moves as [| move moves IH]; intros Hroot maxScore alpha.
  - apply keeps_ret.
  - cbn [searchLoop].
    apply keeps_bind; [apply keeps_lift |]. intros newBoard.
    apply keeps_bind; [apply Hrecurse |]. intros result.
    apply keeps_bind; [apply keeps_lift |]. intros value_. cbv zeta.
    apply keeps_bind.
    + destruct (maxScore <? - value_); [| apply keeps_ret].
      apply keeps_bind; [| intros _; apply keeps_ret].
      destruct atRoot; [| apply keeps_ret].
      apply keeps_setBestMove, Hroot; [reflexivity | left].
    + intros maxScore'.
      destruct (beta <=? Z.max alpha maxScore'); [apply keeps_ret |].
      apply IH. intros Hat move' Hin. apply Hroot; [exact Hat | right; exact Hin].
Qed.

Lemma bind_getEngine {B} (k : NegaMax -> Run B) w : (getEngine ≫= k) w = k (engine w) w.
Proof. reflexivity. Qed.

Lemma bind_some {A B} (m : Run A) (k : A -> Run B) w a w' :
  m w = (Some a, w') -> (m ≫= k) w = k a w'.
Proof. intros Hm. unfold mbind, Run_bind, bind. rewrite Hm. reflexivity. Qed.

Lemma lift_fst {A} (o : option A) w a : (lift o w).1 = Some a -> o = Some a.
Proof. destruct o; intros H; exact H. Qed.

Lemma lift_snd {A} (o : option A) w : (lift o w).2 = w.
Proof. destruct o; reflexivity. Qed.

(** One call of [takeTurn] below the outermost one, or the outermost one
    from its second statement on. *)
Lemma takeTurnAt_step depth board alpha beta w0 w :
  maxDepth (engine w0) = depthMax ->
  (if Nat.eqb depth depthMax then startThinking clock board else ret tt) w0 = (Some tt, w) ->
  searching depthMax base legal w ->
  (depth = depthMax -> getAllLegalMoves board None None = Some legal) ->
  (forall depth', depth = S depth' ->
     forall board' alpha' beta',
       keeps (searching depthMax base legal) (takeTurnAt clock depth' board' alpha' beta')) ->
  searching depthMax base legal (takeTurnAt clock depth board alpha beta w0).2.
Proof.
  intros Hmax Hstart Hw Hlegal Hrecurse.
  destruct depth as [| depth']; cbn [takeTurnAt];
    rewrite bind_getEngine, Hmax, (bind_some _ _ _ _ _ Hstart);
    clear Hstart; revert w Hw; apply keeps_bind; try apply keeps_perf_counter; intros now;
    apply keeps_engine; intros w Hw;
    revert w Hw; apply keeps_bind;
    try (intros w Hw; destruct (Qle_bool _ _); [apply keeps_forceMove, Hw | exact Hw]);
    intros [].
  - apply keeps_bind; [apply keeps_perf_counter |]. intros now'.
    apply keeps_engine. intros w Hw. cbv zeta.
    apply run_bind_snd; [rewrite lift_snd; exact Hw |].
    intros score _. rewrite lift_snd. exact Hw.
  - apply keeps_engine. intros w Hw.
    destruct (negb (moveComplete (engine w))); [| exact Hw].
    apply run_bind_snd; [rewrite lift_snd; exact Hw |].
    intros legal' Hlegal'. apply lift_fst in Hlegal'. rewrite lift_snd.
    apply run_bind_snd; [rewrite lift_snd; exact Hw |].
    intros moves Hmoves. apply lift_fst in Hmoves. rewrite lift_snd.
    rewrite bind_getEngine. destruct Hw as (Hmax' & Hstate). rewrite Hmax'.
    assert (Hw : searching depthMax base legal w) by (split; assumption).
    revert w Hw Hmax' Hstate. intros w Hw _ _. revert w Hw.
    apply keeps_bind.
    + apply keeps_searchLoop; [apply (Hrecurse depth' eq_refl) |].
      intros Hroot move Hin. apply Nat.eqb_eq in Hroot.
      rewrite (Hlegal Hroot) in Hlegal'. injection Hlegal' as <-.
      exact (orderMoves_subset _ _ _ _ Hmoves Hin).
    + intros maxScore. apply keeps_engine. intros w Hw.
      destruct (negb (Nat.eqb (S depth') (maxDepth (engine w)))); [exact Hw |].
      revert w Hw.
      apply keeps_bind; [apply keeps_perf_counter |]. intros _.
      apply keeps_bind; [apply keeps_perf_counter |]. intros _.
      intros w Hw. apply run_bind_snd; [rewrite promotionTest_world; exact Hw |].
      intros promote _. rewrite promotionTest_world.
      revert w Hw. apply keeps_played_then, keeps_ret.
Qed.

Lemma takeTurnAt_inner depth :
  (depth < depthMax)%nat ->
  forall board alpha beta,
    keeps (searching depthMax base legal) (takeTurnAt clock depth board alpha beta).
Proof.
  induction depth as [| depth IH]; intros Hlt board alpha beta w Hw.
  - apply (takeTurnAt_step 0 board alpha beta w w).
    + apply Hw.
    + replace (Nat.eqb 0 depthMax) with false by (symmetry; apply Nat.eqb_neq; lia).
      reflexivity.
    + exact Hw.
    + intros Heq. lia.
    + intros depth' Heq. discriminate.
  - apply (takeTurnAt_step (S depth) board alpha beta w w).
    + apply Hw.
    + replace (Nat.eqb (S depth) depthMax) with false by (symmetry; apply Nat.eqb_neq; lia).
      reflexivity.
    + exact Hw.
    + intros Heq. lia.
    + intros depth' [= <-]. apply IH. lia.
Qed.

End OneMove.

Lemma bind_none {A B} (m : Run A) (k : A -> Run B) w w' :
  m w = (None, w') -> (m ≫= k) w = (None, w').
Proof. intros Hm. unfold mbind, Run_bind, bind. rewrite Hm. reflexivity. Qed.

(** Without a legal move [__startThinking] raises, and the outermost call
    ends there with nothing played. *)
Lemma takeTurn_no_start clock board w :
  getAllLegalMoves board None None ≫= head = None ->
  played (takeTurnAt clock (maxDepth (engine w)) board (-10000) 10000 w).2 = played w.
Proof.
  intros Hnone.
  assert (Hstart : exists w1, startThinking clock board w = (None, w1)
                              /\ played w1 = played w).
  { unfold startThinking, mbind, Run_bind, bind, perf_counter, getEngine, setEngine, lift.
    simpl. destruct (getAllLegalMoves board None None) as [[| first rest] |];
      [| discriminate |]; simpl; eexists; split; reflexivity. }
  destruct Hstart as (w1 & Hstart & Hplayed).
  destruct (maxDepth (engine w)) as [| depth'] eqn:Hmax; cbn [takeTurnAt];
    rewrite bind_getEngine, Hmax, Nat.eqb_refl, (bind_none _ _ _ _ Hstart); exact Hplayed.
Qed.

(** X21. One call of [takeTurn] plays one move at most, however the clock
    runs and whatever the engine object held before: when it ends, by
    returning or with an exception, either no move has been handed to the
    pointer, or one, a legal move of the position, and the move-made flag is
    set. *)
Theorem takeTurn_plays_once (clock : nat -> Q) (board : VirtualBoard) (w : World) :
  let w' := (takeTurn clock board w).2 in
  played w' = played w
  \/ exists move promotion legal,
       getAllLegalMoves board None None = Some legal /\ move ∈ legal
       /\ played w' = played w ++ [(move, promotion)]
       /\ moveMade (engine w') = true.
Proof.
  cbv zeta. unfold takeTurn. rewrite bind_getEngine.
  destruct (getAllLegalMoves board None None) as [[| first rest] |] eqn:Hlegal.
  - left. apply takeTurn_no_start. rewrite Hlegal. reflexivity.
  - destruct (startThinking_first_legal clock board w first rest Hlegal)
      as (w1 & Hstart & Hbest & _ & _ & Hmade & _ & Hmax & _ & Hplayed).
    assert (Hfinal : searching (maxDepth (engine w)) (played w) (first :: rest)
                       (takeTurnAt clock (maxDepth (engine w)) board (-10000) 10000 w).2).
    { apply (takeTurnAt_step clock _ _ _ _ _ _ _ w w1).
      - reflexivity.
      - rewrite Nat.eqb_refl. exact Hstart.
      - split; [exact Hmax |]. left. split; [exact Hplayed |].
        intros _. exists first. split; [exact Hbest | left].
      - intros _. exact Hlegal.
      - intros depth' Hdepth. apply takeTurnAt_inner. lia. }
    destruct Hfinal as (_ & [[Hsame _] | (Hflag & move & promotion & Hone & Hin)]);
      [left; exact Hsame | right].
    exists move, promotion, (first :: rest). auto.
  - left. apply takeTurn_no_start. rewrite Hlegal. reflexivity.
Qed.

(** ** A search that is not cut short *)

Lemma foldM_total {A B} (f : B -> A -> option B) (l : list A) :
  (forall a b, a ∈ l -> is_Some (f b a)) -> forall b, is_Some (foldM f l b).
Proof.
  induction l as [| a l IH]; intros Hf b; [eexists; reflexivity |].
  cbn [foldM]. destruct (Hf a b) as [b' ->]; [left |]. cbn [mbind option_bind].
  apply IH. intros a' b'' Hin. apply Hf. right. exact Hin.
Qed.

Lemma posPoints_square key x y :
  0 <= key <= 5 -> 0 <= x <= 7 -> 0 <= y <= 7 ->
  exists table row bonus,
    posPoints key = Some table /\ Py.index table y = Some row /\ Py.index row x = Some bonus.
Proof.
  intros Hkey Hx Hy.
  assert (Htable : exists table, posPoints key = Some table
            /\ length table = 8%nat /\ Forall (fun row => length row = 8%nat) table).
  { assert (Hcase : key = 0 \/ key = 1 \/ key = 2 \/ key = 3 \/ key = 4 \/ key = 5) by lia.
    destruct Hcase as [-> | [-> | [-> | [-> | [-> | ->]]]]];
      (eexists; split; [reflexivity |]; split; [reflexivity |]; repeat constructor). }
  destruct Htable as (table & Htable & Hlen & Hrows).
  destruct (lookup_lt_is_Some_2 table (Z.to_nat y)) as [row Hrow]; [lia |].
  pose proof (Forall_lookup_1 _ _ _ _ Hrows Hrow) as Hlen'. cbv beta in Hlen'.
  destruct (lookup_lt_is_Some_2 row (Z.to_nat x)) as [bonus Hbonus]; [lia |].
  exists table, row, bonus. split; [exact Htable |].
  rewrite !index_in_range by lia. split; assumption.
Qed.

Lemma fullSquare_total turn_ x acc y piece :
  0 <= x <= 7 -> 0 <= y <= 7 -> validSquare piece = true ->
  is_Some (fullSquare turn_ x acc (y, piece)).
Proof.
  intros Hx Hy Hvalid. unfold fullSquare.
  destruct piece as [piece |]; [| eexists; reflexivity].
  cbn [validSquare] in Hvalid. pose proof Hvalid as Hrange.
  apply validCode_range in Hrange.
  destruct (posPoints_square (piece / 10) x y) as (table & row & bonus & Htable & Hrow & Hbonus);
    [Z.to_euclidean_division_equations; lia | assumption | assumption |].
  destruct (eqb _ _).
  - rewrite Htable. cbn [mbind option_bind]. rewrite Hrow. cbn [mbind option_bind].
    rewrite Hbonus. cbn [mbind option_bind]. cbv zeta.
    destruct (Z.ltb_spec piece 50) as [Hlow | _]; [| eexists; reflexivity].
    destruct (piecePoints_some piece Hvalid Hlow) as [pts ->]. cbn [mbind option_bind].
    destruct (piece / 10 =? 3); [eexists; reflexivity |].
    destruct (piece <? 20); [| eexists; reflexivity].
    destruct (piece <? 10); eexists; reflexivity.
  - destruct (Z.ltb_spec piece 50) as [Hlow | _]; [| eexists; reflexivity].
    destruct (piecePoints_some piece Hvalid Hlow) as [pts ->]. eexists. reflexivity.
Qed.

Lemma boardEval_total board speed :
  dims (vboard board) -> codesOK (vboard board) -> is_Some (boardEval board speed).
Proof.
  intros Hdims Hcodes. unfold boardEval.
  destruct (extras_total board Hdims Hcodes) as [extra Hextra].
  destruct speed.
  - rewrite fastBoard_terms by assumption. cbn [mbind option_bind]. rewrite Hextra.
    eexists. reflexivity.
  - destruct (foldM_total
                (fun acc '(x, column) =>
                   foldM (fullSquare (vturn board) x) (enumerate column) acc)
                (enumerate (vboard board))) with (b := mkFullAcc (-10000) 0 0 [])
      as [acc ->].
    + intros [x column] acc Hin. apply enumerate_lookup in Hin as [Hx Hcolumn].
      destruct Hdims as [Hlen Hcolumns].
      pose proof (lookup_lt_Some _ _ _ Hcolumn) as Hlt.
      pose proof (Forall_lookup_1 _ _ _ _ Hcolumns Hcolumn) as Hlen'. cbv beta in Hlen'.
      pose proof (Forall_lookup_1 _ _ _ _ Hcodes Hcolumn) as Hvalid. cbv beta in Hvalid.
      apply foldM_total. intros [y piece] acc' Hin. apply enumerate_lookup in Hin as [Hy Hpiece].
      pose proof (lookup_lt_Some _ _ _ Hpiece) as Hlt'.
      apply fullSquare_total; [lia | lia |].
      exact (Forall_lookup_1 _ _ _ _ Hvalid Hpiece).
    + cbn [mbind option_bind]. cbv zeta.
      destruct (foldl pawnRowStep _ _) as [[eval prev] solo]. rewrite Hextra.
      eexists. reflexivity.
Qed.

Lemma legal_generated (self : VirtualBoard) legal :
  dims (vboard self) -> codesOK (vboard self) ->
  getAllLegalMoves self None None = Some legal ->
  Forall (generated (vboard self) (vturn self)) legal.
Proof.
  intros Hdims Hcodes Hlegal.
  destruct (legal_moves_core self Hdims Hcodes) as (pseudo & _ & Hall & Hfilter).
  rewrite Hlegal in Hfilter. injection Hfilter as ->.
  rewrite Forall_forall in Hall. apply Forall_forall. intros move Hin.
  apply Hall. apply list_elem_of_In. apply list_elem_of_In in Hin.
  apply filter_In in Hin as [Hin _]. exact Hin.
Qed.

Lemma makeMove_generated (self : VirtualBoard) move :
  dims (vboard self) -> codesOK (vboard self) ->
  generated (vboard self) (vturn self) move ->
  exists after, makeMove self move 4 = Some after
                /\ dims (vboard after) /\ codesOK (vboard after).
Proof.
  intros Hdims Hcodes Hmove.
  destruct (applyMove_total _ _ _ Hdims Hcodes Hmove) as (board' & Happly & Hdims' & Hcodes').
  exists (mkVB (rotateBoard board') (negb (vturn self))).
  unfold makeMove. rewrite Happly. split; [reflexivity |].
  split; [apply dims_rotateBoard | apply codesOK_rotateBoard]; assumption.
Qed.

Lemma orderMoves_total board moves :
  dims board -> codesOK board ->
  Forall (fun move => onBoard (dst move) = true) moves ->
  is_Some (orderMoves board moves).
Proof.
  intros Hdims Hcodes Hmoves. unfold orderMoves.
  rewrite (mapM_fmap_total _ (fun move => (keyOf board move, move))).
  - eexists. reflexivity.
  - eapply Forall_impl; [exact Hmoves |]. intros move Hon.
    destruct (takenKey_keyOf board move Hdims Hcodes Hon) as [-> _]. reflexivity.
Qed.

Lemma total_ret {A} (P : World -> Prop) (Q : A -> World -> Prop) a :
  (forall w, P w -> Q a w) -> total P (ret a) Q.
Proof. intros HQ w Hw. exists a, w. split; [reflexivity | apply HQ, Hw]. Qed.

Lemma total_bind {A B} (P : World -> Prop) (Q : A -> World -> Prop) (R : B -> World -> Prop)
    (m : Run A) (k : A -> Run B) :
  total P m Q -> (forall a, total (Q a) (k a) R) -> total P (m ≫= k) R.
Proof.
  intros Hm Hk w Hw. destruct (Hm w Hw) as (a & w1 & Hrun & Ha).
  destruct (Hk a w1 Ha) as (b & w2 & Hrun' & Hb). exists b, w2.
  split; [| exact Hb]. rewrite (bind_some _ _ _ _ _ Hrun). exact Hrun'.
Qed.

Lemma total_lift {A} (P : World -> Prop) (Q : A -> World -> Prop) (o : option A) a :
  o = Some a -> (forall w, P w -> Q a w) -> total P (lift o) Q.
Proof. intros -> HQ w Hw. exists a, w. split; [reflexivity | apply HQ, Hw]. Qed.

Lemma total_engine {B} (P : World -> Prop) (R : B -> World -> Prop) (k : NegaMax -> Run B) :
  (forall w, P w -> exists b w', k (engine w) w = (Some b, w') /\ R b w') ->
  total P (getEngine ≫= k) R.
Proof. intros Hk w Hw. exact (Hk w Hw). Qed.

Section NoTimeout.
Variable clock : nat -> Q.
Variables start roe : Q.
Variable depthMax : nat.
Variable base : list (Move * bool).
Variable legal : list Move.
Hypothesis Hclock : forall n, Qle_bool roe (clock n - start) = false.

Lemma total_clock {B} (R : B -> World -> Prop) (k : Q -> Run B) :
  (forall n, total (thinking start roe depthMax base legal) (k (clock n)) R) ->
  total (thinking start roe depthMax base legal) (perf_counter clock ≫= k) R.
Proof.
  intros Hk w Hw. apply (Hk (ticks w) (mkWorld (engine w) (S (ticks w)) (played w))).
  exact Hw.
Qed.

(** The test of the time budget passes. *)
Lemma total_budget {B} (R : B -> World -> Prop) board (rest : Run B) :
  total (thinking start roe depthMax base legal) rest R ->
  total (thinking start roe depthMax base legal)
    (now ← perf_counter clock;
     self ← getEngine;
     (if Qle_bool (ROE self) (now - thinkingTime self)
      then forceMove clock board else ret tt);;
     rest) R.
Proof.
  intros Hrest. apply total_clock. intros n. apply total_engine. intros w Hw.
  pose proof Hw as (Hstart & Hroe & _). rewrite Hstart, Hroe, Hclock.
  apply (Hrest w Hw).
Qed.

Lemma total_searchLoop (recurse : VirtualBoard -> Z -> Z -> Run (option Z)) atRoot board beta
    moves :
  dims (vboard board) -> codesOK (vboard board) ->
  Forall (generated (vboard board) (vturn board)) moves ->
  (atRoot = true -> forall move, move ∈ moves -> move ∈ legal) ->
  (forall board' alpha' beta', dims (vboard board') -> codesOK (vboard board') ->
     total (thinking start roe depthMax base legal) (recurse board' alpha' beta')
       (fun result w => is_Some result /\ thinking start roe depthMax base legal w)) ->
  forall maxScore alpha,
    total (thinking start roe depthMax base legal)
      (searchLoop recurse atRoot board beta moves maxScore alpha)
      (fun _ w => thinking start roe depthMax base legal w).
Proof.
  intros Hdims Hcodes Hmoves Hroot Hrecurse.
  induction Hmoves as [| move moves Hmove _ IH]; intros maxScore alpha.
  - apply total_ret. auto.
  - cbn [searchLoop].
    destruct (makeMove_generated (mkVB (vboard board) (vturn board)) move Hdims Hcodes Hmove)
      as (newBoard & Hmake & Hdims' & Hcodes').
    eapply total_bind; [apply (total_lift _ (fun a w => a = newBoard
                                   /\ thinking start roe depthMax base legal w) _ _ Hmake);
                        auto |].
    intros ? w [-> Hw]. revert w Hw.
    eapply total_bind; [apply (Hrecurse newBoard); assumption |].
    intros result w [[value_ ->] Hw]. revert w Hw.
    eapply total_bind; [apply (total_lift _ (fun _ w => thinking start roe depthMax base legal w)
                                 _ value_ eq_refl); auto |].
    intros value_'. cbv zeta.
    eapply total_bind with (Q := fun _ w => thinking start roe depthMax base legal w).
    + destruct (maxScore <? - value_'); [| apply total_ret; auto].
      eapply total_bind with (Q := fun _ w => thinking start roe depthMax base legal w);
        [| intros _; apply total_ret; auto].
      destruct atRoot; [| apply total_ret; auto].
      intros w (Hstart & Hroe & Hmax & Hcomplete & Hmade & Hplayed & _).
      eexists tt, _. split; [reflexivity |]. repeat (split; [assumption |]).
      exists move. split; [reflexivity |]. apply Hroot; [reflexivity | left].
    + intros maxScore'.
      destruct (beta <=? Z.max alpha maxScore'); [apply total_ret; auto |].
      apply IH. intros Hat move' Hin. apply Hroot; [exact Hat | right; exact Hin].
Qed.

(** The last statements of the outermost call. *)
Lemma root_end board w :
  thinking start roe depthMax base legal w ->
  (forall move, move ∈ legal ->
     exists piece, getItem2 (vboard board) (src move).1 (src move).2 = Some (Some piece)) ->
  exists w',
    (perf_counter clock;; perf_counter clock;;
     promote ← promotionTest board;
     makeAMove clock promote;; stopThinking;; ret (@None Z)) w = (Some None, w')
    /\ finished base legal w'.
Proof.
  destruct w as [e t p].
  intros (_ & _ & _ & _ & Hmade & Hplayed & move & Hbest & Hin) Hpiece.
  cbn in Hmade, Hplayed, Hbest. destruct (Hpiece move Hin) as [piece Hget].
  unfold promotionTest, makeAMove, stopThinking, play, mbind, Run_bind, bind, perf_counter,
    getEngine, setEngine, lift, ret. simpl.
  rewrite Hbest. simpl. rewrite Hget. simpl. rewrite Hmade. simpl. rewrite Hbest. simpl.
  eexists. split; [reflexivity |]. split; [reflexivity |]. simpl.
  exists move, ((piece <? 10) && ((dst move).2 =? 0)). rewrite Hplayed.
  split; [reflexivity | exact Hin].
Qed.

(** One call of [takeTurn] below the outermost one, or the outermost one
    from its second statement on, when the budget is never exhausted. *)
Lemma takeTurnAt_total_step depth board alpha beta w0 w :
  maxDepth (engine w0) = depthMax ->
  (if Nat.eqb depth depthMax then startThinking clock board else ret tt) w0 = (Some tt, w) ->
  thinking start roe depthMax base legal w ->
  dims (vboard board) -> codesOK (vboard board) ->
  (depth = depthMax -> getAllLegalMoves board None None = Some legal) ->
  (forall depth', depth = S depth' ->
     forall board' alpha' beta', dims (vboard board') -> codesOK (vboard board') ->
       total (thinking start roe depthMax base legal)
         (takeTurnAt clock depth' board' alpha' beta')
         (fun result w => is_Some result /\ thinking start roe depthMax base legal w)) ->
  exists result w',
    takeTurnAt clock depth board alpha beta w0 = (Some result, w')
    /\ (if Nat.eqb depth depthMax && negb (Nat.eqb depth 0)
        then result = None /\ finished base legal w'
        else is_Some result /\ thinking start roe depthMax base legal w').
Proof.
  intros Hmax Hstart Hw Hdims Hcodes Hlegal Hrecurse.
  destruct depth as [| depth']; cbn [takeTurnAt];
    rewrite bind_getEngine, Hmax, (bind_some _ _ _ _ _ Hstart);
    clear Hstart; revert w Hw.
  - rewrite andb_false_r.
    apply (total_budget (fun result w' =>
             is_Some result /\ thinking start roe depthMax base legal w')).
    apply total_clock. intros n. apply total_engine. intros w Hw. cbv zeta.
    destruct (boardEval_total board
                (negb (Qle_bool (clock n - thinkingTime (engine w)) (ROE (engine w) - (1 # 2))))
                Hdims Hcodes) as [score Hscore].
    rewrite Hscore. exists (Some score), w. split; [reflexivity |].
    split; [eexists; reflexivity | exact Hw].
  - rewrite andb_true_r.
    apply (total_budget (fun result w' =>
             if Nat.eqb (S depth') depthMax
             then result = None /\ finished base legal w'
             else is_Some result /\ thinking start roe depthMax base legal w')).
    apply total_engine. intros w Hw.
    pose proof Hw as (_ & _ & Hmax' & Hcomplete & _). rewrite Hcomplete. cbn [negb].
    assert (exists legal', getAllLegalMoves board None None = Some legal') as [legal' Hlegal'].
    { destruct (legal_moves_core board Hdims Hcodes) as (pseudo & _ & _ & Hcore).
      eexists. exact Hcore. }
    pose proof (legal_generated board _ Hdims Hcodes Hlegal') as Hgenerated.
    rewrite Hlegal'.
    destruct (orderMoves_total (vboard board) legal' Hdims Hcodes) as [moves Hmoves].
    { eapply Forall_impl; [exact Hgenerated |]. intros move (_ & Hon & _). exact Hon. }
    assert (Hordered : Forall (generated (vboard board) (vturn board)) moves).
    { rewrite Forall_forall in Hgenerated. apply Forall_forall. intros move Hin.
      apply Hgenerated. exact (orderMoves_subset _ _ _ _ Hmoves Hin). }
    rewrite (bind_some (lift (Some legal')) _ w legal' w eq_refl), Hmoves.
    rewrite (bind_some (lift (Some moves)) _ w moves w eq_refl).
    rewrite bind_getEngine, Hmax'.
    revert w Hw Hmax' Hcomplete. intros w Hw _ _. revert w Hw.
    eapply total_bind.
    + apply total_searchLoop; try assumption.
      * intros Hroot move Hin. apply Nat.eqb_eq in Hroot.
        rewrite (Hlegal Hroot) in Hlegal'. injection Hlegal' as ->.
        exact (orderMoves_subset _ _ _ _ Hmoves Hin).
      * apply (Hrecurse depth' eq_refl).
    + intros maxScore. apply total_engine. intros w Hw.
      pose proof Hw as (_ & _ & -> & _).
      destruct (Nat.eqb_spec (S depth') depthMax) as [Hroot | _]; cbn [negb].
      * destruct (root_end board w Hw) as (w' & Hrun & Hfinished).
        { intros move Hin. rewrite (Hlegal Hroot) in Hlegal'. injection Hlegal' as Heq.
          rewrite Forall_forall in Hgenerated.
          destruct (Hgenerated move) as (Hsrc & _ & _ & piece & Hat & _).
          { rewrite <- Heq. exact Hin. }
          apply onBoard_range in Hsrc as [Hx Hy].
          exists piece. rewrite getItem2_at by assumption. rewrite Hat. reflexivity. }
        exists None, w'. split; [exact Hrun | split; [reflexivity | exact Hfinished]].
      * exists (Some maxScore), w. split; [reflexivity |].
        split; [eexists; reflexivity | exact Hw].
Qed.

Lemma takeTurnAt_total depth :
  (depth < depthMax)%nat ->
  forall board alpha beta, dims (vboard board) -> codesOK (vboard board) ->
    total (thinking start roe depthMax base legal)
      (takeTurnAt clock depth board alpha beta)
      (fun result w => is_Some result /\ thinking start roe depthMax base legal w).
Proof.
  induction depth as [| depth IH]; intros Hlt board alpha beta Hdims Hcodes w Hw.
  - destruct (takeTurnAt_total_step 0 board alpha beta w w) as (result & w' & Hrun & Hpost);
      try assumption.
    + apply Hw.
    + replace (Nat.eqb 0 depthMax) with false by (symmetry; apply Nat.eqb_neq; lia).
      reflexivity.
    + intros Heq. lia.
    + intros depth' Heq. discriminate.
    + rewrite andb_false_r in Hpost. exists result, w'. split; assumption.
  - destruct (takeTurnAt_total_step (S depth) board alpha beta w w)
      as (result & w' & Hrun & Hpost); try assumption.
    + apply Hw.
    + replace (Nat.eqb (S depth) depthMax) with false by (symmetry; apply Nat.eqb_neq; lia).
      reflexivity.
    + intros Heq. lia.
    + intros depth' [= <-]. apply IH. lia.
    + replace (Nat.eqb (S depth) depthMax) with false in Hpost
        by (symmetry; apply Nat.eqb_neq; lia).
      exists result, w'. split; assumption.
Qed.

End NoTimeout.

(** X22. When the clock never shows the time budget used up, [takeTurn]
    on a valid board with a legal move, with a search depth of one or more,
    ends without an exception: it hands exactly one move to the pointer, a
    legal move of the position, and sets the move-made flag. *)
Theorem takeTurn_plays_a_legal_move (clock : nat -> Q) (board : VirtualBoard) (w : World)
    (first : Move) (rest : list Move) :
  validBoard (vboard board) = true ->
  getAllLegalMoves board None None = Some (first :: rest) ->
  maxDepth (engine w) <> 0%nat ->
  (forall n, Qle_bool (ROE (engine w)) (clock n - clock (ticks w)) = false) ->
  exists move promotion w',
    takeTurn clock board w = (Some None, w')
    /\ move ∈ first :: rest
    /\ played w' = played w ++ [(move, promotion)]
    /\ moveMade (engine w') = true.
Proof.
  intros Hvalid Hlegal Hdepth Hclock. apply validBoard_spec in Hvalid as [Hdims Hcodes].
  destruct (startThinking_first_legal clock board w first rest Hlegal)
    as (w1 & Hstart & Hbest & Htime & Hcomplete & Hmade & Hroe & Hmax & _ & Hplayed).
  destruct (takeTurnAt_total_step clock (clock (ticks w)) (ROE (engine w))
              (maxDepth (engine w)) (played w) (first :: rest) Hclock
              (maxDepth (engine w)) board (-10000) 10000 w w1)
    as (result & w' & Hrun & Hpost); try assumption.
  - reflexivity.
  - rewrite Nat.eqb_refl. exact Hstart.
  - repeat (split; [assumption |]). exists first. split; [exact Hbest | left].
  - intros _. exact Hlegal.
  - intros depth' Hdepth' board' alpha' beta'. apply takeTurnAt_total; [exact Hclock | lia].
  - rewrite Nat.eqb_refl in Hpost.
    replace (Nat.eqb (maxDepth (engine w)) 0) with false in Hpost
      by (symmetry; apply Nat.eqb_neq; exact Hdepth).
    destruct Hpost as (-> & Hflag & move & promotion & Hone & Hin).
    exists move, promotion, w'. unfold takeTurn. rewrite bind_getEngine. auto.
Qed.

Lemma takeTurn_plays_a_legal_move_witness :
  exists move promotion w',
    takeTurn (fun _ => 0%Q) startPosition (mkWorld newNegaMax 0 []) = (Some None, w')
    /\ move ∈ mkMove (0, 6) (0, 5) None
              :: tail (default [] (getAllLegalMoves startPosition None None))
    /\ played w' = [] ++ [(move, promotion)]
    /\ moveMade (engine w') = true.
Proof.
  apply (takeTurn_plays_a_legal_move (fun _ => 0%Q) startPosition (mkWorld newNegaMax 0 [])
           (mkMove (0, 6) (0, 5) None)
           (tail (default [] (getAllLegalMoves startPosition None None)))).
  - vm_compute. reflexivity.
  - vm_compute. reflexivity.
  - simpl. lia.
  - intros n. reflexivity.
Defined.

(** ** The undo stack *)

Lemma trimFront_cons {A} (maxSize : Z) (a : A) (l : list A) :
  trimFront maxSize (a :: l)
  = if Z.of_nat (S (length l)) =? maxSize then Some (a :: l) else trimFront maxSize l.
Proof. reflexivity. Qed.

Lemma trimFront_drop {A} (maxSize : Z) (l : list A) :
  0 <= maxSize <= Z.of_nat (length l) ->
  trimFront maxSize l = Some (drop (length l - Z.to_nat maxSize) l).
Proof.
  induction l as [| a l IH]; intros Hsize.
  - simpl in *. replace maxSize with 0 by lia. reflexivity.
  - rewrite trimFront_cons. cbn [length] in *.
    destruct (Z.of_nat (S (length l)) =? maxSize) eqn:Hfull.
    + apply Z.eqb_eq in Hfull. replace (S (length l) - Z.to_nat maxSize)%nat with 0%nat by lia. reflexivity.
    + apply Z.eqb_neq in Hfull. rewrite IH by lia.
      replace (S (length l) - Z.to_nat maxSize)%nat
        with (S (length l - Z.to_nat maxSize)) by lia.
      reflexivity.
Qed.

Lemma trimFront_negative {A} (maxSize : Z) (l : list A) :
  maxSize < 0 -> trimFront maxSize l = None.
Proof.
  intros Hneg. induction l as [| a l IH].
  - destruct maxSize; [lia | lia | reflexivity].
  - rewrite trimFront_cons.
    destruct (Z.of_nat (S (length l)) =? maxSize) eqn:Heq; [| exact IH].
    apply Z.eqb_eq in Heq. lia.
Qed.

Lemma push_drop {A} (self : Stack A) (newItem : A) :
  0 <= stackMax self ->
  push self newItem
  = Some (mkStack (stackMax self)
            (drop (length (stackList self) + 1 - Z.to_nat (stackMax self))
                  (stackList self ++ [newItem]))).
Proof.
  intros Hmax. unfold push. rewrite length_app. simpl.
  destruct (Z.ltb_spec (stackMax self) (Z.of_nat (length (stackList self) + 1)))
    as [Hover | Hover].
  - rewrite trimFront_drop by (rewrite length_app; simpl; lia).
    rewrite length_app. reflexivity.
  - replace (length (stackList self) + 1 - Z.to_nat (stackMax self))%nat with 0%nat by lia.
    reflexivity.
Qed.

(** X1. With a maximum size that is not negative, [push] returns and the
    stack then holds the newest [maxSize] entities of the old list followed
    by the new one, in their order: at most [maxSize] of them, the oldest
    ones being dropped. *)
Theorem push_keeps_newest {A} (self : Stack A) (newItem : A) :
  0 <= stackMax self ->
  exists after,
    push self newItem = Some after
    /\ stackMax after = stackMax self
    /\ stackList after
       = drop (length (stackList self) + 1 - Z.to_nat (stackMax self))
              (stackList self ++ [newItem])
    /\ Z.of_nat (length (stackList after)) <= stackMax self.
Proof.
  intros Hmax. eexists. split; [apply push_drop; exact Hmax |].
  split; [reflexivity |]. split; [reflexivity |]. simpl.
  rewrite length_drop, length_app. simpl. lia.
Qed.

Lemma push_keeps_newest_witness :
  0 <= stackMax (mkStack 2 [1; 2])
  /\ exists after,
       push (mkStack 2 [1; 2]) 3 = Some after
       /\ stackMax after = stackMax (mkStack 2 [1; 2])
       /\ stackList after
          = drop (length (stackList (mkStack 2 [1; 2])) + 1
                  - Z.to_nat (stackMax (mkStack 2 [1; 2])))
                 (stackList (mkStack 2 [1; 2]) ++ [3])
       /\ Z.of_nat (length (stackList after)) <= stackMax (mkStack 2 [1; 2]).
Proof.
  split; [simpl; lia |]. apply (push_keeps_newest (mkStack 2 [1; 2]) 3). simpl. lia.
Defined.

(** X2. On a stack that is not full ([len < maxSize]) a [push] followed by
    a [pop] gives back the pushed entity and the stack as it was. *)
Theorem push_pop_restores {A} (self : Stack A) (newItem : A) :
  Z.of_nat (length (stackList self)) < stackMax self ->
  exists after, push self newItem = Some after /\ pop after = (Some newItem, self).
Proof.
  intros Hroom. unfold push. rewrite length_app. simpl.
  destruct (Z.ltb_spec (stackMax self) (Z.of_nat (length (stackList self) + 1))); [lia |].
  eexists. split; [reflexivity |]. unfold pop. simpl. rewrite length_app. simpl.
  destruct (Nat.eqb_spec (length (stackList self) + 1) 0); [lia |].
  simpl. rewrite last_snoc, removelast_last. destruct self; reflexivity.
Qed.

Lemma push_pop_restores_witness :
  Z.of_nat (length (stackList (mkStack 20 [1; 2]))) < stackMax (mkStack 20 [1; 2])
  /\ exists after, push (mkStack 20 [1; 2]) 3 = Some after
                   /\ pop after = (Some 3, mkStack 20 [1; 2]).
Proof.
  split; [simpl; lia |]. apply (push_pop_restores (mkStack 20 [1; 2]) 3). simpl. lia.
Defined.

(** X3. On a full stack with room for at least one entity a [push] followed
    by a [pop] gives back the pushed entity, and the oldest entity is
    lost: the stack is left with the old list without its first element. *)
Theorem push_on_full_drops_oldest {A} (self : Stack A) (newItem : A) :
  isFull self = true -> 1 <= stackMax self ->
  exists after,
    push self newItem = Some after
    /\ pop after = (Some newItem, mkStack (stackMax self) (tail (stackList self))).
Proof.
  unfold isFull. intros Hfull Hmax. apply Z.eqb_eq in Hfull.
  eexists. split; [apply push_drop; lia |].
  replace (length (stackList self) + 1 - Z.to_nat (stackMax self))%nat with 1%nat by lia.
  destruct self as [maxSize [| oldest rest]]; simpl in *; [lia |].
  unfold pop. simpl. rewrite drop_0, length_app. simpl.
  destruct (Nat.eqb_spec (length rest + 1) 0); [lia |].
  simpl. rewrite last_snoc, removelast_last. reflexivity.
Qed.

Lemma push_on_full_drops_oldest_witness :
  isFull (mkStack 2 [1; 2]) = true /\ 1 <= stackMax (mkStack 2 [1; 2])
  /\ exists after,
       push (mkStack 2 [1; 2]) 3 = Some after
       /\ pop after = (Some 3, mkStack (stackMax (mkStack 2 [1; 2]))
                                 (tail (stackList (mkStack 2 [1; 2])))).
Proof.
  split; [reflexivity |]. split; [simpl; lia |].
  apply (push_on_full_drops_oldest (mkStack 2 [1; 2]) 3); [reflexivity | simpl; lia].
Defined.

(** X4. With a negative maximum size every [push] raises (IndexError from
    [del] on the emptied list). *)
Theorem push_negative_size_raises {A} (self : Stack A) (newItem : A) :
  stackMax self < 0 -> push self newItem = None.
Proof.
  intros Hneg. unfold push.
  destruct (Z.ltb_spec (stackMax self) (Z.of_nat (length (stackList self ++ [newItem])))); [| lia].
  rewrite trimFront_negative by exact Hneg. reflexivity.
Qed.

Lemma push_negative_size_raises_witness :
  stackMax (mkStack (-1) [1]) < 0 /\ push (mkStack (-1) [1]) 2 = None.
Proof.
  split; [simpl; lia |]. apply (push_negative_size_raises (mkStack (-1) [1]) 2). simpl. lia.
Defined.

(** X5. After any number of pushes on a stack that is within its maximum
    size, the stack holds the newest [maxSize] entities of the old list
    followed by the pushed ones. *)
Theorem pushes_keep_newest {A} (items : list A) : forall self : Stack A,
  Z.of_nat (length (stackList self)) <= stackMax self ->
  foldM push items self
  = Some (mkStack (stackMax self)
            (drop (length (stackList self ++ items) - Z.to_nat (stackMax self))
                  (stackList self ++ items))).
Proof.
  induction items as [| item items IH]; intros self Hmax.
  - simpl. rewrite app_nil_r.
    replace (length (stackList self) - Z.to_nat (stackMax self))%nat with 0%nat by lia.
    destruct self; reflexivity.
  - cbn [foldM]. rewrite push_drop by lia. cbn [mbind option_bind].
    rewrite IH by (cbn [stackList stackMax]; rewrite length_drop, length_app; simpl; lia).
    cbn [stackList stackMax]. f_equal. f_equal.
    rewrite <- drop_app_le by (rewrite length_app; simpl; lia).
    rewrite <- app_assoc. simpl. rewrite drop_drop. f_equal.
    rewrite !length_drop, !length_app. simpl. lia.
Qed.

Lemma pushes_keep_newest_witness :
  Z.of_nat (length (stackList (mkStack 2 [1]))) <= stackMax (mkStack 2 [1])
  /\ foldM push [2; 3; 4] (mkStack 2 [1])
     = Some (mkStack (stackMax (mkStack 2 [1]))
               (drop (length (stackList (mkStack 2 [1]) ++ [2; 3; 4])
                      - Z.to_nat (stackMax (mkStack 2 [1])))
                     (stackList (mkStack 2 [1]) ++ [2; 3; 4]))).
Proof.
  split; [simpl; lia |]. apply (pushes_keep_newest [2; 3; 4] (mkStack 2 [1])). simpl. lia.
Defined.
